(* ===== verification/_CoqProject ===== *)
-Q . S2P
Prelude.v
Error.v
Seq.v
State.v
Ring.v
RingStore.v
Sack.v
Ooo.v
TxRing.v
Bytes.v
Checksum.v
Options.v
Wire.v
WireWf.v
RtxQueue.v
RtxBits.v
RtxProofs.v
RtxSplit.v
RtxOps.v
RtxAck.v
RtxSack.v
RtxXmit.v
RtxSpec.v
Rack.v
RackProofs.v
RtxCover.v
Congestion.v
Effect.v
Tcb.v
TcbAck.v
TcbOutput.v
Cookie.v
TcbInput.v
TcbTimers.v
TcbApi.v
TcbRx.v
TcbFrame.v
TcbTx.v
TcbEmit.v
TcbSend.v
TcbInv.v
TcbOpen.v
TcbSys.v
TcbRun.v
Scenario.v
TcbValid.v
TcbProps.v
TcbMoves.v
TcbPeer.v
TcbStream.v
TcbLive.v
TcbProgress.v
TcbGiveup.v
Ffi.v
FfiProps.v
Selftest.v
