(* ===== verification/Prelude.v ===== *)
(** * Verification of the tcp-sans-io stack

    tcp-sans-io is a TCP endpoint with no I/O, clock or allocator of its own:
    the host hands it packets and the time and takes packets from it.  Paths
    below are relative to the crate (src/ of the repository holds it).

    ** The program and the files that model it

    A [Tcb] (src/tcb/) owns a send ring and a receive ring (src/ring.rs), the
    list of out-of-order ranges parked in the receive ring (src/ooo.rs), the
    queue of unacknowledged segments (src/rtx_queue.rs), the loss detector
    (src/rack.rs), the congestion controller (src/congestion.rs) and the ring of
    packets waiting for the host (src/tx_ring.rs).  Packets are read and written
    by src/wire.rs.  src/ffi.rs exports the host's calls to C.

    - Prelude, Effect: machine integers, lists by [Z] index, tactics and hints;
      record update and state passing with errors ([try]).
    - Error, State, Seq: src/error.rs, src/state.rs, sequence arithmetic.
    - Ring: the byte ring, and its queue-with-parking-area contract.  RingStore:
      what a receive ring stores, as the connection's proofs use it.
    - Sack, Ooo: SACK block lists and the out-of-order ranges, as sets of offsets.
    - TxRing: the egress ring, a bounded FIFO of packets.
    - Bytes, Checksum, Options, Wire, WireWf: src/wire.rs.
    - RtxQueue: src/rtx_queue.rs as written (ring of slots, SACKed bitmap, hints).
      RtxBits, RtxProofs, RtxSplit, RtxOps, RtxAck, RtxSack, RtxXmit: its
      refinement to a list of segments, one file per group of operations.
      RtxSpec: what it promises.  RtxCover: what the connection needs of it.
    - Rack, RackProofs: src/rack.rs and its exactness.
    - Congestion: src/congestion.rs.
    - Tcb: the record, construction, teardown and helpers of src/tcb/mod.rs;
      TcbApi: the host's calls of that file.  TcbAck, TcbOutput, Cookie, TcbInput,
      TcbTimers: src/tcb/ack.rs, output.rs, cookie.rs, input.rs, timers.rs.
    - Ffi: src/ffi.rs over a model of host memory.
    - Selftest: src/selftest.rs.

    Rust integers are [Z] at their width; [Result] is [Res]; a method is a
    function from the record to the new record and its result; a callback is the
    list of its calls, or a function.  The const generics, the byte order and the
    crate's [BUF_CAP] are the class [Config]; what the code checks of them is
    [ConfigOk].

    ** The connection's proofs

    TcbRx and TcbTx state the receive and send invariants (what is parked, queued,
    outstanding and staged, each byte against a stream), TcbFrame what each method
    leaves alone, TcbEmit that emission never fails and what a staged packet
    carries.  TcbSend, TcbInv and TcbOpen show that every method keeps the
    invariant, or resets the connection.  TcbSys makes a host of the connection
    and of the send space it has lent out, gives it one event per call, and proves
    one step; TcbRun extends it to runs.  TcbPeer follows the peer's address and
    initial sequence number; TcbLive the timers.  Scenario holds the concrete
    conversation at which the theorems are instantiated.

    ** What is proved

    - Streams (TcbStream): two endpoints over a network that loses, duplicates,
      delays and reorders packets implement a byte stream, handshake included;
      what [recv] hands out is a prefix of what the peer sent; every packet
      carries the bytes written at its sequence number.
    - Connection (TcbValid, TcbProps, TcbMoves): the crate's own validators hold on
      every reachable state, calls fail only as documented, lent send space stays
      the host's, states change only along the listed transitions.
    - Progress (TcbProgress, TcbGiveup): after a tick nothing outstanding is without
      a timer, outstanding data has a deadline, timeouts stay bounded, and a silent
      peer is given up after [MAX_RETRANSMITS] + 2 expiries at most.
    - C boundary (FfiProps): a C call is the run of events it stands for, and a
      program within the documented contracts meets no undefined behaviour.
    - Wire: round trips, what the parser accepts, the emitter's errors, the
      checksum against RFC 1071, types of every parsed field.
    - Components: the rings, ranges, queue and loss detector against their
      specifications; bounds of the congestion window, PRR and undo.
    - Self-test: its ferry loses nothing; a small instance runs to success.

    ** Bounds and fuel

    [ConfigOk] takes ring capacities that are powers of two up to 2^30, a
    retransmission queue [RtxQueue::VALID] accepts and 1 to 65535 egress slots.
    The two-endpoint theorem bounds the stream by 2^31 bytes: the source compares
    sequence numbers modulo 2^32, and the model of the network keeps old packets
    for ever, which a longer stream could confuse.  Loops that are not structural
    take fuel.  The option scan has one round per byte
    ([options_parse_terminates]); the queue's loops, the binary search among
    them, have at least one round per queued segment, and their specifications
    hold at that fuel; checksum folding has 8 rounds, where a 64-bit sum needs
    fewer; the sending loop has the source's own budget, shown never to be what ends it
    ([send_loop_fuel]); the ferry has one round per staged packet
    ([ferry_delivers]).

    ** Not modelled

    The panic handler, trap instruction and unwinder symbol of src/lib.rs have no
    behaviour to state.  tcp_handle_size is a parameter of the target.  The fuzz
    targets, the loopback engine and the tests are drivers of the code; the
    oracles they assert are theorems here.  The bindings (wgserver, conformance
    runners, Go, C#, Python) are I/O and threads around the C boundary.  That a SYN
    cookie or an initial sequence number cannot be guessed is a property of
    SipHash as a cipher and is not stated.  Convergence of the 128 KiB self-test
    is not proved.

    ** Where the documentation and the code differ

    [due_deadline_after_tick]: with a full egress ring [next_deadline] may be due
    at once after a tick.  [small_ack_keeps_user_timeout]: an acknowledgment of
    less than a full segment does not restart the USER TIMEOUT.  The comment on
    the unwinder symbol says the panic handler spins, where it traps. *)
From stdpp Require Export prelude.
From Stdlib Require Export ZArith Lia.

#[global] Open Scope Z_scope.

(** ** Machine integers

    Every Rust integer is a [Z] kept in the range of its width.  The
    operators below are the source's explicit wrapping and saturating
    operators; plain [+], [-] and [*] stand for the unchecked operators, and
    the invariants show that those stay in range. *)

Declare Scope word_scope.
Delimit Scope word_scope with word.
Open Scope word_scope.

Abbreviation M8 := 256.
Abbreviation M16 := 65536.
Abbreviation M31 := 2147483648.
Abbreviation M32 := 4294967296.
Abbreviation M63 := 9223372036854775808.
Abbreviation M64 := 18446744073709551616.

Definition is_u8 (x : Z) : Prop := 0 <= x < M8.
Definition is_u16 (x : Z) : Prop := 0 <= x < M16.
Definition is_u32 (x : Z) : Prop := 0 <= x < M32.
Definition is_u64 (x : Z) : Prop := 0 <= x < M64.

(** [x as u8], [x as u16], [x as u32]: truncation. *)
Definition as_u8 (x : Z) : Z := x mod M8.
Definition as_u16 (x : Z) : Z := x mod M16.
Definition as_u32 (x : Z) : Z := x mod M32.

(** [x as i32] for a [u32]: the two's-complement reading. *)
Definition as_i32 (x : Z) : Z := (x + M31) mod M32 - M31.

Definition wadd16 (a b : Z) : Z := (a + b) mod M16.
Definition wadd32 (a b : Z) : Z := (a + b) mod M32.
Definition wsub32 (a b : Z) : Z := (a - b) mod M32.
Definition wmul32 (a b : Z) : Z := (a * b) mod M32.
Definition wadd64 (a b : Z) : Z := (a + b) mod M64.
Definition wsub64 (a b : Z) : Z := (a - b) mod M64.

(** Saturating arithmetic: on unsigned types subtraction stops at zero. *)
Definition sat_sub (a b : Z) : Z := Z.max 0 (a - b).
Definition sat_add8 (a b : Z) : Z := Z.min (a + b) (M8 - 1).
Definition sat_add32 (a b : Z) : Z := Z.min (a + b) (M32 - 1).
Definition sat_mul32 (a b : Z) : Z := Z.min (a * b) (M32 - 1).
Definition sat_add64 (a b : Z) : Z := Z.min (a + b) (M64 - 1).
Definition sat_mul64 (a b : Z) : Z := Z.min (a * b) (M64 - 1).

(** [a.div_ceil(b)] *)
Definition div_ceil (a b : Z) : Z := (a + b - 1) / b.

(** [x.clamp(lo, hi)] *)
Definition clamp (x lo hi : Z) : Z := Z.min (Z.max x lo) hi.

(** [bool as u32] *)
Definition b2z (b : bool) : Z := if b then 1 else 0.

Create HintDb word.
#[export] Hint Unfold is_u8 is_u16 is_u32 is_u64 as_u8 as_u16 as_u32 as_i32
  wadd16 wadd32 wsub32 wmul32 wadd64 wsub64 sat_sub sat_add8 sat_add32
  sat_mul32 sat_add64 sat_mul64 div_ceil clamp b2z : word.

(** [word_lia] decides linear goals about machine integers: it unfolds the
    operators and eliminates the reductions modulo a power of two. *)
Ltac word_unfold := autounfold with word in *.
Ltac word_lia := word_unfold; Z.div_mod_to_equations; lia.

(** [bool_facts] turns boolean tests in hypotheses into propositions. *)
Ltac bool_facts :=
  repeat match goal with
  | H : _ && _ = true |- _ => apply andb_true_iff in H; destruct H
  | H : _ || _ = false |- _ => apply orb_false_iff in H; destruct H
  | H : negb _ = true |- _ => apply negb_true_iff in H
  | H : negb _ = false |- _ => apply negb_false_iff in H
  | H : (_ =? _) = true |- _ => apply Z.eqb_eq in H
  | H : (_ =? _) = false |- _ => apply Z.eqb_neq in H
  | H : (_ <? _) = true |- _ => apply Z.ltb_lt in H
  | H : (_ <? _) = false |- _ => apply Z.ltb_ge in H
  | H : (_ <=? _) = true |- _ => apply Z.leb_le in H
  | H : (_ <=? _) = false |- _ => apply Z.leb_gt in H
  end.

(** [case_if] splits on the first conditional of the goal, keeping the test. *)
Ltac case_if_goal :=
  match goal with
  | |- context [if ?b then _ else _] =>
      lazymatch type of b with bool => destruct b eqn:? end
  end.
Ltac case_if_hyp H :=
  match type of H with
  | context [if ?b then _ else _] =>
      lazymatch type of b with bool => destruct b eqn:? end
  end.
Tactic Notation "case_if" := case_if_goal.
Tactic Notation "case_if" "in" hyp(H) := case_if_hyp H.

Lemma wadd32_range a b : is_u32 (wadd32 a b).
Proof. word_lia. Qed.

Lemma wsub32_range a b : is_u32 (wsub32 a b).
Proof. word_lia. Qed.

Lemma as_u32_range a : is_u32 (as_u32 a).
Proof. word_lia. Qed.

Lemma as_u32_id x : is_u32 x -> as_u32 x = x.
Proof. word_lia. Qed.

Create HintDb word_range.
#[export] Hint Resolve wadd32_range wsub32_range as_u32_range : word_range.

(** ** Powers of two and masks *)

(** The Rust test [n & (n - 1) == 0] recognises the powers of two. *)
Lemma land_pred_pow2 n :
  0 < n -> Z.land n (n - 1) = 0 -> exists k, 0 <= k /\ n = 2 ^ k.
Proof.
  intros Hn Hl. exists (Z.log2 n). split; [apply Z.log2_nonneg|].
  destruct (Z.log2_spec n Hn) as [Hlo Hhi].
  destruct (Z.eq_dec n (2 ^ Z.log2 n)) as [|Hne]; [done|exfalso].
  assert (0 < 2 ^ Z.log2 n) by (apply Z.pow_pos_nonneg; [lia|apply Z.log2_nonneg]).
  assert (Hb : Z.testbit (Z.land n (n - 1)) (Z.log2 n) = true); [|by rewrite Hl, Z.testbit_0_l in Hb].
  rewrite Z.land_spec, andb_true_iff. split; [by apply Z.bit_log2|].
  replace (Z.log2 n) with (Z.log2 (n - 1)); [apply Z.bit_log2; lia|].
  apply Z.log2_unique; [apply Z.log2_nonneg|].
  rewrite Z.pow_succ_r in * by apply Z.log2_nonneg. lia.
Qed.

Lemma land_mask x k : 0 <= k -> Z.land x (2 ^ k - 1) = x mod 2 ^ k.
Proof. intros. by rewrite <- Z.land_ones, Z.ones_equiv, Z.sub_1_r. Qed.

Lemma testbit_small b n m : 0 <= b < 2 ^ n -> 0 <= n <= m -> Z.testbit b m = false.
Proof.
  intros Hb Hm. rewrite Z.testbit_eqb by lia.
  assert (2 ^ n <= 2 ^ m) by (apply Z.pow_le_mono_r; lia).
  by rewrite Z.div_small by lia.
Qed.

(** Packing disjoint bit fields with [|] is addition. *)
Lemma lor_shiftl_add a b n : 0 <= n -> 0 <= b < 2 ^ n -> Z.lor (Z.shiftl a n) b = a * 2 ^ n + b.
Proof.
  intros Hn Hb. rewrite <- (Z.shiftl_mul_pow2 a n Hn), <- Z.add_lor_land.
  assert (Z.land (Z.shiftl a n) b = 0) as ->; [|lia].
  apply Z.bits_inj'. intros m Hm. rewrite Z.land_spec, Z.bits_0.
  destruct (decide (m < n)); [by rewrite Z.shiftl_spec_low|].
  by rewrite (testbit_small b n m), andb_false_r by lia.
Qed.

Lemma mod_mod_pow2 x j k : 0 <= j <= k -> (x mod 2 ^ k) mod 2 ^ j = x mod 2 ^ j.
Proof.
  intros. apply Z.mod_mod_divide.
  exists (2 ^ (k - j)). rewrite <- Z.pow_add_r by lia. f_equal. lia.
Qed.

(** ** Lists addressed by machine integers

    A Rust slice is a [list]; [usize] indices are [Z].  [get], [get_range]
    and [set_at] are the checked accessors [slice.get(i)],
    [slice.get(a..b)] and [if let Some(s) = slice.get_mut(i) { *s = x }]. *)

Section SliceAccess.
Context {A : Type}.
Implicit Types l : list A.

Definition zlen l : Z := Z.of_nat (length l).

Definition get l (i : Z) : option A :=
  if 0 <=? i then l !! Z.to_nat i else None.

Definition get_range l (a b : Z) : option (list A) :=
  if (0 <=? a) && (a <=? b) && (b <=? zlen l)
  then Some (take (Z.to_nat (b - a)) (drop (Z.to_nat a) l))
  else None.

Definition set_at l (i : Z) (x : A) : list A :=
  if 0 <=? i then <[Z.to_nat i := x]> l else l.

(** [if let (Some(d), Some(s)) = (dst.get_mut(a..b), src.get(c..e)) {
    d.copy_from_slice(s) }], for ranges of equal length. *)
Definition copy_range (dst : list A) (a b : Z) (src : list A) (c e : Z) : list A :=
  match get_range dst a b, get_range src c e with
  | Some _, Some s => list_inserts (Z.to_nat a) s dst
  | _, _ => dst
  end.

Lemma zlen_nonneg l : 0 <= zlen l.
Proof. unfold zlen. lia. Qed.

Lemma zlen_0 l : zlen l = 0 -> l = [].
Proof. destruct l; [done|unfold zlen; simpl; lia]. Qed.

Lemma get_Some l i x : get l i = Some x <-> 0 <= i /\ l !! Z.to_nat i = Some x.
Proof. unfold get. destruct (Z.leb_spec 0 i); intuition (lia || done). Qed.

Lemma get_lt_Some l i x : get l i = Some x -> 0 <= i < zlen l.
Proof.
  rewrite get_Some. intros [? Hl]. apply lookup_lt_Some in Hl. unfold zlen. lia.
Qed.

Lemma get_is_Some l i : is_Some (get l i) <-> 0 <= i < zlen l.
Proof.
  unfold get, zlen. destruct (Z.leb_spec 0 i).
  - rewrite lookup_lt_is_Some. lia.
  - split; [by intros [? ?]|lia].
Qed.

Lemma get_None l i : get l i = None <-> i < 0 \/ zlen l <= i.
Proof. rewrite eq_None_not_Some, get_is_Some. lia. Qed.

Lemma get_range_Some l a b s :
  get_range l a b = Some s ->
  0 <= a <= b /\ b <= zlen l /\ zlen s = b - a /\
  s = take (Z.to_nat (b - a)) (drop (Z.to_nat a) l).
Proof.
  unfold get_range, zlen. intros H. case_if in H; [|done]. bool_facts.
  simplify_eq. rewrite length_take, length_drop. repeat split; try done; lia.
Qed.

Lemma get_range_eq l a b :
  0 <= a <= b -> b <= zlen l ->
  get_range l a b = Some (take (Z.to_nat (b - a)) (drop (Z.to_nat a) l)).
Proof.
  intros. unfold get_range.
  replace (0 <=? a) with true by lia. replace (a <=? b) with true by lia.
  by replace (b <=? zlen l) with true by lia.
Qed.

Lemma set_at_length l i x : length (set_at l i x) = length l.
Proof. unfold set_at. case_if; [apply length_insert|done]. Qed.

Lemma zlen_set_at l i x : zlen (set_at l i x) = zlen l.
Proof. unfold zlen. by rewrite set_at_length. Qed.

Lemma get_set_at_eq l i x : 0 <= i < zlen l -> get (set_at l i x) i = Some x.
Proof.
  unfold get, set_at, zlen. intros. replace (0 <=? i) with true by lia.
  apply list_lookup_insert_eq. lia.
Qed.

Lemma get_set_at_ne l i j x : i <> j -> get (set_at l i x) j = get l j.
Proof.
  unfold get, set_at. intros. repeat case_if; try done.
  bool_facts. apply list_lookup_insert_ne. lia.
Qed.

Lemma copy_range_length (dst src : list A) a b c e :
  length (copy_range dst a b src c e) = length dst.
Proof. unfold copy_range. repeat case_match; try done. apply length_inserts. Qed.

Lemma copy_range_eq (dst src : list A) a b c e :
  0 <= a <= b -> b <= zlen dst -> 0 <= c <= e -> e <= zlen src ->
  copy_range dst a b src c e =
  list_inserts (Z.to_nat a) (take (Z.to_nat (e - c)) (drop (Z.to_nat c) src)) dst.
Proof. intros. unfold copy_range. by rewrite !get_range_eq. Qed.

Lemma copy_range_empty (dst src : list A) a c :
  copy_range dst a a src c c = dst.
Proof.
  unfold copy_range, get_range. repeat case_if; try done.
  by rewrite Z.sub_diag, take_0.
Qed.

(** *** Reading through list operations *)

Lemma get_ext (l k : list A) :
  zlen l = zlen k -> (forall i, 0 <= i < zlen l -> get l i = get k i) -> l = k.
Proof.
  unfold zlen, get. intros Hlen H. apply list_eq. intros i.
  destruct (decide (i < length l)%nat) as [Hi|Hi].
  - specialize (H (Z.of_nat i) ltac:(lia)).
    replace (0 <=? Z.of_nat i) with true in H by lia. by rewrite Nat2Z.id in H.
  - rewrite !lookup_ge_None_2 by lia. done.
Qed.

Lemma get_nat l i : 0 <= i -> get l i = l !! Z.to_nat i.
Proof. intros. unfold get. by replace (0 <=? i) with true by lia. Qed.

Lemma zlen_app (l k : list A) : zlen (l ++ k) = zlen l + zlen k.
Proof. unfold zlen. rewrite length_app. lia. Qed.

Lemma zlen_cons x l : zlen (x :: l) = 1 + zlen l.
Proof. unfold zlen. cbn [length]. lia. Qed.

Lemma zlen_take n l : zlen (take (Z.to_nat n) l) = Z.min (Z.max 0 n) (zlen l).
Proof. unfold zlen. rewrite length_take. lia. Qed.

Lemma zlen_drop n l : zlen (drop (Z.to_nat n) l) = sat_sub (zlen l) (Z.max 0 n).
Proof. unfold zlen, sat_sub. rewrite length_drop. lia. Qed.

Lemma zlen_inserts i (k l : list A) : zlen (list_inserts i k l) = zlen l.
Proof. unfold zlen. by rewrite length_inserts. Qed.

Lemma get_app (l k : list A) i :
  get (l ++ k) i = if i <? zlen l then get l i else get k (i - zlen l).
Proof.
  unfold get, zlen. repeat case_if; bool_facts; try done; try lia.
  - apply lookup_app_l. lia.
  - rewrite lookup_app_r by lia. f_equal. lia.
Qed.

Lemma get_elem_of l i x : get l i = Some x -> x ∈ l.
Proof. unfold get. case_if; [apply list_elem_of_lookup_2|done]. Qed.

Lemma get_take n l i : get (take (Z.to_nat n) l) i = if i <? n then get l i else None.
Proof.
  unfold get. repeat case_if; bool_facts; try done.
  - apply lookup_take_lt. lia.
  - apply lookup_take_ge. lia.
Qed.

Lemma get_drop n l i :
  0 <= n -> get (drop (Z.to_nat n) l) i = if 0 <=? i then get l (n + i) else None.
Proof.
  unfold get. intros. repeat case_if; bool_facts; try done; try lia.
  rewrite lookup_drop. f_equal. lia.
Qed.

Lemma get_inserts a (s l : list A) i :
  0 <= a -> a + zlen s <= zlen l ->
  get (list_inserts (Z.to_nat a) s l) i =
  if (a <=? i) && (i <? a + zlen s) then get s (i - a) else get l i.
Proof.
  intros Ha Hs. unfold get, zlen in *. destruct (0 <=? i) eqn:Hi; bool_facts.
  - destruct ((a <=? i) && (i <? a + Z.of_nat (length s))) eqn:Hr; bool_facts.
    + replace (0 <=? i - a) with true by lia.
      rewrite list_lookup_inserts by lia. f_equal. lia.
    + destruct (decide (i < a)).
      * rewrite list_lookup_inserts_lt by lia. done.
      * rewrite list_lookup_inserts_ge by lia. done.
  - by replace (a <=? i) with false by lia.
Qed.

Lemma get_rotate h l i :
  0 <= h < zlen l -> 0 <= i < zlen l ->
  get (rotate (Z.to_nat h) l) i = get l ((h + i) mod zlen l).
Proof.
  intros Hh Hi. assert (0 <= (h + i) mod zlen l) by (apply Z.mod_pos_bound; lia).
  rewrite !get_nat by lia. unfold zlen in *. rewrite lookup_rotate_r by lia.
  unfold rotate_nat_add. do 2 f_equal. f_equal. lia.
Qed.

(** In range, [list_inserts] replaces a stretch of the list. *)
Lemma inserts_split i (s l : list A) :
  (i + length s <= length l)%nat ->
  list_inserts i s l = take i l ++ s ++ drop (i + length s) l.
Proof.
  intros. rewrite <- (take_drop i l) at 1.
  rewrite <- (take_drop (length s) (drop i l)), drop_drop.
  replace i with (length (take i l) + 0)%nat at 1 by (rewrite length_take; lia).
  rewrite list_inserts_app_r, list_inserts_0_r; [done|].
  rewrite length_take, length_drop. lia.
Qed.

Lemma take_inserts i n (s l : list A) :
  (n = i + length s)%nat -> (n <= length l)%nat -> take n (list_inserts i s l) = take i l ++ s.
Proof.
  intros -> ?. rewrite inserts_split by done. rewrite app_assoc, take_app_length'; [done|].
  rewrite length_app, length_take. lia.
Qed.

Lemma drop_inserts i n (s l : list A) :
  (i + length s <= n)%nat -> drop n (list_inserts i s l) = drop n l.
Proof.
  intros. apply list_eq. intros j. rewrite !lookup_drop.
  apply list_lookup_inserts_ge. lia.
Qed.

Lemma take_inserts_le i n (s l : list A) :
  (n <= i)%nat -> take n (list_inserts i s l) = take n l.
Proof.
  intros. apply list_eq. intros j. destruct (decide (j < n)%nat).
  - rewrite !lookup_take_lt by done. apply list_lookup_inserts_lt. lia.
  - by rewrite !lookup_take_ge by lia.
Qed.

End SliceAccess.

Create Rewrite HintDb list_length.
#[export] Hint Rewrite @length_take @length_drop @length_app @length_insert
  @length_inserts @length_replicate @set_at_length @copy_range_length
  @length_rotate : list_length.

(** [len_lia] decides goals about lengths of lists built from the above. *)
Ltac len_lia := unfold zlen in *; autorewrite with list_length in *; try lia.
