(* ===== verification/Error.v ===== *)
(** * Error codes (src/error.rs) and the result type of fallible calls. *)
From S2P Require Import Prelude.

(** [TcpError]: every failure a public entry point can report. *)
Inductive TcpError :=
  | BufferTooSmall
  | NullPointer
  | InvalidState
  | MalformedPacket
  | NotForUs
  | WouldBlock
  | ConnectionReset
  | ConnectionClosed
  | Overflow.

#[export] Instance TcpError_eq_dec : EqDecision TcpError.
Proof. solve_decision. Defined.

(** [TcpError::as_code]: the status crossing the C boundary. *)
Definition as_code (e : TcpError) : Z :=
  match e with
  | BufferTooSmall => -1
  | NullPointer => -2
  | InvalidState => -3
  | MalformedPacket => -4
  | NotForUs => -5
  | WouldBlock => -6
  | ConnectionReset => -7
  | ConnectionClosed => -8
  | Overflow => -9
  end.

(** [Result<A, TcpError>] *)
Inductive Res (A : Type) :=
  | Ok (a : A)
  | Err (e : TcpError).
Arguments Ok {A} a.
Arguments Err {A} e.

Definition res_bind {A B} (m : Res A) (k : A -> Res B) : Res B :=
  match m with Ok a => k a | Err e => Err e end.

(** [opt.ok_or(e)] *)
Definition ok_or {A} (o : option A) (e : TcpError) : Res A :=
  match o with Some a => Ok a | None => Err e end.

Declare Scope res_scope.
Delimit Scope res_scope with res.
Notation "'let?' x := m 'in' k" := (res_bind m (fun x => k))
  (at level 10, x name, m at level 200, k at level 200) : res_scope.
Notation "'check' b 'else' e ; k" := (if b then Err e else k)
  (at level 10, b at level 200, e at level 0, k at level 200, only parsing) : res_scope.
Open Scope res_scope.

Lemma res_bind_Ok {A B} (m : Res A) (k : A -> Res B) b :
  res_bind m k = Ok b <-> exists a, m = Ok a /\ k a = Ok b.
Proof. destruct m; simpl; split; [eauto|by intros (? & [= ->] & ?)|done|by intros (? & ? & ?)]. Qed.

Lemma ok_or_Ok {A} (o : option A) e a : ok_or o e = Ok a <-> o = Some a.
Proof. destruct o; simpl; split; congruence. Qed.

(** The codes identify the errors: no two errors share a status, and none
    collides with a success ([>= 0]). *)
Lemma as_code_inj e1 e2 : as_code e1 = as_code e2 -> e1 = e2.
Proof. by destruct e1, e2. Qed.

Lemma as_code_neg e : as_code e < 0.
Proof. by destruct e. Qed.

(** Peels one [let?] off a computation known to succeed. *)
Ltac res_inv H x Hx :=
  apply res_bind_Ok in H as (x & Hx & H); try apply ok_or_Ok in Hx.
