(* ===== verification/Seq.v ===== *)
(** * Sequence-number arithmetic (src/tcb/mod.rs, also copied into
    src/rtx_queue.rs, src/rack.rs, src/congestion.rs and src/ooo.rs).

    TCP sequence numbers live on the circle of 2^32 values; the source compares
    them by the sign of their wrapped difference.  The lemmas give the reading
    every client needs: on numbers written as offsets from a common base, the
    circular comparisons are the integer ones as long as the offsets are less
    than 2^31 apart. *)
From S2P Require Import Prelude.

Definition seq_gt (a b : Z) : bool := 0 <? as_i32 (wsub32 a b).
Definition seq_ge (a b : Z) : bool := 0 <=? as_i32 (wsub32 a b).
Definition seq_le (a b : Z) : bool := as_i32 (wsub32 a b) <=? 0.
Definition seq_lt (a b : Z) : bool := as_i32 (wsub32 a b) <? 0.

(** [lo <= x < hi] in sequence space. *)
Definition seq_in_range (x lo hi_exclusive : Z) : bool :=
  wsub32 x lo <? wsub32 hi_exclusive lo.

(** [off] of src/ooo.rs: the distance of [seq] above [base]. *)
Definition off (seq base : Z) : Z := wsub32 seq base.

#[export] Hint Unfold seq_gt seq_ge seq_le seq_lt seq_in_range off : word.

Section Offsets.
Variables (base x y : Z).
Hypothesis near : -M31 < x - y < M31.

Lemma seq_lt_offset : seq_lt (wadd32 base x) (wadd32 base y) = (x <? y).
Proof using near. word_lia. Qed.

Lemma seq_le_offset : seq_le (wadd32 base x) (wadd32 base y) = (x <=? y).
Proof using near. word_lia. Qed.

Lemma seq_gt_offset : seq_gt (wadd32 base x) (wadd32 base y) = (y <? x).
Proof using near. word_lia. Qed.

Lemma seq_ge_offset : seq_ge (wadd32 base x) (wadd32 base y) = (y <=? x).
Proof using near. word_lia. Qed.
End Offsets.

Lemma off_wadd32 base x : 0 <= x < M32 -> off (wadd32 base x) base = x.
Proof. word_lia. Qed.

Lemma wadd32_off base s : is_u32 s -> wadd32 base (off s base) = s.
Proof. word_lia. Qed.

Lemma wadd32_assoc a b c : wadd32 (wadd32 a b) c = wadd32 a (b + c).
Proof. word_lia. Qed.

Lemma wsub32_wadd32 base x y :
  wsub32 (wadd32 base x) (wadd32 base y) = (x - y) mod M32.
Proof. word_lia. Qed.

Lemma seq_in_range_offset base x n :
  0 <= x < M32 -> 0 <= n < M32 ->
  seq_in_range (wadd32 base x) base (wadd32 base n) = (x <? n).
Proof. word_lia. Qed.

Lemma seq_lt_gt a b : seq_lt a b = seq_gt b a \/ off a b = M31.
Proof. word_lia. Qed.

Lemma seq_le_negb_gt a b : seq_le a b = negb (seq_gt a b).
Proof. word_lia. Qed.

Lemma seq_ge_negb_lt a b : seq_ge a b = negb (seq_lt a b).
Proof. word_lia. Qed.

Lemma seq_le_lt_eq a b : is_u32 a -> is_u32 b -> seq_le a b = seq_lt a b || (a =? b).
Proof. word_lia. Qed.
