(* ===== verification/State.v ===== *)
(** * The connection state machine (src/state.rs). *)
From S2P Require Import Prelude.

Inductive State :=
  | Closed
  | SynSent
  | Established
  | FinWait1
  | FinWait2
  | Closing
  | TimeWait
  | CloseWait
  | LastAck
  | Listen
  | SynRcvd.

#[export] Instance State_eq_dec : EqDecision State.
Proof. solve_decision. Defined.

(** [state as u8]: the discriminant crossing the C boundary. *)
Definition state_code (s : State) : Z :=
  match s with
  | Closed => 0
  | SynSent => 1
  | Established => 2
  | FinWait1 => 3
  | FinWait2 => 4
  | Closing => 5
  | TimeWait => 6
  | CloseWait => 7
  | LastAck => 8
  | Listen => 9
  | SynRcvd => 10
  end.

Definition state_eqb (a b : State) : bool := bool_decide (a = b).

Definition can_send (s : State) : bool :=
  match s with Established | CloseWait => true | _ => false end.

Definition can_recv (s : State) : bool :=
  match s with Established | FinWait1 | FinWait2 => true | _ => false end.

Definition is_closed (s : State) : bool :=
  match s with Closed => true | _ => false end.

Definition is_listening (s : State) : bool :=
  match s with Listen | SynRcvd => true | _ => false end.

Definition is_synchronized (s : State) : bool :=
  match s with
  | Established | FinWait1 | FinWait2 | Closing | CloseWait | LastAck | TimeWait => true
  | _ => false
  end.

(** [State::debug_transition_allowed]: the moves one API call may make. *)
Definition debug_transition_allowed (self next : State) : bool :=
  state_eqb self next ||
  match self, next with
  | Closed, (SynSent | Listen) => true
  | Listen, (SynRcvd | Established | CloseWait | Closed) => true
  | SynSent, (Established | SynRcvd | Closed) => true
  | SynRcvd, (Established | CloseWait | FinWait1 | Listen | Closed) => true
  | Established, (FinWait1 | CloseWait | Closed) => true
  | FinWait1, (FinWait2 | Closing | TimeWait | Closed) => true
  | FinWait2, (TimeWait | Closed) => true
  | Closing, (TimeWait | Closed) => true
  | TimeWait, (Closed | Listen) => true
  | CloseWait, (LastAck | Closed) => true
  | LastAck, Closed => true
  | _, _ => false
  end.

Lemma state_eqb_refl s : state_eqb s s = true.
Proof. by apply bool_decide_eq_true. Qed.

Lemma state_eqb_true a b : state_eqb a b = true <-> a = b.
Proof. apply bool_decide_eq_true. Qed.

Lemma state_eqb_false a b : state_eqb a b = false <-> a <> b.
Proof. apply bool_decide_eq_false. Qed.

Lemma transition_refl s : debug_transition_allowed s s = true.
Proof. unfold debug_transition_allowed. by rewrite state_eqb_refl. Qed.

Lemma transition_to_closed s : debug_transition_allowed s Closed = true.
Proof. by destruct s. Qed.
