(* ===== verification/Ring.v ===== *)
(** * The byte ring (src/ring.rs).

    [Ring<N>] is the application-facing send and receive queue: [N] bytes of
    storage, read and write cursors that grow without bound (modulo the machine
    word) and a length.  Out-of-order receive data is parked in the free region
    past the write cursor ([write_at]) and made readable later ([commit]).

    The abstract ring is a pair of byte lists, the readable bytes and the free
    region; each operation of the concrete ring is shown to implement the
    obvious operation on that pair. *)
From S2P Require Import Prelude Error.

(** ** The abstract ring *)
Module RingSpec.

Record t := mk { readable : list Z; parked : list Z }.

Definition write (s : t) (src : list Z) : t * Z :=
  let n := Nat.min (length src) (length (parked s)) in
  (mk (readable s ++ take n src) (drop n (parked s)), Z.of_nat n).

(** Overwrite the free region from [offset] on; nothing becomes readable. *)
Definition write_at (s : t) (offset : Z) (src : list Z) : t * Z :=
  let n := Z.to_nat (Z.min (zlen src) (sat_sub (zlen (parked s)) offset)) in
  (mk (readable s) (list_inserts (Z.to_nat offset) (take n src) (parked s)), Z.of_nat n).

Definition commit (s : t) (n : Z) : t * Z :=
  let m := Nat.min (Z.to_nat n) (length (parked s)) in
  (mk (readable s ++ take m (parked s)) (drop m (parked s)), Z.of_nat m).

Definition consume (s : t) (n : Z) : t :=
  let m := Nat.min (Z.to_nat n) (length (readable s)) in
  mk (drop m (readable s)) (parked s ++ take m (readable s)).

(** The bytes a [peek_at(offset, dst)] of [n] bytes delivers. *)
Definition peek_at (s : t) (offset n : Z) : list Z :=
  take (Z.to_nat n) (drop (Z.to_nat offset) (readable s)).

End RingSpec.

(** ** The concrete ring *)
Module Ring.

Record t := mk { buf : list Z; head : Z; tail : Z; len : Z }.

Section Ops.
Variable N : Z.

Definition new : Res t :=
  if (N =? 0) || negb (Z.land N (N - 1) =? 0) then Err Overflow
  else Ok (mk (replicate (Z.to_nat N) 0) 0 0 0).

Definition capacity (r : t) : Z := N.
Definition is_empty (r : t) : bool := len r =? 0.
Definition free (r : t) : Z := N - len r.

(** Append as many bytes of [src] as fit; the count copied is returned. *)
Definition write (r : t) (src : list Z) : t * Z :=
  let n := Z.min (zlen src) (free r) in
  if n =? 0 then (r, 0) else
  let mask := N - 1 in
  let first := Z.min n (N - Z.land (tail r) mask) in
  let tail_off := Z.land (tail r) mask in
  let b1 := copy_range (buf r) tail_off (tail_off + first) src 0 first in
  let b2 :=
    if first <? n then
      let rem := n - first in copy_range b1 0 rem src first (first + rem)
    else b1 in
  (mk b2 (head r) (wadd64 (tail r) n) (len r + n), n).

(** The two-slice copy out of the storage that [peek] and [peek_at] share. *)
Definition copy_out (r : t) (start n : Z) (dst : list Z) : list Z :=
  let first := Z.min n (N - start) in
  let d1 := copy_range dst 0 first (buf r) start (start + first) in
  if first <? n then
    let rem := n - first in copy_range d1 first (first + rem) (buf r) 0 rem
  else d1.

Definition peek (r : t) (dst : list Z) : list Z * Z :=
  let n := Z.min (zlen dst) (len r) in
  if n =? 0 then (dst, 0) else
  (copy_out r (Z.land (head r) (N - 1)) n dst, n).

Definition peek_at (r : t) (offset : Z) (dst : list Z) : list Z * Z :=
  if len r <=? offset then (dst, 0) else
  let available := len r - offset in
  let n := Z.min (zlen dst) available in
  if n =? 0 then (dst, 0) else
  (copy_out r (Z.land (wadd64 (head r) offset) (N - 1)) n dst, n).

Definition write_at (r : t) (offset : Z) (src : list Z) : t * Z :=
  let fr := free r in
  if fr <=? offset then (r, 0) else
  let n := Z.min (zlen src) (fr - offset) in
  if n =? 0 then (r, 0) else
  let start := Z.land (wadd64 (tail r) offset) (N - 1) in
  let first := Z.min n (N - start) in
  let b1 := copy_range (buf r) start (start + first) src 0 first in
  let b2 :=
    if first <? n then
      let rem := n - first in copy_range b1 0 rem src first (first + rem)
    else b1 in
  (mk b2 (head r) (tail r) (len r), n).

Definition commit (r : t) (n : Z) : t * Z :=
  let n := Z.min n (free r) in
  (mk (buf r) (head r) (wadd64 (tail r) n) (len r + n), n).

(** The free space as at most two index ranges [(start, end)] of the storage:
    [after.get_mut(..first)] and [before.get_mut(..wrapped)] around [start]. *)
Definition free_regions (r : t) (max : Z) : (Z * Z) * (Z * Z) :=
  let n := Z.min max (free r) in
  let start := Z.land (tail r) (N - 1) in
  let first := Z.min n (N - start) in
  let wrapped := n - first in
  if start <=? zlen (buf r) then
    ((start, if first <=? zlen (buf r) - start then start + first else start),
     (0, if wrapped <=? start then wrapped else 0))
  else ((0, 0), (0, 0)).

(** The host filling a prefix of those regions, the first slice first. *)
Definition host_fill (r : t) (max : Z) (data : list Z) : t :=
  let '((a1, e1), (a2, e2)) := free_regions r max in
  let n1 := Z.min (zlen data) (e1 - a1) in
  let n2 := Z.min (zlen data - n1) (e2 - a2) in
  let b1 := copy_range (buf r) a1 (a1 + n1) data 0 n1 in
  let b2 := copy_range b1 a2 (a2 + n2) data n1 (n1 + n2) in
  mk b2 (head r) (tail r) (len r).

Definition consume (r : t) (n : Z) : t :=
  let n := Z.min n (len r) in
  mk (buf r) (wadd64 (head r) n) (tail r) (len r - n).

Definition read (r : t) (dst : list Z) : t * list Z * Z :=
  let '(dst', n) := peek r dst in
  (consume r n, dst', n).

Definition clear (r : t) : t := mk (buf r) 0 0 0.

(** ** Well-formedness and abstraction *)

(** The storage holds [N] bytes and the write cursor is the read cursor plus the
    length, modulo the capacity. *)
Record wf (r : t) : Prop := {
  wf_buf : zlen (buf r) = N;
  wf_len : 0 <= len r <= N;
  wf_tail : tail r mod N = (head r + len r) mod N;
}.

(** The storage in logical order, from the read cursor on. *)
Definition view (r : t) : list Z := rotate (Z.to_nat (head r mod N)) (buf r).

Definition abs (r : t) : RingSpec.t :=
  RingSpec.mk (take (Z.to_nat (len r)) (view r)) (drop (Z.to_nat (len r)) (view r)).

End Ops.

Section Proofs.
Variable N : Z.
Hypothesis N_pow2 : exists k, 0 <= k < 64 /\ N = 2 ^ k.

Lemma N_pos : 0 < N.
Proof using N_pow2. destruct N_pow2 as (k & ? & ->). lia. Qed.

Lemma mask_mod x : Z.land x (N - 1) = x mod N.
Proof using N_pow2. destruct N_pow2 as (k & ? & ->). apply land_mask. lia. Qed.

Lemma wadd64_mod a b : wadd64 a b mod N = (a + b) mod N.
Proof using N_pow2.
  destruct N_pow2 as (k & ? & ->). unfold wadd64.
  change M64 with (2 ^ 64). apply mod_mod_pow2. lia.
Qed.

Lemma view_length r : wf N r -> length (view N r) = Z.to_nat N.
Proof. intros [Hb _ _]. unfold view. rewrite length_rotate. unfold zlen in Hb. lia. Qed.

Lemma wrap_cases p k : 0 <= p < N -> 0 <= k <= N ->
  (p + k < N /\ (p + k) mod N = p + k) \/ (N <= p + k /\ (p + k) mod N = p + k - N).
Proof.
  intros. destruct (Z.lt_ge_cases (p + k) N); [left|right]; (split; [lia|]).
  - apply Z.mod_small. lia.
  - symmetry. apply (Z.mod_unique_pos _ _ 1); lia.
Qed.

(** The two-slice copy into the storage, as the source writes it. *)
Definition copy_in (b : list Z) (start n : Z) (src : list Z) : list Z :=
  let first := Z.min n (N - start) in
  let b1 := copy_range b start (start + first) src 0 first in
  if first <? n then
    let rem := n - first in copy_range b1 0 rem src first (first + rem)
  else b1.

Lemma copy_in_get b src p n i :
  zlen b = N -> 0 <= p < N -> 0 < n <= N -> n <= zlen src -> 0 <= i < N ->
  get (copy_in b p n src) i =
  if (p <=? i) && (i <? p + n) then get src (i - p)
  else if i <? p + n - N then get src (i + N - p) else get b i.
Proof.
  intros Hb Hp Hn Hs Hi. unfold copy_in.
  rewrite (copy_range_eq b src) by lia.
  assert (forall s, zlen (list_inserts (Z.to_nat p) s b) = N)
    by (intros; by rewrite zlen_inserts).
  case_if; bool_facts.
  - rewrite copy_range_eq by (rewrite ?zlen_inserts; lia).
    assert (0 < zlen b) by lia.
    rewrite get_inserts by (rewrite ?zlen_inserts, ?zlen_take, ?zlen_drop; word_lia).
    rewrite get_inserts by (rewrite ?zlen_take, ?zlen_drop; word_lia).
    rewrite !zlen_take, !zlen_drop, !get_take, !get_drop by lia. unfold sat_sub.
    repeat case_if; bool_facts; try lia; f_equal; lia.
  - rewrite get_inserts by (rewrite ?zlen_take, ?zlen_drop; word_lia).
    rewrite !zlen_take, !zlen_drop, !get_take, !get_drop by lia. unfold sat_sub.
    repeat case_if; bool_facts; try lia; f_equal; lia.
Qed.

(** It writes [n] consecutive logical cells. *)
Lemma copy_in_view (b src : list Z) h k n :
  zlen b = N -> 0 <= h < N -> 0 <= k -> 0 < n <= zlen src -> k + n <= N ->
  rotate (Z.to_nat h) (copy_in b ((h + k) mod N) n src) =
  list_inserts (Z.to_nat k) (take (Z.to_nat n) src) (rotate (Z.to_nat h) b).
Proof using N_pow2.
  intros Hb Hh Hk Hn Hkn. pose proof N_pos.
  assert (Hp : 0 <= (h + k) mod N < N) by (apply Z.mod_pos_bound; lia).
  assert (Hc : zlen (copy_in b ((h + k) mod N) n src) = N).
  { unfold copy_in, zlen in *. case_if; by rewrite ?copy_range_length. }
  apply get_ext; [unfold zlen in *; rewrite length_inserts, !length_rotate; lia|].
  unfold zlen at 1. rewrite length_rotate. fold (zlen (copy_in b ((h + k) mod N) n src)).
  rewrite Hc. intros i Hi. rewrite get_rotate by lia. rewrite Hc.
  assert (0 <= (h + i) mod N < N) by (apply Z.mod_pos_bound; lia).
  rewrite copy_in_get, get_inserts, get_take, zlen_take by
    (rewrite ?zlen_take; unfold zlen in *; rewrite ?length_rotate; lia).
  rewrite get_rotate by lia. rewrite Hb.
  destruct (wrap_cases h k) as [[? ->]|[? ->]]; [lia..| |];
    (destruct (wrap_cases h i) as [[? ->]|[? ->]]; [lia..| |]);
    repeat case_if; bool_facts; try lia; f_equal; lia.
Qed.

(** The two-slice copy out of the storage reads consecutive logical cells. *)
Lemma copy_out_get r dst p n i :
  zlen (buf r) = N -> 0 <= p < N -> 0 < n <= N -> n <= zlen dst -> 0 <= i < zlen dst ->
  get (copy_out N r p n dst) i =
  if i <? n then get (buf r) ((p + i) mod N) else get dst i.
Proof.
  intros Hb Hp Hn Hs Hi. unfold copy_out. rewrite (copy_range_eq dst) by lia.
  case_if; bool_facts.
  - rewrite copy_range_eq by (rewrite ?zlen_inserts; lia).
    rewrite get_inserts by (rewrite ?zlen_inserts, ?zlen_take, ?zlen_drop; word_lia).
    rewrite get_inserts by (rewrite ?zlen_take, ?zlen_drop; word_lia).
    rewrite !zlen_take, !zlen_drop, !get_take, !get_drop by lia. unfold sat_sub.
    repeat case_if; bool_facts; try lia; try done;
      (destruct (wrap_cases p i) as [[? ->]|[? ->]]; [lia..| |]); try lia; f_equal; lia.
  - rewrite get_inserts by (rewrite ?zlen_take, ?zlen_drop; word_lia).
    rewrite !zlen_take, !zlen_drop, !get_take, !get_drop by lia. unfold sat_sub.
    repeat case_if; bool_facts; try lia; try done;
      (destruct (wrap_cases p i) as [[? ->]|[? ->]]; [lia..| |]); try lia; f_equal; lia.
Qed.

Lemma copy_out_view r dst k n :
  wf N r -> 0 <= k -> 0 < n <= zlen dst -> k + n <= N ->
  copy_out N r ((head r + k) mod N) n dst =
  take (Z.to_nat n) (drop (Z.to_nat k) (view N r)) ++ drop (Z.to_nat n) dst.
Proof using N_pow2.
  intros Hwf Hk Hn Hkn. pose proof N_pos. pose proof (wf_buf _ _ Hwf) as Hb.
  assert (Hv : zlen (view N r) = N) by (unfold zlen; rewrite view_length by done; lia).
  assert (Hh : 0 <= head r mod N < N) by (apply Z.mod_pos_bound; lia).
  assert (Hc : zlen (copy_out N r ((head r + k) mod N) n dst) = zlen dst).
  { unfold copy_out, zlen in *. case_if; by rewrite ?copy_range_length. }
  apply get_ext.
  { rewrite Hc, zlen_app, zlen_take, !zlen_drop. word_lia. }
  rewrite Hc. intros i Hi.
  rewrite copy_out_get by (try apply Z.mod_pos_bound; lia).
  rewrite get_app, zlen_take, zlen_drop, get_take, !get_drop by lia.
  unfold sat_sub. repeat case_if; bool_facts; try lia; [|f_equal; lia].
  unfold view. rewrite get_rotate by lia. f_equal. rewrite Hb.
  rewrite !Zplus_mod_idemp_l. f_equal; lia.
Qed.

(** Advancing the read cursor rotates the logical storage. *)
Lemma rotate_advance (b : list Z) h m :
  zlen b = N -> 0 <= m <= N ->
  rotate (Z.to_nat ((h + m) mod N)) b =
  drop (Z.to_nat m) (rotate (Z.to_nat (h mod N)) b) ++
  take (Z.to_nat m) (rotate (Z.to_nat (h mod N)) b).
Proof using N_pow2.
  intros Hb Hm. pose proof N_pos.
  assert (0 <= h mod N < N) by (apply Z.mod_pos_bound; lia).
  assert (0 <= (h + m) mod N < N) by (apply Z.mod_pos_bound; lia).
  assert (Hr : forall n, zlen (rotate n b) = N) by (intros; unfold zlen; by rewrite length_rotate).
  apply get_ext; [rewrite zlen_app, zlen_drop, zlen_take, !Hr; word_lia|].
  rewrite Hr. intros i Hi.
  rewrite get_app, zlen_drop, get_take, get_drop, Hr by lia.
  rewrite get_rotate by lia. rewrite Hb. unfold sat_sub. repeat case_if; bool_facts; try lia.
  - rewrite get_rotate by lia. rewrite Hb, !Zplus_mod_idemp_l. do 2 f_equal. lia.
  - rewrite get_rotate by lia. rewrite Hb, !Zplus_mod_idemp_l.
    f_equal. symmetry. rewrite <- (Z.mod_add _ 1) by lia. f_equal. lia.
Qed.

(** *** Refinement of the abstract ring *)

Lemma parked_zlen r : wf N r -> zlen (RingSpec.parked (abs N r)) = free N r.
Proof.
  intros Hwf. pose proof (view_length _ Hwf). destruct Hwf. unfold zlen, free. simpl.
  rewrite length_drop. lia.
Qed.

Lemma readable_zlen r : wf N r -> zlen (RingSpec.readable (abs N r)) = len r.
Proof.
  intros Hwf. pose proof (view_length _ Hwf). destruct Hwf. unfold zlen. simpl.
  rewrite length_take. lia.
Qed.

Ltac ring_start Hwf :=
  let Hb := fresh "Hb" in let Hl := fresh "Hl" in let Ht := fresh "Ht" in
  pose proof N_pos; pose proof (view_length _ Hwf) as Hv;
  destruct Hwf as [Hb Hl Ht].

Lemma new_refines : exists r, new N = Ok r /\ wf N r /\
  abs N r = RingSpec.mk [] (replicate (Z.to_nat N) 0).
Proof using N_pow2.
  pose proof N_pos. unfold new. replace (N =? 0) with false by lia. simpl.
  replace (Z.land N (N - 1)) with 0.
  2:{ rewrite mask_mod. symmetry. apply Z.mod_same. lia. }
  eexists. split; [done|]. split.
  - constructor; unfold zlen; simpl; rewrite ?length_replicate; lia || done.
  - unfold abs, view. simpl. rewrite drop_0. unfold rotate.
    rewrite length_replicate, Z.mod_0_l by lia. simpl.
    rewrite Nat.Div0.mod_0_l. by rewrite drop_0, take_0, app_nil_r.
Qed.

Lemma write_refines r src :
  wf N r -> wf N (write N r src).1 /\
  (abs N (write N r src).1, (write N r src).2) = RingSpec.write (abs N r) src.
Proof using N_pow2.
  intros Hwf. pose proof Hwf as Hwf0. ring_start Hwf. unfold write, RingSpec.write, free.
  simpl. rewrite !length_drop, !Hv.
  replace (Z.of_nat (length src `min` (Z.to_nat N - Z.to_nat (len r))))
    with (Z.min (zlen src) (N - len r)) by (unfold zlen; lia).
  case_if; bool_facts.
  - split; [done|]. simpl. rewrite Heqb.
    replace (length src `min` (Z.to_nat N - Z.to_nat (len r)))%nat with 0%nat
      by (unfold zlen in *; lia).
    by rewrite take_0, app_nil_r, drop_0.
  - set (n := Z.min (zlen src) (N - len r)) in *. simpl.
    assert (0 < n) by (unfold zlen in *; lia).
    rewrite mask_mod, Ht. fold (copy_in (buf r) ((head r + len r) mod N) n src).
    assert (Hvw : rotate (Z.to_nat (head r mod N))
        (copy_in (buf r) ((head r + len r) mod N) n src) =
        list_inserts (Z.to_nat (len r)) (take (Z.to_nat n) src) (view N r)).
    { rewrite <- Zplus_mod_idemp_l. apply copy_in_view; try lia.
      apply Z.mod_pos_bound. lia. }
    split.
    + constructor; simpl; [|lia|].
      * unfold copy_in, zlen in *. case_if; by rewrite ?copy_range_length.
      * rewrite wadd64_mod, <- Zplus_mod_idemp_l, Ht, Zplus_mod_idemp_l. f_equal. lia.
    + f_equal. unfold abs, view. simpl. rewrite Hvw. fold (view N r).
      assert (length src `min` (Z.to_nat N - Z.to_nat (len r)) = Z.to_nat n)%nat as ->
        by (unfold n, zlen; lia).
      f_equal; [apply take_inserts|rewrite drop_inserts, drop_drop; [f_equal|]];
        rewrite ?length_take; unfold n, zlen in *; lia.
Qed.

Lemma write_at_refines r offset src :
  wf N r -> 0 <= offset < M64 -> wf N (write_at N r offset src).1 /\
  (abs N (write_at N r offset src).1, (write_at N r offset src).2) =
    RingSpec.write_at (abs N r) offset src.
Proof using N_pow2.
  intros Hwf Ho. pose proof Hwf as Hwf0. ring_start Hwf.
  unfold write_at, RingSpec.write_at. rewrite parked_zlen by done. unfold free, sat_sub.
  pose proof (zlen_nonneg src).
  case_if; bool_facts; [|case_if; bool_facts].
  - split; [done|]. rewrite (Z.max_l 0), Z.min_r by lia. by rewrite take_0.
  - split; [done|]. rewrite (Z.max_r 0), Heqb0 by lia. by rewrite take_0.
  - rewrite (Z.max_r 0) by lia. set (n := Z.min (zlen src) (N - len r - offset)) in *.
    assert (0 < n) by lia. simpl. rewrite mask_mod, wadd64_mod, <- Zplus_mod_idemp_l, Ht, Zplus_mod_idemp_l.
    fold (copy_in (buf r) ((head r + len r + offset) mod N) n src).
    assert (Hvw : rotate (Z.to_nat (head r mod N))
        (copy_in (buf r) ((head r + len r + offset) mod N) n src) =
        list_inserts (Z.to_nat (len r + offset)) (take (Z.to_nat n) src) (view N r)).
    { rewrite <- Z.add_assoc, <- Zplus_mod_idemp_l. apply copy_in_view; try lia.
      apply Z.mod_pos_bound. lia. }
    split.
    + constructor; simpl; [|lia|done].
      unfold copy_in, zlen in *. case_if; by rewrite ?copy_range_length.
    + f_equal; [|lia]. unfold abs, view. simpl. rewrite Hvw. fold (view N r).
      f_equal; [apply take_inserts_le; lia|].
      rewrite <- (take_drop (Z.to_nat (len r)) (view N r)) at 1.
      replace (Z.to_nat (len r + offset)) with
        (length (take (Z.to_nat (len r)) (view N r)) + Z.to_nat offset)%nat
        by (rewrite length_take; lia).
      rewrite list_inserts_app_r, drop_app_length'; [done|]. rewrite length_take. lia.
Qed.

Lemma commit_refines r n :
  wf N r -> 0 <= n -> wf N (commit N r n).1 /\
  (abs N (commit N r n).1, (commit N r n).2) = RingSpec.commit (abs N r) n.
Proof using N_pow2.
  intros Hwf Hn. ring_start Hwf. unfold commit, RingSpec.commit, free. simpl.
  rewrite !length_drop, !Hv. split.
  - constructor; simpl; [done|lia|].
    rewrite wadd64_mod, <- Zplus_mod_idemp_l, Ht, Zplus_mod_idemp_l. f_equal. lia.
  - f_equal; [|lia]. unfold abs, view. simpl. fold (view N r).
    rewrite take_take_drop, drop_drop. do 2 f_equal; lia.
Qed.

Lemma consume_refines r n :
  wf N r -> 0 <= n -> wf N (consume r n) /\
  abs N (consume r n) = RingSpec.consume (abs N r) n.
Proof using N_pow2.
  intros Hwf Hn. ring_start Hwf. unfold consume, RingSpec.consume. simpl.
  rewrite !length_take, !Hv. set (m := Z.min n (len r)).
  replace (Z.to_nat n `min` (Z.to_nat (len r) `min` Z.to_nat N))%nat
    with (Z.to_nat m) by lia.
  split.
  - constructor; simpl; [done|lia|].
    rewrite <- (Zplus_mod_idemp_l (wadd64 _ _)), wadd64_mod, Zplus_mod_idemp_l, Ht.
    f_equal. lia.
  - unfold abs, view. simpl. rewrite wadd64_mod, rotate_advance by lia.
    fold (view N r). set (v := view N r) in *.
    rewrite <- (take_drop (Z.to_nat (len r)) v) at 1 3.
    assert (length (take (Z.to_nat (len r)) v) = Z.to_nat (len r))
      by (rewrite length_take; lia).
    assert (Z.to_nat m <= Z.to_nat (len r))%nat by lia.
    rewrite !(drop_app_le _ (drop _ v)) by lia.
    f_equal.
    + rewrite <- app_assoc, take_app_length'; [done|]. rewrite length_drop. lia.
    + rewrite <- app_assoc, drop_app_length'; [|rewrite length_drop; lia].
      by rewrite take_take, Nat.min_l.
Qed.

Lemma clear_refines r :
  wf N r -> wf N (clear r) /\ RingSpec.readable (abs N (clear r)) = [].
Proof using N_pow2.
  intros Hwf. ring_start Hwf. split; [|done].
  constructor; simpl; [done|lia|done].
Qed.

Lemma peek_at_refines r offset dst :
  wf N r -> 0 <= offset < M64 ->
  let out := RingSpec.peek_at (abs N r) offset (zlen dst) in
  peek_at N r offset dst = (out ++ drop (length out) dst, zlen out).
Proof using N_pow2.
  intros Hwf Ho. pose proof Hwf as Hwf0. ring_start Hwf. simpl.
  unfold peek_at, RingSpec.peek_at. simpl.
  set (out := take _ (drop _ _)).
  assert (Hout : zlen out = Z.min (zlen dst) (sat_sub (len r) offset)).
  { unfold out, zlen, sat_sub. rewrite !length_take, length_drop, length_take. lia. }
  pose proof (zlen_nonneg dst). unfold sat_sub in Hout.
  case_if; bool_facts; [|case_if; bool_facts].
  - assert (out = []) as -> by (apply zlen_0; lia). done.
  - assert (out = []) as -> by (apply zlen_0; lia). done.
  - rewrite Hout. f_equal; [|lia].
    rewrite mask_mod, wadd64_mod, copy_out_view by (done || lia).
    f_equal; [|f_equal; unfold zlen in *; lia].
    unfold out.
    replace (Z.to_nat (len r)) with (Z.to_nat offset + (Z.to_nat (len r) - Z.to_nat offset))%nat
      by lia.
    rewrite <- take_drop_commute, take_take. f_equal. lia.
Qed.

Lemma peek_as_peek_at r dst : wf N r -> peek N r dst = peek_at N r 0 dst.
Proof using N_pow2.
  intros Hwf. unfold peek, peek_at. destruct Hwf as [? ? ?].
  rewrite !mask_mod, wadd64_mod, Z.add_0_r, Z.sub_0_r.
  pose proof (zlen_nonneg dst).
  destruct (len r <=? 0) eqn:?; [|done]. by replace (Z.min (zlen dst) (len r) =? 0) with true by lia.
Qed.

Lemma read_refines r dst :
  wf N r ->
  let out := RingSpec.peek_at (abs N r) 0 (zlen dst) in
  (read N r dst).1.2 = out ++ drop (length out) dst /\ (read N r dst).2 = zlen out /\
  wf N (read N r dst).1.1 /\
  abs N (read N r dst).1.1 = RingSpec.consume (abs N r) (zlen out).
Proof using N_pow2.
  intros Hwf out. unfold read.
  rewrite peek_as_peek_at, (peek_at_refines r 0 dst) by (done || lia). simpl.
  split; [done|]. split; [done|]. apply consume_refines; [done|apply zlen_nonneg].
Qed.

(** Filling the lent regions in place is writing at the start of the free space. *)
Lemma host_fill_write_at r max data :
  wf N r -> zlen data <= max -> zlen data <= free N r ->
  host_fill N r max data = (write_at N r 0 data).1.
Proof using N_pow2.
  intros Hwf Hmax Hfree. ring_start Hwf.
  pose proof (zlen_nonneg data). unfold host_fill, free_regions, write_at, free in *.
  rewrite !mask_mod, wadd64_mod, Z.add_0_r, Z.sub_0_r.
  assert (0 <= tail r mod N < N) by (apply Z.mod_pos_bound; lia).
  rewrite Hb. replace (tail r mod N <=? N) with true by lia.
  set (p := tail r mod N) in *. set (n := Z.min max (N - len r)) in *.
  replace (Z.min n (N - p) <=? N - p) with true by lia.
  replace (n - Z.min n (N - p) <=? p) with true by lia. cbv zeta iota beta.
  rewrite (Z.min_l (zlen data) (N - len r)) by lia.
  destruct (decide (zlen data = 0)) as [Hz|Hz].
  { rewrite Hz, !Z.min_l, !Z.add_0_r, !copy_range_empty by lia.
    simpl. destruct r; by case_if. }
  replace (N - len r <=? 0) with false by lia.
  replace (zlen data =? 0) with false by lia. simpl. f_equal.
  replace (Z.min (zlen data) (p + Z.min n (N - p) - p)) with (Z.min (zlen data) (N - p)) by lia.
  case_if; bool_facts.
  - f_equal; lia.
  - rewrite (Z.min_l (zlen data)), Z.sub_diag, Z.min_l, !Z.add_0_r, copy_range_empty by lia. done.
Qed.

End Proofs.

(** ** Runs of operations *)

(** Every call the owner of a ring makes, with the caller's buffer where one is
    lent, and what the call hands back. *)
Inductive op :=
  | OpWrite (src : list Z) | OpWriteAt (offset : Z) (src : list Z) | OpCommit (n : Z)
  | OpFill (max : Z) (data : list Z) | OpPeek (dst : list Z)
  | OpPeekAt (offset : Z) (dst : list Z) | OpConsume (n : Z) | OpRead (dst : list Z) | OpClear.

Inductive out := OutUnit | OutCount (n : Z) | OutBytes (dst : list Z) (n : Z).

Definition step (N : Z) (r : t) (o : op) : t * out :=
  match o with
  | OpWrite src => let '(r', n) := write N r src in (r', OutCount n)
  | OpWriteAt offset src => let '(r', n) := write_at N r offset src in (r', OutCount n)
  | OpCommit n => let '(r', m) := commit N r n in (r', OutCount m)
  | OpFill max data => (host_fill N r max data, OutUnit)
  | OpPeek dst => let '(d, n) := peek N r dst in (r, OutBytes d n)
  | OpPeekAt offset dst => let '(d, n) := peek_at N r offset dst in (r, OutBytes d n)
  | OpConsume n => (consume r n, OutUnit)
  | OpRead dst => let '(r', d, n) := read N r dst in (r', OutBytes d n)
  | OpClear => (clear r, OutUnit)
  end.

Fixpoint run (N : Z) (r : t) (os : list op) : t * list out :=
  match os with
  | [] => (r, [])
  | o :: os' =>
      let '(r1, x) := step N r o in
      let '(r2, xs) := run N r1 os' in (r2, x :: xs)
  end.

(** Arguments in range: offsets and counts are [usize]; the host fills at most
    what it was lent. *)
Definition op_ok (N : Z) (o : op) : Prop :=
  match o with
  | OpWriteAt offset _ | OpPeekAt offset _ => 0 <= offset < M64
  | OpCommit n | OpConsume n => 0 <= n < M64
  | _ => True
  end.

Definition lent (o : op) (s : RingSpec.t) : Prop :=
  match o with
  | OpFill max data => zlen data <= max /\ zlen data <= zlen (RingSpec.parked s)
  | _ => True
  end.

Definition delivered (bytes dst : list Z) : out :=
  OutBytes (bytes ++ drop (length bytes) dst) (zlen bytes).

(** The contract as a transition system; after [clear] the free space holds
    arbitrary leftovers. *)
Inductive spec_step (s : RingSpec.t) : op -> RingSpec.t -> out -> Prop :=
  | SWrite src : spec_step s (OpWrite src) (RingSpec.write s src).1
                   (OutCount (RingSpec.write s src).2)
  | SWriteAt offset src : spec_step s (OpWriteAt offset src) (RingSpec.write_at s offset src).1
                   (OutCount (RingSpec.write_at s offset src).2)
  | SCommit n : spec_step s (OpCommit n) (RingSpec.commit s n).1
                   (OutCount (RingSpec.commit s n).2)
  | SFill max data : spec_step s (OpFill max data) (RingSpec.write_at s 0 data).1 OutUnit
  | SPeek dst : spec_step s (OpPeek dst) s (delivered (RingSpec.peek_at s 0 (zlen dst)) dst)
  | SPeekAt offset dst : spec_step s (OpPeekAt offset dst) s
                   (delivered (RingSpec.peek_at s offset (zlen dst)) dst)
  | SConsume n : spec_step s (OpConsume n) (RingSpec.consume s n) OutUnit
  | SRead dst : spec_step s (OpRead dst) (RingSpec.consume s (zlen dst))
                   (delivered (RingSpec.peek_at s 0 (zlen dst)) dst)
  | SClear leftovers :
      zlen leftovers = zlen (RingSpec.readable s) + zlen (RingSpec.parked s) ->
      spec_step s OpClear (RingSpec.mk [] leftovers) OutUnit.

Inductive spec_run : RingSpec.t -> list op -> RingSpec.t -> list out -> Prop :=
  | spec_run_nil s : spec_run s [] s []
  | spec_run_cons s o s1 x os s2 xs :
      spec_step s o s1 x -> spec_run s1 os s2 xs -> spec_run s (o :: os) s2 (x :: xs).

(** The host only fills what it was lent, at every point of a run. *)
Fixpoint run_ok (N : Z) (r : t) (os : list op) : Prop :=
  match os with
  | [] => True
  | o :: os' => op_ok N o /\ lent o (abs N r) /\ run_ok N (step N r o).1 os'
  end.

Section Runs.
Variable N : Z.
Hypothesis N_pow2 : exists k, 0 <= k < 64 /\ N = 2 ^ k.

Lemma consume_peeked s n :
  0 <= n -> RingSpec.consume s (zlen (RingSpec.peek_at s 0 n)) = RingSpec.consume s n.
Proof using.
  intros Hn. unfold RingSpec.consume, RingSpec.peek_at, zlen. rewrite length_take, drop_0.
  by replace (Z.to_nat (Z.of_nat (Z.to_nat n `min` length (RingSpec.readable s)))
    `min` length (RingSpec.readable s))%nat with (Z.to_nat n `min` length (RingSpec.readable s))%nat by lia.
Qed.

Lemma step_refines r o :
  wf N r -> op_ok N o -> lent o (abs N r) ->
  wf N (step N r o).1 /\ spec_step (abs N r) o (abs N (step N r o).1) (step N r o).2.
Proof using N_pow2.
  intros Hwf Hok Hlent. destruct o; cbn [step op_ok lent] in *.
  - destruct (write_refines N N_pow2 r src Hwf) as [? Heq]. destruct (write N r src) as [r' n].
    cbn [fst snd] in *. split; [done|]. pose proof (SWrite (abs N r) src) as Hs. rewrite <- Heq in Hs. exact Hs.
  - destruct (write_at_refines N N_pow2 r offset src Hwf Hok) as [? Heq].
    destruct (write_at N r offset src) as [r' n]. cbn [fst snd] in *. split; [done|].
    pose proof (SWriteAt (abs N r) offset src) as Hs. rewrite <- Heq in Hs. exact Hs.
  - destruct (commit_refines N N_pow2 r n Hwf ltac:(lia)) as [? Heq].
    destruct (commit N r n) as [r' m]. cbn [fst snd] in *. split; [done|].
    pose proof (SCommit (abs N r) n) as Hs. rewrite <- Heq in Hs. exact Hs.
  - rewrite (parked_zlen N) in Hlent by done.
    rewrite (host_fill_write_at N N_pow2) by tauto.
    destruct (write_at_refines N N_pow2 r 0 data Hwf ltac:(lia)) as [? Heq].
    split; [done|]. pose proof (SFill (abs N r) max data) as Hs. rewrite <- Heq in Hs. exact Hs.
  - rewrite (peek_as_peek_at N N_pow2), (peek_at_refines N N_pow2) by (done || lia).
    split; [done|]. constructor.
  - rewrite (peek_at_refines N N_pow2) by done. split; [done|]. constructor.
  - destruct (consume_refines N N_pow2 r n Hwf ltac:(lia)) as [? Heq]. cbn [fst snd]. rewrite Heq.
    split; [done|]. constructor.
  - destruct (read_refines N N_pow2 r dst Hwf) as (Hd & Hn & ? & Heq).
    destruct (read N r dst) as [[r' d] n]. cbn [fst snd] in *. split; [done|].
    rewrite Heq, Hd, Hn, consume_peeked by apply zlen_nonneg. apply (SRead (abs N r) dst).
  - destruct (clear_refines N N_pow2 r Hwf) as [Hc Hr]. split; [done|].
    cbn [fst snd]. destruct (abs N (clear r)) as [rd pk] eqn:Ha. simpl in Hr. subst rd.
    constructor. pose proof (parked_zlen N (clear r) Hc) as Hp. rewrite Ha in Hp. simpl in Hp.
    rewrite Hp, (readable_zlen N), (parked_zlen N) by done. unfold free. simpl. lia.
Qed.

Lemma run_refines os : forall r,
  wf N r -> run_ok N r os ->
  wf N (run N r os).1 /\ spec_run (abs N r) os (abs N (run N r os).1) (run N r os).2.
Proof using N_pow2.
  induction os as [|o os IH]; intros r Hwf Hok; simpl in *; [by split; [|constructor]|].
  destruct Hok as (Ho & Hl & Hok). destruct (step_refines r o Hwf Ho Hl) as [Hwf1 Hs].
  destruct (step N r o) as [r1 x]. simpl in *. destruct (IH r1 Hwf1 Hok) as [Hwf2 Hr].
  destruct (run N r1 os) as [r2 xs]. simpl in *. split; [done|]. by econstructor.
Qed.

End Runs.

(** C15: Every sequence of calls on a freshly created ring behaves as the
    contract: a queue of readable bytes with a parking area behind it.  The
    cursors wrap at 2^64, the storage at [N]; neither is observable.  Bytes
    come out in order, counts are clipped to the space, [write_at] never
    changes what is readable, and [commit] releases exactly the parked bytes. *)
Theorem ring_refines_queue N os
    (Hpow : exists k, 0 <= k < 64 /\ N = 2 ^ k)
    (Hok : forall r, new N = Ok r -> run_ok N r os) :
  exists r, new N = Ok r /\ wf N (run N r os).1 /\
    spec_run (RingSpec.mk [] (replicate (Z.to_nat N) 0)) os
             (abs N (run N r os).1) (run N r os).2.
Proof.
  destruct (new_refines N Hpow) as (r & Hnew & Hwf & Habs).
  exists r. split; [done|]. rewrite <- Habs. by apply run_refines; [..|apply Hok].
Qed.

(** A segment parked out of order, the gap filled, everything released and read. *)
Definition sample_ops : list op :=
  [OpWrite [1; 2; 3]; OpRead [0; 0]; OpWriteAt 2 [6; 7]; OpWrite [4; 5]; OpCommit 2;
   OpPeekAt 1 [0; 0; 0]; OpRead [0; 0; 0; 0; 0; 9]; OpClear].

Lemma ring_refines_queue_witness :
  (forall r, new 8 = Ok r -> (run 8 r sample_ops).2 =
     [OutCount 3; OutBytes [1; 2] 2; OutCount 2; OutCount 2; OutCount 2;
      OutBytes [4; 5; 6] 3; OutBytes [3; 4; 5; 6; 7; 9] 5; OutUnit]) /\
  exists r, new 8 = Ok r /\ wf 8 (run 8 r sample_ops).1 /\
    spec_run (RingSpec.mk [] (replicate 8 0)) sample_ops
             (abs 8 (run 8 r sample_ops).1) (run 8 r sample_ops).2.
Proof.
  split; [intros r [= <-]; by vm_compute|].
  apply (ring_refines_queue 8 sample_ops); [by exists 3|].
  intros r [= <-]. vm_compute. repeat split; done.
Defined.

End Ring.
