(* ===== verification/RingStore.v ===== *)
(** * What a receive ring stores.

    A ring as a window on a byte stream: the readable bytes are stream
    positions [m .. n), the parked ones positions above [n].  [Q k b] says that
    [b] may be the byte at position [k] of the stream; the lemmas carry it
    through every ring operation. *)
From S2P Require Import Prelude Error Ring.

Section Stores.
Context (N : Z).
Hypothesis N_pow2 : exists k, 0 <= k < 64 /\ N = 2 ^ k.
Variable Q : Z -> Z -> Prop.

(** [H x]: the byte [x] past the readable ones is parked and meaningful. *)
Record stores (m n : Z) (H : Z -> Prop) (r : Ring.t) : Prop := mk_stores {
  st_wf : Ring.wf N r;
  st_len : n = m + Ring.len r;
  st_fit : forall x, H x -> 0 <= x < Ring.free N r;
  st_read : forall i b, get (RingSpec.readable (Ring.abs N r)) i = Some b -> Q (m + i) b;
  st_park : forall x b, H x -> get (RingSpec.parked (Ring.abs N r)) x = Some b -> Q (n + x) b;
}.

Lemma stores_iff m n H H' r :
  (forall x, H' x -> H x) -> stores m n H r -> stores m n H' r.
Proof using. intros Hi [? ? Hf ? Hp]. split; eauto. Qed.

Lemma stores_zlen m n H r :
  stores m n H r ->
  zlen (RingSpec.parked (Ring.abs N r)) = Ring.free N r /\ zlen (RingSpec.readable (Ring.abs N r)) = Ring.len r.
Proof using. intros [Hwf _ _ _ _]. split; [by apply Ring.parked_zlen|by apply Ring.readable_zlen]. Qed.

(** The bytes [new] become readable in place of the first parked ones. *)
Lemma stores_grow m n H r r' new :
  stores m n H r -> Ring.wf N r' ->
  Ring.abs N r' = RingSpec.mk (RingSpec.readable (Ring.abs N r) ++ new)
                    (drop (Z.to_nat (zlen new)) (RingSpec.parked (Ring.abs N r))) ->
  (forall i b, get new i = Some b -> Q (n + i) b) ->
  Ring.len r' = Ring.len r + zlen new /\
  stores m (n + zlen new) (fun x => 0 <= x /\ H (zlen new + x)) r'.
Proof using.
  intros Hst Hwf' Ha Hnew. destruct (stores_zlen _ _ _ _ Hst) as [Hz Hr]. destruct Hst as [Hwf Hlen Hfit Hread Hpark].
  pose proof (Ring.readable_zlen N r' Hwf') as Hr'. rewrite Ha in Hr'. cbn [RingSpec.readable] in Hr'.
  rewrite zlen_app, Hr in Hr'. pose proof (zlen_nonneg new). split; [done|]. split; [done|lia|..].
  - intros x [? Hx]. apply Hfit in Hx. unfold Ring.free in *. lia.
  - intros i b. rewrite Ha. cbn [RingSpec.readable]. rewrite get_app, Hr. case_if; bool_facts; [apply Hread|].
    intros Hg%Hnew. by replace (m + i) with (n + (i - Ring.len r)) by lia.
  - intros x b [? Hx]. rewrite Ha. cbn [RingSpec.parked]. rewrite get_drop by lia. case_if; [|done].
    intros Hg. eapply Hpark in Hg; [|done]. by replace (n + zlen new + x) with (n + (zlen new + x)) by lia.
Qed.

(** [write] takes what fits. *)
Lemma stores_append m n H r data :
  stores m n H r -> (forall i b, i < Ring.free N r -> get data i = Some b -> Q (n + i) b) ->
  let c := Z.min (zlen data) (Ring.free N r) in
  exists r', Ring.write N r data = (r', c) /\ Ring.len r' = Ring.len r + c /\
    stores m (n + c) (fun x => 0 <= x /\ H (c + x)) r'.
Proof using N_pow2.
  intros Hst Hdata. destruct (stores_zlen _ _ _ _ Hst) as [Hz Hr].
  destruct (Ring.write_refines N N_pow2 r data (st_wf _ _ _ _ Hst)) as [Hwf' Habs].
  destruct (Ring.write N r data) as [r' c]. cbn [fst snd] in *. unfold RingSpec.write in Habs.
  pose proof (f_equal fst Habs) as Ha. pose proof (f_equal snd Habs) as Hc. cbn [fst snd] in Ha, Hc.
  assert (Hc' : c = Z.min (zlen data) (Ring.free N r)) by (rewrite <- Hz, Hc; unfold zlen; lia).
  set (k := (length data `min` length (RingSpec.parked (Ring.abs N r)))%nat) in *. cbn zeta. rewrite <- Hc'.
  assert (Hl : zlen (take k data) = c) by (rewrite Hc; unfold zlen; rewrite length_take; lia).
  exists r'. split; [done|]. rewrite <- Hl. apply stores_grow; try done.
  - rewrite Ha. do 2 f_equal. lia.
  - intros i b Hg. pose proof (get_lt_Some _ _ _ Hg) as Hi. rewrite <- (Nat2Z.id k), get_take in Hg. case_if in Hg; [|done].
    apply Hdata; [lia|done].
Qed.

Lemma stores_write m n H r data :
  stores m n H r -> zlen data <= Ring.free N r ->
  (forall i b, get data i = Some b -> Q (n + i) b) ->
  exists r', Ring.write N r data = (r', zlen data) /\ Ring.len r' = Ring.len r + zlen data /\
    stores m (n + zlen data) (fun x => 0 <= x /\ H (zlen data + x)) r'.
Proof using N_pow2.
  intros Hst Hroom Hdata. pose proof (stores_append m n H r data Hst ltac:(auto)) as Hw. cbn zeta in Hw.
  by rewrite Z.min_l in Hw.
Qed.

Lemma stores_commit m n H r k :
  stores m n H r -> 0 <= k <= Ring.free N r -> (forall x, 0 <= x < k -> H x) ->
  exists r', Ring.commit N r k = (r', k) /\ Ring.len r' = Ring.len r + k /\
    stores m (n + k) (fun x => 0 <= x /\ H (k + x)) r'.
Proof using N_pow2.
  intros Hst Hk Hheld. destruct (stores_zlen _ _ _ _ Hst) as [Hz Hr].
  destruct (Ring.commit_refines N N_pow2 r k (st_wf _ _ _ _ Hst) ltac:(lia)) as [Hwf' Habs].
  destruct (Ring.commit N r k) as [r' c]. cbn [fst snd] in *. unfold RingSpec.commit in Habs.
  replace (Z.to_nat k `min` length (RingSpec.parked (Ring.abs N r)))%nat with (Z.to_nat k) in Habs
    by (unfold zlen in *; lia).
  pose proof (f_equal fst Habs) as Ha. pose proof (f_equal snd Habs) as Hc. cbn [fst snd] in Ha, Hc.
  assert (Hlen : zlen (take (Z.to_nat k) (RingSpec.parked (Ring.abs N r))) = k) by (rewrite zlen_take; lia).
  exists r'. rewrite Hc, Z2Nat.id by lia. split; [done|].
  destruct (stores_grow m n H r r' (take (Z.to_nat k) (RingSpec.parked (Ring.abs N r)))) as [? Hgrow]; try done.
  - by rewrite Hlen.
  - intros i b. rewrite get_take. case_if; [|done]. bool_facts. intros Hg. apply get_lt_Some in Hg as Hi.
    apply (st_park _ _ _ _ Hst); [|done]. apply Hheld. lia.
  - rewrite Hlen in *. done.
Qed.

(** The host's bytes, found where the writes go, become readable. *)
Lemma stores_commit_lent m n r k :
  stores m n (fun _ => False) r -> 0 <= k ->
  (forall i b, i < k -> get (RingSpec.parked (Ring.abs N r)) i = Some b -> Q (n + i) b) ->
  let c := Z.min k (Ring.free N r) in
  exists r', Ring.commit N r k = (r', c) /\ Ring.len r' = Ring.len r + c /\ stores m (n + c) (fun _ => False) r'.
Proof using N_pow2.
  intros Hst Hk Hp. destruct (stores_zlen _ _ _ _ Hst) as [Hz _]. pose proof (Ring.wf_len _ _ (st_wf _ _ _ _ Hst)) as Hl.
  assert (Hc : Ring.commit N r k = Ring.commit N r (Z.min k (Ring.free N r))).
  { unfold Ring.commit. replace (Z.min (Z.min k (Ring.free N r)) (Ring.free N r)) with (Z.min k (Ring.free N r)) by lia. done. }
  cbn zeta. rewrite Hc. set (c := Z.min k (Ring.free N r)).
  assert (Hst2 : stores m n (fun x => 0 <= x < c) r).
  { destruct Hst as [? ? _ ? _]. split; try done; [unfold c; intros; lia|]. intros x b Hx Hg. apply Hp; [unfold c in *; lia|done]. }
  destruct (stores_commit m n _ r c Hst2) as (r' & H1 & H2 & H3); [unfold c, Ring.free in *; lia|done|].
  exists r'. split; [done|]. split; [done|]. eapply stores_iff, H3. done.
Qed.

Lemma stores_write_at m n H r o data :
  stores m n H r -> 0 <= o -> o + zlen data <= Ring.free N r ->
  (forall i b, get data i = Some b -> Q (n + o + i) b) ->
  let r' := fst (Ring.write_at N r o data) in
  Ring.len r' = Ring.len r /\ stores m n (fun x => H x \/ o <= x < o + zlen data) r'.
Proof using N_pow2.
  intros Hst Ho Hroom Hdata r'. destruct (stores_zlen _ _ _ _ Hst) as [Hz Hr].
  pose proof (zlen_nonneg data). assert (N < M64).
  { destruct N_pow2 as (k & Hk & ->). change M64 with (2 ^ 64). apply Z.pow_lt_mono_r; lia. }
  destruct (Ring.write_at_refines N N_pow2 r o data (st_wf _ _ _ _ Hst)) as [Hwf' Habs].
  { destruct (Ring.wf_len _ _ (st_wf _ _ _ _ Hst)). unfold Ring.free in *. lia. }
  apply (f_equal fst) in Habs. cbn [fst] in Habs. fold r' in Hwf', Habs. unfold RingSpec.write_at in Habs. cbn [fst] in Habs.
  replace (Z.to_nat (Z.min (zlen data) (sat_sub (zlen (RingSpec.parked (Ring.abs N r))) o))) with (length data)
    in Habs by (rewrite Hz; unfold sat_sub, zlen in *; lia).
  rewrite firstn_all in Habs.
  pose proof (Ring.readable_zlen N r' Hwf') as Hr'. rewrite Habs in Hr'. cbn [RingSpec.readable] in Hr'.
  rewrite Hr in Hr'. split; [done|]. destruct Hst as [Hwf Hlen Hfit Hread Hpark]. split; [done|lia|..].
  - intros x [Hx|Hx]; [apply Hfit in Hx|]; unfold Ring.free in *; lia.
  - intros i b. rewrite Habs. apply Hread.
  - intros x b Hx. rewrite Habs. cbn [RingSpec.parked]. rewrite get_inserts by lia. case_if; bool_facts.
    + intros Hg%Hdata. by replace (n + x) with (n + o + (x - o)) by lia.
    + destruct Hx as [Hx|Hx]; [by apply Hpark|lia].
Qed.

(** Dropping [k] readable bytes moves the lower end of the window. *)
Lemma stores_drop m n H r r' k :
  stores m n H r -> Ring.wf N r' -> 0 <= k <= Ring.len r ->
  Ring.abs N r' = RingSpec.consume (Ring.abs N r) k ->
  Ring.len r' = Ring.len r - k /\ stores (m + k) n H r'.
Proof using.
  intros Hst Hwf' Hk Ha. destruct (stores_zlen _ _ _ _ Hst) as [Hz Hr]. destruct Hst as [Hwf Hlen Hfit Hread Hpark].
  pose proof (Ring.wf_len _ _ Hwf) as Hl. unfold RingSpec.consume in Ha.
  replace (Z.to_nat k `min` _)%nat with (Z.to_nat k) in Ha by (unfold zlen in *; lia).
  pose proof (Ring.readable_zlen N r' Hwf') as Hr'. rewrite Ha in Hr'. cbn [RingSpec.readable] in Hr'.
  rewrite zlen_drop, Hr in Hr'. unfold sat_sub in Hr'. split; [lia|]. split; [done|lia|..].
  - intros x Hx%Hfit. unfold Ring.free in *. lia.
  - intros i b. rewrite Ha. cbn [RingSpec.readable]. rewrite get_drop by lia. case_if; [|done].
    intros Hg%Hread. by replace (m + k + i) with (m + (k + i)) by lia.
  - intros x b Hx. rewrite Ha. cbn [RingSpec.parked]. rewrite get_app, Hz. apply Hfit in Hx as Hf. case_if; bool_facts; [|lia].
    by apply Hpark.
Qed.

Lemma stores_consume m n H r k :
  stores m n H r -> 0 <= k <= Ring.len r ->
  Ring.len (Ring.consume r k) = Ring.len r - k /\ stores (m + k) n H (Ring.consume r k).
Proof using N_pow2.
  intros Hst Hk. destruct (Ring.consume_refines N N_pow2 r k (st_wf _ _ _ _ Hst) ltac:(lia)). by apply stores_drop.
Qed.

Lemma stores_read m n H r dst :
  stores m n H r ->
  exists r' out, Ring.read N r dst = (r', out ++ drop (length out) dst, zlen out) /\
    zlen out = Z.min (zlen dst) (Ring.len r) /\
    (forall i b, get out i = Some b -> Q (m + i) b) /\
    Ring.len r' = Ring.len r - zlen out /\ stores (m + zlen out) n H r'.
Proof using N_pow2.
  intros Hst. destruct (stores_zlen _ _ _ _ Hst) as [Hz Hr].
  destruct (Ring.read_refines N N_pow2 r dst (st_wf _ _ _ _ Hst)) as (Ho & Hc & Hwf' & Ha).
  set (out := RingSpec.peek_at _ _ _) in *. destruct (Ring.read N r dst) as [[r' dst'] c]. cbn [fst snd] in *.
  exists r', out. rewrite Ho, Hc. split; [done|].
  assert (Hout : out = take (Z.to_nat (zlen dst)) (RingSpec.readable (Ring.abs N r))) by done.
  pose proof (zlen_nonneg dst). pose proof (Ring.wf_len _ _ (st_wf _ _ _ _ Hst)) as Hl.
  assert (Hzo : zlen out = Z.min (zlen dst) (Ring.len r)) by (rewrite Hout, zlen_take, Hr; lia).
  split; [done|]. split; [|apply stores_drop; try done; lia].
  intros i b. rewrite Hout, get_take. case_if; [apply (st_read _ _ _ _ Hst)|done].
Qed.

Lemma stores_clear r k : Ring.wf N r -> stores k k (fun _ => False) (Ring.clear r) /\ Ring.len (Ring.clear r) = 0.
Proof using N_pow2.
  intros Hwf. destruct (Ring.clear_refines N N_pow2 r Hwf) as [Hwf' Hr]. split; [|done].
  split; try done; [cbn; lia|]. rewrite Hr. intros i b Hg. by apply get_Some in Hg as [_ ?].
Qed.

End Stores.

(** ** What leaves lent space alone *)

(** The storage is not written; the write cursor stays and no byte becomes
    readable, or the ring is emptied. *)
Definition ring_step (r r' : Ring.t) : Prop :=
  Ring.buf r' = Ring.buf r /\ (Ring.tail r' = Ring.tail r /\ Ring.len r' <= Ring.len r \/ Ring.len r' <= 0).

Lemma ring_step_refl r : ring_step r r.
Proof. split; [done|left; done]. Qed.

Lemma ring_step_trans r1 r2 r3 : ring_step r1 r2 -> ring_step r2 r3 -> ring_step r1 r3.
Proof. intros [E1 H1] [E2 H2]. split; [congruence|]. destruct H1 as [[? ?]|?], H2 as [[? ?]|?]; [left; split; [congruence|lia]|right; lia..]. Qed.

Lemma ring_step_consume r k : 0 <= k -> 0 <= Ring.len r -> ring_step r (Ring.consume r k).
Proof. intros Hk Hr. split; [done|]. left. cbn. lia. Qed.

Lemma ring_step_clear r : ring_step r (Ring.clear r).
Proof. split; [done|]. right. done. Qed.

Section Lent.
Context (N : Z).
Hypothesis N_pow2 : exists k, 0 <= k < 64 /\ N = 2 ^ k.

(** Index [j] of the storage holds no byte of the queue. *)
Definition outside (r : Ring.t) (j : Z) : Prop := forall i, 0 <= i < Ring.len r -> (Ring.head r + i) mod N <> j.

(** A host's store into memory lent to it. *)
Definition poke (r : Ring.t) (j x : Z) : Ring.t :=
  Ring.mk (set_at (Ring.buf r) j x) (Ring.head r) (Ring.tail r) (Ring.len r).

Lemma readable_get r i :
  Ring.wf N r -> 0 <= i < Ring.len r -> get (RingSpec.readable (Ring.abs N r)) i = get (Ring.buf r) ((Ring.head r + i) mod N).
Proof using N_pow2.
  intros [Hb Hl _] Hi. pose proof (Ring.N_pos N N_pow2) as HN. pose proof (Z.mod_pos_bound (Ring.head r) N HN).
  unfold Ring.abs, Ring.view. cbn [RingSpec.readable]. rewrite get_take. replace (i <? Ring.len r) with true by lia.
  rewrite get_rotate by lia. f_equal. rewrite Hb. by rewrite Zplus_mod_idemp_l.
Qed.

Lemma poke_wf r j x : Ring.wf N r -> Ring.wf N (poke r j x).
Proof using. intros [? ? ?]. split; cbn; [by rewrite zlen_set_at|done|done]. Qed.

Lemma stores_poke Q m n r j x :
  stores N Q m n (fun _ => False) r -> outside r j -> stores N Q m n (fun _ => False) (poke r j x).
Proof using N_pow2.
  intros [Hw Hl Hf Hr Hp] Ho. pose proof (poke_wf r j x Hw) as Hw'. split; try done.
  intros i b Hg. pose proof (get_lt_Some _ _ _ Hg) as Hi. rewrite Ring.readable_zlen in Hi by done. cbn in Hi.
  apply Hr. rewrite readable_get in * by done. cbn [poke Ring.buf Ring.head] in Hg.
  rewrite get_set_at_ne in Hg; [done|]. by apply not_eq_sym, Ho.
Qed.

Lemma ring_step_outside r r' j : Ring.wf N r -> Ring.wf N r' -> ring_step r r' -> outside r j -> outside r' j.
Proof using N_pow2.
  intros [_ Hl Ht] [_ Hl' Ht'] [_ [[Et El]|El]] Ho i Hi; [|lia]. pose proof (Ring.N_pos N N_pow2) as HN.
  replace ((Ring.head r' + i) mod N) with ((Ring.head r + (Ring.len r - Ring.len r' + i)) mod N); [apply Ho; lia|].
  rewrite Et in Ht'. rewrite Ht in Ht'. symmetry.
  replace (Ring.head r' + i) with (Ring.head r' + Ring.len r' + (i - Ring.len r')) by lia.
  rewrite <- Zplus_mod_idemp_l, <- Ht', Zplus_mod_idemp_l. f_equal. lia.
Qed.

Definition lent (l : (Z * Z) * (Z * Z)) (j : Z) : bool :=
  (fst (fst l) <=? j) && (j <? snd (fst l)) || (fst (snd l) <=? j) && (j <? snd (snd l)).

Lemma free_regions_outside r max j :
  Ring.wf N r -> 0 <= max -> lent (Ring.free_regions N r max) j = true -> outside r j.
Proof using N_pow2.
  intros [Hb Hl Ht] Hm Hj i Hi. pose proof (Ring.N_pos N N_pow2) as HN.
  unfold Ring.free_regions, Ring.free, lent in Hj. rewrite (Ring.mask_mod N N_pow2) in Hj.
  pose proof (Z.mod_pos_bound (Ring.tail r) N HN). replace (Ring.tail r mod N <=? zlen (Ring.buf r)) with true in Hj by lia.
  cbn [fst snd] in Hj. rewrite Ht in *.
  assert (Hw : (Ring.head r + i) mod N = (Ring.head r + Ring.len r) mod N + i - Ring.len r \/
    (Ring.head r + i) mod N = (Ring.head r + Ring.len r) mod N + i - Ring.len r + N).
  { set (a := Ring.head r) in *. set (b := Ring.len r) in *. clearbody a b. clear -HN Hl Hi.
    pose proof (Z.mod_pos_bound (a + b) N HN). destruct (Z.le_gt_cases 0 ((a + b) mod N + i - b)); [left|right].
    - symmetry. apply Zmod_unique_full with ((a + b) / N); [left; lia|]. pose proof (Z.div_mod (a + b) N). lia.
    - symmetry. apply Zmod_unique_full with ((a + b) / N - 1); [left; lia|]. pose proof (Z.div_mod (a + b) N). lia. }
  repeat case_if in Hj; bool_facts; lia.
Qed.

End Lent.
