(* ===== verification/Sack.v ===== *)
(** * SACK block lists (src/wire.rs, [SackBlocks]).

    A fixed array of four blocks and a count; the first [n] entries are valid. *)
From S2P Require Import Prelude.

Module SackBlocks.

Record t := mk { n : Z; blocks : list (Z * Z) }.

Definition EMPTY : t := mk 0 (replicate 4 (0, 0)).

Definition one (left right : Z) : t := mk 1 (set_at (blocks EMPTY) 0 (left, right)).

(** [from_slice]: the loop [for i in 0..n] over checked accesses. *)
Fixpoint copy_blocks (src : list (Z * Z)) (i : Z) (count : nat) (acc : list (Z * Z))
    : list (Z * Z) :=
  match count with
  | O => acc
  | S count' =>
      let acc' := match get src i with Some b => set_at acc i b | None => acc end in
      copy_blocks src (i + 1) count' acc'
  end.

Definition from_slice (src : list (Z * Z)) : t :=
  let n := Z.min (zlen src) 4 in
  mk (as_u8 n) (copy_blocks src 0 (Z.to_nat n) (blocks EMPTY)).

Definition push (s : t) (left right : Z) : t :=
  if n s <? zlen (blocks s) then
    match get (blocks s) (n s) with
    | Some _ => mk (n s + 1) (set_at (blocks s) (n s) (left, right))
    | None => s
    end
  else s.

Definition len (s : t) : Z := n s.
Definition is_empty (s : t) : bool := n s =? 0.

Definition as_slice (s : t) : list (Z * Z) :=
  default [] (get_range (blocks s) 0 (n s)).

Definition truncate (s : t) (max : Z) : t :=
  if max <? n s then mk (as_u8 max) (blocks s) else s.

Definition from_option (o : option (Z * Z)) : t :=
  match o with Some (l, r) => one l r | None => EMPTY end.

(** The type invariant: four slots, at most four of them in use. *)
Definition wf (s : t) : Prop := zlen (blocks s) = 4 /\ 0 <= n s <= 4.

Lemma EMPTY_wf : wf EMPTY.
Proof. done. Qed.

Lemma as_slice_eq s : wf s -> as_slice s = take (Z.to_nat (n s)) (blocks s).
Proof.
  intros [? ?]. unfold as_slice. rewrite get_range_eq by lia. simpl.
  by rewrite drop_0, Z.sub_0_r.
Qed.

Lemma as_slice_length s : wf s -> zlen (as_slice s) = n s.
Proof. intros Hwf. rewrite as_slice_eq, zlen_take by done. destruct Hwf. lia. Qed.

Lemma push_wf s l r : wf s -> wf (push s l r).
Proof.
  intros [Hl Hn]. unfold push. case_if; [|done]. bool_facts.
  destruct (get_is_Some (blocks s) (n s)) as [_ [x ->]]; [lia|].
  split; simpl; [by rewrite zlen_set_at|lia].
Qed.

(** [push] appends, silently saturating at four blocks. *)
Lemma push_slice s l r :
  wf s ->
  as_slice (push s l r) = take 4 (as_slice s ++ [(l, r)]).
Proof.
  intros Hwf. pose proof (push_wf s l r Hwf) as Hwf'. rewrite (as_slice_eq _ Hwf').
  rewrite (as_slice_eq _ Hwf). destruct Hwf as [Hl Hn]. unfold push. case_if; bool_facts.
  - destruct (get_is_Some (blocks s) (n s)) as [_ [x ->]]; [lia|]. simpl.
    rewrite (take_ge (_ ++ _)) by (rewrite length_app, length_take; unfold zlen in *; simpl; lia).
    unfold set_at. replace (0 <=? n s) with true by lia.
    replace (Z.to_nat (n s + 1)) with (S (Z.to_nat (n s))) by lia.
    rewrite (take_S_r _ _ (l, r)).
    + by rewrite take_insert_ge by lia.
    + apply list_lookup_insert_eq. unfold zlen in *. lia.
  - assert (n s = 4) as -> by lia. simpl.
    rewrite take_app_length'; [done|]. rewrite length_take. unfold zlen in Hl. lia.
Qed.

End SackBlocks.
