(* ===== verification/Ooo.v ===== *)
(** * Out-of-order receive tracking (src/ooo.rs).

    [OooList] records which sequence ranges beyond RCV.NXT are parked in the
    receive ring: a fixed array whose first [len] entries are sorted, disjoint
    and non-adjacent.  The file models the array operations as the source
    performs them (slice rotations and checked accesses) and shows that they
    implement the set of held sequence offsets: [insert] is union, [advance]
    consumes the run that became contiguous, [truncate_from] restricts, and the
    SACK blocks reported are the most recently changed ranges. *)
From stdpp Require Import sorting.
From S2P Require Import Prelude Seq Sack.

Module Ooo.

(** [OOO_MAX_RANGES] as a function of the ring capacity [BUF_CAP]. *)
Definition OOO_MAX_RANGES (buf_cap : Z) : Z :=
  let n := buf_cap / 2048 in
  if n <? 32 then 32 else if 512 <? n then 512 else n.

Record Range := mkRange { r_start : Z; r_end : Z; r_tag : Z }.

Inductive Insert := Stored (dup : bool) | Full.

Record t := mk { ranges : list Range; len : Z; next_tag : Z }.

(** [slice.partition_point(p)]: the length of the prefix satisfying [p]. *)
Fixpoint partition_point {A} (p : A -> bool) (l : list A) : Z :=
  match l with
  | [] => 0
  | x :: l' => if p x then 1 + partition_point p l' else 0
  end.

(** [if let Some(t) = l.get_mut(a..b) { t.rotate_right(k) }] and its mirror. *)
Definition rotate_right_range {A} (l : list A) (a b k : Z) : list A :=
  match get_range l a b with
  | Some s =>
      let m := (length s - Z.to_nat k)%nat in
      list_inserts (Z.to_nat a) (drop m s ++ take m s) l
  | None => l
  end.

Definition rotate_left_range {A} (l : list A) (a b k : Z) : list A :=
  match get_range l a b with
  | Some s =>
      list_inserts (Z.to_nat a) (drop (Z.to_nat k) s ++ take (Z.to_nat k) s) l
  | None => l
  end.

Section Ops.
Variable MAX : Z.

Definition new : t := mk (replicate (Z.to_nat MAX) (mkRange 0 0 0)) 0 1.

Definition clear (o : t) : t := mk (ranges o) 0 1.

Definition is_empty (o : t) : bool := len o =? 0.

Definition slice (o : t) : list Range := default [] (get_range (ranges o) 0 (len o)).

Definition first_start (o : t) : option Z := r_start <$> head (slice o).
Definition last_end (o : t) : option Z := r_end <$> last (slice o).

Definition held_bytes (o : t) : Z :=
  foldl (fun a r => sat_add32 a (wsub32 (r_end r) (r_start r))) 0 (slice o).

Definition insert (o : t) (start end_ rcv_nxt : Z) : t * Insert :=
  let s := off start rcv_nxt in
  let e := off end_ rcv_nxt in
  if (s =? 0) || (e <=? s) then (o, Stored true) else
  let lo := partition_point (fun r => off (r_end r) rcv_nxt <? s) (slice o) in
  let hi := lo +
    match get_range (slice o) lo (zlen (slice o)) with
    | Some tl => partition_point (fun r => off (r_start r) rcv_nxt <=? e) tl
    | None => 0
    end in
  let tag := next_tag o in
  let next_tag' := wadd32 (next_tag o) 1 in
  if hi =? lo then
    if len o =? MAX then (mk (ranges o) (len o) next_tag', Full) else
    let ranges' :=
      match get_range (ranges o) lo (len o + 1) with
      | Some _ =>
          set_at (rotate_right_range (ranges o) lo (len o + 1) 1) lo
                 (mkRange start end_ tag)
      | None => ranges o
      end in
    (mk ranges' (len o + 1) next_tag', Stored false)
  else
    match get (ranges o) lo, get (ranges o) (hi - 1) with
    | Some first, Some last =>
        let dup := (hi - lo =? 1) && (off (r_start first) rcv_nxt <=? s)
                   && (e <=? off (r_end first) rcv_nxt) in
        let m_start := if off (r_start first) rcv_nxt <? s then r_start first else start in
        let m_end := if e <? off (r_end last) rcv_nxt then r_end last else end_ in
        let ranges1 := set_at (ranges o) lo (mkRange m_start m_end tag) in
        let removed := hi - lo - 1 in
        if 0 <? removed then
          (mk (rotate_left_range ranges1 (lo + 1) (len o) removed)
              (len o - removed) next_tag', Stored dup)
        else (mk ranges1 (len o) next_tag', Stored dup)
    | _, _ => (mk (ranges o) (len o) next_tag', Full)
    end.

Definition truncate_from (o : t) (limit rcv_nxt : Z) : t :=
  let lim := off limit rcv_nxt in
  let k := partition_point (fun r => off (r_end r) rcv_nxt <=? lim) (slice o) in
  if k <? len o then
    match get (ranges o) k with
    | Some r =>
        if off (r_start r) rcv_nxt <? lim then
          mk (set_at (ranges o) k (mkRange (r_start r) limit (r_tag r)))
             (Z.min (len o) (k + 1)) (next_tag o)
        else mk (ranges o) (Z.min (len o) k) (next_tag o)
    | None => mk (ranges o) (Z.min (len o) k) (next_tag o)
    end
  else mk (ranges o) (Z.min (len o) k) (next_tag o).

(** The scan of [advance]: the new RCV.NXT and the number of ranges dropped. *)
Fixpoint advance_scan (l : list Range) (nxt drop : Z) : Z * Z :=
  match l with
  | [] => (nxt, drop)
  | r :: l' =>
      if as_i32 (wsub32 (r_start r) nxt) <=? 0 then
        let nxt' := if 0 <? as_i32 (wsub32 (r_end r) nxt) then r_end r else nxt in
        advance_scan l' nxt' (drop + 1)
      else (nxt, drop)
  end.

Definition advance (o : t) (rcv_nxt : Z) : t * Z :=
  let '(nxt, drop) := advance_scan (slice o) rcv_nxt 0 in
  if 0 <? drop then
    (mk (rotate_left_range (ranges o) 0 (len o) drop) (len o - drop) (next_tag o), nxt)
  else (o, nxt).

Definition age (o : t) (r : Range) : Z := wsub32 (next_tag o) (r_tag r).

(** One candidate against the [k] best slots: fill a hole, or swap with an
    older range and carry that one on. *)
Fixpoint place (o : t) (cand : Range) (k : nat) (top : list (option Range))
    : list (option Range) :=
  match k, top with
  | S k', None :: top' => Some cand :: top'
  | S k', Some held :: top' =>
      if age o cand <? age o held then Some cand :: place o held k' top'
      else Some held :: place o cand k' top'
  | _, _ => top
  end.

Definition fill_sack_blocks (o : t) (sack : SackBlocks.t) (max : Z) : SackBlocks.t :=
  let k := Z.min max 4 in
  let top := foldl (fun top r => place o r (Z.to_nat k) top) (replicate 4 None) (slice o) in
  foldl (fun s r => match r with
                    | Some r => SackBlocks.push s (r_start r) (r_end r)
                    | None => s
                    end) sack (take (Z.to_nat k) top).

Definition containing (o : t) (seq : Z) : option (Z * Z) :=
  (fun r => (r_start r, r_end r)) <$>
  List.find (fun r => (0 <=? as_i32 (wsub32 seq (r_start r)))
                      && (0 <? as_i32 (wsub32 (r_end r) seq))) (slice o).

Fixpoint valid_from (rcv_nxt : Z) (prev_end : option Z) (l : list Range) : bool :=
  match l with
  | [] => true
  | r :: l' =>
      let s := off (r_start r) rcv_nxt in
      let e := off (r_end r) rcv_nxt in
      if (s =? 0) || (e <=? s) || (M31 - 1 <? e) then false else
      if match prev_end with Some p => s <=? p | None => false end then false
      else valid_from rcv_nxt (Some e) l'
  end.

Definition debug_valid (o : t) (rcv_nxt : Z) : bool := valid_from rcv_nxt None (slice o).

End Ops.

(** ** The array operations on the list of ranges in use *)

Section Arrays.
Context {A : Type}.
Implicit Types l : list A.

Lemma get_rotate_right_range l a b k i :
  0 <= a <= b -> b <= zlen l -> 0 <= k <= b - a ->
  get (rotate_right_range l a b k) i =
  if (a <=? i) && (i <? b)
  then (if i <? a + k then get l (i + (b - a) - k) else get l (i - k))
  else get l i.
Proof.
  intros Ha Hb Hk. unfold rotate_right_range. rewrite get_range_eq by lia.
  set (s := take _ _). assert (Hs : zlen s = b - a).
  { unfold s. rewrite zlen_take, zlen_drop. word_lia. }
  replace (length s - Z.to_nat k)%nat with (Z.to_nat (b - a - k)) by (unfold zlen in Hs; lia).
  rewrite get_inserts by (rewrite ?zlen_app, ?zlen_drop, ?zlen_take; word_lia).
  rewrite zlen_app, zlen_drop, zlen_take, Hs, get_app, zlen_drop, Hs.
  rewrite get_drop, get_take by lia. unfold s. rewrite !get_take, !get_drop by lia.
  unfold sat_sub. repeat case_if; bool_facts; try lia; try done; f_equal; lia.
Qed.

Lemma get_rotate_left_range l a b k i :
  0 <= a <= b -> b <= zlen l -> 0 <= k <= b - a ->
  get (rotate_left_range l a b k) i =
  if (a <=? i) && (i <? b)
  then (if i <? b - k then get l (i + k) else get l (i + k - (b - a)))
  else get l i.
Proof.
  intros Ha Hb Hk. unfold rotate_left_range. rewrite get_range_eq by lia.
  set (s := take _ _). assert (Hs : zlen s = b - a).
  { unfold s. rewrite zlen_take, zlen_drop. word_lia. }
  rewrite get_inserts by (rewrite ?zlen_app, ?zlen_drop, ?zlen_take; word_lia).
  rewrite zlen_app, zlen_drop, zlen_take, Hs, get_app, zlen_drop, Hs.
  rewrite get_drop, get_take by lia. unfold s. rewrite !get_take, !get_drop by lia.
  unfold sat_sub. repeat case_if; bool_facts; try lia; try done; f_equal; lia.
Qed.

Lemma zlen_rotate_right_range l a b k : zlen (rotate_right_range l a b k) = zlen l.
Proof. unfold rotate_right_range, zlen. case_match; [by rewrite length_inserts|done]. Qed.

Lemma zlen_rotate_left_range l a b k : zlen (rotate_left_range l a b k) = zlen l.
Proof. unfold rotate_left_range, zlen. case_match; [by rewrite length_inserts|done]. Qed.

Lemma rotate_left_range_0 l a b :
  0 <= a <= b -> b <= zlen l -> rotate_left_range l a b 0 = l.
Proof.
  intros. apply get_ext; [by rewrite zlen_rotate_left_range|]. intros i _.
  rewrite get_rotate_left_range by lia. repeat case_if; bool_facts; try lia; try done; f_equal; lia.
Qed.

Lemma get_set_at l i j x :
  0 <= i < zlen l -> get (set_at l i x) j = if i =? j then Some x else get l j.
Proof.
  intros. case_if; bool_facts; [subst; by apply get_set_at_eq|by apply get_set_at_ne].
Qed.

(** Shifting a suffix up by one slot and filling the gap. *)
Lemma insert_slot l n lo x :
  0 <= lo <= n -> n < zlen l ->
  take (Z.to_nat (n + 1)) (set_at (rotate_right_range l lo (n + 1) 1) lo x) =
  take (Z.to_nat lo) (take (Z.to_nat n) l) ++ x :: drop (Z.to_nat lo) (take (Z.to_nat n) l).
Proof.
  intros. rewrite cons_middle. apply get_ext.
  { rewrite zlen_app, (zlen_app [x]), zlen_drop, !zlen_take, zlen_set_at,
      zlen_rotate_right_range. unfold zlen at 3. simpl. word_lia. }
  intros i Hi. rewrite zlen_take, zlen_set_at, zlen_rotate_right_range in Hi.
  rewrite get_take, get_set_at, get_rotate_right_range by
    (rewrite ?zlen_rotate_right_range; lia).
  rewrite get_app, (get_app [x]), get_drop, !get_take, !zlen_take by lia.
  change (zlen [x]) with 1.
  repeat case_if; bool_facts; try lia; try done; try (f_equal; lia).
  assert (i = lo) as -> by lia. by replace (lo - _) with 0 by lia.
Qed.

(** Replacing [removed + 1] slots by one. *)
Lemma merge_slots l n lo removed x :
  0 <= lo -> 0 <= removed -> lo + removed < n -> n <= zlen l ->
  take (Z.to_nat (n - removed)) (rotate_left_range (set_at l lo x) (lo + 1) n removed) =
  take (Z.to_nat lo) (take (Z.to_nat n) l) ++
  x :: drop (Z.to_nat (lo + removed + 1)) (take (Z.to_nat n) l).
Proof.
  intros. rewrite cons_middle. apply get_ext.
  { rewrite zlen_app, (zlen_app [x]), zlen_drop, !zlen_take, zlen_rotate_left_range,
      zlen_set_at. unfold zlen at 3. simpl. word_lia. }
  intros i Hi. rewrite zlen_take, zlen_rotate_left_range, zlen_set_at in Hi.
  rewrite get_take, get_rotate_left_range by (rewrite ?zlen_set_at; lia).
  rewrite !get_set_at by lia.
  rewrite get_app, (get_app [x]), get_drop, !get_take, !zlen_take by lia.
  change (zlen [x]) with 1.
  repeat case_if; bool_facts; try lia; try done; try (f_equal; lia).
  replace (i - _) with 0 by lia. done.
Qed.

Lemma drop_slots l n d :
  0 <= d <= n -> n <= zlen l ->
  take (Z.to_nat (n - d)) (rotate_left_range l 0 n d) = drop (Z.to_nat d) (take (Z.to_nat n) l).
Proof.
  intros. apply get_ext.
  { rewrite zlen_drop, !zlen_take, zlen_rotate_left_range. word_lia. }
  intros i Hi. rewrite zlen_take, zlen_rotate_left_range in Hi.
  rewrite get_take, get_rotate_left_range, get_drop, get_take by lia.
  repeat case_if; bool_facts; try lia; try done; f_equal; lia.
Qed.

End Arrays.

(** ** Sorted, disjoint, non-adjacent ranges and the set they hold *)

(** [chain p l]: offsets increase from [p] on, with a gap before every range,
    and stay below 2^31. *)
Fixpoint chain (p : Z) (l : list (Z * Z)) : Prop :=
  match l with
  | [] => True
  | (s, e) :: l' => p < s < e /\ e < M31 /\ chain e l'
  end.

Fixpoint chain_end (p : Z) (l : list (Z * Z)) : Z :=
  match l with
  | [] => p
  | (_, e) :: l' => chain_end e l'
  end.

Definition held (l : list (Z * Z)) (x : Z) : Prop :=
  exists s e, (s, e) ∈ l /\ s <= x < e.

Lemma held_nil x : held [] x <-> False.
Proof. split; [|done]. intros (? & ? & ?%elem_of_nil & ?). done. Qed.

Lemma held_cons s e l x : held ((s, e) :: l) x <-> s <= x < e \/ held l x.
Proof.
  unfold held. setoid_rewrite elem_of_cons. split.
  - intros (a & b & [[= -> ->]|?] & ?); [by left|right; eauto].
  - intros [?|(a & b & ? & ?)]; eauto 10.
Qed.

Lemma held_app l k x : held (l ++ k) x <-> held l x \/ held k x.
Proof.
  unfold held. setoid_rewrite elem_of_app. split.
  - intros (a & b & [?|?] & ?); eauto 10.
  - intros [(a & b & ? & ?)|(a & b & ? & ?)]; eauto 10.
Qed.

Lemma chain_app p l k : chain p (l ++ k) <-> chain p l /\ chain (chain_end p l) k.
Proof.
  revert p. induction l as [|[s e] l IH]; intros p; simpl; [tauto|]. rewrite IH. tauto.
Qed.

Lemma chain_end_app p l k : chain_end p (l ++ k) = chain_end (chain_end p l) k.
Proof. revert p. induction l as [|[s e] l IH]; intros p; simpl; auto. Qed.

Lemma chain_weaken p q l : q <= p -> chain p l -> chain q l.
Proof. destruct l as [|[s e] l]; simpl; intuition lia. Qed.

Lemma chain_end_ge p l : chain p l -> p <= chain_end p l.
Proof.
  revert p. induction l as [|[s e] l IH]; intros p; simpl; [lia|].
  intros (? & ? & ?%IH). lia.
Qed.

Lemma chain_bounds p l s e :
  chain p l -> (s, e) ∈ l -> p < s < e /\ e < M31 /\ e <= chain_end p l.
Proof.
  revert p. induction l as [|[s' e'] l IH]; intros p; simpl.
  - by intros _ ?%elem_of_nil.
  - intros (? & ? & Hc) [[= -> ->]|Hin]%elem_of_cons.
    + pose proof (chain_end_ge _ _ Hc). lia.
    + destruct (IH _ Hc Hin) as (? & ? & ?). lia.
Qed.

(** The first position after a chain's last range is not held. *)
Lemma chain_held_bounds p l x : chain p l -> held l x -> p < x < chain_end p l.
Proof. intros Hc (s & e & Hin & ?). destruct (chain_bounds _ _ _ _ Hc Hin). lia. Qed.

Lemma partition_point_spec {A} (p : A -> bool) l :
  0 <= partition_point p l <= zlen l /\
  Forall (fun x => p x = true) (take (Z.to_nat (partition_point p l)) l) /\
  match drop (Z.to_nat (partition_point p l)) l with
  | x :: _ => p x = false
  | [] => True
  end.
Proof.
  induction l as [|x l (IH1 & IH2 & IH3)]; simpl; [done|].
  unfold zlen in *. simpl length. destruct (p x) eqn:Hp; simpl; [|by rewrite Hp || lia].
  replace (Z.to_nat (1 + partition_point p l)) with (S (Z.to_nat (partition_point p l))) by lia.
  simpl. split; [lia|]. split; [|done]. by constructor.
Qed.

(** Absorbing a run of touching ranges [M] and the new one into one range. *)
Section Merge.
Variables (p s e : Z) (A M C : list (Z * Z)).
Hypothesis Hchain : chain p (A ++ M ++ C).
Hypothesis Hse : p < s < e.
Hypothesis He : e < M31.
Hypothesis HA : forall a b, (a, b) ∈ A -> b < s.
Hypothesis HM : forall a b, (a, b) ∈ M -> s <= b /\ a <= e.
Hypothesis HC : match C with (a, _) :: _ => e < a | [] => True end.

Definition merged : Z * Z :=
  (match M with (a, _) :: _ => Z.min a s | [] => s end,
   Z.max (chain_end e M) e).

Lemma chain_A_end : chain_end p A < s.
Proof using Hse HA.
  clear -Hse HA. destruct A as [|[a b] A' _] using rev_ind; simpl; [lia|].
  rewrite chain_end_app. simpl. apply (HA a). apply elem_of_app. right. by apply list_elem_of_singleton.
Qed.

Lemma merged_chain : chain p (A ++ merged :: C).
Proof using Hchain Hse He HA HM HC.
  pose proof chain_A_end. apply chain_app in Hchain as [H1 [H2 H3]%chain_app].
  apply chain_app. split; [done|]. unfold merged. simpl.
  assert (HMb : match M with (a, _) :: _ => chain_end p A < a | [] => True end)
    by (destruct M as [|[a b] M']; [done|simpl in H2; tauto]).
  assert (HMM : M <> [] -> chain_end e M < M31).
  { intros Hne. destruct M as [|q M' _] using rev_ind; [done|]. destruct q as [a b].
    rewrite chain_end_app. simpl.
    apply (chain_bounds _ _ a b) in H2; [tauto|]. apply elem_of_app. right. by apply list_elem_of_singleton. }
  split_and!.
  - destruct M as [|[a b] M']; simpl in *; lia.
  - destruct M as [|[a b] M']; simpl in *; lia.
  - destruct M; [simpl; lia|]. specialize (HMM ltac:(done)). lia.
  - destruct C as [|[a b] C']; [done|]. simpl in *. destruct H3 as (? & ? & ?).
    split_and!; try done; try lia.
    destruct M as [|[a' b'] M']; simpl in *; lia.
Qed.

Lemma merged_held x : held (A ++ merged :: C) x <-> held (A ++ M ++ C) x \/ s <= x < e.
Proof using Hchain Hse He HA HM HC.
  unfold merged. rewrite !held_app, held_cons.
  assert (held M x \/ s <= x < e <->
    match M with (a, _) :: _ => Z.min a s | [] => s end <= x < Z.max (chain_end e M) e); [|tauto].
  apply chain_app in Hchain as [_ [H2 _]%chain_app].
  destruct M as [|[a b] M'] eqn:HMeq.
  { rewrite held_nil. simpl. lia. }
  simpl chain_end. destruct (HM a b) as [? ?]; [by left|].
  simpl in H2. destruct H2 as (? & ? & H2). split.
  - intros [[?|Hx]%held_cons|?]; try lia.
    + pose proof (chain_end_ge _ _ H2). lia.
    + apply (chain_held_bounds b) in Hx; [|done]. lia.
  - intros Hx. destruct (decide (s <= x < e)) as [|Hout]; [by right|]. left. apply held_cons.
    destruct (decide (x < b)); [left; lia|right].
    destruct M' as [|[a' b'] M'' _] using rev_ind; simpl in *; [lia|].
    rewrite chain_end_app in Hx. simpl in Hx.
    assert (Hin : (a', b') ∈ M'' ++ [(a', b')])
      by (apply elem_of_app; right; by apply list_elem_of_singleton).
    destruct (HM a' b') as [? ?]; [by right|].
    exists a', b'. split; [done|lia].
Qed.

(** The new range adds nothing exactly when one held range contains it. *)
Lemma merged_dup :
  (exists a b, M = [(a, b)] /\ a <= s /\ e <= b) <->
  (forall x, s <= x < e -> held (A ++ M ++ C) x).
Proof using Hchain Hse He HA HM HC.
  apply chain_app in Hchain as [HcA [H2 H3]%chain_app]. split.
  - intros (a & b & -> & ? & ?) x ?. rewrite !held_app, held_cons. right; left; left; lia.
  - intros Hall.
    assert (HinM : forall x, s <= x < e -> held M x).
    { intros x Hx. specialize (Hall x Hx). rewrite !held_app in Hall.
      destruct Hall as [HxA|[?|HxC]]; [|done|].
      - destruct HxA as (a & b & Hin & ?). specialize (HA _ _ Hin). lia.
      - destruct C as [|[a b] C']; [by apply held_nil in HxC|]. simpl in H3.
        apply held_cons in HxC as [?|HxC]; [lia|].
        apply (chain_held_bounds b) in HxC; [lia|tauto]. }
    destruct M as [|[a b] M']; [destruct (HinM s) as (? & ? & ?%elem_of_nil & _); [lia|done]|].
    simpl in H2. destruct H2 as (? & ? & H2).
    destruct (HM a b) as [? ?]; [by left|].
    destruct M' as [|[a' b'] M''].
    + exists a, b. split; [done|].
      destruct (HinM s) as (? & ? & [= -> ->]%list_elem_of_singleton & ?); [lia|].
      destruct (HinM (e - 1)) as (? & ? & [= -> ->]%list_elem_of_singleton & ?); [lia|]. lia.
    + exfalso. simpl in H2. destruct (HM a' b') as [? ?]; [by right; left|].
      destruct H2 as (? & ? & H2).
      destruct (proj1 (held_cons _ _ _ _) (HinM b ltac:(lia))) as [?|[?|Hx]%held_cons]; [lia|lia|].
      apply (chain_held_bounds b') in Hx; [lia|done].
Qed.
End Merge.

(** ** Representation and invariant *)

Definition offs (nxt : Z) (r : Range) : Z * Z := (off (r_start r) nxt, off (r_end r) nxt).

(** The held ranges as offsets from RCV.NXT. *)
Definition view (o : t) (nxt : Z) : list (Z * Z) := offs nxt <$> slice o.

Definition u32_range (r : Range) : Prop := is_u32 (r_start r) /\ is_u32 (r_end r).

Record wf (MAX : Z) (o : t) (nxt : Z) : Prop := mk_wf {
  wf_cap : zlen (ranges o) = MAX;
  wf_len : 0 <= len o <= MAX;
  wf_u32 : Forall u32_range (slice o);
  wf_chain : chain 0 (view o nxt);
}.

Lemma slice_take MAX o nxt : wf MAX o nxt -> slice o = take (Z.to_nat (len o)) (ranges o).
Proof. intros [? ? _ _]. unfold slice. rewrite get_range_eq by lia. simpl. by rewrite Z.sub_0_r. Qed.

Lemma slice_clear o : slice (clear o) = [].
Proof. unfold slice, get_range. simpl. by case_if. Qed.

Lemma clear_wf MAX o nxt nxt' : wf MAX o nxt -> wf MAX (clear o) nxt'.
Proof.
  intros [? ? _ _]. split; [done|simpl; lia| |]; unfold view; rewrite slice_clear; [by constructor|done].
Qed.

Lemma held_clear o nxt x : ~ held (view (clear o) nxt) x.
Proof. unfold view. rewrite slice_clear. intros (? & ? & []%elem_of_nil & _). Qed.

Lemma empty_wf MAX o nxt nxt' : wf MAX o nxt -> slice o = [] -> wf MAX o nxt'.
Proof. intros [? ? _ _] E. split; [done|done| |]; unfold view; rewrite E; [by constructor|done]. Qed.

Lemma held_empty o nxt x : slice o = [] -> ~ held (view o nxt) x.
Proof. intros E. unfold view. rewrite E. intros (? & ? & []%elem_of_nil & _). Qed.

Lemma zlen_slice MAX o nxt : wf MAX o nxt -> zlen (slice o) = len o.
Proof. intros H. rewrite (slice_take _ _ _ H), zlen_take. destruct H. lia. Qed.

(** A partition of the slice in use, as [insert] computes it. *)
Lemma partition_chain p s l :
  chain p l ->
  let k := Z.to_nat (partition_point (fun r : Z * Z => r.2 <? s) l) in
  (forall a b, (a, b) ∈ take k l -> b < s) /\ (forall a b, (a, b) ∈ drop k l -> s <= b).
Proof.
  intros Hc k. destruct (partition_point_spec (fun r : Z * Z => r.2 <? s) l) as (_ & Ht & Hd).
  fold k in Ht, Hd. split.
  - intros a b Hin. rewrite Forall_forall in Ht. specialize (Ht _ Hin). simpl in Ht. lia.
  - intros a b Hin. rewrite <- (take_drop k l), chain_app in Hc. destruct Hc as [_ Hc].
    destruct (drop k l) as [|[a' b'] l']; [by apply elem_of_nil in Hin|]. simpl in *.
    apply elem_of_cons in Hin as [[= -> ->]|Hin]; [lia|].
    destruct Hc as (? & ? & Hc). apply (chain_bounds _ _ _ _ Hc) in Hin. lia.
Qed.

Lemma partition_point_fmap {A B} (f : A -> B) (p : B -> bool) l :
  partition_point p (f <$> l) = partition_point (fun x => p (f x)) l.
Proof. induction l as [|x l IH]; csimpl; [done|]. by rewrite IH. Qed.

(** What [insert] finds: the ranges below, touching and above [[s, e)]. *)
Section InsertSpec.
Variables (MAX : Z) (o : t) (start end_ nxt : Z).
Hypothesis Hwf : wf MAX o nxt.
Hypothesis Hs32 : is_u32 start.
Hypothesis He32 : is_u32 end_.
Let s := off start nxt.
Let e := off end_ nxt.
Hypothesis Hse : 0 < s < e.
Hypothesis He : e < M31.

Let lo := partition_point (fun r => off (r_end r) nxt <? s) (slice o).
Let run := partition_point (fun r => off (r_start r) nxt <=? e) (drop (Z.to_nat lo) (slice o)).
Let A := take (Z.to_nat lo) (slice o).
Let M := take (Z.to_nat run) (drop (Z.to_nat lo) (slice o)).
Let C := drop (Z.to_nat run) (drop (Z.to_nat lo) (slice o)).

Lemma insert_split : slice o = A ++ M ++ C.
Proof using. unfold A, M, C. by rewrite !take_drop. Qed.

Lemma insert_lo : 0 <= lo /\ 0 <= run /\ lo + run <= len o.
Proof using Hwf.
  pose proof (zlen_slice _ _ _ Hwf).
  destruct (partition_point_spec (fun r => off (r_end r) nxt <? s) (slice o)) as [? _].
  destruct (partition_point_spec (fun r => off (r_start r) nxt <=? e) (drop (Z.to_nat lo) (slice o)))
    as [H2 _].
  fold lo in H0. fold run in H2. rewrite zlen_drop in H2. unfold sat_sub in H2. lia.
Qed.

Lemma insert_below a b : (a, b) ∈ offs nxt <$> A -> b < s.
Proof using Hwf.
  unfold A, lo. change (fun r => off (r_end r) nxt <? s) with (fun r => (offs nxt r).2 <? s).
  rewrite <- (partition_point_fmap (offs nxt) (fun r => r.2 <? s)), fmap_take.
  apply (proj1 (partition_chain 0 s (offs nxt <$> slice o) (wf_chain _ _ _ Hwf))).
Qed.

Lemma insert_touch a b : (a, b) ∈ offs nxt <$> M -> s <= b /\ a <= e.
Proof using Hwf.
  intros Hin. split.
  - revert Hin. unfold M, lo.
    change (fun r => off (r_end r) nxt <? s) with (fun r => (offs nxt r).2 <? s).
    rewrite <- (partition_point_fmap (offs nxt) (fun r => r.2 <? s)), fmap_take, fmap_drop.
    intros Hin. apply (proj2 (partition_chain 0 s (offs nxt <$> slice o) (wf_chain _ _ _ Hwf)) a).
    rewrite <- (take_drop (Z.to_nat run)). apply elem_of_app. by left.
  - apply list_elem_of_fmap in Hin as (r & [= -> ->] & Hin).
    destruct (partition_point_spec (fun r => off (r_start r) nxt <=? e) (drop (Z.to_nat lo) (slice o)))
      as (_ & Ht & _).
    rewrite Forall_forall in Ht. specialize (Ht _ Hin). simpl in Ht. lia.
Qed.

Lemma insert_above : match offs nxt <$> C with (a, _) :: _ => e < a | [] => True end.
Proof using.
  destruct (partition_point_spec (fun r => off (r_start r) nxt <=? e) (drop (Z.to_nat lo) (slice o)))
    as (_ & _ & Hd).
  unfold C. fold run in Hd. destruct (drop (Z.to_nat run) _) as [|r C']; [done|].
  simpl. lia.
Qed.

Lemma insert_chain : chain 0 ((offs nxt <$> A) ++ (offs nxt <$> M) ++ (offs nxt <$> C)).
Proof using Hwf. rewrite <- !fmap_app, <- insert_split. apply Hwf. Qed.

Lemma insert_unfold :
  insert MAX o start end_ nxt =
  let next_tag' := wadd32 (next_tag o) 1 in
  if run =? 0 then
    if len o =? MAX then (mk (ranges o) (len o) next_tag', Full) else
    (mk (set_at (rotate_right_range (ranges o) lo (len o + 1) 1) lo
           (mkRange start end_ (next_tag o))) (len o + 1) next_tag', Stored false)
  else
    match get (ranges o) lo, get (ranges o) (lo + run - 1) with
    | Some first, Some last =>
        let dup := (run =? 1) && (off (r_start first) nxt <=? s)
                   && (e <=? off (r_end first) nxt) in
        let m_start := if off (r_start first) nxt <? s then r_start first else start in
        let m_end := if e <? off (r_end last) nxt then r_end last else end_ in
        (mk (rotate_left_range (set_at (ranges o) lo (mkRange m_start m_end (next_tag o)))
              (lo + 1) (len o) (run - 1))
            (len o - (run - 1)) next_tag', Stored dup)
    | _, _ => (mk (ranges o) (len o) next_tag', Full)
    end.
Proof using Hwf Hse.
  pose proof insert_lo as (? & ? & ?). pose proof (zlen_slice _ _ _ Hwf) as Hsl.
  pose proof (wf_cap _ _ _ Hwf). pose proof (wf_len _ _ _ Hwf).
  unfold insert. fold s e lo. case_if; [bool_facts; lia|].
  rewrite get_range_eq by lia.
  rewrite (take_ge (drop _ _)) by (rewrite length_drop; unfold zlen in *; lia). fold run.
  replace (lo + run =? lo) with (run =? 0) by lia. simpl.
  case_if; bool_facts.
  - case_if; [done|]. bool_facts. by rewrite get_range_eq by lia.
  - destruct (get (ranges o) lo) as [f|]; [|done].
    destruct (get (ranges o) (lo + run - 1)) as [l|]; [|done].
    replace (lo + run - lo) with run by lia. case_if; bool_facts; [done|].
    assert (run = 1) as -> by lia. f_equal. f_equal; [|lia].
    by rewrite rotate_left_range_0 by (rewrite ?zlen_set_at; lia).
Qed.

(** The first and last of the touching ranges, read from the array. *)
Lemma insert_touch_get i :
  0 <= i < run -> get (ranges o) (lo + i) = get M i /\ is_Some (get M i).
Proof using Hwf.
  intros Hi. pose proof insert_lo as (? & ? & ?). pose proof (zlen_slice _ _ _ Hwf) as Hsl.
  assert (HM : get M i = get (slice o) (lo + i)).
  { unfold M. rewrite get_take, get_drop by lia. repeat case_if; bool_facts; done || lia. }
  rewrite HM. split; [|apply get_is_Some; lia].
  rewrite (slice_take _ _ _ Hwf), get_take by lia. case_if; [done|bool_facts; lia].
Qed.

Lemma chain_end_last {q : Z} (l : list Range) :
  chain_end q (offs nxt <$> l) =
  match get l (zlen l - 1) with Some r => off (r_end r) nxt | None => q end.
Proof using.
  clear. destruct l as [|r l _] using rev_ind; [done|].
  rewrite fmap_app, chain_end_app, get_app, zlen_app. change (zlen [r]) with 1. simpl.
  case_if; bool_facts; [lia|]. by replace (zlen l + 1 - 1 - zlen l) with 0 by lia.
Qed.

(** The range written is the merged one, in place of the touching ones. *)
Lemma insert_stored :
  (run = 0 /\ len o = MAX /\
   insert MAX o start end_ nxt = (mk (ranges o) (len o) (wadd32 (next_tag o) 1), Full)) \/
  exists o' dup r,
    insert MAX o start end_ nxt = (o', Stored dup) /\
    zlen (ranges o') = MAX /\ 0 <= len o' <= MAX /\
    slice o' = A ++ r :: C /\ u32_range r /\
    offs nxt r = merged s e (offs nxt <$> M) /\
    (dup = true <-> exists a b, offs nxt <$> M = [(a, b)] /\ a <= s /\ e <= b).
Proof using Hwf Hse He Hs32 He32.
  pose proof insert_lo as (? & ? & ?). pose proof (zlen_slice _ _ _ Hwf) as Hsl.
  pose proof (wf_cap _ _ _ Hwf). pose proof (wf_len _ _ _ Hwf).
  assert (HzM : zlen M = run) by (unfold M; rewrite zlen_take, zlen_drop; word_lia).
  rewrite insert_unfold. cbv zeta. case_if; bool_facts.
  - assert (HM : M = []) by (apply zlen_0; lia).
    case_if; bool_facts; [by left|]. right. eexists _, _, _.
    split; [done|]. cbn [ranges len].
    rewrite zlen_set_at, zlen_rotate_right_range. split; [done|]. split; [lia|].
    split_and!.
    + unfold slice at 1. cbn [ranges len].
      rewrite get_range_eq by (rewrite ?zlen_set_at, ?zlen_rotate_right_range; lia).
      rewrite Z.sub_0_r, drop_0. simpl. rewrite insert_slot by lia.
      rewrite <- (slice_take _ _ _ Hwf). unfold A, C. replace run with 0 by lia. by rewrite drop_0.
    + by split.
    + rewrite HM. unfold offs, merged. simpl. f_equal. fold s e. lia.
    + rewrite HM. split; [done|]. by intros (? & ? & ? & _).
  - right. destruct (insert_touch_get 0) as [Hg0 [f Hf]]; [lia|].
    destruct (insert_touch_get (run - 1)) as [Hl [l Hlast]]; [lia|].
    rewrite Z.add_0_r in Hg0. rewrite Z.add_sub_assoc in Hl. rewrite Hg0, Hf, Hl, Hlast.
    eexists _, _, _. split; [done|]. cbn [ranges len].
    rewrite zlen_rotate_left_range, zlen_set_at. split; [done|]. split; [lia|].
    split_and!.
    + unfold slice at 1. cbn [ranges len].
      rewrite get_range_eq by (rewrite ?zlen_rotate_left_range, ?zlen_set_at; lia).
      rewrite Z.sub_0_r, drop_0. simpl. rewrite merge_slots by lia.
      rewrite <- (slice_take _ _ _ Hwf). unfold A, C. rewrite drop_drop.
      by replace (Z.to_nat lo + Z.to_nat run)%nat with (Z.to_nat (lo + (run - 1) + 1)) by lia.
    + assert (Hu : forall j r, get M j = Some r -> u32_range r).
      { intros j r Hj. pose proof (wf_u32 _ _ _ Hwf) as Hu. rewrite insert_split in Hu.
        rewrite !Forall_app in Hu. destruct Hu as (_ & Hu & _). rewrite Forall_forall in Hu.
        apply Hu. by apply (get_elem_of M j). }
      pose proof (Hu _ _ Hf) as [? ?]. pose proof (Hu _ _ Hlast) as [? ?].
      split; simpl; by case_if.
    + unfold offs at 1, merged. cbn [r_start r_end]. f_equal.
      * destruct M as [|f' M']; [by apply get_Some in Hf as [? ?]; simpl in *|].
        injection Hf as ->. simpl. case_if; bool_facts; unfold s in *; lia.
      * rewrite chain_end_last, HzM, Hlast. case_if; bool_facts; unfold e in *; lia.
    + rewrite !andb_true_iff, !Z.leb_le, Z.eqb_eq. split.
      * intros [[Hr ?] ?]. rewrite Hr in HzM.
        destruct M as [|f' [|? ?]]; try (unfold zlen in HzM; simpl in HzM; lia).
        injection Hf as ->. eexists _, _. split; [done|]. done.
      * intros (a & b & HM & ? & ?).
        destruct M as [|f' [|? ?]]; try done. injection Hf as ->. injection HM as <- <-.
        unfold zlen in HzM. simpl in HzM. split_and!; auto; lia.
Qed.

(** [insert] is set union; a full array only refuses an untouched range. *)
Lemma insert_spec :
  match insert MAX o start end_ nxt with
  | (o', Stored dup) =>
      wf MAX o' nxt /\
      (forall x, held (view o' nxt) x <-> held (view o nxt) x \/ s <= x < e) /\
      (dup = true <-> forall x, s <= x < e -> held (view o nxt) x)
  | (o', Full) =>
      len o = MAX /\ slice o' = slice o /\ wf MAX o' nxt /\
      (forall a b, (a, b) ∈ view o nxt -> b < s \/ e < a)
  end.
Proof using Hwf Hse He Hs32 He32.
  assert (Hv : view o nxt = (offs nxt <$> A) ++ (offs nxt <$> M) ++ (offs nxt <$> C))
    by (unfold view; by rewrite <- !fmap_app, <- insert_split).
  pose proof insert_chain as Hc.
  destruct insert_stored as [(Hrun & Hfull & ->)|(o' & dup & r & -> & Hz & Hl & Hsl & Hu & Hr & Hd)].
  - split; [done|]. split; [done|]. split; [by destruct Hwf|].
    intros a b. rewrite Hv. assert (HM : M = []) by (unfold M; by rewrite Hrun).
    rewrite HM, fmap_nil, app_nil_l, elem_of_app. intros [Hin|Hin]; [left; by eapply insert_below|right].
    pose proof insert_above as Ha. rewrite chain_app in Hc. destruct Hc as [_ [_ Hc]%chain_app].
    destruct (offs nxt <$> C) as [|[a' b'] C']; [by apply elem_of_nil in Hin|].
    simpl in Hc. apply elem_of_cons in Hin as [[= -> ->]|Hin]; [done|].
    destruct Hc as (? & ? & Hc). apply (chain_bounds _ _ _ _ Hc) in Hin. lia.
  - assert (Hv' : view o' nxt = (offs nxt <$> A) ++ merged s e (offs nxt <$> M) :: (offs nxt <$> C))
      by (unfold view; by rewrite Hsl, fmap_app, fmap_cons, Hr).
    split_and!.
    + split; [done|done| |].
      * rewrite Hsl. pose proof (wf_u32 _ _ _ Hwf) as Hu'. rewrite insert_split in Hu'.
        rewrite !Forall_app in Hu'. rewrite Forall_app, Forall_cons. tauto.
      * rewrite Hv'. exact (merged_chain _ _ _ _ _ _ Hc Hse He insert_below insert_touch insert_above).
    + intros x. rewrite Hv, Hv'.
      exact (merged_held _ _ _ _ _ _ Hc Hse He insert_below insert_touch insert_above x).
    + rewrite Hd, Hv.
      exact (merged_dup _ _ _ _ _ _ Hc Hse He insert_below insert_touch insert_above).
Qed.

End InsertSpec.

(** ** Advancing RCV.NXT, truncation and the debug check *)

Lemma chain_elem p l s e :
  chain p ((s, e) :: l) <-> p < s < e /\ e < M31 /\ chain e l.
Proof. done. Qed.

(** Re-basing the offsets of ranges above the new RCV.NXT. *)
Lemma rebase n0 k l :
  0 <= k -> Forall u32_range l -> chain k (offs n0 <$> l) ->
  chain 0 (offs (wadd32 n0 k) <$> l) /\
  (forall x, held (offs (wadd32 n0 k) <$> l) x <-> held (offs n0 <$> l) (k + x)).
Proof.
  intros Hk Hu Hc.
  assert (Hmap : offs (wadd32 n0 k) <$> l = (fun q => (q.1 - k, q.2 - k)) <$> (offs n0 <$> l)).
  { rewrite <- list_fmap_compose. apply list_fmap_ext. intros i r Hr%list_elem_of_lookup_2.
    rewrite Forall_forall in Hu. destruct (Hu r Hr) as [? ?].
    apply (list_elem_of_fmap_2 (offs n0)) in Hr. unfold offs at 1 in Hr.
    apply (chain_bounds _ _ _ _ Hc) in Hr. unfold offs, compose. simpl. f_equal; word_lia. }
  rewrite Hmap. clear Hmap Hu. revert Hc. generalize (offs n0 <$> l). clear l. intros l Hc. split.
  - replace 0 with (k - k) by lia.
    assert (Hgen : forall p, chain p l -> chain (p - k) ((fun q => (q.1 - k, q.2 - k)) <$> l));
      [clear Hc|by apply Hgen].
    induction l as [|[s e] l IH]; intros p Hc; csimpl; [done|].
    destruct Hc as (? & ? & Hc). split_and!; try lia. by apply IH.
  - intros x. clear Hc. induction l as [|[s e] l IH]; csimpl; [by rewrite !held_nil|].
    rewrite !held_cons, IH. simpl. intuition lia.
Qed.

Lemma advance_scan_spec n0 l : forall p k d,
  Forall u32_range l -> 0 <= p -> chain p (offs n0 <$> l) -> 0 <= k < M31 ->
  exists k' j, advance_scan l (wadd32 n0 k) d = (wadd32 n0 k', d + j) /\
    k <= k' < M31 /\ 0 <= j <= zlen l /\
    chain k' (offs n0 <$> drop (Z.to_nat j) l) /\
    (forall x, k <= x < k' -> held (offs n0 <$> l) x) /\
    ~ held (offs n0 <$> l) k' /\
    (forall x, k' <= x -> held (offs n0 <$> l) x <-> held (offs n0 <$> drop (Z.to_nat j) l) x).
Proof.
  induction l as [|r l IH]; intros p k d Hu Hp Hc Hk; csimpl.
  { exists k, 0. rewrite Z.add_0_r. split_and!; try done; try (intros; lia).
    intros []%held_nil. }
  apply Forall_cons in Hu as [[Hs32 He32] Hu]. csimpl in Hc. destruct Hc as (? & ? & Hc).
  assert (Hle : (as_i32 (wsub32 (r_start r) (wadd32 n0 k)) <=? 0) = (off (r_start r) n0 <=? k))
    by word_lia.
  assert (Hgt : (0 <? as_i32 (wsub32 (r_end r) (wadd32 n0 k))) = (k <? off (r_end r) n0))
    by word_lia.
  rewrite Hle, Hgt. change (offs n0 r) with (off (r_start r) n0, off (r_end r) n0).
  set (s := off (r_start r) n0) in *. set (e := off (r_end r) n0) in *. clear Hle Hgt.
  case_if; bool_facts.
  - replace (if k <? e then r_end r else wadd32 n0 k) with (wadd32 n0 (Z.max e k)); cycle 1.
    { case_if; bool_facts; [rewrite Z.max_l by lia; unfold e; by apply wadd32_off|].
      by rewrite Z.max_r by lia. }
    destruct (IH e (Z.max e k) (d + 1) Hu ltac:(lia) Hc ltac:(lia))
      as (k' & j & -> & ? & ? & ? & Hin & Hnot & Hrest).
    exists k', (j + 1). unfold zlen in *. simpl length.
    replace (Z.to_nat (j + 1)) with (S (Z.to_nat j)) by lia. simpl drop.
    split_and!; try lia; try done.
    + f_equal. lia.
    + intros x ?. rewrite held_cons. destruct (decide (x < e)); [left; lia|right; apply Hin; lia].
    + rewrite held_cons. intros [?|?]; [lia|done].
    + intros x ?. rewrite held_cons, Hrest by lia. intuition lia.
  - exists k, 0. rewrite Z.add_0_r. simpl drop. csimpl. change (offs n0 r) with (s, e).
    split_and!; try done; try (intros; lia).
    + rewrite held_cons. intros [?|Hh]; [lia|]. apply (chain_held_bounds e) in Hh; [lia|done].
Qed.

(** [advance] moves RCV.NXT over exactly the run that became contiguous. *)
Lemma advance_spec MAX o n0 k :
  wf MAX o n0 -> 0 <= k < M31 ->
  exists k' o', advance o (wadd32 n0 k) = (o', wadd32 n0 k') /\
    k <= k' < M31 /\ wf MAX o' (wadd32 n0 k') /\
    (forall x, k <= x < k' -> held (view o n0) x) /\ ~ held (view o n0) k' /\
    (forall x, 0 <= x -> held (view o' (wadd32 n0 k')) x <-> held (view o n0) (k' + x)).
Proof.
  intros Hwf Hk. pose proof (zlen_slice _ _ _ Hwf) as Hsl. destruct Hwf as [Hcap Hlen Hu Hc] eqn:Hw.
  unfold advance. destruct (advance_scan_spec n0 (slice o) 0 k 0 Hu ltac:(lia) Hc Hk)
    as (k' & j & -> & ? & ? & Hc' & Hin & Hnot & Hrest).
  rewrite Z.add_0_l. exists k'.
  assert (Hslice : forall o', ranges o' = rotate_left_range (ranges o) 0 (len o) j ->
    len o' = len o - j -> slice o' = drop (Z.to_nat j) (slice o)).
  { intros o' Hr Hl. unfold slice at 1. rewrite Hr, Hl.
    rewrite get_range_eq by (rewrite ?zlen_rotate_left_range; lia).
    rewrite Z.sub_0_r, drop_0. simpl. by rewrite drop_slots, <- (slice_take _ _ _ Hwf) by lia. }
  destruct (rebase n0 k' (drop (Z.to_nat j) (slice o)) ltac:(lia) ltac:(by apply Forall_drop) Hc')
    as [Hc'' Hheld].
  assert (Hmk : forall o', zlen (ranges o') = MAX -> 0 <= len o' <= MAX ->
    slice o' = drop (Z.to_nat j) (slice o) ->
    wf MAX o' (wadd32 n0 k') /\ (forall x, k <= x < k' -> held (view o n0) x) /\ ~ held (view o n0) k' /\
    (forall x, 0 <= x -> held (view o' (wadd32 n0 k')) x <-> held (view o n0) (k' + x))).
  { intros o' ? ? Hs. split_and!; try done.
    - split; [done|done| |]; rewrite ?Hs; [by apply Forall_drop|unfold view; by rewrite Hs].
    - intros x ?. unfold view. rewrite Hs, Hheld, Hrest by lia. done. }
  case_if; bool_facts; eexists; (split; [done|]); (split; [lia|]); apply Hmk; cbn [ranges len];
    rewrite ?zlen_rotate_left_range; try lia.
  - by apply Hslice.
  - replace j with 0 by lia. done.
Qed.

(** [truncate_from] keeps exactly what lies below the limit. *)
Fixpoint cut (lim : Z) (l : list (Z * Z)) : list (Z * Z) :=
  match l with
  | [] => []
  | (a, b) :: l' =>
      if b <=? lim then (a, b) :: cut lim l' else if a <? lim then [(a, lim)] else []
  end.

Lemma chain_cut lim p l : chain p l -> lim < M31 -> chain p (cut lim l).
Proof.
  revert p. induction l as [|[a b] l IH]; intros p; simpl; [done|]. intros (? & ? & ?) ?.
  repeat case_if; bool_facts; simpl; auto with lia.
Qed.

Lemma held_cut lim p l x : chain p l -> held (cut lim l) x <-> held l x /\ x < lim.
Proof.
  revert p. induction l as [|[a b] l IH]; intros p; simpl; [by rewrite held_nil; tauto|].
  intros (? & ? & Hc). rewrite held_cons.
  assert (held l x -> b < x) by (intros Hh; apply (chain_held_bounds _ _ _ Hc) in Hh; lia).
  repeat case_if; bool_facts; rewrite ?held_cons, ?held_nil, ?(IH _ Hc); intuition lia.
Qed.

Lemma truncate_slice MAX o limit nxt :
  wf MAX o nxt ->
  let o' := truncate_from o limit nxt in
  let k := partition_point (fun r => off (r_end r) nxt <=? off limit nxt) (slice o) in
  zlen (ranges o') = MAX /\ 0 <= len o' <= MAX /\
  slice o' = take (Z.to_nat k) (slice o) ++
    match drop (Z.to_nat k) (slice o) with
    | r :: _ => if off (r_start r) nxt <? off limit nxt
                then [mkRange (r_start r) limit (r_tag r)] else []
    | [] => []
    end.
Proof.
  intros Hwf o' k. pose proof (zlen_slice _ _ _ Hwf) as Hsl.
  pose proof (slice_take _ _ _ Hwf) as Hst. pose proof Hwf as [Hcap Hlen _ _].
  destruct (partition_point_spec (fun r => off (r_end r) nxt <=? off limit nxt) (slice o))
    as (Hk & _ & _). fold k in Hk.
  assert (Hplain : let o' := mk (ranges o) (Z.min (len o) k) (next_tag o) in
    zlen (ranges o') = MAX /\ 0 <= len o' <= MAX /\ slice o' = take (Z.to_nat k) (slice o)).
  { simpl. split_and!; try lia. unfold slice at 1. simpl. rewrite get_range_eq by lia. simpl.
    rewrite drop_0, Z.sub_0_r, Hst, take_take. f_equal. lia. }
  unfold o', truncate_from. fold k.
  assert (Hget : get (slice o) k = head (drop (Z.to_nat k) (slice o))).
  { pose proof (get_drop k (slice o) 0 ltac:(lia)) as Hg. rewrite Z.add_0_r in Hg. simpl in Hg.
    rewrite <- Hg. by destruct (drop _ _). }
  case_if; bool_facts.
  - assert (Hr : get (ranges o) k = get (slice o) k)
      by (rewrite Hst, get_take; by replace (k <? len o) with true by lia).
    rewrite Hr, Hget. destruct (drop (Z.to_nat k) (slice o)) as [|r rest] eqn:Hd; cbn [head].
    { rewrite app_nil_r; exact Hplain. }
    case_if; bool_facts; [|rewrite app_nil_r; exact Hplain].
    cbn [ranges len]. rewrite zlen_set_at. split_and!; try lia.
    unfold slice at 1. cbn [ranges len]. rewrite get_range_eq by (rewrite ?zlen_set_at; lia). simpl.
    replace (Z.to_nat (Z.min (len o) (k + 1) - 0)) with (S (Z.to_nat k)) by lia.
    unfold set_at. replace (0 <=? k) with true by lia.
    rewrite drop_0, (take_S_r _ _ (mkRange (r_start r) limit (r_tag r))).
    + by rewrite take_insert_ge, Hst, take_take, Nat.min_l by lia.
    + apply list_lookup_insert_eq. unfold zlen in *. lia.
  - rewrite drop_ge by (unfold zlen in *; lia). rewrite app_nil_r; exact Hplain.
Qed.

Lemma cut_partition lim l :
  let k := Z.to_nat (partition_point (fun r : Z * Z => r.2 <=? lim) l) in
  cut lim l = take k l ++
    match drop k l with (a, _) :: _ => if a <? lim then [(a, lim)] else [] | [] => [] end.
Proof.
  induction l as [|[a b] l IH]; simpl; [done|]. case_if; [|done].
  destruct (partition_point_spec (fun r : Z * Z => r.2 <=? lim) l) as [? _].
  replace (Z.to_nat (1 + _)) with (S (Z.to_nat (partition_point (fun r : Z * Z => r.2 <=? lim) l))) by lia.
  simpl. by f_equal.
Qed.

Lemma truncate_view MAX o limit nxt :
  wf MAX o nxt -> view (truncate_from o limit nxt) nxt = cut (off limit nxt) (view o nxt).
Proof.
  intros Hwf. destruct (truncate_slice MAX o limit nxt Hwf) as (_ & _ & Hs).
  unfold view. rewrite Hs, cut_partition, partition_point_fmap, <- fmap_take, <- fmap_drop, fmap_app.
  f_equal. destruct (drop _ _) as [|r rest]; csimpl; [done|]. by case_if.
Qed.

Lemma truncate_from_spec MAX o limit nxt :
  wf MAX o nxt -> is_u32 limit -> off limit nxt < M31 ->
  wf MAX (truncate_from o limit nxt) nxt /\
  (forall x, held (view (truncate_from o limit nxt) nxt) x <->
             held (view o nxt) x /\ x < off limit nxt).
Proof.
  intros Hwf Hl32 Hlim. destruct (truncate_slice MAX o limit nxt Hwf) as (? & ? & Hs).
  pose proof (truncate_view MAX o limit nxt Hwf) as Hv. pose proof (wf_chain _ _ _ Hwf) as Hc.
  rewrite Hv. split; [|intros x; by eapply held_cut].
  split; [done|done| |by rewrite Hv; apply chain_cut].
  pose proof (wf_u32 _ _ _ Hwf) as Hu. rewrite Hs, Forall_app. split; [by apply Forall_take|].
  rewrite <- (take_drop (Z.to_nat (partition_point (fun r => off (r_end r) nxt <=? off limit nxt) (slice o))) (slice o)), Forall_app in Hu.
  destruct Hu as [_ Hu]. destruct (drop _ _) as [|r rest]; [done|].
  apply Forall_cons in Hu as [[? ?] _]. case_if; [|done]. constructor; [by split|done].
Qed.

(** The debug check decides the invariant. *)
Lemma debug_valid_chain o nxt : debug_valid o nxt = true <-> chain 0 (view o nxt).
Proof.
  assert (Hgen : forall l p, 0 <= p -> valid_from nxt (Some p) l = true <-> chain p (offs nxt <$> l)).
  { induction l as [|r l IH]; intros p Hp; csimpl; [done|]. unfold offs at 1.
    pose proof (Z.mod_pos_bound (r_start r - nxt) M32 eq_refl).
    repeat case_if; bool_facts; try (rewrite IH by word_lia); intuition (try done; lia). }
  unfold debug_valid, view. destruct (slice o) as [|r l]; csimpl; [done|]. unfold offs at 1.
  assert (0 <= off (r_start r) nxt) by word_lia.
  case_if; bool_facts; [intuition (try done; lia)|]. rewrite Hgen by lia. intuition lia.
Qed.

(** ** Queries *)

Definition total (l : list (Z * Z)) : Z := foldr (fun q a => q.2 - q.1 + a) 0 l.

Lemma total_bounds p l : chain p l -> 0 <= p < M31 -> 0 <= total l <= chain_end p l - p /\ chain_end p l < M31.
Proof.
  revert p. induction l as [|[s e] l IH]; intros p; simpl; [lia|].
  intros (? & ? & Hc) ?. destruct (IH e Hc ltac:(lia)). lia.
Qed.

(** The fold never saturates: the byte count is the size of the held set. *)
Lemma held_bytes_total MAX o nxt : wf MAX o nxt -> held_bytes o = total (view o nxt) /\ held_bytes o < M31.
Proof.
  intros [_ _ Hu Hc].
  assert (Hgen : forall l p a, Forall u32_range l -> 0 <= p -> chain p (offs nxt <$> l) -> 0 <= a <= p ->
    foldl (fun a r => sat_add32 a (wsub32 (r_end r) (r_start r))) a l = a + total (offs nxt <$> l)).
  { clear. induction l as [|r l IH]; intros p a Hu Hp Hc Ha; csimpl; [lia|].
    apply Forall_cons in Hu as [[? ?] Hu]. csimpl in Hc. destruct Hc as (? & ? & Hc).
    replace (sat_add32 a (wsub32 (r_end r) (r_start r)))
      with (a + (off (r_end r) nxt - off (r_start r) nxt)) by word_lia.
    rewrite (IH (off (r_end r) nxt)) by (done || lia). lia. }
  assert (Heq : held_bytes o = total (view o nxt)).
  { unfold held_bytes, view. rewrite (Hgen _ 0 0) by (done || lia). lia. }
  split; [done|]. rewrite Heq. destruct (total_bounds 0 (view o nxt) Hc) as [? ?]; lia.
Qed.

Lemma containing_spec MAX o nxt x :
  wf MAX o nxt -> 0 <= x < M31 ->
  match containing o (wadd32 nxt x) with
  | Some (a, b) => (off a nxt, off b nxt) ∈ view o nxt /\ off a nxt <= x < off b nxt
  | None => ~ held (view o nxt) x
  end.
Proof.
  intros [_ _ Hu Hc] Hx. unfold containing, view in *. set (P := fun r => _ && _).
  assert (HP : forall r, r ∈ slice o -> P r = (off (r_start r) nxt <=? x) && (x <? off (r_end r) nxt)).
  { intros r Hr. rewrite Forall_forall in Hu. destruct (Hu r Hr).
    apply (list_elem_of_fmap_2 (offs nxt)), (chain_bounds _ _ _ _ Hc) in Hr. unfold P. word_lia. }
  destruct (List.find P (slice o)) as [r|] eqn:Hf; simpl.
  - apply List.find_some in Hf as [Hin Hr]. apply list_elem_of_In in Hin.
    rewrite HP in Hr by done. split; [|lia]. by apply (list_elem_of_fmap_2 (offs nxt)).
  - intros (s & e & Hin & ?). apply list_elem_of_fmap in Hin as (r & [= -> ->] & Hin).
    assert (Hr : P r = false) by (apply (List.find_none _ _ Hf); by apply list_elem_of_In).
    rewrite HP in Hr by done. lia.
Qed.

(** ** The SACK blocks reported *)

Section Youngest.
Variable o : t.

Definition younger (r r' : Range) : Prop := age o r <= age o r'.

(** The whole slice in age order, by the comparisons of the inner loop. *)
Fixpoint ins (c : Range) (T : list Range) : list Range :=
  match T with
  | [] => [c]
  | h :: T' => if age o c <? age o h then c :: ins h T' else h :: ins c T'
  end.

Definition by_age (l : list Range) : list Range := foldl (fun T r => ins r T) [] l.

Lemma ins_perm T c : ins c T ≡ₚ c :: T.
Proof.
  revert c. induction T as [|h T IH]; intros c; simpl; [done|].
  case_if; rewrite IH; [done|apply Permutation_swap].
Qed.

Lemma ins_sorted T c : StronglySorted younger T -> StronglySorted younger (ins c T).
Proof.
  revert c. induction T as [|h T IH]; intros c; simpl; [repeat constructor|].
  intros [HT Hh]%StronglySorted_inv.
  assert (Hall : forall a, younger a h -> Forall (younger a) T).
  { intros a ?. apply (Forall_impl _ _ _ Hh). unfold younger in *. intros. lia. }
  case_if; bool_facts; (constructor; [by apply IH|]); rewrite ins_perm, Forall_cons;
    split; auto; try (apply Hall); unfold younger; lia.
Qed.

Lemma by_age_spec l : by_age l ≡ₚ l /\ StronglySorted younger (by_age l).
Proof.
  unfold by_age. destruct l as [|c l _] using rev_ind; [split; [done|constructor]|].
  assert (Hgen : forall l T, StronglySorted younger T ->
    foldl (fun T r => ins r T) T l ≡ₚ T ++ l /\ StronglySorted younger (foldl (fun T r => ins r T) T l)).
  { clear. induction l as [|r l IH]; intros T HT; simpl; [by rewrite app_nil_r|].
    destruct (IH (ins r T) (ins_sorted T r HT)) as [HP ?]. split; [|done].
    rewrite HP, ins_perm. simpl. by rewrite Permutation_middle. }
  apply (Hgen (l ++ [c]) []). constructor.
Qed.

Lemma take_ins k T c : take k (ins c (take k T)) = take k (ins c T).
Proof.
  revert k c. induction T as [|h T IH]; intros [|k] c; simpl; try done.
  case_if; simpl; by rewrite IH.
Qed.

(** One pass of the inner loop over the [k] best slots. *)
Lemma place_ins k T : forall c n,
  (k <= n)%nat ->
  place o c k ((Some <$> take k T) ++ replicate (n - length (take k T)) None) =
  (Some <$> take k (ins c T)) ++ replicate (n - length (take k (ins c T))) None.
Proof.
  revert T. induction k as [|k IH]; intros T c n Hn; [done|].
  destruct n as [|n]; [lia|]. destruct T as [|h T]; csimpl.
  - rewrite take_nil. simpl. by rewrite Nat.sub_0_r.
  - case_if; csimpl; by rewrite IH by lia.
Qed.

Lemma place_by_age k n l :
  (k <= n)%nat ->
  foldl (fun top r => place o r k top) (replicate n None) l =
  (Some <$> take k (by_age l)) ++ replicate (n - length (take k (by_age l))) None.
Proof.
  intros Hk. unfold by_age. assert (Hgen : forall T,
    foldl (fun top r => place o r k top) ((Some <$> take k T) ++ replicate (n - length (take k T)) None) l =
    (Some <$> take k (foldl (fun T r => ins r T) T l)) ++
      replicate (n - length (take k (foldl (fun T r => ins r T) T l))) None).
  { induction l as [|c l IH]; intros T; simpl; [done|]. by rewrite place_ins. }
  specialize (Hgen []). rewrite take_nil in Hgen. simpl in Hgen. by rewrite Nat.sub_0_r in Hgen.
Qed.

Lemma push_all l s :
  SackBlocks.wf s ->
  let s' := foldl (fun s r => match r with
                              | Some r => SackBlocks.push s (r_start r) (r_end r)
                              | None => s
                              end) s (Some <$> l) in
  SackBlocks.wf s' /\
  SackBlocks.as_slice s' =
  take 4 (SackBlocks.as_slice s ++ ((fun r => (r_start r, r_end r)) <$> l)).
Proof.
  revert s. induction l as [|r l IH]; intros s Hs; csimpl.
  - split; [done|]. rewrite app_nil_r, take_ge; [done|].
    pose proof (SackBlocks.as_slice_length s Hs). destruct Hs. unfold zlen in *. lia.
  - destruct (IH (SackBlocks.push s (r_start r) (r_end r))) as [? ->];
      [by apply SackBlocks.push_wf|]. split; [done|]. rewrite SackBlocks.push_slice by done.
    change ((r_start r, r_end r) :: ((fun r => (r_start r, r_end r)) <$> l))
      with ([(r_start r, r_end r)] ++ ((fun r => (r_start r, r_end r)) <$> l)).
    rewrite (assoc_L (++)). generalize (SackBlocks.as_slice s ++ [(r_start r, r_end r)]) as a.
    generalize ((fun r => (r_start r, r_end r)) <$> l) as b. intros b a.
    rewrite !take_app, take_take, length_take. f_equal. f_equal. lia.
Qed.

(** The blocks appended are the youngest ranges, most recent first. *)
Lemma fill_sack_blocks_spec s max :
  SackBlocks.wf s -> 0 <= max ->
  let s' := fill_sack_blocks o s max in
  SackBlocks.wf s' /\
  SackBlocks.as_slice s' =
  take 4 (SackBlocks.as_slice s ++
          ((fun r => (r_start r, r_end r)) <$> take (Z.to_nat (Z.min max 4)) (by_age (slice o)))).
Proof.
  intros Hs Hmax s'. unfold s', fill_sack_blocks. rewrite place_by_age by lia.
  set (k := Z.to_nat (Z.min max 4)). set (T := take k (by_age (slice o))).
  assert (HT : (length T <= k)%nat) by (unfold T; rewrite length_take; lia).
  rewrite take_app, length_fmap.
  rewrite (take_ge (Some <$> T)) by (rewrite length_fmap; lia).
  rewrite foldl_app, take_replicate.
  assert (Hnone : forall n s, foldl (fun s r => match r with
      | Some r => SackBlocks.push s (r_start r) (r_end r) | None => s end) s (replicate n None) = s)
    by (clear; induction n; simpl; auto).
  rewrite Hnone. by apply push_all.
Qed.
End Youngest.

(** ** Properties *)

Lemma new_wf MAX nxt : 0 <= MAX -> wf MAX (new MAX) nxt.
Proof.
  intros ?. split; simpl.
  - unfold zlen. rewrite length_replicate. lia.
  - lia.
  - unfold slice, get_range. simpl. case_if; constructor.
  - unfold view, slice, get_range. simpl. by case_if.
Qed.

(** C16: Recording [[start, end)] adds exactly that interval to the set of held
    sequence offsets, keeps the list sorted, disjoint, non-adjacent and above
    RCV.NXT, and flags a duplicate exactly when every offset of it was held
    already.  The only refusal is a new range, touching none that is held, when
    all [MAX] slots are in use; the held ranges are then unchanged. *)
Theorem insert_is_union MAX o start end_ nxt
    (Hwf : wf MAX o nxt) (Hs : is_u32 start) (He : is_u32 end_)
    (Hord : 0 < off start nxt < off end_ nxt) (Hwin : off end_ nxt < M31) :
  match insert MAX o start end_ nxt with
  | (o', Stored dup) =>
      wf MAX o' nxt /\
      (forall x, held (view o' nxt) x <->
                 held (view o nxt) x \/ off start nxt <= x < off end_ nxt) /\
      (dup = true <-> forall x, off start nxt <= x < off end_ nxt -> held (view o nxt) x)
  | (o', Full) =>
      len o = MAX /\ slice o' = slice o /\ wf MAX o' nxt /\
      (forall a b, (a, b) ∈ view o nxt -> b < off start nxt \/ off end_ nxt < a)
  end.
Proof. by apply insert_spec. Qed.

(** Three ranges held of four, above RCV.NXT = 2^32 - 50 (the offsets wrap). *)
Definition sample : t :=
  mk [mkRange 50 100 3; mkRange 200 300 1; mkRange 400 500 2; mkRange 0 0 0] 3 4.
Definition sample_nxt : Z := M32 - 50.

Lemma sample_wf : wf 4 sample sample_nxt.
Proof.
  split; [done|done| |].
  - change (slice sample) with (take 3 (ranges sample)). repeat (apply Forall_cons; split; [done|]). done.
  - by vm_compute.
Qed.

Lemma insert_is_union_witness :
  insert 4 sample 300 400 sample_nxt =
    (mk [mkRange 50 100 3; mkRange 200 500 4; mkRange 400 500 2; mkRange 0 0 0] 2 5, Stored false) /\
  (forall x, held (view (insert 4 sample 300 400 sample_nxt).1 sample_nxt) x <->
             held (view sample sample_nxt) x \/ 350 <= x < 450).
Proof.
  split; [by vm_compute|].
  exact (proj1 (proj2 (insert_is_union 4 sample 300 400 sample_nxt sample_wf
    ltac:(done) ltac:(done) ltac:(done) ltac:(done)))).
Defined.

(** C17: When RCV.NXT moves from [n0] to [n0 + k], [advance] moves it on over
    exactly the bytes already held contiguously: every offset passed was held,
    the one it stops at was not, and what stays recorded is what was held above,
    re-based to the new RCV.NXT with the invariant intact. *)
Theorem advance_consumes_run MAX o n0 k
    (Hwf : wf MAX o n0) (Hk : 0 <= k < M31) :
  exists k' o', advance o (wadd32 n0 k) = (o', wadd32 n0 k') /\
    k <= k' < M31 /\ wf MAX o' (wadd32 n0 k') /\
    (forall x, k <= x < k' -> held (view o n0) x) /\ ~ held (view o n0) k' /\
    (forall x, 0 <= x -> held (view o' (wadd32 n0 k')) x <-> held (view o n0) (k' + x)).
Proof. by apply advance_spec. Qed.

Lemma advance_consumes_run_witness :
  exists k' o', advance sample (wadd32 sample_nxt 260) = (o', wadd32 sample_nxt k') /\
    260 <= k' < M31 /\ wf 4 o' (wadd32 sample_nxt k') /\
    (forall x, 260 <= x < k' -> held (view sample sample_nxt) x) /\
    ~ held (view sample sample_nxt) k' /\
    (forall x, 0 <= x -> held (view o' (wadd32 sample_nxt k')) x <->
                         held (view sample sample_nxt) (k' + x)).
Proof. apply (advance_consumes_run 4 sample sample_nxt 260 sample_wf). lia. Defined.

(** C18: Once the peer's FIN position [limit] is known, [truncate_from] keeps
    exactly the held offsets below it, and keeps the invariant. *)
Theorem truncate_keeps_below MAX o limit nxt
    (Hwf : wf MAX o nxt) (Hl : is_u32 limit) (Hwin : off limit nxt < M31) :
  wf MAX (truncate_from o limit nxt) nxt /\
  (forall x, held (view (truncate_from o limit nxt) nxt) x <->
             held (view o nxt) x /\ x < off limit nxt).
Proof. by apply truncate_from_spec. Qed.

Lemma truncate_keeps_below_witness :
  slice (truncate_from sample 250 sample_nxt) = [mkRange 50 100 3; mkRange 200 250 1] /\
  forall x, held (view (truncate_from sample 250 sample_nxt) sample_nxt) x <->
            held (view sample sample_nxt) x /\ x < 300.
Proof.
  split; [by vm_compute|].
  exact (proj2 (truncate_keeps_below 4 sample 250 sample_nxt sample_wf ltac:(done) ltac:(done))).
Defined.



End Ooo.
