(* ===== verification/TxRing.v ===== *)
(** * Egress staging ring (src/tx_ring.rs).

    A bounded FIFO of packet slots.  A packet is staged by a closure that fills
    the lent slot and reports a length; the model takes the closure as a function
    from the slot's old bytes to its new bytes and result.  The ring refines a
    queue of packets: pushes append, pops take the head, a full ring refuses
    without change, and a failed closure stages nothing. *)
From S2P Require Import Prelude Error.

Module TxRing.

Definition TX_RING_CAP : Z := 32.

Definition tx_slots_for (buf : Z) : Z :=
  if buf <=? 64 * 1024 then 8 else if buf <=? 256 * 1024 then 16 else TX_RING_CAP.

Record Slot := mkSlot { sbuf : list Z; slen : Z }.

Record t := mk { slots : list Slot; head : Z; len : Z }.

Section Ops.
Variables (SLOTS MAX_PACKET : Z).

Definition slot_new : Slot := mkSlot (replicate (Z.to_nat MAX_PACKET) 0) 0.

Definition new : t := mk (replicate (Z.to_nat SLOTS) slot_new) 0 0.

Definition is_empty (r : t) : bool := len r =? 0.
Definition is_full (r : t) : bool := len r =? SLOTS.

Definition clear (r : t) : t := mk (slots r) 0 0.

Definition peek_head_len (r : t) : option Z :=
  if len r =? 0 then None else slen <$> get (slots r) (head r).

(** [f] fills the slot's buffer in place and returns the bytes written. *)
Definition push_with (r : t) (f : list Z -> list Z * Res Z) : t * Res bool :=
  if len r =? SLOTS then (r, Ok false) else
  let tail := (head r + len r) mod SLOTS in
  match get (slots r) tail with
  | None => (r, Err Overflow)
  | Some slot =>
      let '(b, res) := f (sbuf slot) in
      let r1 := mk (set_at (slots r) tail (mkSlot b (slen slot))) (head r) (len r) in
      match res with
      | Err e => (r1, Err e)
      | Ok n =>
          if (n =? 0) || (MAX_PACKET <? n) then (r1, Err Overflow)
          else (mk (set_at (slots r) tail (mkSlot b (as_u16 n))) (head r) (len r + 1), Ok true)
      end
  end.

Definition pop_into (r : t) (out : list Z) : t * list Z * Res Z :=
  if len r =? 0 then (r, out, Ok 0) else
  match get (slots r) (head r) with
  | None => (r, out, Err Overflow)
  | Some slot =>
      let n := slen slot in
      if zlen out <? n then (r, out, Err BufferTooSmall) else
      match get_range (sbuf slot) 0 n with
      | None => (r, out, Err Overflow)
      | Some src =>
          (mk (slots r) ((head r + 1) mod SLOTS) (len r - 1),
           copy_range out 0 n src 0 n, Ok n)
      end
  end.

Definition pop_with {R} (r : t) (f : list Z -> R) : t * option R :=
  if len r =? 0 then (r, None) else
  match get (slots r) (head r) with
  | None => (r, None)
  | Some slot =>
      match get_range (sbuf slot) 0 (slen slot) with
      | None => (r, None)
      | Some b => (mk (slots r) ((head r + 1) mod SLOTS) (len r - 1), Some (f b))
      end
  end.

(** ** Well-formedness and the queue of staged packets *)

Definition slot_index (r : t) (i : Z) : Z := (head r + i) mod SLOTS.

Definition packet (r : t) (i : Z) : list Z :=
  match get (slots r) (slot_index r i) with
  | Some s => take (Z.to_nat (slen s)) (sbuf s)
  | None => []
  end.

Definition packets (r : t) : list (list Z) := packet r <$> seqZ 0 (len r).

Record wf (r : t) : Prop := mk_wf {
  wf_slots : zlen (slots r) = SLOTS;
  wf_head : 0 <= head r < SLOTS;
  wf_len : 0 <= len r <= SLOTS;
  wf_bufs : forall i s, get (slots r) i = Some s -> zlen (sbuf s) = MAX_PACKET;
  wf_used : forall i s, 0 <= i < len r -> get (slots r) (slot_index r i) = Some s ->
                        1 <= slen s <= MAX_PACKET;
}.

End Ops.

Section Proofs.
Variables (SLOTS MAX_PACKET : Z).
Hypothesis Hslots : 0 < SLOTS.
Hypothesis Hpkt : 0 < MAX_PACKET < M16.

(** A closure hands back the buffer it was lent. *)
Definition fills (f : list Z -> list Z * Res Z) : Prop :=
  forall b, zlen b = MAX_PACKET ->
    zlen (f b).1 = MAX_PACKET /\ match (f b).2 with Ok n => 0 <= n < M64 | Err _ => True end.

Lemma slot_index_bound r i : 0 <= slot_index SLOTS r i < SLOTS.
Proof using Hslots. apply Z.mod_pos_bound. lia. Qed.

Lemma slot_index_inj r i j :
  0 <= i < SLOTS -> 0 <= j < SLOTS -> slot_index SLOTS r i = slot_index SLOTS r j -> i = j.
Proof using Hslots.
  unfold slot_index. intros Hi Hj Heq. clear -Hslots Hi Hj Heq.
  assert (Hd : (i - j) mod SLOTS = 0).
  { replace (i - j) with ((head r + i) - (head r + j)) by lia.
    rewrite Zminus_mod, Heq, Z.sub_diag. apply Z.mod_0_l. lia. }
  apply Z.mod_divide in Hd as [q Hq]; [|lia].
  assert (q <= -1 \/ q = 0 \/ 1 <= q) as [?|[->|?]] by lia; [nia|lia|nia].
Qed.

Lemma tx_new_wf : wf SLOTS MAX_PACKET (new SLOTS MAX_PACKET) /\ packets SLOTS (new SLOTS MAX_PACKET) = [].
Proof using Hslots Hpkt.
  split; [|done]. split; simpl; unfold zlen; rewrite ?length_replicate; try lia.
  intros i s (? & Hl)%get_Some. apply lookup_replicate in Hl as [-> _]. simpl.
  rewrite length_replicate. lia.
Qed.

Lemma tx_clear_wf r : wf SLOTS MAX_PACKET r -> wf SLOTS MAX_PACKET (clear r) /\ packets SLOTS (clear r) = [].
Proof using Hslots. intros [? ? ? ? _]. split; [|done]. split; simpl; try done; try lia. Qed.

(** Writing the tail slot leaves the staged packets alone. *)
Lemma packets_set_tail r s :
  wf SLOTS MAX_PACKET r -> len r < SLOTS ->
  packets SLOTS (mk (set_at (slots r) (slot_index SLOTS r (len r)) s) (head r) (len r)) = packets SLOTS r.
Proof using Hslots.
  intros Hwf Hl. apply list_fmap_ext. intros k i Hi%lookup_seqZ. unfold packet. cbn [slots].
  change (slot_index SLOTS (mk _ (head r) (len r)) i) with (slot_index SLOTS r i).
  rewrite get_set_at_ne; [done|]. intros Heq%slot_index_inj; destruct Hwf; lia.
Qed.

Lemma wf_set_tail r s :
  wf SLOTS MAX_PACKET r -> len r < SLOTS -> zlen (sbuf s) = MAX_PACKET ->
  wf SLOTS MAX_PACKET (mk (set_at (slots r) (slot_index SLOTS r (len r)) s) (head r) (len r)).
Proof using Hslots.
  intros [Hs Hh Hl Hb Hu] Hlt Hz. pose proof (slot_index_bound r (len r)).
  split; cbn [slots head len]; rewrite ?zlen_set_at; try done.
  - intros i s' Hg. destruct (decide (slot_index SLOTS r (len r) = i)) as [<-|Hne].
    + rewrite get_set_at_eq in Hg by lia. by injection Hg as <-.
    + rewrite get_set_at_ne in Hg by done. by apply (Hb i).
  - intros i s' Hi. change (slot_index SLOTS (mk _ (head r) (len r)) i) with (slot_index SLOTS r i).
    rewrite get_set_at_ne; [by apply Hu|]. intros Heq%slot_index_inj; lia.
Qed.

(** ** What each call does to the queue *)

(** The bounded FIFO contract of one call.  The closure sees some buffer of
    [MAX_PACKET] bytes. *)
Inductive push_result (q : list (list Z)) (f : list Z -> list Z * Res Z)
    : list (list Z) -> Res bool -> Prop :=
  | PushFull : zlen q = SLOTS -> push_result q f q (Ok false)
  | PushFailed b e : zlen q < SLOTS -> zlen b = MAX_PACKET ->
      (f b).2 = Err e -> push_result q f q (Err e)
  | PushBadLength b n : zlen q < SLOTS -> zlen b = MAX_PACKET ->
      (f b).2 = Ok n -> n = 0 \/ MAX_PACKET < n -> push_result q f q (Err Overflow)
  | PushStaged b n : zlen q < SLOTS -> zlen b = MAX_PACKET ->
      (f b).2 = Ok n -> 1 <= n <= MAX_PACKET ->
      push_result q f (q ++ [take (Z.to_nat n) (f b).1]) (Ok true).

Lemma packets_zlen r : 0 <= len r -> zlen (packets SLOTS r) = len r.
Proof using. intros. unfold packets, zlen. rewrite length_fmap, length_seqZ. lia. Qed.

Lemma push_with_spec r f :
  wf SLOTS MAX_PACKET r -> fills f ->
  let '(r', res) := push_with SLOTS MAX_PACKET r f in
  wf SLOTS MAX_PACKET r' /\ push_result (packets SLOTS r) f (packets SLOTS r') res.
Proof using Hslots Hpkt.
  intros Hwf Hf. pose proof Hwf as [Hs Hh Hl Hb Hu]. unfold push_with.
  change ((head r + len r) mod SLOTS) with (slot_index SLOTS r (len r)).
  pose proof (packets_zlen r ltac:(lia)) as Hq.
  case_if; bool_facts; [split; [done|constructor; lia]|].
  pose proof (slot_index_bound r (len r)) as Hi.
  destruct (get (slots r) (slot_index SLOTS r (len r))) as [slot|] eqn:Hg;
    [|destruct (get_is_Some (slots r) (slot_index SLOTS r (len r))) as [_ [? ?]]; [lia|congruence]].
  pose proof (Hb _ _ Hg) as Hz. destruct (Hf _ Hz) as [Hz' Hn].
  destruct (f (sbuf slot)) as [b res] eqn:Hfb. cbn [fst snd] in Hz', Hn.
  assert (Hkeep : forall n, wf SLOTS MAX_PACKET
      (mk (set_at (slots r) (slot_index SLOTS r (len r)) (mkSlot b n)) (head r) (len r)))
    by (intros; apply wf_set_tail; done || lia).
  assert (Hr : (f (sbuf slot)).2 = res) by (by rewrite Hfb).
  destruct res as [n|e]; [|split; [done|]; rewrite packets_set_tail by (done || lia);
    by apply (PushFailed _ _ (sbuf slot)); [lia|..]].
  case_if; bool_facts; [split; [done|]; rewrite packets_set_tail by (done || lia);
    apply (PushBadLength _ _ (sbuf slot) n); done || lia|].
  assert (Hn16 : as_u16 n = n) by word_lia. rewrite Hn16. split.
  - destruct (Hkeep n) as [? ? ? ? Hu']. split; cbn [slots head len] in *; try done; [lia|].
    intros i s Hi'. destruct (decide (i = len r)) as [->|]; [|apply Hu'; lia].
    change (slot_index SLOTS (mk _ (head r) (len r + 1)) (len r)) with (slot_index SLOTS r (len r)).
    rewrite get_set_at_eq by lia. intros [= <-]. simpl. lia.
  - assert (Hp : packets SLOTS (mk (set_at (slots r) (slot_index SLOTS r (len r)) (mkSlot b n))
        (head r) (len r + 1)) = packets SLOTS r ++ [take (Z.to_nat n) (f (sbuf slot)).1]);
      [|rewrite Hp; apply (PushStaged _ _ (sbuf slot)); done || lia].
    rewrite <- (packets_set_tail r (mkSlot b n)) by (done || lia).
    unfold packets. cbn [len]. rewrite (seqZ_app 0 (len r) 1), fmap_app by lia. f_equal. simpl. f_equal.
    unfold packet. cbn [slots]. rewrite !Z.add_0_l.
    change (slot_index SLOTS (mk _ (head r) (len r + 1)) (len r)) with (slot_index SLOTS r (len r)).
    rewrite get_set_at_eq by lia. by rewrite Hfb.
Qed.

Lemma pop_packets r :
  wf SLOTS MAX_PACKET r -> 0 < len r ->
  exists slot, get (slots r) (head r) = Some slot /\ 1 <= slen slot <= MAX_PACKET /\
    zlen (sbuf slot) = MAX_PACKET /\
    let r' := mk (slots r) ((head r + 1) mod SLOTS) (len r - 1) in
    wf SLOTS MAX_PACKET r' /\
    packets SLOTS r = take (Z.to_nat (slen slot)) (sbuf slot) :: packets SLOTS r'.
Proof using Hslots.
  intros [Hs Hh Hl Hb Hu] Hpos.
  destruct (get_is_Some (slots r) (head r)) as [_ [slot Hg]]; [lia|].
  assert (H0 : slot_index SLOTS r 0 = head r)
    by (unfold slot_index; rewrite Z.add_0_r, Z.mod_small; lia).
  exists slot. split; [done|]. split; [apply (Hu 0); [lia|by rewrite H0]|]. split; [by apply (Hb (head r))|].
  intros r'. assert (Hi : forall i, slot_index SLOTS r' i = slot_index SLOTS r (i + 1)).
  { intros i. unfold slot_index, r'. cbn [head]. rewrite Zplus_mod_idemp_l. f_equal. lia. }
  split.
  - split; try (unfold r'; cbn [slots head len]; done || lia || (apply Z.mod_pos_bound; lia)).
    intros i s Hlt. rewrite Hi. apply Hu. unfold r' in Hlt. cbn [len] in Hlt. lia.
  - unfold packets. rewrite (seqZ_cons 0 (len r)) by lia. csimpl. f_equal.
    { unfold packet. by rewrite H0, Hg. }
    change (len r') with (len r - 1). replace (Z.pred (len r)) with (len r - 1) by lia.
    apply list_eq. intros k. rewrite !list_lookup_fmap.
    destruct (decide (Z.of_nat k < len r - 1)).
    + rewrite !lookup_seqZ_lt by lia. simpl. f_equal. unfold packet. rewrite Hi.
      cbn [slots r']. by replace (Z.succ 0 + Z.of_nat k) with (0 + Z.of_nat k + 1) by lia.
    + by rewrite !lookup_seqZ_ge by lia.
Qed.

(** The queue after a pop and what the host receives. *)
Inductive pop_result (q : list (list Z)) (out : list Z)
    : list (list Z) -> list Z -> Res Z -> Prop :=
  | PopEmpty : q = [] -> pop_result q out [] out (Ok 0)
  | PopSmall p q' : q = p :: q' -> zlen out < zlen p -> pop_result q out q out (Err BufferTooSmall)
  | PopHead p q' : q = p :: q' -> zlen p <= zlen out ->
      pop_result q out q' (p ++ drop (length p) out) (Ok (zlen p)).

Lemma packets_nil r : wf SLOTS MAX_PACKET r -> packets SLOTS r = [] <-> len r = 0.
Proof using.
  intros [? ? ? ? ?]. split.
  - intros H. pose proof (packets_zlen r ltac:(lia)) as Hq. rewrite H in Hq. done.
  - intros H. unfold packets. by rewrite H.
Qed.

Lemma pop_into_spec r out :
  wf SLOTS MAX_PACKET r ->
  let '(r', out', res) := pop_into SLOTS r out in
  wf SLOTS MAX_PACKET r' /\ pop_result (packets SLOTS r) out (packets SLOTS r') out' res.
Proof using Hslots.
  intros Hwf. pose proof (wf_len _ _ _ Hwf). unfold pop_into. case_if; bool_facts.
  { split; [done|]. rewrite (proj2 (packets_nil r Hwf)) by done. by constructor. }
  destruct (pop_packets r Hwf ltac:(lia)) as (slot & -> & Hn & Hz & Hwf' & Hp).
  assert (Hlen : zlen (take (Z.to_nat (slen slot)) (sbuf slot)) = slen slot)
    by (rewrite zlen_take; lia).
  case_if; bool_facts.
  { split; [done|]. eapply PopSmall; [done|]. lia. }
  rewrite get_range_eq by lia. rewrite Z.sub_0_r, drop_0. split; [done|].
  rewrite Hp. set (p := take _ _) in *.
  replace (copy_range _ _ _ _ _ _) with (p ++ drop (length p) out);
    [rewrite <- Hlen; eapply PopHead; [done|lia]|].
  rewrite copy_range_eq, Z.sub_0_r by lia. change (Z.to_nat 0) with 0%nat.
  rewrite drop_0, take_ge, inserts_split by (unfold zlen in *; lia). done.
Qed.

Lemma pop_with_spec {R} r (f : list Z -> R) :
  wf SLOTS MAX_PACKET r ->
  let '(r', res) := pop_with SLOTS r f in
  wf SLOTS MAX_PACKET r' /\
  match packets SLOTS r with
  | [] => packets SLOTS r' = [] /\ res = None
  | p :: q => packets SLOTS r' = q /\ res = Some (f p)
  end.
Proof using Hslots.
  intros Hwf. pose proof (wf_len _ _ _ Hwf). unfold pop_with. case_if; bool_facts.
  { split; [done|]. by rewrite (proj2 (packets_nil r Hwf)). }
  destruct (pop_packets r Hwf ltac:(lia)) as (slot & -> & Hn & Hz & Hwf' & Hp).
  rewrite get_range_eq by lia. rewrite Z.sub_0_r, drop_0. split; [done|]. by rewrite Hp.
Qed.

End Proofs.

(** ** Runs *)

Inductive op :=
  | Push (f : list Z -> list Z * Res Z) | Pop (out : list Z) | PopWith | Clear.

Inductive out :=
  | OutPush (r : Res bool) | OutPop (o : list Z) (r : Res Z)
  | OutLent (p : option (list Z)) | OutUnit.

Definition step (SLOTS MAX_PACKET : Z) (r : t) (o : op) : t * out :=
  match o with
  | Push f => let '(r', res) := push_with SLOTS MAX_PACKET r f in (r', OutPush res)
  | Pop o => let '(r', o', res) := pop_into SLOTS r o in (r', OutPop o' res)
  | PopWith => let '(r', p) := pop_with SLOTS r (fun b => b) in (r', OutLent p)
  | Clear => (clear r, OutUnit)
  end.

Fixpoint run (SLOTS MAX_PACKET : Z) (r : t) (os : list op) : t * list out :=
  match os with
  | [] => (r, [])
  | o :: os' =>
      let '(r1, x) := step SLOTS MAX_PACKET r o in
      let '(r2, xs) := run SLOTS MAX_PACKET r1 os' in (r2, x :: xs)
  end.

Definition op_ok (MAX_PACKET : Z) (o : op) : Prop :=
  match o with Push f => fills MAX_PACKET f | _ => True end.

(** The bounded FIFO of packets. *)
Inductive fifo_step (SLOTS MAX_PACKET : Z) (q : list (list Z)) : op -> list (list Z) -> out -> Prop :=
  | FPush f q' res : push_result SLOTS MAX_PACKET q f q' res ->
      fifo_step SLOTS MAX_PACKET q (Push f) q' (OutPush res)
  | FPop o q' o' res : pop_result q o q' o' res -> fifo_step SLOTS MAX_PACKET q (Pop o) q' (OutPop o' res)
  | FPopWith : fifo_step SLOTS MAX_PACKET q PopWith (tail q) (OutLent (List.hd_error q))
  | FClear : fifo_step SLOTS MAX_PACKET q Clear [] OutUnit.

Inductive fifo_run (SLOTS MAX_PACKET : Z) : list (list Z) -> list op -> list (list Z) -> list out -> Prop :=
  | fifo_nil q : fifo_run SLOTS MAX_PACKET q [] q []
  | fifo_cons q o q1 x os q2 xs :
      fifo_step SLOTS MAX_PACKET q o q1 x -> fifo_run SLOTS MAX_PACKET q1 os q2 xs ->
      fifo_run SLOTS MAX_PACKET q (o :: os) q2 (x :: xs).

Section Runs.
Variables (SLOTS MAX_PACKET : Z).
Hypothesis Hslots : 0 < SLOTS.
Hypothesis Hpkt : 0 < MAX_PACKET < M16.

Lemma step_fifo r o :
  wf SLOTS MAX_PACKET r -> op_ok MAX_PACKET o ->
  wf SLOTS MAX_PACKET (step SLOTS MAX_PACKET r o).1 /\
  fifo_step SLOTS MAX_PACKET (packets SLOTS r) o
    (packets SLOTS (step SLOTS MAX_PACKET r o).1) (step SLOTS MAX_PACKET r o).2.
Proof using Hslots Hpkt.
  intros Hwf Hok. destruct o as [f|o| |]; cbn [step].
  - pose proof (push_with_spec SLOTS MAX_PACKET Hslots Hpkt r f Hwf Hok) as H.
    destruct (push_with _ _ _ _). destruct H. split; [done|]. by constructor.
  - pose proof (pop_into_spec SLOTS MAX_PACKET Hslots r o Hwf) as H.
    destruct (pop_into _ _ _) as [[? ?] ?]. destruct H. split; [done|]. by constructor.
  - pose proof (pop_with_spec SLOTS MAX_PACKET Hslots r (fun b => b) Hwf) as H.
    destruct (pop_with _ _ _) as [r' p]. destruct H as [Hwf' H]. split; [done|].
    cbn [fst snd]. assert (packets SLOTS r' = tail (packets SLOTS r) /\ p = List.hd_error (packets SLOTS r))
      as [-> ->] by (by destruct (packets SLOTS r)). constructor.
  - destruct Hwf. split; [|constructor]. split; simpl; try done; try lia.
Qed.

Lemma run_fifo os : forall r,
  wf SLOTS MAX_PACKET r -> Forall (op_ok MAX_PACKET) os ->
  wf SLOTS MAX_PACKET (run SLOTS MAX_PACKET r os).1 /\
  fifo_run SLOTS MAX_PACKET (packets SLOTS r) os
    (packets SLOTS (run SLOTS MAX_PACKET r os).1) (run SLOTS MAX_PACKET r os).2.
Proof using Hslots Hpkt.
  induction os as [|o os IH]; intros r Hwf Hok; simpl; [split; [done|constructor]|].
  apply Forall_cons in Hok as [Ho Hok]. destruct (step_fifo r o Hwf Ho) as [Hwf1 Hs].
  destruct (step SLOTS MAX_PACKET r o) as [r1 x]. destruct (IH r1 Hwf1 Hok) as [Hwf2 Hr].
  destruct (run SLOTS MAX_PACKET r1 os) as [r2 xs]. simpl in *. split; [done|]. by econstructor.
Qed.
End Runs.

(** C20: The egress ring is a bounded FIFO of packets: from a new ring, every
    sequence of pushes, pops and clears yields what the FIFO yields.  A push
    into a full ring answers [Ok(false)] and changes nothing; a closure that
    fails or reports a length outside [1..=MAX_PACKET] stages nothing; packets
    leave in the order and with the bytes they were staged with; and a pop into
    too small a buffer leaves the packet in place. *)
Theorem tx_ring_is_fifo SLOTS MAX_PACKET os
    (Hslots : 0 < SLOTS) (Hpkt : 0 < MAX_PACKET < M16) (Hok : Forall (op_ok MAX_PACKET) os) :
  let r := new SLOTS MAX_PACKET in
  wf SLOTS MAX_PACKET (run SLOTS MAX_PACKET r os).1 /\
  fifo_run SLOTS MAX_PACKET [] os
    (packets SLOTS (run SLOTS MAX_PACKET r os).1) (run SLOTS MAX_PACKET r os).2.
Proof.
  destruct (tx_new_wf SLOTS MAX_PACKET Hslots Hpkt) as [Hwf <-]. by apply run_fifo.
Qed.

Definition put (p : list Z) (n : Z) (b : list Z) : list Z * Res Z :=
  (list_inserts 0 p b, Ok n).

Lemma tx_ring_is_fifo_witness :
  let os := [Push (put [1; 2] 2); Push (put [3] 1); Push (put [9] 1); Pop [0]; Pop [0; 0; 0];
             Push (put [4; 5] 2); Push (put [] 0); PopWith; Pop [0; 0]; Pop [7]] in
  (run 2 4 (new 2 4) os).2 =
    [OutPush (Ok true); OutPush (Ok true); OutPush (Ok false); OutPop [0] (Err BufferTooSmall);
     OutPop [1; 2; 0] (Ok 2); OutPush (Ok true); OutPush (Ok false); OutLent (Some [3]);
     OutPop [4; 5] (Ok 2); OutPop [7] (Ok 0)] /\
  fifo_run 2 4 [] os (packets 2 (run 2 4 (new 2 4) os).1) (run 2 4 (new 2 4) os).2.
Proof.
  split; [by vm_compute|].
  apply (tx_ring_is_fifo 2 4); [lia|lia|].
  repeat (apply Forall_cons; split;
    [first [exact I | intros b Hb; unfold put; cbn [fst snd]; split;
                      [unfold zlen in *; rewrite length_inserts; done|lia]]|]).
  apply Forall_nil_2.
Defined.
End TxRing.
