(* ===== verification/Bytes.v ===== *)
(** * Bounds-checked byte accessors (src/wire.rs, [read2] .. [put4]).

    Big-endian fields of a byte slice, read and written through checked ranges.
    The lemmas see every write as the insertion of a list of bytes, so that a
    sequence of adjacent writes composes to one. *)
From S2P Require Import Prelude Error.

(** [uN::to_be_bytes], [uN::from_be_bytes] *)
Definition be16_bytes (v : Z) : list Z := [v / 256; v mod 256].
Definition be32_bytes (v : Z) : list Z :=
  [v / 16777216; v / 65536 mod 256; v / 256 mod 256; v mod 256].
Definition from_be (l : list Z) : Z := foldl (fun acc b => acc * 256 + b) 0 l.

Definition read2 (buf : list Z) (off : Z) : Res (list Z) :=
  ok_or (get_range buf off (off + 2)) MalformedPacket.
Definition read4 (buf : list Z) (off : Z) : Res (list Z) :=
  ok_or (get_range buf off (off + 4)) MalformedPacket.

Definition put_u8 (buf : list Z) (off v : Z) : Res (list Z) :=
  let? _ := ok_or (get buf off) BufferTooSmall in Ok (set_at buf off v).
Definition put_u16 (buf : list Z) (off v : Z) : Res (list Z) :=
  let? _ := ok_or (get_range buf off (off + 2)) BufferTooSmall in
  Ok (list_inserts (Z.to_nat off) (be16_bytes v) buf).
Definition put_u32 (buf : list Z) (off v : Z) : Res (list Z) :=
  let? _ := ok_or (get_range buf off (off + 4)) BufferTooSmall in
  Ok (list_inserts (Z.to_nat off) (be32_bytes v) buf).
Definition put4 (buf : list Z) (off : Z) (v : list Z) : Res (list Z) :=
  let? _ := ok_or (get_range buf off (off + 4)) BufferTooSmall in
  Ok (list_inserts (Z.to_nat off) v buf).

Definition bytes (l : list Z) : Prop := Forall is_u8 l.

Lemma be16_roundtrip v : is_u16 v -> from_be (be16_bytes v) = v.
Proof. unfold from_be, be16_bytes. simpl. word_lia. Qed.

Lemma be32_roundtrip v : is_u32 v -> from_be (be32_bytes v) = v.
Proof.
  unfold from_be, be32_bytes, is_u32. simpl. intros.
  pose proof (Z.div_mod v 256 ltac:(lia)). pose proof (Z.div_mod (v / 256) 256 ltac:(lia)) as H1.
  pose proof (Z.div_mod (v / 65536) 256 ltac:(lia)) as H2.
  rewrite Z.div_div in H1 by lia. change (256 * 256) with 65536 in H1.
  rewrite Z.div_div in H2 by lia. change (65536 * 256) with 16777216 in H2. lia.
Qed.

Lemma be16_bytes_ok v : is_u16 v -> bytes (be16_bytes v).
Proof.
  intros Hv. unfold be16_bytes. repeat (apply Forall_cons; split); [word_lia..|constructor].
Qed.

Lemma be32_bytes_ok v : is_u32 v -> bytes (be32_bytes v).
Proof.
  intros Hv. unfold be32_bytes.
  repeat (apply Forall_cons; split); [..|constructor]; unfold is_u8, is_u32 in *.
  1: split; [apply Z.div_pos; lia|apply Z.div_lt_upper_bound; lia].
  all: apply Z.mod_pos_bound; lia.
Qed.

Lemma from_be_u16 a b : is_u8 a -> is_u8 b -> is_u16 (from_be [a; b]).
Proof. unfold from_be. simpl. word_lia. Qed.

(** ** Writes at a cursor

    [pre] is what has been written, [off] its length; a write of [bs] moves the
    cursor past [bs]. *)
Section Cursor.
Variables (pre rest : list Z) (off : Z).
Hypothesis Hoff : off = zlen pre.

Lemma inserts_next bs :
  (length bs <= length rest)%nat ->
  list_inserts (Z.to_nat off) bs (pre ++ rest) = (pre ++ bs) ++ drop (length bs) rest.
Proof using Hoff.
  intros Hl. subst off. unfold zlen. rewrite Nat2Z.id, inserts_split by (rewrite length_app; lia).
  by rewrite take_app_length, drop_app_add, (assoc_L (++)).
Qed.

Lemma range_next n : 0 <= n <= zlen rest -> get_range (pre ++ rest) off (off + n) = Some (take (Z.to_nat n) rest).
Proof using Hoff.
  intros Hn. pose proof (zlen_nonneg pre).
  rewrite get_range_eq by (rewrite ?zlen_app; lia). f_equal.
  replace (off + n - off) with n by lia. subst off. unfold zlen. by rewrite Nat2Z.id, drop_app_length.
Qed.

Lemma put_u8_next v : 1 <= zlen rest -> put_u8 (pre ++ rest) off v = Ok ((pre ++ [v]) ++ drop 1 rest).
Proof using Hoff.
  intros Hr. unfold put_u8. pose proof (zlen_nonneg pre).
  destruct (get_is_Some (pre ++ rest) off) as [_ [x ->]]; [rewrite zlen_app; lia|]. cbn [ok_or res_bind].
  change (drop 1 rest) with (drop (length [v]) rest). rewrite <- (inserts_next [v]) by (unfold zlen in Hr; simpl; lia). unfold set_at. simpl.
  case_if; [done|bool_facts; lia].
Qed.

Lemma put_u16_next v : 2 <= zlen rest -> put_u16 (pre ++ rest) off v = Ok ((pre ++ be16_bytes v) ++ drop 2 rest).
Proof using Hoff.
  intros Hr. unfold put_u16. rewrite range_next by lia. cbn [ok_or res_bind].
  f_equal. apply (inserts_next (be16_bytes v)). unfold zlen in Hr. simpl. lia.
Qed.

Lemma put_u32_next v : 4 <= zlen rest -> put_u32 (pre ++ rest) off v = Ok ((pre ++ be32_bytes v) ++ drop 4 rest).
Proof using Hoff.
  intros Hr. unfold put_u32. rewrite range_next by lia. cbn [ok_or res_bind].
  f_equal. apply (inserts_next (be32_bytes v)). unfold zlen in Hr. simpl. lia.
Qed.

Lemma put4_next v : length v = 4%nat -> 4 <= zlen rest ->
  put4 (pre ++ rest) off v = Ok ((pre ++ v) ++ drop 4 rest).
Proof using Hoff.
  intros Hv Hr. unfold put4. rewrite range_next by lia. cbn [ok_or res_bind].
  f_equal. rewrite <- Hv. apply inserts_next. unfold zlen in Hr. lia.
Qed.
End Cursor.

Lemma zlen_be16 v : zlen (be16_bytes v) = 2.
Proof. done. Qed.
Lemma zlen_be32 v : zlen (be32_bytes v) = 4.
Proof. done. Qed.
Lemma zlen_nil {A} : zlen (@nil A) = 0.
Proof. done. Qed.

Lemma zlen_drop_nat {A} k (l : list A) : zlen (drop k l) = Z.max 0 (zlen l - Z.of_nat k).
Proof. unfold zlen. rewrite length_drop. lia. Qed.

(** Lengths of literal pieces, for the cursor side conditions. *)
Create Rewrite HintDb zlen.
#[export] Hint Rewrite @zlen_app @zlen_drop_nat zlen_be16 zlen_be32 @zlen_cons @zlen_nil : zlen.
Ltac zlen_lia := autorewrite with zlen in *; lia.

Lemma bytes_app l k : bytes (l ++ k) <-> bytes l /\ bytes k.
Proof. apply Forall_app. Qed.

Lemma bytes_cons x l : bytes (x :: l) <-> is_u8 x /\ bytes l.
Proof. apply Forall_cons. Qed.

Lemma bytes_nil : bytes [].
Proof. constructor. Qed.

(** Byte lists given by their cells. *)
Ltac bytes_lit :=
  repeat (apply bytes_cons; split; [first [done | unfold is_u8 in *; lia]|]); apply bytes_nil.
