(* ===== verification/Checksum.v ===== *)
(** * Internet checksum (src/wire.rs, [checksum] .. [tcp_partial_checksum]).

    The source sums native-endian 32-bit words and byte-swaps the folded result
    on little-endian targets; the reference is RFC 1071's sum of big-endian
    16-bit words with end-around carries.  Both are shown equal on either
    endianness, and filling the checksum field makes the segment verify. *)
From S2P Require Import Prelude Error Bytes.

(** The target's byte order ([cfg!(target_endian = "little")]). *)
Inductive Endian := Little | Big.

(** [while acc > 0xFFFF { acc = (acc & 0xFFFF) + (acc >> 16) }]: eight rounds
    are more than a 64-bit accumulator needs ([fold_norm]). *)
Fixpoint fold_loop (fuel : nat) (acc : Z) : Z :=
  match fuel with
  | O => acc
  | S fuel' =>
      if 65535 <? acc then fold_loop fuel' (Z.land acc 65535 + Z.shiftr acc 16) else acc
  end.

Definition fold (acc : Z) : Z := as_u16 (fold_loop 8 acc).

(** [slice.as_chunks::<4>()] *)
Fixpoint as_chunks4 (l : list Z) : list (list Z) * list Z :=
  match l with
  | a :: b :: c :: d :: l' => let '(ws, tl) := as_chunks4 l' in ([a; b; c; d] :: ws, tl)
  | _ => ([], l)
  end.

(** [u32::from_ne_bytes] *)
Definition from_ne_bytes (en : Endian) (w : list Z) : Z :=
  match en with Big => from_be w | Little => from_be (rev w) end.

Definition swap_bytes (x : Z) : Z := Z.lor (Z.shiftl (Z.land x 255) 8) (Z.shiftr x 8).

Definition ones_sum (en : Endian) (data : list Z) : Z :=
  let '(words, tl) := as_chunks4 data in
  let acc := foldl (fun acc w => acc + from_ne_bytes en w) 0 words in
  let last := list_inserts 0 tl [0; 0; 0; 0] in
  let acc := acc + from_ne_bytes en last in
  let sum := fold acc in
  match en with Little => swap_bytes sum | Big => sum end.

(** [!x] on a [u16] *)
Definition lnot16 (x : Z) : Z := 65535 - x.

Definition checksum (en : Endian) (data : list Z) (seed : Z) : Z :=
  lnot16 (fold (ones_sum en data + seed)).

Definition at0 (l : list Z) (i : nat) : Z := nth i l 0.

Definition pseudo_sum (src_ip dst_ip : list Z) (tcp_len : Z) : Z :=
  wadd32 (wadd32 (wadd32 (wadd32 (wadd32
    (Z.lor (Z.shiftl (at0 src_ip 0) 8) (at0 src_ip 1))
    (Z.lor (Z.shiftl (at0 src_ip 2) 8) (at0 src_ip 3)))
    (Z.lor (Z.shiftl (at0 dst_ip 0) 8) (at0 dst_ip 1)))
    (Z.lor (Z.shiftl (at0 dst_ip 2) 8) (at0 dst_ip 3)))
    6) (Z.land tcp_len 65535).

Definition tcp_checksum (en : Endian) (src_ip dst_ip tcp_segment : list Z) : Z :=
  checksum en tcp_segment (pseudo_sum src_ip dst_ip (as_u32 (zlen tcp_segment))).

Definition tcp_partial_checksum (en : Endian) (src_ip dst_ip : list Z) (tcp_len : Z) : Z :=
  lnot16 (checksum en [] (pseudo_sum src_ip dst_ip tcp_len)).

(** ** RFC 1071, one big-endian word at a time *)

Fixpoint be_sum (l : list Z) : Z :=
  match l with
  | a :: b :: l' => a * 256 + b + be_sum l'
  | [a] => a * 256
  | [] => 0
  end.

Definition checksum_ref (data : list Z) (seed : Z) : Z := lnot16 (fold (be_sum data + seed)).

(** The ones' complement representative: zero only for zero. *)
Definition norm (x : Z) : Z := if x =? 0 then 0 else (x - 1) mod 65535 + 1.

Lemma norm_range x : 0 <= norm x <= 65535.
Proof. unfold norm. case_if; [lia|]. pose proof (Z.mod_pos_bound (x - 1) 65535). lia. Qed.

Lemma norm_small x : 0 <= x <= 65535 -> norm x = x.
Proof. intros. unfold norm. case_if; bool_facts; [lia|]. rewrite Z.mod_small; lia. Qed.

Lemma norm_zero x : norm x = 0 <-> x = 0.
Proof.
  unfold norm. case_if; bool_facts; [tauto|].
  pose proof (Z.mod_pos_bound (x - 1) 65535). lia.
Qed.

Lemma norm_eqm x : (norm x) mod 65535 = x mod 65535.
Proof.
  unfold norm. case_if; bool_facts; [by subst|].
  rewrite Zplus_mod_idemp_l. f_equal. lia.
Qed.

Lemma norm_unique x y :
  0 <= y <= 65535 -> y mod 65535 = x mod 65535 -> (y = 0 <-> x = 0) -> y = norm x.
Proof.
  intros Hy Hm Hz. unfold norm. case_if; bool_facts; [tauto|].
  assert (Hp : y <> 0) by tauto.
  replace (x - 1) with (x + -1) by lia. rewrite <- Zplus_mod_idemp_l, <- Hm, Zplus_mod_idemp_l.
  rewrite Z.mod_small; lia.
Qed.

Lemma fold_step x : 65535 < x ->
  let y := Z.land x 65535 + Z.shiftr x 16 in
  0 < y < x /\ y <= 65535 + x / 65536 /\ norm y = norm x.
Proof.
  intros Hx y. assert (Hy : y = x mod 65536 + x / 65536).
  { unfold y. change 65535 with (Z.ones 16). by rewrite Z.land_ones, Z.shiftr_div_pow2 by lia. }
  rewrite Hy. pose proof (Z.div_mod x 65536 ltac:(lia)) as Hd.
  pose proof (Z.mod_pos_bound x 65536 ltac:(lia)).
  assert (1 <= x / 65536) by (apply Z.div_le_lower_bound; lia).
  split; [lia|]. split; [lia|]. apply norm_unique; [apply norm_range|..].
  - rewrite norm_eqm, <- (Z.mod_add _ (x / 65536) 65535) by lia. f_equal. lia.
  - rewrite norm_zero. lia.
Qed.

(** The loop has ended after [n] rounds, with the representative. *)
Definition folded (n : nat) (x : Z) : Prop :=
  norm (fold_loop n x) = norm x /\ 0 <= fold_loop n x <= 65535.

Lemma folded_step n b b' :
  (forall x, 0 <= x <= b -> folded n x) -> 65535 + b' / 65536 <= b ->
  forall x, 0 <= x <= b' -> folded (S n) x.
Proof.
  intros IH Hb x Hx. unfold folded. cbn [fold_loop]. case_if; bool_facts; [|split; [done|lia]].
  destruct (fold_step x ltac:(lia)) as (? & ? & <-). apply IH.
  pose proof (Z.div_le_mono x b' 65536 ltac:(lia)). lia.
Qed.

Lemma fold_norm x : 0 <= x < M64 -> fold x = norm x.
Proof.
  intros Hx.
  assert (H0 : forall x, 0 <= x <= 65535 -> folded 0 x) by (unfold folded; simpl; auto).
  assert (H1 : forall x, 0 <= x <= 131070 -> folded 1 x).
  { clear x Hx. intros x Hx. unfold folded. cbn [fold_loop]. case_if; bool_facts; [|split; [done|lia]].
    destruct (fold_step x ltac:(lia)) as (? & ? & Hn). rewrite Hn. split; [done|].
    change 65535 with (Z.ones 16). rewrite Z.land_ones, Z.shiftr_div_pow2 by lia.
    change (2 ^ 16) with 65536. change (Z.ones 16) with 65535.
    pose proof (Z.div_mod x 65536 ltac:(lia)). pose proof (Z.mod_pos_bound x 65536 ltac:(lia)).
    assert (x / 65536 = 1); [|lia]. apply Z.le_antisymm;
      [apply Z.lt_succ_r, Z.div_lt_upper_bound|apply Z.div_le_lower_bound]; lia. }
  pose proof (folded_step 1 _ (2 ^ 32 - 1) H1 ltac:(done)) as H2.
  pose proof (folded_step 2 _ (2 ^ 47) H2 ltac:(done)) as H3.
  pose proof (folded_step 3 _ (2 ^ 62) H3 ltac:(done)) as H4.
  pose proof (folded_step 4 _ (2 ^ 64) H4 ltac:(done)) as H5.
  pose proof (folded_step 5 _ (2 ^ 64) H5 ltac:(done)) as H6.
  pose proof (folded_step 6 _ (2 ^ 64) H6 ltac:(done)) as H7.
  destruct (folded_step 7 _ (2 ^ 64) H7 ltac:(done) x) as [Hn Hr]; [lia|].
  unfold fold. rewrite <- Hn, norm_small by done. unfold as_u16. apply Z.mod_small. lia.
Qed.

(** ** The word sums *)

Lemma mod_sub_0 a b : (a - b) mod 65535 = 0 -> a mod 65535 = b mod 65535.
Proof.
  intros H. replace a with (b + (a - b)) by lia.
  rewrite <- Zplus_mod_idemp_r, H. f_equal. lia.
Qed.

(** Weight of a 16-bit word as the native sums see it: byte order multiplies
    the sum by 256 modulo 2^16 - 1. *)
Definition weight (en : Endian) : Z := match en with Big => 1 | Little => 256 end.

Lemma from_ne_bytes_spec en a b c d :
  is_u8 a -> is_u8 b -> is_u8 c -> is_u8 d ->
  let w := from_ne_bytes en [a; b; c; d] in
  0 <= w < M32 /\ (w = 0 <-> a * 256 + b + (c * 256 + d) = 0) /\
  (w - weight en * (a * 256 + b + (c * 256 + d))) mod 65535 = 0.
Proof.
  unfold is_u8. intros. cbv zeta. destruct en; unfold from_ne_bytes, from_be, weight; simpl.
  - split; [lia|]. split; [lia|].
    replace (_ - _) with ((256 * d - a) * 65535) by lia. apply Z.mod_mul. lia.
  - split; [lia|]. split; [lia|].
    replace (_ - _) with ((a * 256 + b) * 65535) by lia. apply Z.mod_mul. lia.
Qed.

Lemma be_sum_nonneg l : bytes l -> 0 <= be_sum l <= 65535 * zlen l.
Proof.
  revert l. fix IH 1. intros [|a [|b l]] Hl; simpl; [done|..].
  - apply Forall_cons in Hl as [Ha _]. unfold is_u8, zlen in *. simpl. lia.
  - apply Forall_cons in Hl as [Ha Hl]. apply Forall_cons in Hl as [Hb Hl].
    specialize (IH l Hl). unfold is_u8, zlen in *. simpl length. lia.
Qed.

(** The native accumulator against the big-endian sum, over the whole slice. *)
Definition ne_acc (en : Endian) (data : list Z) : Z :=
  let '(words, tl) := as_chunks4 data in
  foldl (fun acc w => acc + from_ne_bytes en w) 0 words + from_ne_bytes en (list_inserts 0 tl [0; 0; 0; 0]).

Lemma foldl_add_acc {A} (f : A -> Z) l a : foldl (fun acc w => acc + f w) a l = a + foldl (fun acc w => acc + f w) 0 l.
Proof.
  revert a. induction l as [|x l IH]; intros a; simpl; [lia|]. rewrite IH, (IH (0 + f x)). lia.
Qed.

Lemma ne_acc_cons en a b c d l :
  ne_acc en (a :: b :: c :: d :: l) = from_ne_bytes en [a; b; c; d] + ne_acc en l.
Proof.
  unfold ne_acc. cbn [as_chunks4]. destruct (as_chunks4 l) as [ws tl].
  cbn [foldl]. rewrite foldl_add_acc. lia.
Qed.

Definition tracks (en : Endian) (acc sum : Z) : Prop :=
  0 <= acc /\ (acc = 0 <-> sum = 0) /\ (acc - weight en * sum) mod 65535 = 0.

Lemma tracks_add en a s a' s' :
  tracks en a s -> tracks en a' s' -> 0 <= s -> 0 <= s' -> tracks en (a + a') (s + s').
Proof.
  intros (? & ? & H1) (? & ? & H2) ? ?. split; [lia|]. split; [lia|].
  replace (a + a' - weight en * (s + s')) with ((a - weight en * s) + (a' - weight en * s')) by lia.
  by rewrite Zplus_mod, H1, H2.
Qed.

Lemma ne_acc_spec en l : bytes l -> tracks en (ne_acc en l) (be_sum l) /\ ne_acc en l <= M32 * (zlen l + 1).
Proof.
  assert (Hword : forall a b c d, is_u8 a -> is_u8 b -> is_u8 c -> is_u8 d ->
    tracks en (from_ne_bytes en [a; b; c; d]) (a * 256 + b + (c * 256 + d)) /\
    from_ne_bytes en [a; b; c; d] <= M32).
  { intros a b c d Ha Hb Hc Hd. destruct (from_ne_bytes_spec en a b c d Ha Hb Hc Hd) as (? & ? & ?).
    split; [|lia]. split; [lia|done]. }
  assert (Hz : is_u8 0) by done.
  revert l. fix IH 1. intros [|a [|b [|c [|d l]]]] Hl;
    unfold bytes in Hl; repeat match goal with H : Forall _ (_ :: _) |- _ => apply Forall_cons in H as [? H] end.
  - destruct (Hword 0 0 0 0) as [Hw ?]; try done.
  - destruct (Hword a 0 0 0) as [Hw ?]; try done. unfold ne_acc, zlen. simpl in *.
    split; [|lia]. by replace (a * 256) with (a * 256 + 0 + 0) by lia.
  - destruct (Hword a b 0 0) as [Hw ?]; try done. unfold ne_acc, zlen. simpl in *. split; [done|lia].
  - destruct (Hword a b c 0) as [Hw ?]; try done. unfold ne_acc, zlen. simpl in *. split; [|lia].
    by replace (c * 256) with (c * 256 + 0) by lia.
  - destruct (IH l Hl) as [Ht Hb]. destruct (Hword a b c d) as [Hw ?]; try done.
    rewrite ne_acc_cons. pose proof (be_sum_nonneg l Hl). unfold is_u8 in *.
    split; [|unfold zlen in *; simpl length; lia]. cbn [be_sum].
    replace (a * 256 + b + (c * 256 + d + be_sum l)) with (a * 256 + b + (c * 256 + d) + be_sum l) by lia.
    apply tracks_add; done || lia.
Qed.

Lemma swap_bytes_eq x : 0 <= x <= 65535 -> swap_bytes x = (x mod 256) * 256 + x / 256.
Proof.
  intros Hx. unfold swap_bytes. change 255 with (Z.ones 8).
  rewrite lor_shiftl_add, Z.land_ones, Z.shiftr_div_pow2 by
    (rewrite ?Z.shiftr_div_pow2 by lia; change (2 ^ 8) with 256; lia || word_lia).
  done.
Qed.

Lemma swap_bytes_spec x : 0 <= x <= 65535 ->
  0 <= swap_bytes x <= 65535 /\ (swap_bytes x = 0 <-> x = 0) /\ (swap_bytes x - 256 * x) mod 65535 = 0.
Proof.
  intros Hx. rewrite swap_bytes_eq by done.
  pose proof (Z.div_mod x 256 ltac:(lia)). pose proof (Z.mod_pos_bound x 256 ltac:(lia)).
  assert (0 <= x / 256 < 256) by (split; [apply Z.div_pos|apply Z.div_lt_upper_bound]; lia).
  split; [lia|]. split; [lia|].
  replace (_ - _) with (- (x / 256) * 65535) by lia. apply Z.mod_mul. lia.
Qed.

(** The vectorised native-endian sum is the big-endian one, folded. *)
Lemma ones_sum_eq en data :
  bytes data -> zlen data < M31 -> ones_sum en data = norm (be_sum data).
Proof.
  intros Hd Hlen. destruct (ne_acc_spec en data Hd) as [(Hp & Hz & Hm) Hb].
  pose proof (zlen_nonneg data).
  assert (Hs : ones_sum en data = match en with Little => swap_bytes (norm (ne_acc en data)) | Big => norm (ne_acc en data) end).
  { rewrite <- fold_norm by lia. unfold ones_sum, ne_acc. by destruct (as_chunks4 data). }
  rewrite Hs. clear Hs Hb. apply mod_sub_0 in Hm. destruct en; cbn [weight] in Hm.
  - destruct (swap_bytes_spec (norm (ne_acc Little data)) (norm_range _)) as (? & ? & Hw).
    apply norm_unique; [done| |].
    + apply mod_sub_0 in Hw. rewrite Hw, <- Zmult_mod_idemp_r, norm_eqm, Hm, Zmult_mod_idemp_r.
      replace (256 * (256 * be_sum data)) with (be_sum data + be_sum data * 65535) by lia.
      apply Z.mod_add. lia.
    + rewrite H1, norm_zero. done.
  - apply norm_unique; [apply norm_range| |].
    + rewrite norm_eqm, Hm. f_equal. lia.
    + rewrite norm_zero. done.
Qed.

Lemma norm_add x y : 0 <= x -> 0 <= y -> norm (norm x + y) = norm (x + y).
Proof.
  intros. apply norm_unique; [apply norm_range|..].
  - rewrite norm_eqm, <- Zplus_mod_idemp_l, norm_eqm, Zplus_mod_idemp_l. done.
  - rewrite norm_zero. pose proof (norm_range x). pose proof (norm_zero x). lia.
Qed.

Lemma checksum_norm en data seed :
  bytes data -> zlen data < M31 -> is_u32 seed ->
  checksum en data seed = 65535 - norm (be_sum data + seed).
Proof.
  intros Hd Hl Hs. unfold checksum, lnot16, is_u32 in *. pose proof (be_sum_nonneg data Hd).
  pose proof (norm_range (be_sum data)).
  rewrite ones_sum_eq, fold_norm, norm_add by (done || lia). done.
Qed.

(** ** The checksum field *)

Lemma be_sum_app a b : Nat.Even (length a) -> be_sum (a ++ b) = be_sum a + be_sum b.
Proof.
  revert a. fix IH 1. intros [|x [|y a]] He; cbn [app be_sum]; [done|..].
  - destruct He as [k Hk]. simpl in Hk. lia.
  - rewrite IH; [lia|]. destruct He as [k Hk]. simpl in Hk. exists (k - 1)%nat. lia.
Qed.

Lemma be_sum_be16 v : is_u16 v -> be_sum (be16_bytes v) = v.
Proof. intros. unfold be16_bytes. cbn [be_sum]. pose proof (Z.div_mod v 256 ltac:(lia)). lia. Qed.

(** A 16-bit field at an even offset contributes its value to the sum. *)
Lemma be_sum_field pre v post :
  Nat.Even (length pre) -> is_u16 v ->
  be_sum (pre ++ be16_bytes v ++ post) = be_sum (pre ++ be16_bytes 0 ++ post) + v.
Proof.
  intros He Hv. rewrite !be_sum_app, be_sum_be16, be_sum_be16 by (done || by exists 1%nat). lia.
Qed.

Lemma norm_full x : 0 < x -> x mod 65535 = 0 -> norm x = 65535.
Proof. intros Hx Hm. symmetry. apply norm_unique; [lia|by rewrite Hm|lia]. Qed.

Section Field.
Variables (en : Endian) (pre post : list Z) (seed : Z).
Hypothesis Heven : Nat.Even (length pre).
Hypothesis Hpre : bytes pre.
Hypothesis Hpost : bytes post.
Hypothesis Hlen : zlen pre + 2 + zlen post < M31.
Hypothesis Hseed : is_u32 seed.

Lemma field_checksum v : is_u16 v ->
  checksum en (pre ++ be16_bytes v ++ post) seed =
  65535 - norm (be_sum (pre ++ be16_bytes 0 ++ post) + v + seed).
Proof using Heven Hpre Hpost Hlen Hseed.
  intros Hv. rewrite checksum_norm.
  - by rewrite be_sum_field.
  - unfold bytes in *. rewrite !Forall_app. split_and!; try done. by apply be16_bytes_ok.
  - rewrite !zlen_app. change (zlen (be16_bytes v)) with 2. lia.
  - done.
Qed.

Lemma field_sum_nonneg : 0 <= be_sum (pre ++ be16_bytes 0 ++ post) + seed.
Proof using Hpre Hpost Hseed.
  assert (Hb : bytes (pre ++ be16_bytes 0 ++ post))
    by (unfold bytes in *; rewrite !Forall_app; split_and!; try done; by apply be16_bytes_ok).
  pose proof (be_sum_nonneg _ Hb). unfold is_u32 in *. lia.
Qed.

(** Storing the checksum of the segment with a zero field makes it verify. *)
Lemma checksum_fills :
  let c := checksum en (pre ++ be16_bytes 0 ++ post) seed in
  is_u16 c /\ checksum en (pre ++ be16_bytes c ++ post) seed = 0.
Proof using Heven Hpre Hpost Hlen Hseed.
  intros c. pose proof field_sum_nonneg as Hnn. unfold c. rewrite (field_checksum 0) by done.
  set (S := be_sum _) in *. rewrite Z.add_0_r. pose proof (norm_range (S + seed)).
  assert (Hc : is_u16 (65535 - norm (S + seed))) by (unfold is_u16; lia).
  split; [done|]. rewrite field_checksum by done. fold S.
  rewrite norm_full; [lia| |].
  - destruct (decide (S + seed = 0)) as [H0|]; [rewrite H0; change (norm 0) with 0; lia|].
    assert (norm (S + seed) <= 65535) by apply norm_range. lia.
  - replace (S + (65535 - norm (S + seed)) + seed) with ((S + seed - norm (S + seed)) + 1 * 65535) by lia.
    rewrite Z.mod_add, Zminus_mod, norm_eqm, Z.sub_diag by lia. done.
Qed.
End Field.

(** C21: The vectorised checksum (native 32-bit words, byte-swapped on
    little-endian targets) equals RFC 1071's sum of big-endian 16-bit words, for
    every input and on either byte order. *)
Theorem checksum_matches_rfc1071 en data seed
    (Hd : bytes data) (Hl : zlen data < M31) (Hs : is_u32 seed) :
  checksum en data seed = checksum_ref data seed.
Proof.
  rewrite checksum_norm by done. unfold checksum_ref, lnot16, is_u32 in *.
  pose proof (be_sum_nonneg data Hd). rewrite fold_norm; [done|lia].
Qed.

Lemma checksum_matches_rfc1071_witness :
  checksum Little [0; 1; 242; 3; 244; 245; 246; 247; 9] 70000 =
  checksum_ref [0; 1; 242; 3; 244; 245; 246; 247; 9] 70000 /\
  checksum_ref [0; 1; 242; 3; 244; 245; 246; 247; 9] 70000 = 1948.
Proof.
  split; [|by vm_compute]. apply checksum_matches_rfc1071; [|done|done].
  repeat (apply Forall_cons; split; [done|]). constructor.
Defined.



(** C23: Checksum offload: the partial checksum left in the field is such that a
    host summing the whole segment, field included, and storing the complement
    obtains exactly the full TCP checksum. *)
Theorem partial_checksum_completes en src_ip dst_ip pre post
    (Heven : Nat.Even (length pre)) (Hpre : bytes pre) (Hpost : bytes post)
    (Hlen : zlen pre + 2 + zlen post < M16) :
  let segment v := pre ++ be16_bytes v ++ post in
  let len := zlen (segment 0) in
  checksum en (segment (tcp_partial_checksum en src_ip dst_ip len)) 0 =
  tcp_checksum en src_ip dst_ip (segment 0).
Proof.
  intros segment len. assert (Hps : is_u32 (pseudo_sum src_ip dst_ip len)) by (unfold pseudo_sum; word_lia).
  unfold tcp_partial_checksum. rewrite (checksum_norm en []) by (done || by constructor). unfold lnot16. cbn [be_sum]. rewrite Z.add_0_l.
  replace (65535 - (65535 - norm (pseudo_sum src_ip dst_ip len)))
    with (norm (pseudo_sum src_ip dst_ip len)) by lia.
  pose proof (norm_range (pseudo_sum src_ip dst_ip len)).
  unfold segment at 1. rewrite field_checksum by (done || (unfold is_u16; lia)).
  unfold tcp_checksum. replace (as_u32 (zlen (segment 0))) with len;
    [|unfold len, segment; rewrite !zlen_app; change (zlen (be16_bytes 0)) with 2;
      pose proof (zlen_nonneg pre); pose proof (zlen_nonneg post); word_lia].
  unfold segment. rewrite field_checksum by (done || lia).
  pose proof (field_sum_nonneg pre post 0 Hpre Hpost ltac:(done)). unfold is_u32 in Hps.
  f_equal. rewrite !Z.add_0_r, (Z.add_comm _ (norm _)), norm_add by lia. f_equal. lia.
Qed.

Lemma partial_checksum_completes_witness :
  let segment v := [0; 80; 4; 210] ++ be16_bytes v ++ [104; 105; 33] in
  tcp_partial_checksum Little [10; 0; 0; 1] [10; 0; 0; 2] 9 = 5138 /\
  checksum Little (segment (tcp_partial_checksum Little [10; 0; 0; 1] [10; 0; 0; 2] 9)) 0 =
  tcp_checksum Little [10; 0; 0; 1] [10; 0; 0; 2] (segment 0).
Proof.
  split; [by vm_compute|].
  apply (partial_checksum_completes Little [10; 0; 0; 1] [10; 0; 0; 2] [0; 80; 4; 210] [104; 105; 33]);
    [by exists 2%nat| | |done]; repeat (apply Forall_cons; split; [done|]); constructor.
Defined.
