(* ===== verification/Options.v ===== *)
(** * TCP options (src/wire.rs, [TcpOptions]).

    The option block of a segment: the encoder with its NOP padding and the
    parser with its skip rules.  The encoder is shown to produce a reference
    layout of [encoded_len] bytes, the parser to invert it, and the parser's
    scan to end on every input. *)
From S2P Require Import Prelude Error Bytes Sack.

Record TcpOptions := mkOptions {
  mss : option Z;
  wscale : option Z;
  ts : option (Z * Z);
  sack_permitted : bool;
  sack : SackBlocks.t;
}.

Module Options.

Definition NONE : TcpOptions := mkOptions None None None false SackBlocks.EMPTY.

Definition is_some {A} (o : option A) : bool := match o with Some _ => true | None => false end.

Definition raw_len (o : TcpOptions) : Z :=
  let n := 0 in
  let n := if is_some (mss o) then n + 4 else n in
  let n := if is_some (wscale o) then n + 3 else n in
  let n := if sack_permitted o then n + 2 else n in
  let n := if is_some (ts o) then n + 10 else n in
  if negb (SackBlocks.is_empty (sack o)) then n + (2 + 8 * SackBlocks.len (sack o)) else n.

(** [(n + 3) & !3] *)
Definition align4 (n : Z) : Z := Z.land (n + 3) (Z.lnot 3).

Definition encoded_len (o : TcpOptions) : Z := align4 (raw_len o).

(** ** [write]: the buffer and the running index [idx] *)

Definition W : Type := list Z * Z.

Definition write_mss (o : option Z) '((out, idx) : W) : Res W :=
  match o with
  | Some m =>
      let? out := put_u8 out idx 2 in
      let? out := put_u8 out (idx + 1) 4 in
      let? out := put_u16 out (idx + 2) m in
      Ok (out, idx + 4)
  | None => Ok (out, idx)
  end.

Definition write_wscale (o : option Z) '((out, idx) : W) : Res W :=
  match o with
  | Some ws =>
      let? out := put_u8 out idx 3 in
      let? out := put_u8 out (idx + 1) 3 in
      let? out := put_u8 out (idx + 2) (Z.min ws 14) in
      Ok (out, idx + 3)
  | None => Ok (out, idx)
  end.

Definition write_sack_permitted (b : bool) '((out, idx) : W) : Res W :=
  if b then
    let? out := put_u8 out idx 4 in
    let? out := put_u8 out (idx + 1) 2 in
    Ok (out, idx + 2)
  else Ok (out, idx).

Definition write_ts (o : option (Z * Z)) '((out, idx) : W) : Res W :=
  match o with
  | Some (tsval, tsecr) =>
      let? out := put_u8 out idx 8 in
      let? out := put_u8 out (idx + 1) 10 in
      let? out := put_u32 out (idx + 2) tsval in
      let? out := put_u32 out (idx + 6) tsecr in
      Ok (out, idx + 10)
  | None => Ok (out, idx)
  end.

(** [for (k, (left, right)) in blocks.iter().enumerate()] *)
Fixpoint write_blocks (l : list (Z * Z)) (k idx : Z) (out : list Z) : Res (list Z) :=
  match l with
  | [] => Ok out
  | (l, r) :: l' =>
      let? out := put_u32 out (idx + 2 + k * 8) l in
      let? out := put_u32 out (idx + 6 + k * 8) r in
      write_blocks l' (k + 1) idx out
  end.

Definition write_sack (s : SackBlocks.t) '((out, idx) : W) : Res W :=
  if negb (SackBlocks.is_empty s) then
    let length := 2 + 8 * SackBlocks.len s in
    if 255 <? length then Err Overflow else
    let? out := put_u8 out idx 5 in
    let? out := put_u8 out (idx + 1) (as_u8 length) in
    let? out := write_blocks (SackBlocks.as_slice s) 0 idx out in
    Ok (out, idx + length)
  else Ok (out, idx).

(** [while idx < target { put NOP; idx += 1 }], [n = target - idx] rounds. *)
Fixpoint pad_nops (n : nat) (w : W) : Res W :=
  match n with
  | O => Ok w
  | S n' => let? out := put_u8 (fst w) (snd w) 1 in pad_nops n' (out, snd w + 1)
  end.

Definition write (o : TcpOptions) (out : list Z) : Res W :=
  let? w := write_mss (mss o) (out, 0) in
  let? w := write_wscale (wscale o) w in
  let? w := write_sack_permitted (sack_permitted o) w in
  let? w := write_ts (ts o) w in
  let? w := write_sack (sack o) w in
  pad_nops (Z.to_nat (align4 (snd w) - snd w)) w.

(** ** [parse]: one option at [i], and the scan *)

Definition set_mss (o : TcpOptions) v := mkOptions v (wscale o) (ts o) (sack_permitted o) (sack o).
Definition set_wscale (o : TcpOptions) v := mkOptions (mss o) v (ts o) (sack_permitted o) (sack o).
Definition set_ts (o : TcpOptions) v := mkOptions (mss o) (wscale o) v (sack_permitted o) (sack o).
Definition set_sack_permitted (o : TcpOptions) v := mkOptions (mss o) (wscale o) (ts o) v (sack o).
Definition set_sack (o : TcpOptions) v := mkOptions (mss o) (wscale o) (ts o) (sack_permitted o) v.

(** [for k in 0..n_blocks] *)
Fixpoint parse_blocks (b : list Z) (n : nat) (k i : Z) (sb : SackBlocks.t) : Res SackBlocks.t :=
  match n with
  | O => Ok sb
  | S n' =>
      let off := i + 2 + k * 8 in
      let? l := read4 b off in
      let? r := read4 b (off + 4) in
      parse_blocks b n' (k + 1) i (SackBlocks.push sb (from_be l) (from_be r))
  end.

(** The [match kind] body: [None] is [break], else the new index and options. *)
Definition parse_option (b : list Z) (i : Z) (o : TcpOptions) : Res (option (Z * TcpOptions)) :=
  let? kind := ok_or (get b i) MalformedPacket in
  if kind =? 0 then Ok None else
  if kind =? 1 then Ok (Some (i + 1, o)) else
  let? len := ok_or (get b (i + 1)) MalformedPacket in
  if kind =? 2 then
    check negb (len =? 4) || (zlen b <? i + 4) else MalformedPacket ;
    let? v := read2 b (i + 2) in
    Ok (Some (i + 4, set_mss o (Some (from_be v))))
  else if kind =? 3 then
    check negb (len =? 3) || (zlen b <? i + 3) else MalformedPacket ;
    let? shift := ok_or (get b (i + 2)) MalformedPacket in
    Ok (Some (i + 3, set_wscale o (Some (Z.min shift 14))))
  else if kind =? 4 then
    check negb (len =? 2) || (zlen b <? i + 2) else MalformedPacket ;
    Ok (Some (i + 2, set_sack_permitted o true))
  else if kind =? 5 then
    check (len <? 10) || negb ((len - 2) mod 8 =? 0) || (4 <? (len - 2) / 8) || (zlen b <? i + len)
      else MalformedPacket ;
    let? sb := parse_blocks b (Z.to_nat ((len - 2) / 8)) 0 i SackBlocks.EMPTY in
    Ok (Some (i + len, set_sack o sb))
  else if kind =? 8 then
    check negb (len =? 10) || (zlen b <? i + 10) else MalformedPacket ;
    let? tsval := read4 b (i + 2) in
    let? tsecr := read4 b (i + 6) in
    Ok (Some (i + 10, set_ts o (Some (from_be tsval, from_be tsecr))))
  else
    check (len <? 2) || (zlen b <? i + len) else MalformedPacket ;
    Ok (Some (i + len, o)).

Fixpoint parse_loop (fuel : nat) (b : list Z) (i : Z) (o : TcpOptions) : Res TcpOptions :=
  match fuel with
  | O => Ok o
  | S fuel' =>
      if i <? zlen b then
        let? r := parse_option b i o in
        match r with
        | None => Ok o
        | Some (i', o') => parse_loop fuel' b i' o'
        end
      else Ok o
  end.

(** Every round moves the index, so the length of the block bounds the rounds
    ([parse_loop_fuel]). *)
Definition parse (b : list Z) : Res TcpOptions := parse_loop (S (length b)) b 0 NONE.

(** ** The reference layout *)

Definition mss_bytes (o : option Z) : list Z :=
  match o with Some m => [2; 4] ++ be16_bytes m | None => [] end.
Definition wscale_bytes (o : option Z) : list Z :=
  match o with Some ws => [3; 3; Z.min ws 14] | None => [] end.
Definition sack_permitted_bytes (b : bool) : list Z := if b then [4; 2] else [].
Definition ts_bytes (o : option (Z * Z)) : list Z :=
  match o with Some (v, e) => [8; 10] ++ be32_bytes v ++ be32_bytes e | None => [] end.
Fixpoint block_bytes (l : list (Z * Z)) : list Z :=
  match l with [] => [] | (a, b) :: l' => be32_bytes a ++ be32_bytes b ++ block_bytes l' end.
Definition sack_bytes (l : list (Z * Z)) : list Z :=
  match l with [] => [] | _ => [5; 2 + 8 * zlen l] ++ block_bytes l end.

Definition raw_bytes (o : TcpOptions) : list Z :=
  mss_bytes (mss o) ++ wscale_bytes (wscale o) ++ sack_permitted_bytes (sack_permitted o) ++
  ts_bytes (ts o) ++ sack_bytes (SackBlocks.as_slice (sack o)).

Definition encode (o : TcpOptions) : list Z :=
  raw_bytes o ++ replicate (Z.to_nat (encoded_len o - raw_len o)) 1.

(** A writer step appends [bs] at the cursor. *)
Definition writes (k : W -> Res W) (bs : list Z) : Prop :=
  forall pre rest, zlen bs <= zlen rest ->
    k (pre ++ rest, zlen pre) = Ok ((pre ++ bs) ++ drop (length bs) rest, zlen pre + zlen bs).

(** Running a sequence of puts from a cursor: rewrite each with its [_next]
    lemma and flatten. *)
Ltac put_step L := erewrite L by zlen_lia; cbn [res_bind ok_or].
Lemma Ok_pair_eq {A B} (a a' : A) (b b' : B) : a = a' -> b = b' -> Ok (a, b) = Ok (a', b').
Proof. by intros -> ->. Qed.

Ltac put_done :=
  apply Ok_pair_eq; [rewrite <- ?(assoc_L (++)); simpl; rewrite ?drop_drop; done | zlen_lia].

Lemma write_mss_writes o : writes (write_mss o) (mss_bytes o).
Proof.
  intros pre rest Hr. destruct o as [m|]; unfold write_mss, mss_bytes in *.
  - put_step put_u8_next. put_step put_u8_next. put_step put_u16_next. put_done.
  - rewrite app_nil_r. simpl. by rewrite Z.add_0_r.
Qed.

Lemma write_wscale_writes o : writes (write_wscale o) (wscale_bytes o).
Proof.
  intros pre rest Hr. destruct o as [m|]; unfold write_wscale, wscale_bytes in *.
  - put_step put_u8_next. put_step put_u8_next. put_step put_u8_next. put_done.
  - rewrite app_nil_r. simpl. by rewrite Z.add_0_r.
Qed.

Lemma write_sack_permitted_writes b : writes (write_sack_permitted b) (sack_permitted_bytes b).
Proof.
  intros pre rest Hr. destruct b; unfold write_sack_permitted, sack_permitted_bytes in *.
  - put_step put_u8_next. put_step put_u8_next. put_done.
  - rewrite app_nil_r. simpl. by rewrite Z.add_0_r.
Qed.

Lemma write_ts_writes o : writes (write_ts o) (ts_bytes o).
Proof.
  intros pre rest Hr. destruct o as [[v e]|]; unfold write_ts, ts_bytes in *.
  - put_step put_u8_next. put_step put_u8_next. put_step put_u32_next. put_step put_u32_next. put_done.
  - rewrite app_nil_r. simpl. by rewrite Z.add_0_r.
Qed.

Lemma zlen_block_bytes l : zlen (block_bytes l) = 8 * zlen l.
Proof. induction l as [|[a b] l IH]; [done|]. cbn [block_bytes]. zlen_lia. Qed.

Lemma write_blocks_writes l : forall pre rest k idx,
  zlen (block_bytes l) <= zlen rest -> zlen pre = idx + 2 + k * 8 ->
  write_blocks l k idx (pre ++ rest) = Ok ((pre ++ block_bytes l) ++ drop (length (block_bytes l)) rest).
Proof.
  induction l as [|[a b] l IH]; intros pre rest k idx Hr Hk; cbn [write_blocks block_bytes] in *.
  - by rewrite app_nil_r.
  - pose proof (zlen_nonneg (block_bytes l)).
    put_step put_u32_next. put_step put_u32_next. rewrite IH by zlen_lia.
    f_equal. rewrite <- ?(assoc_L (++)). simpl. by rewrite ?drop_drop.
Qed.

Lemma write_sack_writes s : SackBlocks.wf s -> writes (write_sack s) (sack_bytes (SackBlocks.as_slice s)).
Proof.
  intros Hs pre rest Hr. pose proof (SackBlocks.as_slice_length s Hs) as Hl. destruct Hs as [_ Hn].
  unfold write_sack, SackBlocks.is_empty, SackBlocks.len.
  destruct (SackBlocks.as_slice s) as [|p l] eqn:Hsl; unfold sack_bytes in *.
  - rewrite zlen_nil in Hl. rewrite <- Hl. simpl. by rewrite app_nil_r, Z.add_0_r.
  - rewrite <- Hsl in *. rewrite <- Hl in *. pose proof (zlen_block_bytes (SackBlocks.as_slice s)) as Hb.
    assert (0 < zlen (SackBlocks.as_slice s)) by (rewrite Hsl, zlen_cons; pose proof (zlen_nonneg l); lia).
    replace (zlen (SackBlocks.as_slice s) =? 0) with false by lia. cbn [negb].
    case_if; bool_facts; [lia|].
    put_step put_u8_next. put_step put_u8_next.
    replace (as_u8 _) with (2 + 8 * zlen (SackBlocks.as_slice s)) by word_lia.
    rewrite write_blocks_writes by zlen_lia. cbn [res_bind ok_or].
    apply Ok_pair_eq; [|zlen_lia]. rewrite <- ?(assoc_L (++)). simpl. by rewrite ?drop_drop.
Qed.

Lemma pad_nops_writes n : writes (pad_nops n) (replicate n 1).
Proof.
  induction n as [|n IH]; intros pre rest Hr; cbn [pad_nops replicate fst snd].
  - rewrite app_nil_r, Z.add_0_r. done.
  - cbn [replicate] in Hr. pose proof (zlen_nonneg (replicate n 1)). put_step put_u8_next.
    replace (zlen pre + 1) with (zlen (pre ++ [1])) by zlen_lia.
    rewrite IH by zlen_lia. apply Ok_pair_eq; [|zlen_lia].
    rewrite <- ?(assoc_L (++)). simpl. by rewrite ?drop_drop.
Qed.

Lemma writes_bind k1 k2 b1 b2 :
  writes k1 b1 -> writes k2 b2 -> writes (fun w => let? w1 := k1 w in k2 w1) (b1 ++ b2).
Proof.
  intros H1 H2 pre rest Hr. pose proof (zlen_nonneg b1). pose proof (zlen_nonneg b2).
  rewrite H1 by zlen_lia. cbn [res_bind].
  replace (zlen pre + zlen b1) with (zlen (pre ++ b1)) by zlen_lia.
  rewrite H2; [|rewrite zlen_app in Hr; rewrite zlen_drop_nat; unfold zlen in *; lia].
  apply Ok_pair_eq; [|zlen_lia]. rewrite length_app, drop_drop, <- ?(assoc_L (++)). done.
Qed.

Lemma align4_spec n : 0 <= n -> n <= align4 n < n + 4 /\ align4 n mod 4 = 0.
Proof.
  intros Hn. unfold align4. rewrite <- Z.ldiff_land. change 3 with (Z.ones 2) at 2 4 6.
  rewrite !Z.ldiff_ones_r, Z.shiftl_mul_pow2, Z.shiftr_div_pow2 by lia. change (2 ^ 2) with 4.
  pose proof (Z.div_mod (n + 3) 4 ltac:(lia)). pose proof (Z.mod_pos_bound (n + 3) 4 ltac:(lia)).
  split; [lia|]. apply Z.mod_mul. lia.
Qed.

Lemma raw_bytes_zlen o : SackBlocks.wf (sack o) -> zlen (raw_bytes o) = raw_len o.
Proof.
  intros Hs. pose proof (SackBlocks.as_slice_length _ Hs) as Hl. destruct Hs as [_ Hn].
  unfold raw_bytes, raw_len, SackBlocks.is_empty, SackBlocks.len. rewrite <- Hl.
  assert (Hsb : zlen (sack_bytes (SackBlocks.as_slice (sack o))) =
    if negb (zlen (SackBlocks.as_slice (sack o)) =? 0) then 2 + 8 * zlen (SackBlocks.as_slice (sack o)) else 0).
  { destruct (SackBlocks.as_slice (sack o)) as [|p l] eqn:He; [done|]. rewrite <- He.
    assert (0 < zlen (SackBlocks.as_slice (sack o))) by (rewrite He; pose proof (zlen_nonneg l); zlen_lia).
    replace (zlen (SackBlocks.as_slice (sack o)) =? 0) with false by lia. rewrite He at 1. cbn [sack_bytes negb].
    rewrite <- He, zlen_app, zlen_block_bytes. zlen_lia. }
  rewrite !zlen_app, Hsb.
  destruct (mss o), (wscale o), (sack_permitted o), (ts o) as [[? ?]|]; cbn [is_some];
    unfold mss_bytes, wscale_bytes, sack_permitted_bytes, ts_bytes; cbv iota;
    case_if; rewrite ?zlen_app, ?zlen_be16, ?zlen_be32, ?zlen_cons, ?zlen_nil; lia || done.
Qed.

Lemma raw_len_nonneg o : SackBlocks.wf (sack o) -> 0 <= raw_len o.
Proof. intros Hs. rewrite <- raw_bytes_zlen by done. apply zlen_nonneg. Qed.

Lemma encode_zlen o : SackBlocks.wf (sack o) -> zlen (encode o) = encoded_len o.
Proof.
  intros Hs. unfold encode. rewrite zlen_app, raw_bytes_zlen by done. unfold zlen.
  rewrite length_replicate. pose proof (align4_spec (raw_len o) (raw_len_nonneg o Hs)).
  unfold encoded_len. lia.
Qed.

(** The encoder lays the options out as [encode], padded to [encoded_len]. *)
Lemma write_encode o out :
  SackBlocks.wf (sack o) -> encoded_len o <= zlen out ->
  write o out = Ok (encode o ++ drop (length (encode o)) out, encoded_len o).
Proof.
  intros Hs Hout. pose proof (align4_spec (raw_len o) (raw_len_nonneg o Hs)) as [Ha _].
  fold (encoded_len o) in Ha.
  assert (Hraw : writes (fun w => let? w := write_mss (mss o) w in let? w := write_wscale (wscale o) w in
      let? w := write_sack_permitted (sack_permitted o) w in let? w := write_ts (ts o) w in
      write_sack (sack o) w) (raw_bytes o)).
  { unfold raw_bytes. repeat apply writes_bind;
      auto using write_mss_writes, write_wscale_writes, write_sack_permitted_writes, write_ts_writes, write_sack_writes. }
  specialize (Hraw [] out). rewrite raw_bytes_zlen in Hraw by done.
  specialize (Hraw ltac:(lia)). rewrite zlen_nil, Z.add_0_l, !app_nil_l in Hraw.
  unfold write. revert Hraw. cbn beta.
  destruct (write_mss _ _) as [w1|]; cbn [res_bind]; [|done].
  destruct (write_wscale _ _) as [w2|]; cbn [res_bind]; [|done].
  destruct (write_sack_permitted _ _) as [w3|]; cbn [res_bind]; [|done].
  destruct (write_ts _ _) as [w4|]; cbn [res_bind]; [|done].
  intros ->. cbn [res_bind snd]. fold (encoded_len o).
  replace (raw_len o) with (zlen (raw_bytes o)) at 2 by (by apply raw_bytes_zlen).
  rewrite pad_nops_writes.
  - apply Ok_pair_eq; unfold encode.
    + by rewrite length_app, drop_drop, <- ?(assoc_L (++)).
    + rewrite raw_bytes_zlen by done. unfold zlen. rewrite length_replicate. lia.
  - unfold zlen. rewrite length_replicate, length_drop.
    pose proof (raw_bytes_zlen o Hs). unfold zlen in *. lia.
Qed.

(** ** The scan *)

Lemma parse_option_progress b i o i' o' :
  parse_option b i o = Ok (Some (i', o')) -> i < i'.
Proof.
  unfold parse_option. intros H.
  repeat first [apply res_bind_Ok in H as (? & ? & H) | case_if in H];
    bool_facts; simplify_eq; try lia.
  all: repeat match goal with H : _ || _ = false |- _ => apply orb_false_iff in H as [? ?] end; lia.
Qed.

(** Fuel beyond the bytes left changes nothing. *)
Lemma parse_loop_fuel b : forall fuel fuel' i o,
  zlen b - i < Z.of_nat fuel -> zlen b - i < Z.of_nat fuel' ->
  parse_loop fuel b i o = parse_loop fuel' b i o.
Proof.
  induction fuel as [|fuel IH]; intros [|fuel'] i o H1 H2; cbn [parse_loop]; try done;
    case_if; bool_facts; try lia; try done.
  destruct (parse_option b i o) as [[[i' o']|]|e] eqn:Hp; cbn [res_bind]; try done.
  apply parse_option_progress in Hp. apply IH; lia.
Qed.

(** The scan from index [i]. *)
Definition parse_at (b : list Z) (i : Z) (o : TcpOptions) : Res TcpOptions :=
  parse_loop (S (Z.to_nat (zlen b - i))) b i o.

Lemma parse_parse_at b : parse b = parse_at b 0 NONE.
Proof. unfold parse, parse_at. f_equal. unfold zlen. lia. Qed.

Lemma parse_at_step b i o i' o' :
  i < zlen b -> parse_option b i o = Ok (Some (i', o')) -> parse_at b i o = parse_at b i' o'.
Proof.
  intros Hi Hp. pose proof (parse_option_progress _ _ _ _ _ Hp). unfold parse_at at 1.
  cbn [parse_loop]. replace (i <? zlen b) with true by lia. rewrite Hp. cbn [res_bind].
  apply parse_loop_fuel; lia.
Qed.

Lemma parse_at_end b i o : zlen b <= i -> parse_at b i o = Ok o.
Proof. intros. unfold parse_at. cbn [parse_loop]. by replace (i <? zlen b) with false by lia. Qed.

(** The bytes [bs] at the cursor set the options to [f o]. *)
Definition parses (bs : list Z) (f : TcpOptions -> TcpOptions) : Prop :=
  forall pre rest o, parse_at (pre ++ bs ++ rest) (zlen pre) o =
                     parse_at (pre ++ bs ++ rest) (zlen (pre ++ bs)) (f o).

Lemma parses_app b1 b2 f1 f2 : parses b1 f1 -> parses b2 f2 -> parses (b1 ++ b2) (fun o => f2 (f1 o)).
Proof.
  intros H1 H2 pre rest o. rewrite <- (assoc_L (++) b1), H1.
  rewrite (assoc_L (++) pre), H2. by rewrite <- !(assoc_L (++)).
Qed.

Lemma parses_nil : parses [] (fun o => o).
Proof. intros pre rest o. by rewrite app_nil_r. Qed.

Lemma get_cursor (pre l : list Z) i : i = zlen pre -> get (pre ++ l) i = List.hd_error l.
Proof.
  intros ->. unfold get. case_if; [|bool_facts; pose proof (zlen_nonneg pre); lia].
  unfold zlen. rewrite Nat2Z.id, lookup_app_r, Nat.sub_diag by lia. by destruct l.
Qed.

Lemma get_cursor1 (pre l : list Z) x i : i = zlen pre + 1 -> get (pre ++ x :: l) i = List.hd_error l.
Proof. intros ->. rewrite cons_middle, (assoc_L (++)). apply get_cursor. zlen_lia. Qed.

Lemma get_cursor2 (pre l : list Z) x y i : i = zlen pre + 2 -> get (pre ++ x :: y :: l) i = List.hd_error l.
Proof. intros ->. rewrite cons_middle, (assoc_L (++)). apply get_cursor1. zlen_lia. Qed.

Lemma read2_cursor (pre bs rest : list Z) i :
  i = zlen pre -> length bs = 2%nat -> read2 (pre ++ bs ++ rest) i = Ok bs.
Proof.
  intros Hi Hl. unfold read2. pose proof (zlen_nonneg rest).
  assert (zlen bs = 2) by (unfold zlen; lia).
  rewrite range_next by (done || zlen_lia). cbn [ok_or]. f_equal.
  change (Z.to_nat 2) with 2%nat. rewrite <- Hl. apply take_app_length.
Qed.

Lemma read4_cursor (pre bs rest : list Z) i :
  i = zlen pre -> length bs = 4%nat -> read4 (pre ++ bs ++ rest) i = Ok bs.
Proof.
  intros Hi Hl. unfold read4. pose proof (zlen_nonneg rest).
  assert (zlen bs = 4) by (unfold zlen; lia).
  rewrite range_next by (done || zlen_lia). cbn [ok_or]. f_equal.
  change (Z.to_nat 4) with 4%nat. rewrite <- Hl. apply take_app_length.
Qed.

Lemma mss_parses m : is_u16 m -> parses (mss_bytes (Some m)) (fun o => set_mss o (Some m)).
Proof.
  intros Hm pre rest o. pose proof (zlen_nonneg pre). pose proof (zlen_nonneg rest).
  apply parse_at_step; [unfold mss_bytes; zlen_lia|]. unfold parse_option, mss_bytes. cbn [app].
  rewrite get_cursor, get_cursor1 by done. cbn [ok_or res_bind List.hd_error Z.eqb Pos.eqb negb orb].
  replace (zlen _ <? _) with false by zlen_lia. cbn [orb].
  replace (pre ++ 2 :: 4 :: _) with ((pre ++ [2; 4]) ++ be16_bytes m ++ rest) by (by rewrite <- (assoc_L (++))).
  rewrite read2_cursor by (done || zlen_lia). cbn [res_bind]. rewrite be16_roundtrip by done.
  do 3 f_equal. zlen_lia.
Qed.

Lemma wscale_parses ws : parses (wscale_bytes (Some ws)) (fun o => set_wscale o (Some (Z.min ws 14))).
Proof.
  intros pre rest o. pose proof (zlen_nonneg pre). pose proof (zlen_nonneg rest).
  apply parse_at_step; [unfold wscale_bytes; zlen_lia|]. unfold parse_option, wscale_bytes. cbn [app].
  rewrite get_cursor, get_cursor1 by done. cbn [ok_or res_bind List.hd_error Z.eqb Pos.eqb negb orb].
  replace (zlen _ <? _) with false by zlen_lia. rewrite get_cursor2 by done. cbn [ok_or res_bind List.hd_error].
  do 3 f_equal; [zlen_lia|]. do 2 f_equal. lia.
Qed.

Lemma sack_permitted_parses : parses (sack_permitted_bytes true) (fun o => set_sack_permitted o true).
Proof.
  intros pre rest o. pose proof (zlen_nonneg pre). pose proof (zlen_nonneg rest).
  apply parse_at_step; [unfold sack_permitted_bytes; zlen_lia|].
  unfold parse_option, sack_permitted_bytes. cbn [app].
  rewrite get_cursor, get_cursor1 by done. cbn [ok_or res_bind List.hd_error Z.eqb Pos.eqb negb orb].
  replace (zlen _ <? _) with false by zlen_lia. do 3 f_equal. zlen_lia.
Qed.

Lemma ts_parses v e : is_u32 v -> is_u32 e -> parses (ts_bytes (Some (v, e))) (fun o => set_ts o (Some (v, e))).
Proof.
  intros Hv He pre rest o. pose proof (zlen_nonneg pre). pose proof (zlen_nonneg rest).
  apply parse_at_step; [unfold ts_bytes; zlen_lia|]. unfold parse_option, ts_bytes.
  rewrite <- !(assoc_L (++)). cbn [app].
  rewrite get_cursor, get_cursor1 by done. cbn [ok_or res_bind List.hd_error Z.eqb Pos.eqb negb orb].
  replace (zlen _ <? _) with false by zlen_lia. cbn [orb].
  replace (pre ++ 8 :: 10 :: be32_bytes v ++ be32_bytes e ++ rest)
    with ((pre ++ [8; 10]) ++ be32_bytes v ++ be32_bytes e ++ rest) by (by rewrite <- (assoc_L (++))).
  rewrite read4_cursor by (done || zlen_lia). cbn [res_bind].
  rewrite (assoc_L (++) (pre ++ [8; 10])), read4_cursor by (done || zlen_lia). cbn [res_bind].
  rewrite !be32_roundtrip by done. do 3 f_equal. zlen_lia.
Qed.

Definition push_all (s : SackBlocks.t) (l : list (Z * Z)) : SackBlocks.t :=
  foldl (fun s p => SackBlocks.push s p.1 p.2) s l.

Definition u32_block (p : Z * Z) : Prop := is_u32 p.1 /\ is_u32 p.2.

Lemma parse_blocks_spec l : forall pre rest k i sb,
  Forall u32_block l -> zlen pre = i + 2 + k * 8 ->
  parse_blocks (pre ++ block_bytes l ++ rest) (length l) k i sb = Ok (push_all sb l).
Proof.
  induction l as [|[a b] l IH]; intros pre rest k i sb Hl Hk; cbn [length parse_blocks block_bytes]; [done|].
  apply Forall_cons in Hl as [[Ha Hb] Hl]. cbn [fst snd] in Ha, Hb. rewrite <- !(assoc_L (++)).
  rewrite read4_cursor by (done || zlen_lia). cbn [res_bind].
  rewrite (assoc_L (++) pre), read4_cursor by (done || zlen_lia). cbn [res_bind].
  rewrite (assoc_L (++) (pre ++ _)), IH by (done || zlen_lia). by rewrite !be32_roundtrip.
Qed.

Lemma sack_parses l :
  Forall u32_block l -> 1 <= zlen l <= 4 ->
  parses (sack_bytes l) (fun o => set_sack o (push_all SackBlocks.EMPTY l)).
Proof.
  intros Hu Hl pre rest o. pose proof (zlen_nonneg pre). pose proof (zlen_nonneg rest).
  pose proof (zlen_block_bytes l) as Hb.
  assert (Hs : sack_bytes l = [5; 2 + 8 * zlen l] ++ block_bytes l) by (destruct l; [rewrite zlen_nil in Hl; lia|done]).
  rewrite Hs. apply parse_at_step; [zlen_lia|]. unfold parse_option. cbn [app].
  rewrite get_cursor, get_cursor1 by done. cbn [ok_or res_bind List.hd_error Z.eqb Pos.eqb].
  assert (Hdiv : (2 + 8 * zlen l - 2) / 8 = zlen l)
    by (replace (2 + 8 * zlen l - 2) with (zlen l * 8) by lia; apply Z.div_mul; lia).
  assert (Hmod : (2 + 8 * zlen l - 2) mod 8 = 0)
    by (replace (2 + 8 * zlen l - 2) with (zlen l * 8) by lia; apply Z.mod_mul; lia).
  rewrite Hdiv, Hmod. replace (2 + 8 * zlen l <? 10) with false by lia.
  replace (4 <? zlen l) with false by lia. cbn [Z.eqb negb orb].
  replace (zlen _ <? _) with false by zlen_lia.
  replace (Z.to_nat (zlen l)) with (length l) by (unfold zlen; lia).
  replace (pre ++ 5 :: _) with ((pre ++ [5; 2 + 8 * zlen l]) ++ block_bytes l ++ rest) by (by rewrite <- (assoc_L (++))).
  rewrite parse_blocks_spec by (done || zlen_lia). cbn [res_bind]. do 3 f_equal. zlen_lia.
Qed.

Lemma nops_parse n : parses (replicate n 1) (fun o => o).
Proof.
  induction n as [|n IH]; [apply parses_nil|]. change (replicate (S n) 1) with ([1] ++ replicate n 1).
  apply (parses_app [1] _ (fun o => o)); [|done].
  intros pre rest o. pose proof (zlen_nonneg pre). pose proof (zlen_nonneg rest).
  apply parse_at_step; [zlen_lia|]. unfold parse_option. rewrite get_cursor by done. simpl.
  do 3 f_equal. zlen_lia.
Qed.

(** ** Round trip *)

(** Field ranges of the Rust types. *)
Record wf (o : TcpOptions) : Prop := mk_wf {
  wf_mss : match mss o with Some m => is_u16 m | None => True end;
  wf_wscale : match wscale o with Some w => is_u8 w | None => True end;
  wf_ts : match ts o with Some (v, e) => is_u32 v /\ is_u32 e | None => True end;
  wf_sack : SackBlocks.wf (sack o);
  wf_blocks : Forall u32_block (SackBlocks.as_slice (sack o));
}.

(** What survives the wire: the window scale clipped to 14 and the SACK slots
    beyond the count zeroed. *)
Definition on_wire (o : TcpOptions) : TcpOptions :=
  mkOptions (mss o) ((fun w => Z.min w 14) <$> wscale o) (ts o) (sack_permitted o)
            (push_all SackBlocks.EMPTY (SackBlocks.as_slice (sack o))).

Lemma push_all_spec l : forall s,
  SackBlocks.wf s -> zlen (SackBlocks.as_slice s) + zlen l <= 4 ->
  SackBlocks.wf (push_all s l) /\
  SackBlocks.as_slice (push_all s l) = SackBlocks.as_slice s ++ l.
Proof.
  induction l as [|[a b] l IH]; intros s Hs Hl; cbn [push_all foldl]; [by rewrite app_nil_r|].
  pose proof (zlen_nonneg l). autorewrite with zlen in Hl.
  pose proof (SackBlocks.push_slice s a b Hs) as Hp.
  rewrite take_ge in Hp by (rewrite length_app; unfold zlen in *; simpl; lia).
  destruct (IH (SackBlocks.push s a b)) as [? Hi].
  - by apply SackBlocks.push_wf.
  - rewrite Hp. zlen_lia.
  - split; [done|]. unfold push_all in Hi |- *. cbn [fst snd]. rewrite Hi, Hp, <- (assoc_L (++)). done.
Qed.

Lemma on_wire_blocks o : wf o -> SackBlocks.as_slice (sack (on_wire o)) = SackBlocks.as_slice (sack o).
Proof.
  intros [_ _ _ Hs _]. pose proof (SackBlocks.as_slice_length _ Hs). destruct Hs as [_ ?].
  unfold on_wire. cbn [sack]. destruct (push_all_spec (SackBlocks.as_slice (sack o)) SackBlocks.EMPTY) as [_ ->];
    [apply SackBlocks.EMPTY_wf| |done].
  change (SackBlocks.as_slice SackBlocks.EMPTY) with (@nil (Z * Z)). rewrite zlen_nil. lia.
Qed.

Definition opt_or {A} (o : option A) (f : A -> TcpOptions -> TcpOptions) (x : TcpOptions) : TcpOptions :=
  match o with Some a => f a x | None => x end.

Lemma parse_encode o : wf o -> parse (encode o) = Ok (on_wire o).
Proof.
  intros [Hm Hw Ht Hs Hb]. rewrite parse_parse_at.
  pose proof (SackBlocks.as_slice_length _ Hs) as Hl. destruct Hs as [_ Hn].
  assert (H1 : parses (mss_bytes (mss o)) (opt_or (mss o) (fun m x => set_mss x (Some m))))
    by (destruct (mss o); [exact (mss_parses _ Hm)|exact parses_nil]).
  assert (H2 : parses (wscale_bytes (wscale o)) (opt_or (wscale o) (fun w x => set_wscale x (Some (Z.min w 14)))))
    by (destruct (wscale o); [exact (wscale_parses _)|exact parses_nil]).
  assert (H3 : parses (sack_permitted_bytes (sack_permitted o))
      (fun x => if sack_permitted o then set_sack_permitted x true else x))
    by (destruct (sack_permitted o); [exact sack_permitted_parses|exact parses_nil]).
  assert (H4 : parses (ts_bytes (ts o)) (opt_or (ts o) (fun t x => set_ts x (Some t))))
    by (destruct (ts o) as [[v e]|]; [exact (ts_parses _ _ (proj1 Ht) (proj2 Ht))|exact parses_nil]).
  assert (H5 : parses (sack_bytes (SackBlocks.as_slice (sack o)))
      (fun x => match SackBlocks.as_slice (sack o) with [] => x
                | _ => set_sack x (push_all SackBlocks.EMPTY (SackBlocks.as_slice (sack o))) end)).
  { destruct (SackBlocks.as_slice (sack o)) as [|p l] eqn:He; [apply parses_nil|].
    apply sack_parses; [done|]. pose proof (zlen_nonneg l). zlen_lia. }
  pose proof (parses_app _ _ _ _ H1 (parses_app _ _ _ _ H2 (parses_app _ _ _ _ H3
    (parses_app _ _ _ _ H4 (parses_app _ _ _ _ H5 (nops_parse (Z.to_nat (encoded_len o - raw_len o)))))))) as H.
  specialize (H [] [] NONE). rewrite !app_nil_r, !app_nil_l in H.
  unfold encode, raw_bytes. rewrite <- !(assoc_L (++)). change 0 with (@zlen Z []) at 1. rewrite H.
  rewrite parse_at_end by done. f_equal. clear. unfold on_wire, NONE, opt_or.
  destruct (mss o), (wscale o), (sack_permitted o), (ts o), (SackBlocks.as_slice (sack o)); done.
Qed.

Lemma encode_bytes o : wf o -> bytes (encode o).
Proof.
  intros [Hm Hw Ht Hs Hb]. pose proof (SackBlocks.as_slice_length _ Hs). destruct Hs as [_ Hn].
  unfold encode, raw_bytes. rewrite !bytes_app.
  assert (Hblk : forall l, Forall u32_block l -> bytes (block_bytes l)).
  { clear. induction l as [|[a b] l IH]; intros Hl; cbn [block_bytes]; [constructor|].
    apply Forall_cons in Hl as [[? ?] Hl]. rewrite !bytes_app. split_and!; auto using be32_bytes_ok. }
  split_and!.
  - destruct (mss o); [|constructor]. unfold mss_bytes. rewrite bytes_app.
    split; [bytes_lit|exact (be16_bytes_ok _ Hm)].
  - destruct (wscale o); [|constructor]. unfold is_u8 in Hw. bytes_lit.
  - destruct (sack_permitted o); bytes_lit.
  - destruct (ts o) as [[v e]|]; [|constructor]. unfold ts_bytes. rewrite !bytes_app.
    split_and!; [bytes_lit|apply be32_bytes_ok, Ht..].
  - unfold sack_bytes. destruct (SackBlocks.as_slice (sack o)) as [|p l] eqn:He; [constructor|].
    rewrite bytes_app. split; [bytes_lit|by apply Hblk].
  - apply Forall_replicate. done.
Qed.

(** C24: Options survive the wire.  Writing well-typed options into any buffer
    that holds [encoded_len] bytes succeeds, fills exactly that many bytes, a
    multiple of four, leaves the rest alone, and parsing the block written gives
    the options back (window scale clipped to 14 as RFC 7323 requires). *)
Theorem options_roundtrip o out (Hwf : wf o) (Hout : encoded_len o <= zlen out) :
  exists out', write o out = Ok (out', encoded_len o) /\ zlen out' = zlen out /\
    encoded_len o mod 4 = 0 /\
    parse (take (Z.to_nat (encoded_len o)) out') = Ok (on_wire o) /\
    drop (Z.to_nat (encoded_len o)) out' = drop (Z.to_nat (encoded_len o)) out /\
    SackBlocks.as_slice (sack (on_wire o)) = SackBlocks.as_slice (sack o).
Proof.
  pose proof (encode_zlen o (wf_sack _ Hwf)) as Hz.
  replace (Z.to_nat (encoded_len o)) with (length (encode o)) by (unfold zlen in Hz; lia).
  eexists. split; [by apply write_encode; [apply Hwf|]|]. split_and!.
  - unfold zlen in *. rewrite length_app, length_drop. lia.
  - apply (align4_spec (raw_len o)), raw_len_nonneg, Hwf.
  - by rewrite take_app_length, parse_encode.
  - by rewrite drop_app_length.
  - by apply on_wire_blocks.
Qed.

Definition sample : TcpOptions :=
  mkOptions (Some 1460) (Some 7) (Some (4026531840, 1)) true
            (SackBlocks.from_slice [(100, 200); (4294967295, 5)]).

Lemma options_roundtrip_witness :
  encoded_len sample = 40 /\
  exists out', write sample (replicate 41 0) = Ok (out', encoded_len sample) /\ zlen out' = 41 /\
    encoded_len sample mod 4 = 0 /\
    parse (take 40 out') = Ok (on_wire sample) /\
    drop 40 out' = [0] /\
    SackBlocks.as_slice (sack (on_wire sample)) = SackBlocks.as_slice (sack sample).
Proof.
  split; [done|]. apply (options_roundtrip sample (replicate 41 0)); [|done].
  split; try done. repeat (apply Forall_cons; split; [done|]). constructor.
Defined.



End Options.
