(* ===== verification/Wire.v ===== *)
(** * IPv4 and TCP datagrams (src/wire.rs, [parse_opts] and [emit_with]).

    The datagram parser with every rejection it makes, and the emitter as the
    source performs it: the two headers filled by checked writes, the payload
    placed by the caller's closure, then the checksums.  The emitter is shown to
    produce a reference layout, the parser to accept it and to return what was
    emitted, and whatever the parser accepts to be a whole, verified TCP
    segment. *)
From S2P Require Import Prelude Error Bytes Checksum Sack Options.

Definition IPV4_HDR_LEN : Z := 20.
Definition TCP_HDR_LEN : Z := 20.
Definition IPPROTO_TCP : Z := 6.

Module flags.
Definition FIN : Z := 1.
Definition SYN : Z := 2.
Definition RST : Z := 4.
Definition PSH : Z := 8.
Definition ACK : Z := 16.
Definition ECE : Z := 64.
Definition CWR : Z := 128.
End flags.

Module ecn.
Definition NOT_ECT : Z := 0.
Definition ECT_1 : Z := 1.
Definition ECT_0 : Z := 2.
Definition CE : Z := 3.
Definition MASK : Z := 3.
End ecn.

Record Segment := mkSegment {
  src_ip : list Z;
  dst_ip : list Z;
  src_port : Z;
  dst_port : Z;
  seg_seq : Z;
  seg_ack : Z;
  seg_flags : Z;
  window : Z;
  options : TcpOptions;
  payload : list Z;
  seg_ecn : Z;
}.

Module Wire.

Definition has (s : Segment) (f : Z) : bool := Z.land (seg_flags s) f =? f.

Definition seq_len (s : Segment) : Z :=
  let n := as_u32 (zlen (payload s)) in
  let n := if has s flags.SYN then wadd32 n 1 else n in
  if has s flags.FIN then wadd32 n 1 else n.

(** The TCP half of [parse_opts], from the slice [tcp] of the datagram on. *)
Definition parse_tcp (en : Endian) (src_ip dst_ip : list Z) (tos : Z) (tcp : list Z)
    (verify_l4 : bool) : Res Segment :=
  check zlen tcp <? TCP_HDR_LEN else MalformedPacket ;
  let? sp := read2 tcp 0 in
  let? dp := read2 tcp 2 in
  let? sq := read4 tcp 4 in
  let? ak := read4 tcp 8 in
  let? off := ok_or (get tcp 12) MalformedPacket in
  let data_off := Z.shiftr off 4 * 4 in
  check (data_off <? TCP_HDR_LEN) || (zlen tcp <? data_off) else MalformedPacket ;
  let? fl := ok_or (get tcp 13) MalformedPacket in
  let? wnd := read2 tcp 14 in
  check verify_l4 && negb (tcp_checksum en src_ip dst_ip tcp =? 0) else MalformedPacket ;
  let? opt_bytes := ok_or (get_range tcp TCP_HDR_LEN data_off) MalformedPacket in
  let? opts := Options.parse opt_bytes in
  let? pl := ok_or (get_range tcp data_off (zlen tcp)) MalformedPacket in
  Ok (mkSegment src_ip dst_ip (from_be sp) (from_be dp) (from_be sq) (from_be ak) fl
        (from_be wnd) opts pl (Z.land tos ecn.MASK)).

Definition parse_opts (en : Endian) (packet : list Z) (verify_l4 : bool) : Res Segment :=
  let? ip := ok_or (get_range packet 0 IPV4_HDR_LEN) MalformedPacket in
  let? version_ihl := ok_or (get ip 0) MalformedPacket in
  check negb (Z.shiftr version_ihl 4 =? 4) else MalformedPacket ;
  let ihl := Z.land version_ihl 15 * 4 in
  check ihl <? IPV4_HDR_LEN else MalformedPacket ;
  let? tl := read2 ip 2 in
  let total_len := from_be tl in
  check (zlen packet <? total_len) || (total_len <? ihl + TCP_HDR_LEN) else MalformedPacket ;
  let? ff := read2 ip 6 in
  let flags_frag := from_be ff in
  check negb (Z.land flags_frag 8192 =? 0) || negb (Z.land flags_frag 8191 =? 0) else MalformedPacket ;
  let? proto := ok_or (get ip 9) MalformedPacket in
  check negb (proto =? IPPROTO_TCP) else NotForUs ;
  let? tos := ok_or (get ip 1) MalformedPacket in
  let? src_ip := read4 ip 12 in
  let? dst_ip := read4 ip 16 in
  let? ip_full := ok_or (get_range packet 0 ihl) MalformedPacket in
  check negb (checksum en ip_full 0 =? 0) else MalformedPacket ;
  let tcp_total := total_len - ihl in
  let? tcp := ok_or (get_range packet ihl (ihl + tcp_total)) MalformedPacket in
  parse_tcp en src_ip dst_ip tos tcp verify_l4.

Definition parse (en : Endian) (packet : list Z) : Res Segment := parse_opts en packet true.

(** The IPv4 header, over the zeroed first twenty bytes. *)
Definition emit_ip (en : Endian) (src_ip dst_ip : list Z) (total ip_id ecn : Z) : Res (list Z) :=
  let ip := replicate 20 0 in
  let? ip := put_u8 ip 0 69 in
  let? ip := put_u8 ip 1 (Z.land ecn ecn.MASK) in
  let? ip := put_u16 ip 2 total in
  let? ip := put_u16 ip 4 ip_id in
  let? ip := put_u16 ip 6 16384 in
  let? ip := put_u8 ip 8 64 in
  let? ip := put_u8 ip 9 IPPROTO_TCP in
  let? ip := put_u16 ip 10 0 in
  let? ip := put4 ip 12 src_ip in
  let? ip := put4 ip 16 dst_ip in
  let ip_csum := checksum en ip 0 in
  put_u16 ip 10 ip_csum.

(** The TCP header, over [tcp_hdr_len] zeroed bytes. *)
Definition emit_tcp (src_port dst_port seq ack flags window : Z) (opts : TcpOptions)
    (opt_len : Z) : Res (list Z) :=
  let tcp_hdr_len := TCP_HDR_LEN + opt_len in
  let hdr := replicate (Z.to_nat tcp_hdr_len) 0 in
  let? hdr := put_u16 hdr 0 src_port in
  let? hdr := put_u16 hdr 2 dst_port in
  let? hdr := put_u32 hdr 4 seq in
  let? hdr := put_u32 hdr 8 ack in
  let data_off := as_u8 (Z.shiftl (as_u8 (tcp_hdr_len / 4)) 4) in
  let? hdr := put_u8 hdr 12 data_off in
  let? hdr := put_u8 hdr 13 flags in
  let? hdr := put_u16 hdr 14 window in
  if 0 <? opt_len then
    let? opt_slice := ok_or (get_range hdr TCP_HDR_LEN (TCP_HDR_LEN + opt_len)) BufferTooSmall in
    let? w := Options.write opts opt_slice in
    check negb (snd w =? opt_len) else Overflow ;
    Ok (list_inserts (Z.to_nat TCP_HDR_LEN) (fst w) hdr)
  else Ok hdr.

(** [fill] writes the payload into the lent bytes and reports success. *)
Definition emit_with (en : Endian) (out : list Z) (src_ip dst_ip : list Z)
    (src_port dst_port seq ack flags window : Z) (opts : TcpOptions) (payload_len : Z)
    (fill : list Z -> list Z * bool) (ip_id ecn : Z) (full_csum : bool) : Res (list Z * Z) :=
  let opt_len := Options.encoded_len opts in
  check negb (opt_len mod 4 =? 0) || (40 <? opt_len) else Overflow ;
  let tcp_hdr_len := TCP_HDR_LEN + opt_len in
  let total := IPV4_HDR_LEN + tcp_hdr_len + payload_len in
  check zlen out <? total else BufferTooSmall ;
  check 65535 <? total else Overflow ;
  let? _ := ok_or (get_range out 0 IPV4_HDR_LEN) BufferTooSmall in
  let? ip := emit_ip en src_ip dst_ip total ip_id ecn in
  let out := list_inserts 0 ip out in
  let tcp_end := IPV4_HDR_LEN + tcp_hdr_len + payload_len in
  let? tcp := ok_or (get_range out IPV4_HDR_LEN tcp_end) BufferTooSmall in
  let body := drop (Z.to_nat tcp_hdr_len) tcp in
  let? hdr := emit_tcp src_port dst_port seq ack flags window opts opt_len in
  let? dst := ok_or (get_range body 0 payload_len) BufferTooSmall in
  let '(filled, ok) := fill dst in
  check negb ok else Overflow ;
  let tcp := hdr ++ list_inserts 0 filled body in
  let out := list_inserts (Z.to_nat IPV4_HDR_LEN) tcp out in
  let? tcp_segment := ok_or (get_range out IPV4_HDR_LEN tcp_end) BufferTooSmall in
  let tcp_csum :=
    if full_csum then tcp_checksum en src_ip dst_ip tcp_segment
    else tcp_partial_checksum en src_ip dst_ip (as_u32 (zlen tcp_segment)) in
  let? tcp_mut := put_u16 tcp_segment 16 tcp_csum in
  Ok (list_inserts (Z.to_nat IPV4_HDR_LEN) tcp_mut out, total).

Definition emit (en : Endian) (out : list Z) (src_ip dst_ip : list Z)
    (src_port dst_port seq ack flags window : Z) (opts : TcpOptions) (payload : list Z)
    (ip_id ecn : Z) : Res (list Z * Z) :=
  emit_with en out src_ip dst_ip src_port dst_port seq ack flags window opts (zlen payload)
    (fun _ => (payload, true)) ip_id ecn true.

(** ** Reference layout *)

Definition ip_header (src_ip dst_ip : list Z) (total ip_id ecn csum : Z) : list Z :=
  ([69; Z.land ecn ecn.MASK] ++ be16_bytes total ++ be16_bytes ip_id ++ be16_bytes 16384 ++
   [64; IPPROTO_TCP]) ++ be16_bytes csum ++ src_ip ++ dst_ip.

Definition tcp_fields (src_port dst_port seq ack flags window opt_len : Z) : list Z :=
  be16_bytes src_port ++ be16_bytes dst_port ++ be32_bytes seq ++ be32_bytes ack ++
  [16 * (5 + opt_len / 4); flags] ++ be16_bytes window.

Definition tcp_segment (src_port dst_port seq ack flags window : Z) (opts : TcpOptions)
    (csum : Z) (payload : list Z) : list Z :=
  tcp_fields src_port dst_port seq ack flags window (Options.encoded_len opts) ++
  be16_bytes csum ++ [0; 0] ++ Options.encode opts ++ payload.

Ltac put_step L := erewrite L by zlen_lia; cbn [res_bind ok_or].

Lemma emit_ip_layout en src_ip dst_ip total ip_id ecn :
  length src_ip = 4%nat -> length dst_ip = 4%nat ->
  emit_ip en src_ip dst_ip total ip_id ecn =
  Ok (ip_header src_ip dst_ip total ip_id ecn
        (checksum en (ip_header src_ip dst_ip total ip_id ecn 0) 0)).
Proof.
  intros Hs Hd. assert (zlen src_ip = 4) by (unfold zlen; lia). assert (zlen dst_ip = 4) by (unfold zlen; lia).
  unfold emit_ip. change (replicate 20 0) with ([] ++ replicate 20 0).
  assert (zlen (replicate 20 0) = 20) by done.
  put_step put_u8_next. put_step put_u8_next. put_step put_u16_next. put_step put_u16_next.
  put_step put_u16_next. put_step put_u8_next. put_step put_u8_next. put_step put_u16_next.
  erewrite put4_next by (done || zlen_lia). cbn [res_bind].
  erewrite put4_next by (done || zlen_lia). cbn [res_bind].
  rewrite !drop_drop. rewrite (drop_ge (replicate 20 0)) by (simpl; lia).
  set (h := _ ++ []). assert (Hh : h = ip_header src_ip dst_ip total ip_id ecn 0).
  { unfold h, ip_header. rewrite app_nil_r, <- !(assoc_L (++)). done. }
  rewrite Hh. unfold ip_header at 1. rewrite put_u16_next by (done || zlen_lia).
  unfold ip_header. by rewrite <- !(assoc_L (++)).
Qed.

Lemma data_off_byte l : 0 <= l <= 40 -> as_u8 (Z.shiftl (as_u8 ((TCP_HDR_LEN + l) / 4)) 4) = 16 * (5 + l / 4).
Proof.
  intros Hl. rewrite Z.shiftl_mul_pow2 by lia. change (2 ^ 4) with 16. unfold TCP_HDR_LEN.
  replace (20 + l) with (l + 5 * 4) by lia. rewrite Z.div_add by lia.
  assert (0 <= l / 4 <= 10) by (split; [apply Z.div_pos; lia|apply Z.div_le_upper_bound; lia]).
  unfold as_u8. rewrite (Z.mod_small (l / 4 + 5)), Z.mod_small; lia.
Qed.

Lemma zlen_replicate {A} n (x : A) : 0 <= n -> zlen (replicate (Z.to_nat n) x) = n.
Proof. intros. unfold zlen. rewrite length_replicate. lia. Qed.

Lemma emit_tcp_layout src_port dst_port seq ack flags window opts :
  SackBlocks.wf (sack opts) -> Options.encoded_len opts <= 40 ->
  emit_tcp src_port dst_port seq ack flags window opts (Options.encoded_len opts) =
  Ok (tcp_fields src_port dst_port seq ack flags window (Options.encoded_len opts) ++
      [0; 0; 0; 0] ++ Options.encode opts).
Proof.
  intros Hs HL. pose proof (Options.encode_zlen opts Hs) as Hz. pose proof (zlen_nonneg (Options.encode opts)).
  set (L := Options.encoded_len opts) in *.
  assert (Hr : zlen (replicate (Z.to_nat (TCP_HDR_LEN + L)) 0) = 20 + L) by (apply zlen_replicate; unfold TCP_HDR_LEN; lia).
  unfold emit_tcp. change (replicate ?n 0) with ([] ++ replicate n 0). cbv zeta.
  put_step put_u16_next. put_step put_u16_next. put_step put_u32_next. put_step put_u32_next.
  put_step put_u8_next. put_step put_u8_next. put_step put_u16_next.
  rewrite !drop_drop, data_off_byte by lia. cbn [Nat.add].
  replace (drop 16 _) with ([0; 0; 0; 0] ++ replicate (Z.to_nat L) 0);
    [|rewrite drop_replicate; change [0; 0; 0; 0] with (replicate 4 0); rewrite <- replicate_add; f_equal;
      unfold TCP_HDR_LEN; lia].
  set (h := _ ++ be16_bytes window).
  assert (Hh : h = tcp_fields src_port dst_port seq ack flags window L)
    by (unfold h, tcp_fields; by rewrite app_nil_l, <- !(assoc_L (++))).
  assert (Hzh : zlen h = 16) by (rewrite Hh; unfold tcp_fields; zlen_lia). clearbody h. subst h.
  case_if; bool_facts.
  - rewrite (assoc_L (++)).
    rewrite range_next by (done || rewrite ?zlen_replicate; unfold TCP_HDR_LEN; zlen_lia). cbn [ok_or res_bind].
    rewrite take_ge by (rewrite length_replicate; lia).
    rewrite Options.write_encode by (done || rewrite zlen_replicate; lia). cbn [ok_or res_bind fst snd].
    rewrite Z.eqb_refl. cbn [negb]. f_equal.
    rewrite drop_ge, app_nil_r by (rewrite length_replicate; unfold zlen in Hz; lia).
    rewrite inserts_next by first [unfold TCP_HDR_LEN; zlen_lia | rewrite length_replicate; unfold zlen in Hz; lia].
    rewrite drop_ge, app_nil_r, <- (assoc_L (++)) by (rewrite length_replicate; unfold zlen in Hz; lia). done.
  - replace L with 0 in * by lia. apply zlen_0 in Hz. by rewrite Hz.
Qed.

Lemma zlen_ip_header src_ip dst_ip total ip_id ecn csum :
  length src_ip = 4%nat -> length dst_ip = 4%nat -> zlen (ip_header src_ip dst_ip total ip_id ecn csum) = 20.
Proof. intros H1 H2. unfold ip_header, zlen. rewrite !length_app, H1, H2. done. Qed.

Lemma zlen_tcp_segment src_port dst_port seq ack flags window opts csum payload :
  SackBlocks.wf (sack opts) ->
  zlen (tcp_segment src_port dst_port seq ack flags window opts csum payload) =
  20 + Options.encoded_len opts + zlen payload.
Proof.
  intros Hs. unfold tcp_segment, tcp_fields. pose proof (Options.encode_zlen opts Hs). zlen_lia.
Qed.

(** A prefix of the buffer overwritten in full. *)
Lemma inserts_front (bs out : list Z) :
  zlen bs <= zlen out -> list_inserts 0 bs out = bs ++ drop (length bs) out.
Proof. intros H. apply (inserts_next [] out 0); [done|]. unfold zlen in H. lia. Qed.

Section Emit.
Variables (en : Endian) (out sip dip : list Z).
Variables (sport dport sq ak fl wnd : Z) (opts : TcpOptions) (plen : Z).
Variables (fill : list Z -> list Z * bool) (p : list Z) (ip_id ecnv : Z) (full : bool).
Let L := Options.encoded_len opts.
Let total := 40 + L + plen.
Hypothesis Hsip : length sip = 4%nat.
Hypothesis Hdip : length dip = 4%nat.
Hypothesis Hs : SackBlocks.wf (sack opts).
Hypothesis HL : L <= 40.
Hypothesis Hp : zlen p = plen.
Hypothesis Hout : total <= zlen out.
Hypothesis H16 : total < M16.
Hypothesis Hfill : forall dst, zlen dst = plen -> fill dst = (p, true).

Definition emitted : list Z :=
  ip_header sip dip total ip_id ecnv (checksum en (ip_header sip dip total ip_id ecnv 0) 0) ++
  tcp_segment sport dport sq ak fl wnd opts
    (if full then tcp_checksum en sip dip (tcp_segment sport dport sq ak fl wnd opts 0 p)
     else tcp_partial_checksum en sip dip (total - 20)) p.

Lemma zlen_emitted : zlen emitted = total.
Proof using Hsip Hdip Hs Hp.
  unfold emitted. rewrite zlen_app, zlen_ip_header, zlen_tcp_segment by done. unfold total, L. lia.
Qed.

Lemma opt_len_ok : 0 <= L /\ (L mod 4 =? 0) = true.
Proof using Hs.
  clear -Hs. pose proof (Options.raw_len_nonneg opts Hs).
  pose proof (Options.align4_spec (Options.raw_len opts) ltac:(done)) as [? Hm].
  unfold L, Options.encoded_len. split; [lia|]. by rewrite Hm.
Qed.

(** The emitter produces exactly the reference layout, and touches nothing
    behind it. *)
Lemma emit_with_layout :
  emit_with en out sip dip sport dport sq ak fl wnd opts plen fill ip_id ecnv full =
  Ok (emitted ++ drop (Z.to_nat total) out, total).
Proof using Hsip Hdip Hs HL Hp Hout H16 Hfill.
  destruct opt_len_ok as [HL0 HLm]. pose proof (zlen_nonneg p). unfold emit_with.
  fold L. rewrite HLm. cbn [negb orb]. replace (40 <? L) with false by lia.
  change (IPV4_HDR_LEN + (TCP_HDR_LEN + L) + plen) with (20 + (20 + L) + plen).
  replace (20 + (20 + L) + plen) with total by (unfold total; lia).
  replace (zlen out <? total) with false by lia. replace (65535 <? total) with false by lia.
  rewrite get_range_eq by (unfold IPV4_HDR_LEN, total in *; lia). cbn [ok_or res_bind].
  rewrite emit_ip_layout by done. cbn [ok_or res_bind].
  set (iph := ip_header _ _ _ _ _ (checksum _ _ _)).
  assert (Hiph : zlen iph = 20) by (by apply zlen_ip_header).
  rewrite inserts_front by (unfold total in *; lia).
  replace (length iph) with 20%nat by (unfold zlen in Hiph; lia).
  replace (get_range (iph ++ drop 20 out) IPV4_HDR_LEN total)
    with (Some (take (Z.to_nat (total - 20)) (drop 20 out)));
    [|symmetry; replace total with (IPV4_HDR_LEN + (total - 20)) at 1 by (unfold IPV4_HDR_LEN; lia);
      apply range_next; [done|unfold total in *; zlen_lia]].
  cbn [ok_or res_bind]. rewrite emit_tcp_layout by done. cbn [ok_or res_bind].
  set (body := drop _ _). assert (Hbody : zlen body = plen).
  { unfold body. rewrite zlen_drop, zlen_take, zlen_drop_nat. unfold sat_sub, TCP_HDR_LEN, total in *. lia. }
  rewrite get_range_eq by lia. rewrite Z.sub_0_r, drop_0, take_ge by (unfold zlen in Hbody; lia).
  cbn [ok_or res_bind]. rewrite Hfill by done. cbn [negb]. rewrite inserts_front by lia.
  rewrite (drop_ge body) by (unfold zlen in *; lia). rewrite app_nil_r.
  set (seg c := tcp_segment sport dport sq ak fl wnd opts c p).
  replace ((tcp_fields sport dport sq ak fl wnd (Options.encoded_len opts) ++
     [0; 0; 0; 0] ++ Options.encode opts) ++ p) with (seg 0) by (unfold seg, tcp_segment; by rewrite <- !(assoc_L (++))).
  assert (Hseg : forall c, length (seg c) = Z.to_nat (total - 20)).
  { intros c. pose proof (zlen_tcp_segment sport dport sq ak fl wnd opts c p Hs) as Hz.
    unfold zlen in Hz at 1. fold (seg c) L in Hz. unfold total. lia. }
  assert (Hroom : (length (seg 0%Z) <= length (drop 20 out))%nat)
    by (rewrite Hseg, length_drop; unfold zlen, total in *; lia).
  rewrite (inserts_next iph) by done. rewrite <- (assoc_L (++)).
  set (rest := drop (length (seg 0)) (drop 20 out)).
  replace (get_range (iph ++ seg 0 ++ rest) IPV4_HDR_LEN total) with (Some (seg 0)).
  2:{ symmetry. replace total with (IPV4_HDR_LEN + (total - 20)) by (unfold IPV4_HDR_LEN; lia).
      rewrite range_next; [|done|rewrite zlen_app; unfold zlen; rewrite Hseg; unfold total in *; lia].
      by rewrite <- (Hseg 0), take_app_length. }
  cbn [ok_or res_bind].
  assert (Hz0 : as_u32 (zlen (seg 0)) = total - 20).
  { unfold zlen. rewrite Hseg. unfold as_u32, total in *. rewrite Z.mod_small; lia. }
  rewrite Hz0. set (C := if full then _ else _).
  assert (Hput : put_u16 (seg 0) 16 C = Ok (seg C)).
  { unfold seg, tcp_segment. rewrite put_u16_next; [|unfold tcp_fields; zlen_lia|
      rewrite zlen_app, zlen_be16; pose proof (zlen_nonneg ([0; 0] ++ Options.encode opts ++ p)); lia].
    by rewrite <- !(assoc_L (++)). }
  rewrite Hput. cbn [res_bind].
  rewrite (inserts_next iph) by (done || (rewrite length_app, (Hseg C), (Hseg 0); lia)).
  rewrite (Hseg C), <- (Hseg 0), drop_app_length. unfold rest.
  rewrite drop_drop, (Hseg 0). unfold emitted. fold iph. fold (seg 0) (seg C).
  replace (Z.to_nat total) with (20 + Z.to_nat (total - 20))%nat by (unfold total in *; lia).
  by rewrite <- !(assoc_L (++)).
Qed.
End Emit.

(** ** Parsing the layout *)

Lemma get_range_app_l (l k : list Z) a b : b <= zlen l -> get_range (l ++ k) a b = get_range l a b.
Proof.
  intros Hb. unfold get_range. rewrite zlen_app. pose proof (zlen_nonneg k).
  destruct (decide (0 <= a <= b)) as [Hab|].
  - replace ((0 <=? a) && (a <=? b) && (b <=? zlen l + zlen k)) with true by lia.
    replace ((0 <=? a) && (a <=? b) && (b <=? zlen l)) with true by lia. f_equal.
    unfold zlen in Hb. rewrite drop_app_le, take_app_le by (rewrite ?length_drop; lia). done.
  - case_if; [bool_facts; lia|]. case_if; [bool_facts; lia|done].
Qed.

Lemma get_app_l (l k : list Z) i : i < zlen l -> get (l ++ k) i = get l i.
Proof. intros Hi. rewrite get_app. by replace (i <? zlen l) with true by lia. Qed.

Lemma read2_app_l l k i : i + 2 <= zlen l -> read2 (l ++ k) i = read2 l i.
Proof. intros. unfold read2. by rewrite get_range_app_l. Qed.

Lemma read4_app_l l k i : i + 4 <= zlen l -> read4 (l ++ k) i = read4 l i.
Proof. intros. unfold read4. by rewrite get_range_app_l. Qed.

Lemma get_range_front (l k : list Z) n : zlen l = n -> get_range (l ++ k) 0 n = Some l.
Proof.
  intros Hn. pose proof (zlen_nonneg l). rewrite get_range_app_l, get_range_eq by lia.
  rewrite Z.sub_0_r, drop_0, take_ge by (unfold zlen in Hn; lia). done.
Qed.

Lemma get_range_middle (l k r : list Z) a b :
  zlen l = a -> zlen k = b - a -> get_range (l ++ k ++ r) a b = Some k.
Proof.
  intros Ha Hb. pose proof (zlen_nonneg k). pose proof (zlen_nonneg r). replace b with (a + (b - a)) by lia.
  rewrite range_next by (done || zlen_lia). rewrite <- Hb. unfold zlen.
  by rewrite Nat2Z.id, take_app_length.
Qed.

Lemma get_range_back (l k : list Z) a : zlen l = a -> get_range (l ++ k) a (zlen (l ++ k)) = Some k.
Proof.
  intros Ha. rewrite <- (app_nil_r k) at 1. apply get_range_middle; [done|]. rewrite zlen_app. lia.
Qed.

(** A segment as the sender hands it to the emitter. *)
Record sendable (sip dip : list Z) (sport dport sq ak fl wnd : Z) (opts : TcpOptions) (p : list Z) : Prop := {
  sd_sip : length sip = 4%nat /\ bytes sip;
  sd_dip : length dip = 4%nat /\ bytes dip;
  sd_ports : is_u16 sport /\ is_u16 dport;
  sd_seq : is_u32 sq /\ is_u32 ak;
  sd_flags : is_u8 fl;
  sd_wnd : is_u16 wnd;
  sd_opts : Options.wf opts;
  sd_optlen : Options.encoded_len opts <= 40;
  sd_payload : bytes p;
  sd_total : 40 + Options.encoded_len opts + zlen p < M16;
}.

Section Parse.
Variables (en : Endian) (sip dip : list Z).
Variables (sport dport sq ak fl wnd : Z) (opts : TcpOptions) (p : list Z) (ip_id ecnv : Z).
Hypothesis Hok : sendable sip dip sport dport sq ak fl wnd opts p.
Let L := Options.encoded_len opts.
Let total := 40 + L + zlen p.
Hypothesis Hid : is_u16 ip_id.

Lemma ip_header_verifies :
  let c := checksum en (ip_header sip dip total ip_id ecnv 0) 0 in
  is_u16 c /\ checksum en (ip_header sip dip total ip_id ecnv c) 0 = 0.
Proof using Hok Hid.
  destruct Hok as [[Hsl Hsb] [Hdl Hdb] _ _ _ _ Hwf _ _ Ht]. fold L in Ht.
  pose proof (zlen_nonneg p). pose proof (Options.raw_len_nonneg opts (Options.wf_sack _ Hwf)).
  pose proof (Options.align4_spec (Options.raw_len opts) ltac:(done)) as [? _]. fold (Options.encoded_len opts) in H1.
  fold L in H1. unfold ip_header.
  apply (checksum_fills en _ (sip ++ dip) 0).
  - by exists 5%nat.
  - rewrite !bytes_app. split_and!; try (apply be16_bytes_ok; done || (unfold is_u16, total; lia)).
    + assert (is_u8 (Z.land ecnv ecn.MASK)); [|bytes_lit].
      change ecn.MASK with (Z.ones 2). rewrite Z.land_ones by lia.
      pose proof (Z.mod_pos_bound ecnv (2 ^ 2) ltac:(done)). unfold is_u8. lia.
    + bytes_lit.
  - by apply bytes_app.
  - autorewrite with zlen. unfold zlen. rewrite Hsl, Hdl. done.
  - done.
Qed.

Lemma tcp_segment_verifies :
  let c := tcp_checksum en sip dip (tcp_segment sport dport sq ak fl wnd opts 0 p) in
  is_u16 c /\ tcp_checksum en sip dip (tcp_segment sport dport sq ak fl wnd opts c p) = 0.
Proof using Hok.
  clear Hid ip_id. destruct Hok as [_ _ [Hsp Hdp] [Hsq Hak] Hfl Hwnd Hwf HL Hpb Ht].
  pose proof (zlen_nonneg p). pose proof (Options.raw_len_nonneg opts (Options.wf_sack _ Hwf)).
  pose proof (Options.align4_spec (Options.raw_len opts) ltac:(done)) as [? _]. fold (Options.encoded_len opts) in H1.
  unfold tcp_checksum. rewrite !zlen_tcp_segment by apply Hwf.
  set (seed := pseudo_sum _ _ _). unfold tcp_segment.
  apply (checksum_fills en _ ([0; 0] ++ Options.encode opts ++ p) seed).
  - by exists 8%nat.
  - unfold tcp_fields. rewrite !bytes_app.
    split_and!; try (by apply be16_bytes_ok); try (by apply be32_bytes_ok).
    assert (0 <= Options.encoded_len opts / 4 <= 10)
      by (split; [apply Z.div_pos; lia|apply Z.div_le_upper_bound; lia]).
    bytes_lit.
  - rewrite !bytes_app. split_and!; [bytes_lit|by apply Options.encode_bytes|done].
  - unfold tcp_fields. pose proof (Options.encode_zlen opts (Options.wf_sack _ Hwf)). zlen_lia.
  - unfold seed, pseudo_sum. word_lia.
Qed.

(** The fixed part of the TCP header, cell by cell. *)
Lemma tcp_header_reads c rest :
  let tcp := tcp_fields sport dport sq ak fl wnd L ++ be16_bytes c ++ [0; 0] ++ rest in
  read2 tcp 0 = Ok (be16_bytes sport) /\ read2 tcp 2 = Ok (be16_bytes dport) /\
  read4 tcp 4 = Ok (be32_bytes sq) /\ read4 tcp 8 = Ok (be32_bytes ak) /\
  get tcp 12 = Some (16 * (5 + L / 4)) /\ get tcp 13 = Some fl /\ read2 tcp 14 = Ok (be16_bytes wnd).
Proof using.
  clear. intros tcp. unfold tcp, tcp_fields. rewrite !(assoc_L (++) _ _ rest).
  set (h := _ ++ _ ++ [0; 0]). assert (Hh : zlen h = 20) by (unfold h; by autorewrite with zlen).
  rewrite !(read2_app_l h), !(read4_app_l h), !(get_app_l h) by lia. by split_and!.
Qed.

Lemma ip_header_reads c :
  let ip := ip_header sip dip total ip_id ecnv c in
  get ip 0 = Some 69 /\ get ip 1 = Some (Z.land ecnv ecn.MASK) /\ read2 ip 2 = Ok (be16_bytes total) /\
  read2 ip 6 = Ok (be16_bytes 16384) /\ get ip 9 = Some 6 /\ read4 ip 12 = Ok sip /\ read4 ip 16 = Ok dip.
Proof using Hok.
  destruct Hok as [[Hsl _] [Hdl _] _ _ _ _ _ _ _ _]. clear -Hsl Hdl. intros ip. unfold ip, ip_header.
  destruct sip as [|? [|? [|? [|? [|]]]]]; try done. destruct dip as [|? [|? [|? [|? [|]]]]]; done.
Qed.

Lemma data_off_value : 0 <= L <= 40 -> L mod 4 = 0 -> Z.shiftr (16 * (5 + L / 4)) 4 * 4 = 20 + L.
Proof using.
  clear. intros HL Hm. rewrite Z.shiftr_div_pow2 by lia. change (2 ^ 4) with 16.
  rewrite (Z.mul_comm 16), Z.div_mul by lia. pose proof (Z.div_mod L 4 ltac:(lia)). lia.
Qed.

Lemma opt_len_facts : 0 <= L <= 40 /\ L mod 4 = 0.
Proof using Hok.
  clear Hid ip_id. destruct Hok as [_ _ _ _ _ _ Hwf HL _ _].
  destruct (opt_len_ok opts (Options.wf_sack _ Hwf)) as [? ?%Z.eqb_eq].
  unfold L. split; [lia|done].
Qed.

Lemma land_mask_idem x : Z.land (Z.land x ecn.MASK) ecn.MASK = Z.land x ecn.MASK.
Proof using. by rewrite <- Z.land_assoc, Z.land_diag. Qed.

Lemma parse_tcp_emitted verify c :
  (verify = true -> c = tcp_checksum en sip dip (tcp_segment sport dport sq ak fl wnd opts 0 p)) ->
  parse_tcp en sip dip (Z.land ecnv ecn.MASK) (tcp_segment sport dport sq ak fl wnd opts c p) verify =
  Ok (mkSegment sip dip sport dport sq ak fl wnd (Options.on_wire opts) p (Z.land ecnv ecn.MASK)).
Proof using Hok.
  intros Hverify. destruct tcp_segment_verifies as [_ Htcpv]. pose proof opt_len_facts as [HL HLm].
  clear Hid ip_id. destruct Hok as [_ _ [Hsp Hdp] [Hsq Hak] _ Hwnd Hwf _ _ _].
  pose proof (zlen_nonneg p). set (tcp := tcp_segment sport dport sq ak fl wnd opts c p) in *.
  assert (Hztcp : zlen tcp = 20 + L + zlen p) by (apply zlen_tcp_segment, Hwf).
  destruct (tcp_header_reads c (Options.encode opts ++ p)) as (T0 & T2 & T4 & T8 & T12 & T13 & T14).
  change (tcp_fields _ _ _ _ _ _ L ++ _) with tcp in T0, T2, T4, T8, T12, T13, T14.
  unfold parse_tcp. replace (zlen tcp <? TCP_HDR_LEN) with false by (unfold TCP_HDR_LEN; lia).
  rewrite T0, T2, T4, T8, T12. cbn [ok_or res_bind]. rewrite data_off_value by done.
  replace ((20 + L <? TCP_HDR_LEN) || (zlen tcp <? 20 + L)) with false by (unfold TCP_HDR_LEN; lia).
  rewrite T13, T14. cbn [ok_or res_bind].
  replace (verify && _) with false; cycle 1.
  { destruct verify; [|done]. unfold tcp. by rewrite Hverify, Htcpv. }
  assert (Hopt : get_range tcp TCP_HDR_LEN (20 + L) = Some (Options.encode opts)).
  { unfold tcp, tcp_segment. rewrite !(assoc_L (++) _ _ (Options.encode opts ++ p)).
    apply get_range_middle; [unfold tcp_fields, TCP_HDR_LEN; by autorewrite with zlen|].
    rewrite Options.encode_zlen by apply Hwf. unfold TCP_HDR_LEN, L. lia. }
  rewrite Hopt. cbn [ok_or res_bind]. rewrite Options.parse_encode by done. cbn [res_bind].
  assert (Hpl : get_range tcp (20 + L) (zlen tcp) = Some p).
  { unfold tcp, tcp_segment. rewrite !(assoc_L (++) _ _ p).
    apply get_range_back. unfold tcp_fields. autorewrite with zlen.
    rewrite Options.encode_zlen by apply Hwf. unfold L. lia. }
  rewrite Hpl. cbn [ok_or res_bind]. by rewrite !be16_roundtrip, !be32_roundtrip, land_mask_idem.
Qed.

(** The parser accepts an emitted datagram, whatever follows it in the buffer,
    and returns the fields it was emitted with. *)
Lemma parse_emitted verify c tail :
  (verify = true -> c = tcp_checksum en sip dip (tcp_segment sport dport sq ak fl wnd opts 0 p)) ->
  parse_opts en
    (ip_header sip dip total ip_id ecnv (checksum en (ip_header sip dip total ip_id ecnv 0) 0) ++
     tcp_segment sport dport sq ak fl wnd opts c p ++ tail) verify =
  Ok (mkSegment sip dip sport dport sq ak fl wnd (Options.on_wire opts) p (Z.land ecnv ecn.MASK)).
Proof using Hok Hid.
  intros Hverify. destruct ip_header_verifies as [Hc1 Hipv]. pose proof opt_len_facts as [HL HLm].
  pose proof (parse_tcp_emitted verify c Hverify) as Htcp.
  pose proof (sd_sip _ _ _ _ _ _ _ _ _ _ Hok) as [Hsl _]. pose proof (sd_dip _ _ _ _ _ _ _ _ _ _ Hok) as [Hdl _].
  pose proof (sd_total _ _ _ _ _ _ _ _ _ _ Hok) as Ht. fold L in Ht.
  pose proof (Options.wf_sack _ (sd_opts _ _ _ _ _ _ _ _ _ _ Hok)) as Hs.
  pose proof (zlen_nonneg p). pose proof (zlen_nonneg tail).
  set (c1 := checksum en (ip_header sip dip total ip_id ecnv 0) 0) in *.
  set (ip := ip_header sip dip total ip_id ecnv c1) in *.
  set (tcp := tcp_segment sport dport sq ak fl wnd opts c p) in *.
  assert (Hzip : zlen ip = 20) by (by apply zlen_ip_header).
  assert (Hztcp : zlen tcp = 20 + L + zlen p) by (by apply zlen_tcp_segment).
  destruct (ip_header_reads c1) as (R0 & R1 & R2 & R6 & R9 & R12 & R16). fold ip in R0, R1, R2, R6, R9, R12, R16.
  unfold parse_opts. rewrite get_range_front by done. cbn [ok_or res_bind].
  rewrite R0. cbn [ok_or res_bind]. change (negb (Z.shiftr 69 4 =? 4)) with false.
  change (Z.land 69 15 * 4 <? IPV4_HDR_LEN) with false. change (Z.land 69 15 * 4) with 20. cbv iota.
  rewrite R2. cbn [res_bind]. rewrite be16_roundtrip by (unfold is_u16, total; lia).
  replace ((zlen _ <? total) || (total <? 20 + TCP_HDR_LEN)) with false
    by (rewrite !zlen_app, Hzip, Hztcp; unfold TCP_HDR_LEN, total; lia).
  rewrite R6. cbn [res_bind]. change (from_be (be16_bytes 16384)) with 16384.
  change (negb (Z.land 16384 8192 =? 0) || negb (Z.land 16384 8191 =? 0)) with false. cbv iota.
  rewrite R9. cbn [ok_or res_bind]. change (negb (6 =? IPPROTO_TCP)) with false. cbv iota.
  rewrite R1. cbn [ok_or res_bind]. rewrite R12, R16. cbn [res_bind].
  rewrite get_range_front by done. cbn [ok_or res_bind]. rewrite Hipv. cbn [Z.eqb negb].
  rewrite get_range_middle by (done || (rewrite Hztcp; unfold total; lia)). done.
Qed.

End Parse.

(** ** Properties *)

(** C26: Emission and parsing are inverse: a well-typed segment emitted into any
    buffer it fits in yields a datagram of [40 + options + payload] bytes that
    the parser, checksums verified, turns back into the same segment; the bytes
    behind it in the buffer are untouched. *)
Theorem emit_parse_roundtrip en out sip dip sport dport sq ak fl wnd opts p ip_id ecnv
    (Hok : sendable sip dip sport dport sq ak fl wnd opts p)
    (Hid : is_u16 ip_id)
    (Hout : 40 + Options.encoded_len opts + zlen p <= zlen out) :
  let total := 40 + Options.encoded_len opts + zlen p in
  exists out', emit en out sip dip sport dport sq ak fl wnd opts p ip_id ecnv = Ok (out', total) /\
    zlen out' = zlen out /\
    drop (Z.to_nat total) out' = drop (Z.to_nat total) out /\
    parse en (take (Z.to_nat total) out') =
      Ok (mkSegment sip dip sport dport sq ak fl wnd (Options.on_wire opts) p (Z.land ecnv ecn.MASK)).
Proof.
  intros total. pose proof Hok as [[Hsl _] [Hdl _] _ _ _ _ Hwf HL _ Ht].
  pose proof (Options.wf_sack _ Hwf) as Hs.
  pose proof (zlen_emitted en sip dip sport dport sq ak fl wnd opts (zlen p) p ip_id ecnv true Hsl Hdl Hs eq_refl) as Hz.
  assert (Hlen : Z.to_nat total = length (emitted en sip dip sport dport sq ak fl wnd opts (zlen p) p ip_id ecnv true))
    by (unfold zlen in Hz at 1; unfold total; lia).
  eexists. split.
  { unfold emit. rewrite (emit_with_layout en out sip dip sport dport sq ak fl wnd opts (zlen p) _ p) by done.
    done. }
  split_and!.
  - pose proof (zlen_nonneg p). destruct (opt_len_ok opts Hs) as [? _].
    rewrite zlen_app, Hz, zlen_drop. unfold sat_sub, total in *. lia.
  - fold total. rewrite Hlen. by rewrite drop_app_length.
  - fold total. rewrite Hlen, take_app_length. unfold parse, emitted.
    rewrite <- (app_nil_r (tcp_segment _ _ _ _ _ _ _ _ _)). by apply parse_emitted.
Qed.

Definition sample_opts : TcpOptions :=
  mkOptions None None (Some (305419896, 4293844428)) false (SackBlocks.one 5000 6000).

Lemma emit_parse_roundtrip_witness :
  exists out', emit Little (replicate 80 7) [10; 0; 0; 1] [192; 168; 1; 2] 443 50000 4294967290 17
      24 512 sample_opts [104; 105; 33] 9 2 = Ok (out', 63) /\
    zlen out' = 80 /\ drop 63 out' = replicate 17 7 /\
    parse Little (take 63 out') =
      Ok (mkSegment [10; 0; 0; 1] [192; 168; 1; 2] 443 50000 4294967290 17 24 512
            (Options.on_wire sample_opts) [104; 105; 33] 2).
Proof.
  apply (emit_parse_roundtrip Little (replicate 80 7) [10; 0; 0; 1] [192; 168; 1; 2]); [|done|done].
  split; try done; try (split; [done|bytes_lit]); try bytes_lit.
  split; try done. repeat (apply Forall_cons; split; [done|]). constructor.
Defined.

Lemma parse_tcp_inv en sip dip tos tcp verify seg :
  parse_tcp en sip dip tos tcp verify = Ok seg ->
  exists off ob, get tcp 12 = Some off /\ 20 <= Z.shiftr off 4 * 4 <= zlen tcp /\
    (verify = true -> tcp_checksum en sip dip tcp = 0) /\
    src_ip seg = sip /\ dst_ip seg = dip /\
    get_range tcp 20 (Z.shiftr off 4 * 4) = Some ob /\ Options.parse ob = Ok (options seg) /\
    get_range tcp (Z.shiftr off 4 * 4) (zlen tcp) = Some (payload seg) /\
    exists sq dp, read4 tcp 4 = Ok sq /\ seg_seq seg = from_be sq /\
      read2 tcp 2 = Ok dp /\ dst_port seg = from_be dp /\ get tcp 13 = Some (seg_flags seg).
Proof.
  unfold parse_tcp, TCP_HDR_LEN. intros H. case_if in H; [done|].
  res_inv H sp Hsp. apply res_bind_Ok in H as (dp & Hdp & H). apply res_bind_Ok in H as (sq & Hsq & H). res_inv H ak Hak. res_inv H off Hoff.
  case_if in H; [done|]. res_inv H fl Hfl. res_inv H wnd Hwnd.
  destruct (verify && _) eqn:Hv in H; [done|]. res_inv H ob Hob. res_inv H opts Hopts. res_inv H pl Hpl.
  injection H as <-. cbn [src_ip dst_ip options payload seg_seq dst_port seg_flags]. exists off, ob. split_and!; try done; try lia.
  - intros ->. cbn [andb] in Hv. lia.
  - by exists sq, dp.
Qed.

Lemma parse_opts_inv en packet verify seg :
  parse_opts en packet verify = Ok seg ->
  exists ip b0 tl ff tos sip dip hdr tcp,
    get_range packet 0 20 = Some ip /\ get ip 0 = Some b0 /\ Z.shiftr b0 4 = 4 /\ 20 <= Z.land b0 15 * 4 /\
    read2 ip 2 = Ok tl /\ Z.land b0 15 * 4 + 20 <= from_be tl <= zlen packet /\
    read2 ip 6 = Ok ff /\ (Z.land (from_be ff) 8191 = 0 /\ Z.land (from_be ff) 8192 = 0) /\ get ip 9 = Some 6 /\
    get_range packet 0 (Z.land b0 15 * 4) = Some hdr /\ checksum en hdr 0 = 0 /\
    get_range packet (Z.land b0 15 * 4) (from_be tl) = Some tcp /\
    parse_tcp en sip dip tos tcp verify = Ok seg /\ read4 ip 16 = Ok dip.
Proof.
  unfold parse_opts, IPV4_HDR_LEN, TCP_HDR_LEN, IPPROTO_TCP. intros H.
  res_inv H ip Hip. res_inv H b0 Hb0. case_if in H; [done|]. case_if in H; [done|].
  apply res_bind_Ok in H as (tl & Htl & H). case_if in H; [done|].
  apply res_bind_Ok in H as (ff & Hff & H). case_if in H; [done|].
  res_inv H proto Hproto. case_if in H; [done|]. res_inv H tos Htos.
  res_inv H sip Hsip. apply res_bind_Ok in H as (dip & Hdip & H). res_inv H hdr Hhdr. case_if in H; [done|]. res_inv H tcp Htcp.
  rewrite Zplus_minus in Htcp. bool_facts. exists ip, b0, tl, ff, tos, sip, dip, hdr, tcp.
  split_and!; try done; try lia. rewrite Hproto. f_equal. lia.
Qed.


Definition sample_packet : list Z :=
  match emit Big (replicate 45 0) [10; 0; 0; 1] [10; 0; 0; 2] 1 2 3 4 16 9 Options.NONE [1; 2; 3; 4; 5] 0 0 with
  | Ok (out, _) => out
  | Err _ => []
  end.

Definition sample_segment : Segment :=
  mkSegment [10; 0; 0; 1] [10; 0; 0; 2] 1 2 3 4 16 9 Options.NONE [1; 2; 3; 4; 5] 0.


(** C28: The emitter fails in exactly three ways, checked in this order: the
    options do not fit 40 bytes ([Overflow]), the buffer is too small
    ([BufferTooSmall]), the datagram exceeds 65535 bytes ([Overflow]).
    Otherwise it succeeds. *)
Theorem emit_errors en out sip dip sport dport sq ak fl wnd opts p ip_id ecnv
    (Hsip : length sip = 4%nat) (Hdip : length dip = 4%nat) (Hs : SackBlocks.wf (sack opts)) :
  let L := Options.encoded_len opts in
  let total := 40 + L + zlen p in
  let r := emit en out sip dip sport dport sq ak fl wnd opts p ip_id ecnv in
  (40 < L /\ r = Err Overflow) \/
  (L <= 40 /\ zlen out < total /\ r = Err BufferTooSmall) \/
  (L <= 40 /\ total <= zlen out /\ M16 <= total /\ r = Err Overflow) \/
  (L <= 40 /\ total <= zlen out /\ total < M16 /\ exists out', r = Ok (out', total)).
Proof.
  intros L total r. destruct (opt_len_ok opts Hs) as [HL0 HLm]. fold L in HL0, HLm.
  destruct (decide (L <= 40)) as [HL|]; cycle 1.
  { left. split; [lia|]. unfold r, emit, emit_with. fold L. rewrite HLm. cbn [negb orb].
    by replace (40 <? L) with true by lia. }
  right. destruct (decide (total <= zlen out)) as [Ho|]; cycle 1.
  { left. split_and!; [done|lia|]. unfold r, emit, emit_with. fold L. rewrite HLm. cbn [negb orb].
    replace (40 <? L) with false by lia.
    by replace (zlen out <? _) with true by (unfold IPV4_HDR_LEN, TCP_HDR_LEN, total in *; lia). }
  right. destruct (decide (total < M16)) as [Ht|]; [right|left].
  - split_and!; try done. eexists. unfold r, emit.
    rewrite (emit_with_layout en out sip dip sport dport sq ak fl wnd opts (zlen p) _ p) by done. done.
  - split_and!; try done; try lia. unfold r, emit, emit_with. fold L. rewrite HLm. cbn [negb orb].
    replace (40 <? L) with false by lia.
    replace (zlen out <? _) with false by (unfold IPV4_HDR_LEN, TCP_HDR_LEN, total in *; lia).
    by replace (65535 <? _) with true by (unfold IPV4_HDR_LEN, TCP_HDR_LEN, total in *; lia).
Qed.

Lemma emit_errors_witness :
  emit Little (replicate 40 0) [10; 0; 0; 1] [10; 0; 0; 2] 1 2 3 4 16 9 Options.NONE [1] 0 0 = Err BufferTooSmall.
Proof.
  destruct (emit_errors Little (replicate 40 0) [10; 0; 0; 1] [10; 0; 0; 2] 1 2 3 4 16 9 Options.NONE [1] 0 0
    eq_refl eq_refl SackBlocks.EMPTY_wf) as [[H _]|[(_ & _ & H)|[(_ & H & _)|(_ & H & _)]]]; try done.
  all: exfalso; revert H; vm_compute; done.
Defined.

End Wire.
