(* ===== verification/WireWf.v ===== *)
(** * Parsed segments are well typed (src/wire.rs, [parse_opts]).

    The model keeps machine integers as [Z].  A datagram of bytes parses to a
    segment whose every field is a value of its Rust type, which is what the
    connection code assumes of a [Segment]. *)
From S2P Require Import Prelude Error Bytes Checksum Sack Options Wire.

(** A parsed segment: every field at its width. *)
Record seg_wf (seg : Segment) : Prop := mk_seg_wf {
  sw_seq : is_u32 (seg_seq seg);
  sw_ack : is_u32 (seg_ack seg);
  sw_text : zlen (payload seg) < M16;
  sw_opts : Options.wf (options seg);
  sw_src : length (src_ip seg) = 4%nat;
  sw_port : is_u16 (src_port seg);
}.

Section Fields.
Variable b : list Z.
Hypothesis Hb : bytes b.

Lemma bytes_get i x : get b i = Some x -> is_u8 x.
Proof using Hb. intros [_ H]%get_Some. exact (proj1 (Forall_lookup _ _) Hb _ _ H). Qed.

Lemma bytes_range i j l : get_range b i j = Some l -> bytes l.
Proof using Hb. intros (_ & _ & _ & ->)%get_range_Some. by apply Forall_take, Forall_drop. Qed.

Lemma read2_u16 i l : read2 b i = Ok l -> is_u16 (from_be l).
Proof using Hb.
  unfold read2. destruct (get_range b i (i + 2)) as [r|] eqn:Hr; [|done]. intros [= <-].
  pose proof (bytes_range _ _ _ Hr) as Hu. apply get_range_Some in Hr as (_ & _ & Hz & _).
  destruct r as [|x [|y [|]]]; unfold zlen in Hz; simpl in Hz; try lia.
  inversion_clear Hu as [|? ? Hx Hu']. inversion_clear Hu'. by apply from_be_u16.
Qed.

Lemma read4_u32 i l : read4 b i = Ok l -> is_u32 (from_be l) /\ length l = 4%nat /\ bytes l.
Proof using Hb.
  unfold read4. destruct (get_range b i (i + 4)) as [r|] eqn:Hr; [|done]. intros [= <-].
  pose proof (bytes_range _ _ _ Hr) as Hu. apply get_range_Some in Hr as (_ & _ & Hz & _).
  split_and!; [|unfold zlen in Hz; lia|done].
  destruct r as [|x [|y [|z [|w [|]]]]]; unfold zlen in Hz; simpl in Hz; try lia.
  repeat match goal with H : bytes (_ :: _) |- _ => apply Forall_cons in H as [? H] | H : Forall _ (_ :: _) |- _ => apply Forall_cons in H as [? H] end.
  unfold from_be. simpl. word_lia.
Qed.

(** ** Options *)

Definition sack_wf (s : SackBlocks.t) : Prop := SackBlocks.wf s /\ Forall Options.u32_block (SackBlocks.as_slice s).

Lemma EMPTY_sack_wf : sack_wf SackBlocks.EMPTY.
Proof using. split; [done|]. constructor. Qed.

Lemma push_sack_wf s l r : sack_wf s -> is_u32 l -> is_u32 r -> sack_wf (SackBlocks.push s l r).
Proof using.
  intros [Hw Hf] Hl Hr. split; [by apply SackBlocks.push_wf|]. rewrite SackBlocks.push_slice by done.
  apply Forall_take, Forall_app. split; [done|]. by apply Forall_singleton.
Qed.

Lemma parse_blocks_wf n : forall k i s s', sack_wf s -> Options.parse_blocks b n k i s = Ok s' -> sack_wf s'.
Proof using Hb.
  induction n as [|n IH]; intros k i s s' Hs H; [by injection H as <-|]. cbn [Options.parse_blocks] in H.
  apply res_bind_Ok in H as (l & Hl & H). apply res_bind_Ok in H as (r & Hr & H).
  apply read4_u32 in Hl as [Hl _]. apply read4_u32 in Hr as [Hr _].
  exact (IH _ _ _ _ (push_sack_wf _ _ _ Hs Hl Hr) H).
Qed.

(** What one option can store. *)
Record opts_wf (o : TcpOptions) : Prop := mk_opts_wf {
  ow_wf : Options.wf o;
  ow_scale : match wscale o with Some w => w <= 14 | None => True end;
}.

Lemma parse_option_wf i o i' o' : opts_wf o -> Options.parse_option b i o = Ok (Some (i', o')) -> opts_wf o'.
Proof using Hb.
  intros [[] Hs14] H. unfold Options.parse_option in H. res_inv H kind Hk.
  case_if in H; [done|]. case_if in H; [by injection H as _ <-|]. res_inv H len Hlen.
  case_if in H. { case_if in H; [done|]. apply res_bind_Ok in H as (v & Hv%read2_u16 & H). by injection H as _ <-. }
  case_if in H.
  { case_if in H; [done|]. res_inv H sh Hsh. injection H as _ <-. apply bytes_get in Hsh.
    split; [split; try done|]; cbn; unfold is_u8 in *; lia. }
  case_if in H. { case_if in H; [done|]. by injection H as _ <-. }
  case_if in H.
  { case_if in H; [done|]. apply res_bind_Ok in H as (sb & Hsb & H). injection H as _ <-.
    destruct (parse_blocks_wf _ _ _ _ _ EMPTY_sack_wf Hsb). by split; [split|]. }
  case_if in H.
  { case_if in H; [done|]. apply res_bind_Ok in H as (v & [Hv _]%read4_u32 & H).
    apply res_bind_Ok in H as (e & [He _]%read4_u32 & H). by injection H as _ <-. }
  case_if in H; [done|]. by injection H as _ <-.
Qed.

Lemma parse_loop_wf fuel : forall i o o', opts_wf o -> Options.parse_loop fuel b i o = Ok o' -> opts_wf o'.
Proof using Hb.
  induction fuel as [|fuel IH]; intros i o o' Ho H; cbn [Options.parse_loop] in H; [by injection H as <-|].
  case_if in H; [|by injection H as <-]. apply res_bind_Ok in H as (r & Hr & H).
  destruct r as [[i' o1]|]; [|by injection H as <-]. exact (IH _ _ _ (parse_option_wf _ _ _ _ Ho Hr) H).
Qed.

Lemma parse_options_wf o : Options.parse b = Ok o -> opts_wf o.
Proof using Hb. apply parse_loop_wf. destruct EMPTY_sack_wf. by split; [split|]. Qed.

End Fields.

Lemma land_3 x : 0 <= Z.land x 3 <= 3.
Proof. assert (Z.land x 3 = x mod 4) as -> by exact (Z.land_ones x 2 ltac:(lia)). pose proof (Z.mod_pos_bound x 4). lia. Qed.

Record parsed (seg : Segment) : Prop := mk_parsed {
  pa_wf : seg_wf seg;
  pa_dst : length (dst_ip seg) = 4%nat;
  pa_ips : bytes (src_ip seg) /\ bytes (dst_ip seg);
  pa_ports : is_u16 (src_port seg) /\ is_u16 (dst_port seg);
  pa_flags : is_u8 (seg_flags seg);
  pa_window : is_u16 (window seg);
  pa_scale : match wscale (options seg) with Some w => w <= 14 | None => True end;
  pa_payload : bytes (payload seg);
  pa_ecn : 0 <= seg_ecn seg <= ecn.MASK;
}.

Lemma parse_tcp_wf en sip dip tos tcp verify seg :
  bytes sip -> length sip = 4%nat -> bytes dip -> length dip = 4%nat -> bytes tcp -> zlen tcp < M16 ->
  Wire.parse_tcp en sip dip tos tcp verify = Ok seg -> parsed seg.
Proof.
  intros Hs Hs4 Hd Hd4 Hb Hl H. unfold Wire.parse_tcp, TCP_HDR_LEN in H. case_if in H; [done|].
  apply res_bind_Ok in H as (sp & Hsp & H). apply res_bind_Ok in H as (dp & Hdp & H).
  apply res_bind_Ok in H as (sq & Hsq & H). apply res_bind_Ok in H as (ak & Hak & H).
  res_inv H off Hoff. case_if in H; [done|]. res_inv H fl Hfl. apply res_bind_Ok in H as (wnd & Hwnd & H).
  destruct (verify && _) in H; [done|]. res_inv H ob Hob. apply res_bind_Ok in H as (opts & Hopts & H).
  res_inv H pl Hpl. injection H as <-.
  apply parse_options_wf in Hopts as [Ho Hsc]; [|by eapply bytes_range].
  pose proof (bytes_range _ Hb _ _ _ Hpl). apply get_range_Some in Hpl as (Hp0 & _ & Hpl & _). bool_facts.
  assert (zlen pl < M16) by lia.
  split; cbn; try done; [split; cbn; try done| | | |].
  - exact (proj1 (read4_u32 _ Hb _ _ Hsq)).
  - exact (proj1 (read4_u32 _ Hb _ _ Hak)).
  - exact (read2_u16 _ Hb _ _ Hsp).
  - exact (conj (read2_u16 _ Hb _ _ Hsp) (read2_u16 _ Hb _ _ Hdp)).
  - exact (bytes_get _ Hb _ _ Hfl).
  - exact (read2_u16 _ Hb _ _ Hwnd).
  - exact (land_3 tos).
Qed.

Lemma parse_opts_parsed en packet verify seg :
  bytes packet -> Wire.parse_opts en packet verify = Ok seg -> parsed seg.
Proof.
  intros Hb H. unfold Wire.parse_opts, IPV4_HDR_LEN, TCP_HDR_LEN in H.
  res_inv H ip Hip. pose proof (bytes_range _ Hb _ _ _ Hip) as Hi.
  res_inv H b0 Hb0. case_if in H; [done|]. case_if in H; [done|].
  apply res_bind_Ok in H as (tl & Htl & H). apply (read2_u16 _ Hi) in Htl. case_if in H; [done|].
  apply res_bind_Ok in H as (ff & _ & H). case_if in H; [done|].
  res_inv H proto Hproto. case_if in H; [done|]. res_inv H tos Htos.
  apply res_bind_Ok in H as (sip & Hsip & H). apply (read4_u32 _ Hi) in Hsip as (_ & ? & ?).
  apply res_bind_Ok in H as (dip & Hdip & H). apply (read4_u32 _ Hi) in Hdip as (_ & ? & ?).
  res_inv H hdr Hhdr. case_if in H; [done|]. res_inv H tcp Htcp.
  pose proof (bytes_range _ Hb _ _ _ Htcp). apply get_range_Some in Htcp as (_ & _ & Hz & _).
  eapply parse_tcp_wf; [..|exact H]; try done. unfold is_u16 in Htl. bool_facts. lia.
Qed.

(** C13 Parsing is well typed: whatever bytes arrive, every field of the segment
    the parser returns is a value of its Rust type (32-bit sequence numbers,
    16-bit ports and window, four-byte addresses, at most four SACK blocks of
    32-bit edges), the window scale is clipped to 14, the payload is shorter
    than 2^16 and the ECN field is a two-bit codepoint. *)
Theorem parse_opts_well_typed en packet verify seg
    (Hb : bytes packet) (H : Wire.parse_opts en packet verify = Ok seg) : parsed seg.
Proof. exact (parse_opts_parsed _ _ _ _ Hb H). Qed.

Lemma parse_opts_well_typed_witness : parsed Wire.sample_segment.
Proof.
  apply (parse_opts_well_typed Little Wire.sample_packet true); [|vm_compute; reflexivity].
  unfold bytes. apply (bool_decide_unpack _). vm_compute. exact I.
Defined.

(** ** Rejections *)

Definition fails {A} (P : TcpError -> Prop) (m : Res A) : Prop := forall e, m = Err e -> P e.

Lemma fails_ok {A} (P : TcpError -> Prop) (a : A) : fails P (Ok a).
Proof. by intros e. Qed.

Lemma fails_err {A} (P : TcpError -> Prop) e : P e -> fails P (@Err A e).
Proof. by intros H e' [= <-]. Qed.

Lemma fails_ok_or {A} (P : TcpError -> Prop) (o : option A) e : P e -> fails P (ok_or o e).
Proof. destruct o; [intros; apply fails_ok|apply fails_err]. Qed.

Lemma fails_bind {A B} P (m : Res A) (k : A -> Res B) : fails P m -> (forall a, fails P (k a)) -> fails P (res_bind m k).
Proof. destruct m; intros Hm Hk; [apply Hk|intros e' [= <-]; by apply Hm]. Qed.

Ltac fails_tac :=
  repeat first
    [ apply fails_bind; [|intros ?]
    | apply fails_ok
    | apply fails_ok_or
    | apply fails_err
    | case_if ].

Lemma parse_blocks_fails b n : forall k i sb, fails (eq MalformedPacket) (Options.parse_blocks b n k i sb).
Proof. induction n as [|n IH]; intros k i sb; cbn [Options.parse_blocks]; unfold read4; fails_tac; done || apply IH. Qed.

Lemma parse_option_fails b i o : fails (eq MalformedPacket) (Options.parse_option b i o).
Proof. unfold Options.parse_option, read2, read4. fails_tac; done || apply parse_blocks_fails. Qed.

Lemma parse_loop_fails b fuel : forall i o, fails (eq MalformedPacket) (Options.parse_loop fuel b i o).
Proof.
  induction fuel as [|fuel IH]; intros i o; cbn [Options.parse_loop]; [apply fails_ok|].
  case_if; [|apply fails_ok]. apply fails_bind; [apply parse_option_fails|]. intros [[? ?]|]; [apply IH|apply fails_ok].
Qed.

(** The parser's only verdicts on a bad packet. *)
Lemma parse_opts_fails en packet verify : fails (fun e => e = MalformedPacket \/ e = NotForUs) (Wire.parse_opts en packet verify).
Proof.
  unfold Wire.parse_opts, Wire.parse_tcp, read2, read4. cbn zeta. fails_tac; auto.
  intros e He. left. symmetry. by eapply parse_loop_fails.
Qed.

(** ** What a receiver reads in an emitted packet *)

Section Emitted.
Variables (en en' : Endian) (sip dip : list Z) (sport dport sq ak fl wnd : Z) (opts : TcpOptions) (text : list Z).
Variables (ip_id ecnv : Z) (full : bool).
Hypothesis Hsip : length sip = 4%nat.
Hypothesis Hdip : length dip = 4%nat.
Hypothesis Hs : SackBlocks.wf (sack opts).
Hypothesis HL : Options.encoded_len opts <= 40.
Hypothesis Ht : 40 + Options.encoded_len opts + zlen text < M16.

(** If the packet is accepted at all, its text, its sequence number, its flags
    and its destination are those it was emitted with. *)
Lemma emitted_parses verify seg :
  Wire.parse_opts en' (Wire.emitted en sip dip sport dport sq ak fl wnd opts (zlen text) text ip_id ecnv full) verify = Ok seg ->
  payload seg = text /\ seg_seq seg = from_be (be32_bytes sq) /\
  seg_flags seg = fl /\ dst_ip seg = dip /\ dst_port seg = from_be (be16_bytes dport).
Proof using Hsip Hdip Hs HL Ht.
  pose proof (zlen_nonneg text) as Hz. pose proof (Wire.opt_len_ok opts Hs) as [HL0 HLm]. apply Z.eqb_eq in HLm.
  set (L := Options.encoded_len opts) in *. unfold Wire.emitted. fold L. set (total := 40 + L + zlen text).
  set (h := Wire.ip_header sip dip total ip_id ecnv _). set (c := if full then _ else _). set (seg' := Wire.tcp_segment _ _ _ _ _ _ _ c _).
  assert (Hzh : zlen h = 20) by (by apply Wire.zlen_ip_header).
  assert (Hzs : zlen seg' = 20 + L + zlen text) by (by apply Wire.zlen_tcp_segment).
  assert (Hr : get h 0 = Some 69 /\ read2 h 2 = Ok (be16_bytes total) /\ read4 h 16 = Ok dip).
  { unfold h, Wire.ip_header. clear -Hsip Hdip. destruct sip as [|? [|? [|? [|? [|]]]]]; try done.
    destruct dip as [|? [|? [|? [|? [|]]]]]; done. }
  destruct (Wire.tcp_header_reads sport dport sq ak fl wnd opts c (Options.encode opts ++ text)) as (_ & T2 & T4 & _ & T12 & T13 & _).
  change (Wire.tcp_fields _ _ _ _ _ _ _ ++ _) with seg' in T2, T4, T12, T13.
  clearbody h. intros H. apply Wire.parse_opts_inv in H as (ip & b0 & tl & ff & tos & si & di & hdr & tcp & Hip & Hb0 & _ & _ & Htl & _ &
    _ & _ & _ & _ & _ & Htcp & H & Hdi).
  rewrite (Wire.get_range_front h seg' 20 Hzh) in Hip. injection Hip as <-. destruct Hr as (Hr0 & Hr2 & Hr16). rewrite Hr0 in Hb0. injection Hb0 as <-.
  rewrite Hr2 in Htl. injection Htl as <-. rewrite be16_roundtrip in Htcp by (unfold is_u16, total; lia).
  change (Z.land 69 15 * 4) with 20 in Htcp. replace total with (zlen (h ++ seg')) in Htcp by (rewrite zlen_app; unfold total; lia).
  rewrite (Wire.get_range_back h seg' 20 Hzh) in Htcp. injection Htcp as <-.
  apply Wire.parse_tcp_inv in H as (off & ob & Hoff & _ & _ & _ & Ed & _ & _ & Hpl & sqb & dpb & Hsq & -> & Hdp & -> & Hfl).
  rewrite T12 in Hoff. injection Hoff as <-. rewrite T4 in Hsq. injection Hsq as <-. rewrite T2 in Hdp. injection Hdp as <-.
  rewrite T13 in Hfl. injection Hfl as <-. rewrite Hr16 in Hdi. injection Hdi as <-. split; [|done].
  unfold L in Hpl. rewrite (Wire.data_off_value opts) in Hpl by (fold L; lia || done). fold L in Hpl. unfold seg', Wire.tcp_segment in Hpl.
  rewrite !(assoc_L (++)) in Hpl. rewrite (Wire.get_range_back _ text) in Hpl; [by injection Hpl|].
  unfold Wire.tcp_fields. pose proof (Options.encode_zlen opts Hs) as He. fold L in He. zlen_lia.
Qed.

End Emitted.
