(* ===== verification/RtxQueue.v ===== *)
(** * Retransmission queue (src/rtx_queue.rs).

    The scoreboard of transmitted segments: a circular array of segment records,
    a bitmap of SACKed slots in 64-bit words, and incrementally maintained byte
    counters.  The file models every operation on that representation; the
    closures the source calls for each acknowledged or SACKed segment are
    modelled by the list of calls, in order.  RtxProofs.v relates the
    representation to the plain list of segments. *)
From S2P Require Import Prelude Seq.

Definition RTX_QUEUE_CAP : Z := 1024.
Definition SACK_WORDS : Z := RTX_QUEUE_CAP / 64.

Definition rtx_cap_for (buf : Z) : Z :=
  let cap := div_ceil (buf / 1024) 64 * 64 in
  if cap <? 64 then 64 else if RTX_QUEUE_CAP <? cap then RTX_QUEUE_CAP else cap.

Module seg_flags.
Definition SACKED : Z := 1.
Definition LOST : Z := 2.
Definition RETRANS : Z := 4.
Definition EVER_RETRANS : Z := 8.
Definition FIN : Z := 16.
Definition PARTIAL : Z := 32.
End seg_flags.

Module Seg.
Import seg_flags.

Record t := mk {
  start : Z;
  end_ : Z;
  xmit_ts : Z;
  xmit_seq : Z;
  flags : Z;
  sent : Z;
}.

Definition empty : t := mk 0 0 0 0 0 0.

Definition seq_len (s : t) : Z := wsub32 (end_ s) (start s).
Definition has (s : t) (f : Z) : bool := negb (Z.land (flags s) f =? 0).
Definition payload_len (s : t) : Z := sat_sub (seq_len s) (b2z (has s FIN)).

Definition retrans_len (s : t) : Z := if has s PARTIAL then sent s else seq_len s.
End Seg.

(** [a & !b] on flag bytes. *)
Definition and_not (a b : Z) : Z := Z.land a (Z.lnot b).

(** Bit operations of [u64] words. *)
Definition not64 (w : Z) : Z := M64 - 1 - w.
Definition shl64 (w n : Z) : Z := Z.land (Z.shiftl w n) (M64 - 1).

Module Rtx.
Import seg_flags.

Record t := mk {
  segs : list Seg.t;
  sacked_map : list Z;
  head : Z;
  len : Z;
  sacked : Z;
  lost : Z;
  retrans : Z;
  lost_hint : Z;
  next_xmit : Z;
}.

Definition set_segs q v := mk v (sacked_map q) (head q) (len q) (sacked q) (lost q) (retrans q) (lost_hint q) (next_xmit q).
Definition set_sacked_map q v := mk (segs q) v (head q) (len q) (sacked q) (lost q) (retrans q) (lost_hint q) (next_xmit q).
Definition set_head q v := mk (segs q) (sacked_map q) v (len q) (sacked q) (lost q) (retrans q) (lost_hint q) (next_xmit q).
Definition set_len q v := mk (segs q) (sacked_map q) (head q) v (sacked q) (lost q) (retrans q) (lost_hint q) (next_xmit q).
Definition set_counts q a b c := mk (segs q) (sacked_map q) (head q) (len q) a b c (lost_hint q) (next_xmit q).
Definition set_lost_hint q v := mk (segs q) (sacked_map q) (head q) (len q) (sacked q) (lost q) (retrans q) v (next_xmit q).
Definition set_next_xmit q v := mk (segs q) (sacked_map q) (head q) (len q) (sacked q) (lost q) (retrans q) (lost_hint q) v.

Section Ops.
Variable CAP : Z.

Definition WORDS : Z := CAP / 64.

Definition VALID : bool := (0 <? CAP) && (CAP mod 64 =? 0) && (CAP <=? RTX_QUEUE_CAP).

Definition new : t :=
  mk (replicate (Z.to_nat CAP) Seg.empty) (replicate (Z.to_nat SACK_WORDS) 0) 0 0 0 0 0 0 0.

Definition clear (q : t) : t :=
  mk (segs q) (replicate (Z.to_nat SACK_WORDS) 0) 0 0 0 0 0 0 (next_xmit q).

Definition is_empty (q : t) : bool := len q =? 0.
Definition is_full (q : t) : bool := len q =? CAP.

Definition pipe (q : t) (outstanding : Z) : Z :=
  sat_add32 (sat_sub (sat_sub outstanding (sacked q)) (lost q)) (retrans q).

Definition phys (q : t) (i : Z) : Z := (head q + i) mod CAP.

Definition word_at (m : list Z) (w : Z) : Z := default 0 (get m w).

Definition sacked_bit (q : t) (p : Z) : bool :=
  match get (sacked_map q) (p / 64) with
  | Some w => negb (Z.land w (Z.shiftl 1 (p mod 64)) =? 0)
  | None => false
  end.

Definition set_sacked_bit (q : t) (p : Z) (on : bool) : t :=
  match get (sacked_map q) (p / 64) with
  | Some w =>
      let m := Z.shiftl 1 (p mod 64) in
      set_sacked_map q (set_at (sacked_map q) (p / 64) (if on then Z.lor w m else and_not w m))
  | None => q
  end.

Definition low_mask (n : Z) : Z := if 64 <=? n then M64 - 1 else Z.shiftl 1 n - 1.

(** One round of [shift_sacked_bits_up]: the highest run of source bits that
    lies in one word, and how many it moves. *)
Definition shift_round (m : list Z) (from left : Z) : list Z * Z :=
  let hi := (from + left - 1) mod CAP in
  let w := hi / 64 in
  let top := hi mod 64 in
  let n := Z.min left (top + 1) in
  let lo := top + 1 - n in
  let src := Z.land (Z.shiftr (word_at m w) lo) (low_mask n) in
  let '(m, stay) :=
    if top =? 63 then
      (match get m ((w + 1) mod WORDS) with
       | Some next => set_at m ((w + 1) mod WORDS) (Z.lor (and_not next 1) (Z.shiftr src (n - 1)))
       | None => m
       end, n - 1)
    else (m, n) in
  match get m w with
  | Some word =>
      if 0 <? stay then
        let mask := shl64 (low_mask stay) (lo + 1) in
        (set_at m w (Z.lor (and_not word mask)
                       (Z.land (shl64 (Z.land src (low_mask stay)) (lo + 1)) mask)), n)
      else (m, n)
  | None => (m, n)
  end.

Fixpoint shift_loop (fuel : nat) (m : list Z) (from left : Z) : list Z :=
  match fuel with
  | O => m
  | S fuel' =>
      if 0 <? left then
        let '(m', n) := shift_round m from left in shift_loop fuel' m' from (left - n)
      else m
  end.

Definition shift_sacked_bits_up (q : t) (from count : Z) : t :=
  set_sacked_map q (shift_loop (Z.to_nat count) (sacked_map q) from count).

(** [u64::trailing_zeros] *)
Fixpoint trailing_zeros_from (fuel : nat) (w k : Z) : Z :=
  match fuel with
  | O => k
  | S fuel' => if Z.testbit w k then k else trailing_zeros_from fuel' w (k + 1)
  end.
Definition trailing_zeros (w : Z) : Z := trailing_zeros_from 64 w 0.

Fixpoint next_unsacked_loop (fuel : nat) (q : t) (i : Z) : option Z :=
  match fuel with
  | O => None
  | S fuel' =>
      if i <? len q then
        let p := phys q i in
        let bit := p mod 64 in
        let word := word_at (sacked_map q) (p / 64) in
        let clear := Z.shiftr (not64 word) bit in
        let span := Z.min (64 - bit) (len q - i) in
        let k := trailing_zeros clear in
        if k <? span then Some (i + k) else next_unsacked_loop fuel' q (i + span)
      else None
  end.

Definition next_unsacked (q : t) (from : Z) : option Z :=
  next_unsacked_loop (S (Z.to_nat (len q))) q from.

Definition get_seg (q : t) (i : Z) : option Seg.t :=
  if len q <=? i then None else get (segs q) (phys q i).

(** [if let Some(s) = self.get_mut(i) { *s = v }] *)
Definition put_seg (q : t) (i : Z) (v : Seg.t) : t :=
  if len q <=? i then q else set_segs q (set_at (segs q) (phys q i) v).

Definition last (q : t) : option Seg.t := if len q =? 0 then None else get_seg q (len q - 1).

Definition with_xmit_seq (s : Seg.t) (x : Z) : Seg.t :=
  Seg.mk (Seg.start s) (Seg.end_ s) (Seg.xmit_ts s) x (Seg.flags s) (Seg.sent s).

Definition push (q : t) (seg : Seg.t) : t * bool :=
  if is_full q then (q, false) else
  let p := phys q (len q) in
  let xmit_seq := next_xmit q in
  match get (segs q) p with
  | Some _ =>
      let q := set_segs q (set_at (segs q) p (with_xmit_seq seg xmit_seq)) in
      let q := set_next_xmit q (wadd32 xmit_seq 1) in
      let q := set_len q (len q + 1) in
      (set_sacked_bit q p (Seg.has seg SACKED), true)
  | None => (q, false)
  end.

Definition add_counts (q : t) (s : Seg.t) (sign : bool) : t :=
  let apply c n := if sign then sat_add32 c n else sat_sub c n in
  let n := Seg.seq_len s in
  set_counts q
    (if Seg.has s SACKED then apply (sacked q) n else sacked q)
    (if Seg.has s LOST then apply (lost q) n else lost q)
    (if Seg.has s RETRANS then apply (retrans q) (Seg.retrans_len s) else retrans q).

Definition set_state (q : t) (i flags sent : Z) : t :=
  match get_seg q i with
  | None => q
  | Some old =>
      let sent := if negb (Z.land flags PARTIAL =? 0) then sent else 0 in
      let new := Seg.mk (Seg.start old) (Seg.end_ old) (Seg.xmit_ts old) (Seg.xmit_seq old) flags sent in
      let q := add_counts q old false in
      let q := add_counts q new true in
      let q := put_seg q i new in
      let q := set_sacked_bit q (phys q i) (negb (Z.land flags SACKED =? 0)) in
      if negb (Z.land flags LOST =? 0) && (Z.land flags RETRANS =? 0) && (i <? lost_hint q)
      then set_lost_hint q i else q
  end.

Definition set_flags (q : t) (i flags : Z) : t :=
  let sent := match get_seg q i with Some s => Seg.sent s | None => 0 end in
  set_state q i flags sent.

Fixpoint find_loop (fuel : nat) (q : t) (first rel lo hi : Z) : option Z :=
  match fuel with
  | O => None
  | S fuel' =>
      if lo <? hi then
        let mid := lo + (hi - lo) / 2 in
        match get_seg q mid with
        | None => None
        | Some s =>
            if wsub32 (Seg.end_ s) first <=? rel then find_loop fuel' q first rel (mid + 1) hi
            else if rel <? wsub32 (Seg.start s) first then find_loop fuel' q first rel lo mid
            else Some mid
        end
      else None
  end.

Definition find (q : t) (seq : Z) : option Z :=
  match get_seg q 0 with
  | None => None
  | Some s => find_loop (S (Z.to_nat (len q))) q (Seg.start s) (wsub32 seq (Seg.start s)) 0 (len q)
  end.

(** [let mut j = self.len; while j > i + 1 { .. ; j -= 1 }], [n = len - (i + 1)] rounds. *)
Fixpoint shift_segs_up (n : nat) (q : t) (j : Z) : t :=
  match n with
  | O => q
  | S n' =>
      let q' := match get (segs q) (phys q (j - 1)) with
                | Some v => set_segs q (set_at (segs q) (phys q j) v)
                | None => q
                end in
      shift_segs_up n' q' (j - 1)
  end.

Definition with_state (s : Seg.t) (flags sent : Z) : Seg.t :=
  Seg.mk (Seg.start s) (Seg.end_ s) (Seg.xmit_ts s) (Seg.xmit_seq s) flags sent.

(** The two halves [split] makes of [s]. *)
Definition split_lower (s : Seg.t) (at_ : Z) : Seg.t :=
  let lower := Seg.mk (Seg.start s) at_ (Seg.xmit_ts s) (Seg.xmit_seq s)
                 (and_not (Seg.flags s) FIN) (Seg.sent s) in
  if Seg.has s PARTIAL && (wsub32 at_ (Seg.start s) <=? Seg.sent s)
  then with_state lower (and_not (Seg.flags lower) PARTIAL) 0 else lower.

Definition split_upper (s : Seg.t) (at_ : Z) : Seg.t :=
  let upper := Seg.mk at_ (Seg.end_ s) (Seg.xmit_ts s) (Seg.xmit_seq s) (Seg.flags s) (Seg.sent s) in
  if Seg.has s PARTIAL then
    let below := wsub32 at_ (Seg.start s) in
    if below <? Seg.sent s then with_state upper (Seg.flags upper) (as_u16 (Seg.sent s - below))
    else with_state upper (and_not (Z.lor (Seg.flags s) LOST) (Z.lor RETRANS PARTIAL)) 0
  else upper.

Definition split (q : t) (i at_ : Z) : t * bool :=
  match get_seg q i with
  | None => (q, false)
  | Some s =>
      if negb (seq_lt (Seg.start s) at_ && seq_lt at_ (Seg.end_ s)) || is_full q then (q, false) else
      let q := shift_segs_up (Z.to_nat (len q - (i + 1))) q (len q) in
      let q := shift_sacked_bits_up q (phys q (i + 1)) (len q - (i + 1)) in
      let q := set_len q (len q + 1) in
      let lower := split_lower s at_ in
      let upper := split_upper s at_ in
      let q := if Seg.has s PARTIAL
               then add_counts (add_counts (add_counts q s false) lower true) upper true else q in
      let q := put_seg q i lower in
      let q := put_seg q (i + 1) upper in
      let q := set_sacked_bit q (phys q (i + 1)) (Seg.has s SACKED) in
      let q := if i + 1 <? lost_hint q then set_lost_hint q (lost_hint q + 1) else q in
      let q := if Seg.has s PARTIAL && Seg.has upper LOST && negb (Seg.has upper RETRANS)
               then set_lost_hint q (Z.min (lost_hint q) (i + 1)) else q in
      (q, true)
  end.

(** The head of a segment trimmed by a cumulative ACK. *)
Definition trim (s : Seg.t) (una : Z) : Seg.t :=
  let acked := wsub32 una (Seg.start s) in
  let trimmed := Seg.mk una (Seg.end_ s) (Seg.xmit_ts s) (Seg.xmit_seq s) (Seg.flags s) (Seg.sent s) in
  if Seg.has s PARTIAL then
    if acked <? Seg.sent s then with_state trimmed (Seg.flags s) (as_u16 (Seg.sent s - acked))
    else with_state trimmed (and_not (Z.lor (Seg.flags s) LOST) (Z.lor RETRANS PARTIAL)) 0
  else trimmed.

(** The calls [f(&seg, newly_acked)], in order, and the bytes removed. *)
Fixpoint ack_loop (fuel : nat) (q : t) (una removed : Z) (calls : list (Seg.t * bool))
    : t * Z * list (Seg.t * bool) :=
  match fuel with
  | O => (q, removed, calls)
  | S fuel' =>
      match get_seg q 0 with
      | None => (q, removed, calls)
      | Some s =>
          if seq_le (Seg.end_ s) una then
            let calls := calls ++ [(s, negb (Seg.has s SACKED))] in
            let q := add_counts q s false in
            let removed := sat_add32 removed (Seg.seq_len s) in
            let q := set_head q ((head q + 1) mod CAP) in
            let q := set_len q (len q - 1) in
            let q := set_lost_hint q (sat_sub (lost_hint q) 1) in
            ack_loop fuel' q una removed calls
          else if seq_lt (Seg.start s) una then
            let calls := calls ++ [(s, negb (Seg.has s SACKED))] in
            let q := add_counts q s false in
            let acked := wsub32 una (Seg.start s) in
            let trimmed := trim s una in
            let q := if Seg.has s PARTIAL && negb (acked <? Seg.sent s) then set_lost_hint q 0 else q in
            let q := add_counts q trimmed true in
            let removed := sat_add32 removed acked in
            (put_seg q 0 trimmed, removed, calls)
          else (q, removed, calls)
      end
  end.

Definition ack_to (q : t) (una : Z) : t * Z * list (Seg.t * bool) :=
  let '(q, removed, calls) := ack_loop (S (Z.to_nat (len q))) q una 0 [] in
  let q := if len q =? 0 then set_lost_hint (set_head q 0) 0 else q in
  (q, removed, calls).

(** The marking loop of [sack], from index [i]. *)
Fixpoint sack_loop (fuel : nat) (q : t) (l r i newly : Z) (calls : list Seg.t)
    : t * Z * list Seg.t :=
  match fuel with
  | O => (q, newly, calls)
  | S fuel' =>
      match get_seg q i with
      | None => (q, newly, calls)
      | Some s =>
          if negb (seq_lt (Seg.start s) r) then (q, newly, calls) else
          if Seg.has s SACKED then
            match next_unsacked q (i + 1) with
            | Some j => sack_loop fuel' q l r j newly calls
            | None => (q, newly, calls)
            end
          else if seq_lt r (Seg.end_ s) then
            let '(q, ok) := split q i r in
            if ok then sack_loop fuel' q l r i newly calls else (q, newly, calls)
          else if seq_le l (Seg.start s) then
            let nf := and_not (Z.lor (Seg.flags s) SACKED) (Z.lor LOST (Z.lor RETRANS PARTIAL)) in
            let q := set_flags q i nf in
            sack_loop fuel' q l r (i + 1) (sat_add32 newly (Seg.seq_len s)) (calls ++ [s])
          else sack_loop fuel' q l r (i + 1) newly calls
      end
  end.

Definition sack (q : t) (left right : Z) : t * Z * list Seg.t :=
  if negb (seq_lt left right) || is_empty q then (q, 0, []) else
  match get_seg q 0, last q with
  | Some fs, Some ls =>
      let first := Seg.start fs in
      let last := Seg.end_ ls in
      let l := if seq_lt left first then first else left in
      let r := if seq_lt last right then last else right in
      if negb (seq_lt l r) then (q, 0, []) else
      match find q l with
      | None => (q, 0, [])
      | Some i =>
          let '(q, i) :=
            match get_seg q i with
            | Some s =>
                if seq_lt (Seg.start s) l && negb (Seg.has s SACKED) then
                  let '(q', ok) := split q i l in if ok then (q', i + 1) else (q', i)
                else (q, i)
            | None => (q, i)
            end in
          sack_loop (Z.to_nat (2 * CAP + 2)) q l r i 0 []
      end
  | _, _ => (q, 0, [])
  end.

Definition mark_lost (q : t) (i : Z) : t :=
  match get_seg q i with
  | Some s =>
      if negb (Seg.has s SACKED) && negb (Seg.has s LOST && negb (Seg.has s RETRANS))
      then set_flags q i (and_not (Z.lor (Seg.flags s) LOST) (Z.lor RETRANS PARTIAL)) else q
  | None => q
  end.

Definition mark_all_lost (q : t) : t :=
  set_lost_hint (foldl mark_lost q (seqZ 0 (len q))) 0.

Definition unmark_one (q : t) (i : Z) : t :=
  match get_seg q i with
  | Some s =>
      if Seg.has s LOST && negb (Seg.has s RETRANS) then set_flags q i (and_not (Seg.flags s) LOST) else q
  | None => q
  end.

Definition unmark_lost (q : t) : t :=
  set_lost_hint (foldl unmark_one q (seqZ 0 (len q))) 0.

Definition clear_sacked_one (q : t) (i : Z) : t :=
  match get_seg q i with
  | Some s => if Seg.has s SACKED then set_flags q i (and_not (Seg.flags s) SACKED) else q
  | None => q
  end.

Definition clear_sacked (q : t) : t := foldl clear_sacked_one q (seqZ 0 (len q)).

Fixpoint next_lost_loop (fuel : nat) (q : t) (i : Z) : t * option Z :=
  match fuel with
  | O => (set_lost_hint q (len q), None)
  | S fuel' =>
      match get_seg q i with
      | Some s =>
          if Seg.has s LOST && negb (Seg.has s RETRANS) then (set_lost_hint q i, Some i)
          else next_lost_loop fuel' q (i + 1)
      | None => (set_lost_hint q (len q), None)
      end
  end.

Definition next_lost (q : t) : t * option Z :=
  next_lost_loop (S (Z.to_nat (len q))) q (lost_hint q).

Definition retransmitted (q : t) (i now sent : Z) : t :=
  match get_seg q i with
  | Some s =>
      let partial := if 0 <? sent then PARTIAL else 0 in
      let flags := Z.lor (and_not (Z.lor (Z.lor (Seg.flags s) RETRANS) EVER_RETRANS) PARTIAL) partial in
      let q := set_state q i flags sent in
      let xmit_seq := next_xmit q in
      match get_seg q i with
      | Some d =>
          let q := put_seg q i (Seg.mk (Seg.start d) (Seg.end_ d) now xmit_seq (Seg.flags d) (Seg.sent d)) in
          set_next_xmit q (wadd32 xmit_seq 1)
      | None => q
      end
  | None => q
  end.

Definition on_retransmit (q : t) (i now : Z) : t := retransmitted q i now 0.
Definition on_partial_retransmit (q : t) (i now sent : Z) : t := retransmitted q i now sent.

(** [debug_valid]: the checks on one entry, then the recount. *)
Definition entry_valid (q : t) (i : Z) (s : Seg.t) (expect : option Z) : bool :=
  seq_lt (Seg.start s) (Seg.end_ s)
  && match expect with Some e => Seg.start s =? e | None => true end
  && negb (Seg.has s SACKED && Seg.has s (Z.lor LOST RETRANS))
  && Bool.eqb (sacked_bit q (phys q i)) (Seg.has s SACKED)
  && negb (Seg.has s RETRANS && negb (Seg.has s EVER_RETRANS))
  && (if Seg.has s PARTIAL
      then Seg.has s RETRANS && negb (Seg.sent s =? 0) && (Seg.sent s <? Seg.payload_len s)
      else Seg.sent s =? 0)
  && negb (Seg.has s FIN && negb (i + 1 =? len q)).

Fixpoint valid_loop (n : nat) (q : t) (i : Z) (expect : option Z) (a b c : Z)
    : option (Z * Z * Z) :=
  match n with
  | O => Some (a, b, c)
  | S n' =>
      match get_seg q i with
      | None => None
      | Some s =>
          if entry_valid q i s expect then
            valid_loop n' q (i + 1) (Some (Seg.end_ s))
              (if Seg.has s SACKED then a + Seg.seq_len s else a)
              (if Seg.has s LOST then b + Seg.seq_len s else b)
              (if Seg.has s RETRANS then c + Seg.retrans_len s else c)
          else None
      end
  end.

Definition debug_valid (q : t) (snd_una snd_nxt : Z) : bool :=
  match valid_loop (Z.to_nat (len q)) q 0 None 0 0 0 with
  | Some (a, b, c) =>
      (a =? sacked q) && (b =? lost q) && (c =? retrans q)
      && match get_seg q 0, last q with
         | Some f, Some l => negb (seq_lt (Seg.start f) snd_una) && (Seg.end_ l =? snd_nxt)
         | _, _ => true
         end
  | None => false
  end.

End Ops.
End Rtx.
