(* ===== verification/RtxBits.v ===== *)
(** * The SACKed bitmap of the retransmission queue

    The 64-bit words of [sacked_map] seen as one bit per slot: setting a bit,
    moving a circular run of bits up one slot a word at a time
    ([shift_sacked_bits_up]) and skipping runs of ones ([next_unsacked]) are the
    obvious operations on single bits. *)
From S2P Require Import Prelude Seq RtxQueue.

Module RtxBits.
Import Rtx.

(** The bit of slot [p]. *)
Definition mbit (m : list Z) (p : Z) : bool := Z.testbit (word_at m (p / 64)) (p mod 64).

Record map_wf (m : list Z) : Prop := mk_map_wf {
  mw_len : zlen m = SACK_WORDS;
  mw_words : forall i, is_u64 (word_at m i);
}.

Section Word.
Variables (m : list Z) (w : Z).
Hypothesis Hm : map_wf m.
Hypothesis Hw : 0 <= w < SACK_WORDS.

Lemma word_get : get m w = Some (word_at m w).
Proof using Hm Hw.
  destruct Hm as [Hl _]. unfold word_at.
  destruct (get_is_Some m w) as [_ [x ->]]; [lia|done].
Qed.

Lemma word_at_set v w' : word_at (set_at m w v) w' = if w' =? w then v else word_at m w'.
Proof using Hm Hw.
  destruct Hm as [Hl _]. unfold word_at. case_if; bool_facts.
  - subst w'. by rewrite get_set_at_eq by lia.
  - by rewrite get_set_at_ne by lia.
Qed.

Lemma map_wf_set v : is_u64 v -> map_wf (set_at m w v).
Proof using Hm Hw.
  intros Hv. destruct Hm as [Hl Hws]. split; [by rewrite zlen_set_at|].
  intros i. rewrite word_at_set by done. by case_if.
Qed.

Lemma mbit_set v p : mbit (set_at m w v) p = if p / 64 =? w then Z.testbit v (p mod 64) else mbit m p.
Proof using Hm Hw. unfold mbit. rewrite word_at_set. by case_if. Qed.
End Word.

Lemma word_index p : 0 <= p < RTX_QUEUE_CAP -> 0 <= p / 64 < SACK_WORDS.
Proof.
  intros Hp. split; [apply Z.div_pos; lia|]. apply Z.div_lt_upper_bound; [lia|].
  unfold SACK_WORDS, RTX_QUEUE_CAP in *. vm_compute (1024 / 64). lia.
Qed.

Lemma u64_bits w : 0 <= w -> (forall k, 64 <= k -> Z.testbit w k = false) -> is_u64 w.
Proof.
  intros Hw Hb. split; [done|]. destruct (decide (w = 0)) as [->|Hne]; [done|].
  apply Z.log2_lt_cancel. change (Z.log2 M64) with 64.
  destruct (decide (Z.log2 w < 64)); [done|].
  assert (Z.testbit w (Z.log2 w) = true) by (apply Z.bit_log2; lia).
  rewrite Hb in H by lia. done.
Qed.

Lemma u64_high w k : is_u64 w -> 64 <= k -> Z.testbit w k = false.
Proof. intros [? ?] ?. apply (testbit_small w 64); [change (2 ^ 64) with M64|]; lia. Qed.

(** Bits of the masks the source builds. *)
Lemma one_shl_bit n k : 0 <= n -> Z.testbit (Z.shiftl 1 n) k = (k =? n).
Proof.
  intros Hn. rewrite Z.shiftl_mul_pow2, Z.mul_1_l by lia.
  destruct (decide (k = n)) as [->|Hk]; [by rewrite Z.pow2_bits_true, Z.eqb_refl|].
  rewrite Z.pow2_bits_false by lia. lia.
Qed.

Lemma low_mask_bit n k : 0 <= n -> 0 <= k -> Z.testbit (low_mask n) k = (k <? n) && (k <? 64).
Proof.
  intros Hn Hk. unfold low_mask. case_if; bool_facts.
  - change (M64 - 1) with (Z.ones 64). rewrite Z.testbit_ones_nonneg by lia. lia.
  - replace (Z.shiftl 1 n - 1) with (Z.ones n) by (unfold Z.ones; lia).
    rewrite Z.testbit_ones_nonneg by lia. lia.
Qed.

Lemma shl64_bit w n k : 0 <= n -> 0 <= k ->
  Z.testbit (shl64 w n) k = (n <=? k) && (k <? 64) && Z.testbit w (k - n).
Proof.
  intros Hn Hk. unfold shl64. change (M64 - 1) with (Z.ones 64).
  rewrite Z.land_spec, Z.testbit_ones_nonneg, Z.shiftl_spec by lia.
  destruct (n <=? k) eqn:Hnk.
  - cbn [andb]. apply andb_comm.
  - rewrite (Z.testbit_neg_r w) by lia. done.
Qed.

Lemma and_not_bit a b k : 0 <= k -> Z.testbit (and_not a b) k = Z.testbit a k && negb (Z.testbit b k).
Proof. intros Hk. unfold and_not. by rewrite Z.land_spec, Z.lnot_spec. Qed.

Lemma land_one_shl w n : 0 <= n -> negb (Z.land w (Z.shiftl 1 n) =? 0) = Z.testbit w n.
Proof.
  intros Hn. rewrite Z.shiftl_mul_pow2, Z.mul_1_l by lia.
  destruct (Z.testbit w n) eqn:Hb.
  - apply negb_true_iff, Z.eqb_neq. intros H0.
    assert (Ht : Z.testbit (Z.land w (2 ^ n)) n = true) by (by rewrite Z.land_spec, Hb, Z.pow2_bits_true).
    by rewrite H0, Z.bits_0 in Ht.
  - apply negb_false_iff, Z.eqb_eq. apply Z.bits_inj'. intros k Hk.
    rewrite Z.land_spec, Z.bits_0. destruct (decide (k = n)) as [->|]; [by rewrite Hb|].
    by rewrite Z.pow2_bits_false, andb_false_r by lia.
Qed.

(** ** Reading and setting one bit *)

Lemma sacked_bit_mbit q p :
  map_wf (sacked_map q) -> 0 <= p < RTX_QUEUE_CAP -> sacked_bit q p = mbit (sacked_map q) p.
Proof.
  intros Hm Hp. unfold sacked_bit, mbit. rewrite (word_get _ _ Hm (word_index p Hp)).
  apply land_one_shl. pose proof (Z.mod_pos_bound p 64). lia.
Qed.

Lemma set_sacked_bit_spec q p on :
  map_wf (sacked_map q) -> 0 <= p < RTX_QUEUE_CAP ->
  exists m', set_sacked_bit q p on = set_sacked_map q m' /\ map_wf m' /\
    forall p', 0 <= p' -> mbit m' p' = if p' =? p then on else mbit (sacked_map q) p'.
Proof.
  intros Hm Hp. pose proof (word_index p Hp) as Hw. unfold set_sacked_bit.
  rewrite (word_get _ _ Hm Hw). eexists. split; [done|].
  pose proof (Z.mod_pos_bound p 64 ltac:(lia)) as Hb.
  set (w := word_at _ _). assert (Hw64 : is_u64 w) by apply Hm.
  set (v := if on then _ else _).
  assert (Hv : forall k, 0 <= k -> Z.testbit v k = if k =? p mod 64 then on else Z.testbit w k).
  { intros k Hk. unfold v. destruct on.
    - rewrite Z.lor_spec, one_shl_bit by lia. case_if; [apply orb_true_r|apply orb_false_r].
    - rewrite and_not_bit, one_shl_bit by lia. case_if; [apply andb_false_r|apply andb_true_r]. }
  split.
  - apply map_wf_set; [done|done|]. apply u64_bits.
    + unfold v. destruct Hw64 as [? _]. destruct on; [apply Z.lor_nonneg|apply Z.land_nonneg]; [split|left]; try lia.
      apply Z.shiftl_nonneg. lia.
    + intros k Hk. rewrite Hv by lia. replace (k =? p mod 64) with false by lia. by apply u64_high.
  - intros p' Hp'. rewrite mbit_set by done.
    pose proof (Z.div_mod p 64 ltac:(lia)). pose proof (Z.div_mod p' 64 ltac:(lia)).
    case_if; bool_facts.
    + rewrite Hv by (apply Z.mod_pos_bound; lia). unfold mbit. rewrite Heqb. fold w.
      destruct (decide (p' mod 64 = p mod 64)) as [He|He].
      * replace (p' =? p) with true by lia. by rewrite He, Z.eqb_refl.
      * replace (p' =? p) with false by lia. by replace (p' mod 64 =? p mod 64) with false by lia.
    + replace (p' =? p) with false; [done|]. symmetry. apply Z.eqb_neq. intros ->. done.
Qed.

(** ** Moving a run of bits up one slot *)

(** The source run read from a word: bit [j] of [src] is bit [lo + j]. *)
Lemma src_bit word lo n j :
  0 <= lo -> 0 <= n -> 0 <= j ->
  Z.testbit (Z.land (Z.shiftr word lo) (low_mask n)) j = (j <? n) && (j <? 64) && Z.testbit word (lo + j).
Proof.
  intros. rewrite Z.land_spec, Z.shiftr_spec, low_mask_bit by lia. rewrite andb_comm. f_equal. f_equal. lia.
Qed.

Lemma land_nonneg_l a b : 0 <= a -> 0 <= Z.land a b.
Proof. intros. apply Z.land_nonneg. by left. Qed.

(** The part of the run that stays in its word, moved up one bit. *)
Lemma stay_word word old lo n stay :
  is_u64 word -> is_u64 old -> 0 <= lo -> 0 < stay <= n -> n <= 64 -> lo + stay <= 63 ->
  let src := Z.land (Z.shiftr word lo) (low_mask n) in
  let mask := shl64 (low_mask stay) (lo + 1) in
  let v := Z.lor (and_not old mask) (Z.land (shl64 (Z.land src (low_mask stay)) (lo + 1)) mask) in
  is_u64 v /\ forall k, 0 <= k -> Z.testbit v k =
    if (lo <? k) && (k <=? lo + stay) then Z.testbit word (k - 1) else Z.testbit old k.
Proof.
  intros Hw Ho Hlo Hst Hn Hfit src mask v.
  assert (Hv : forall k, 0 <= k -> Z.testbit v k =
    if (lo <? k) && (k <=? lo + stay) then Z.testbit word (k - 1) else Z.testbit old k).
  { intros k Hk. unfold v, mask, src.
    rewrite Z.lor_spec, and_not_bit, Z.land_spec, !shl64_bit by lia.
    destruct ((lo <? k) && (k <=? lo + stay)) eqn:Hin; bool_facts.
    - rewrite low_mask_bit, Z.land_spec, src_bit, low_mask_bit by lia.
      replace (lo + 1 <=? k) with true by lia. replace (k <? 64) with true by lia.
      replace (k - (lo + 1) <? stay) with true by lia. replace (k - (lo + 1) <? 64) with true by lia.
      replace (k - (lo + 1) <? n) with true by lia. replace (lo + (k - (lo + 1))) with (k - 1) by lia.
      cbn [andb negb]. by rewrite !andb_true_r, andb_false_r.
    - assert (Hm : (lo + 1 <=? k) && (k <? 64) && Z.testbit (low_mask stay) (k - (lo + 1)) = false).
      { destruct (decide (lo + 1 <= k)); [|by replace (lo + 1 <=? k) with false by lia].
        rewrite low_mask_bit by lia. lia. }
      rewrite Hm. by rewrite andb_false_r, orb_false_r, andb_true_r. }
  split; [|done]. apply u64_bits.
  - unfold v. apply Z.lor_nonneg. split.
    + apply land_nonneg_l, Ho.
    + apply land_nonneg_l. unfold shl64. apply Z.land_nonneg. right. done.
  - intros k Hk. rewrite Hv by lia. case_if; bool_facts; [lia|]. by apply u64_high.
Qed.

(** The top bit carried into the next word. *)
Lemma carry_word word next lo n :
  is_u64 next -> 0 <= lo -> 0 < n <= 64 -> lo + n = 64 ->
  let src := Z.land (Z.shiftr word lo) (low_mask n) in
  let v := Z.lor (and_not next 1) (Z.shiftr src (n - 1)) in
  0 <= word -> is_u64 v /\ forall k, 0 <= k -> Z.testbit v k =
    if k =? 0 then Z.testbit word 63 else Z.testbit next k.
Proof.
  intros Hx Hlo Hn Hfit src v Hword.
  assert (Hv : forall k, 0 <= k -> Z.testbit v k = if k =? 0 then Z.testbit word 63 else Z.testbit next k).
  { intros k Hk. unfold v, src. rewrite Z.lor_spec, and_not_bit, Z.shiftr_spec, src_bit by lia.
    change 1 with (Z.shiftl 1 0) at 1. rewrite one_shl_bit by lia. case_if; bool_facts.
    - subst k. replace (0 + (n - 1) <? n) with true by lia. replace (0 + (n - 1) <? 64) with true by lia.
      cbn [andb negb]. rewrite andb_false_r. cbn [orb]. f_equal. lia.
    - replace (k + (n - 1) <? n) with false by lia. cbn [andb negb]. by rewrite andb_true_r, orb_false_r. }
  split; [|done]. apply u64_bits.
  - unfold v. apply Z.lor_nonneg. split; [apply land_nonneg_l, Hx|].
    apply Z.shiftr_nonneg. unfold src. apply land_nonneg_l. by apply Z.shiftr_nonneg.
  - intros k Hk. rewrite Hv by lia. replace (k =? 0) with false by lia. by apply u64_high.
Qed.

Section Shift.
Variables (CAP W : Z).
Hypothesis HW : 1 <= W <= SACK_WORDS.
Hypothesis HCAP : CAP = 64 * W.

Lemma WORDS_eq : WORDS CAP = W.
Proof using HCAP. unfold WORDS. rewrite HCAP, Z.mul_comm. apply Z.div_mul. lia. Qed.

Lemma cap_bound p : 0 <= p < CAP -> 0 <= p < RTX_QUEUE_CAP.
Proof using HW HCAP. intros. change SACK_WORDS with 16 in HW. unfold RTX_QUEUE_CAP. lia. Qed.

(** The slot before [p] on the circle. *)
Definition pred (p : Z) : Z := (p - 1) mod CAP.

Lemma pred_same_word p : 0 <= p -> 0 < p mod 64 -> p < CAP ->
  pred p / 64 = p / 64 /\ pred p mod 64 = p mod 64 - 1.
Proof using HCAP.
  intros Hp Hb Hc. unfold pred. assert (p <> 0) by (intros ->; by rewrite Z.mod_0_l in Hb).
  rewrite (Z.mod_small (p - 1) CAP) by lia.
  pose proof (Z.div_mod p 64 ltac:(lia)). pose proof (Z.mod_pos_bound p 64 ltac:(lia)).
  assert (Hq : p - 1 = 64 * (p / 64) + (p mod 64 - 1)) by lia.
  split; [symmetry; apply (Z.div_unique (p - 1) 64 _ (p mod 64 - 1))|
          symmetry; apply (Z.mod_unique (p - 1) 64 (p / 64))]; lia.
Qed.

(** Where a run's bits land, by slot: [hi] is the run's highest slot. *)
Definition lands (hi n p : Z) : bool :=
  let top := hi mod 64 in
  ((top =? 63) && (p =? (hi + 1) mod CAP)) ||
  ((p / 64 =? hi / 64) && (top + 1 - n <? p mod 64) && (p mod 64 <=? top + 1)).

Lemma carry_slot hi p : 0 <= hi < CAP -> hi mod 64 = 63 -> 0 <= p < CAP ->
  (p =? (hi + 1) mod CAP) = ((p / 64 =? (hi / 64 + 1) mod W) && (p mod 64 =? 0)).
Proof using HW HCAP.
  intros Hh Ht Hp. pose proof (Z.div_mod hi 64 ltac:(lia)).
  replace (hi + 1) with (64 * (hi / 64 + 1)) by lia. rewrite HCAP, Z.mul_mod_distr_l by lia.
  set (w2 := (hi / 64 + 1) mod W). pose proof (Z.div_mod p 64 ltac:(lia)).
  pose proof (Z.mod_pos_bound p 64 ltac:(lia)).
  destruct (decide (p = 64 * w2)) as [->|Hne].
  - rewrite Z.eqb_refl, (Z.mul_comm 64), Z.div_mul, Z.mod_mul, Z.eqb_refl by lia. done.
  - replace (p =? 64 * w2) with false by lia. symmetry. apply andb_false_iff.
    destruct (decide (p mod 64 = 0)); [left|right]; lia.
Qed.

Lemma pred_carry hi p : 0 <= hi < CAP -> p = (hi + 1) mod CAP -> pred p = hi.
Proof using HW HCAP.
  intros Hh ->. unfold pred. rewrite Zminus_mod_idemp_l. replace (hi + 1 - 1) with hi by lia.
  apply Z.mod_small. lia.
Qed.

Section Round.
Variables (m : list Z) (hi n : Z).
Hypothesis Hm : map_wf m.
Hypothesis Hhi : 0 <= hi < CAP.
Hypothesis Hn : 1 <= n <= hi mod 64 + 1.
Let w := hi / 64.
Let top := hi mod 64.
Let lo := top + 1 - n.
Let src := Z.land (Z.shiftr (word_at m w) lo) (low_mask n).

Lemma top_range : 0 <= top < 64.
Proof using. unfold top. clear. apply Z.mod_pos_bound. lia. Qed.

Lemma w_range : 0 <= w < W.
Proof using Hhi HCAP. unfold w. clear -Hhi HCAP. split; [apply Z.div_pos; lia|apply Z.div_lt_upper_bound; lia]. Qed.

(** The carry into the next word, when the run reaches bit 63. *)
Lemma carry_slots :
  top = 63 ->
  let v := Z.lor (and_not (word_at m ((w + 1) mod W)) 1) (Z.shiftr src (n - 1)) in
  map_wf (set_at m ((w + 1) mod W) v) /\
  forall p, 0 <= p < CAP -> mbit (set_at m ((w + 1) mod W) v) p =
    if p =? (hi + 1) mod CAP then mbit m (pred p) else mbit m p.
Proof using Hm Hhi Hn HW HCAP.
  intros Ht v. pose proof w_range.
  assert (Hw2 : 0 <= (w + 1) mod W < SACK_WORDS) by (pose proof (Z.mod_pos_bound (w + 1) W); lia).
  destruct (carry_word (word_at m w) (word_at m ((w + 1) mod W)) lo n) as [Hu Hv];
    [apply Hm|unfold lo, top in *; lia|unfold top in *; lia|unfold lo; lia|apply Hm|].
  split; [by apply map_wf_set|].
  intros p Hp. rewrite mbit_set by done. rewrite carry_slot by done. fold w.
  destruct (p / 64 =? (w + 1) mod W) eqn:Hpw; cbn [andb]; [|done].
  unfold v, src. rewrite Hv by (apply Z.mod_pos_bound; lia).
  case_if; bool_facts; [|unfold mbit; by rewrite Hpw].
  unfold mbit. rewrite (pred_carry hi p) by (done || (apply Z.eqb_eq; rewrite carry_slot by done; fold w; lia)).
  fold w. unfold top in Ht. by rewrite Ht.
Qed.

(** The bits that stay in the run's word. *)
Lemma stay_slots m1 stay :
  map_wf m1 -> 0 < stay <= n -> lo + stay <= 63 ->
  let mask := shl64 (low_mask stay) (lo + 1) in
  let v := Z.lor (and_not (word_at m1 w) mask) (Z.land (shl64 (Z.land src (low_mask stay)) (lo + 1)) mask) in
  map_wf (set_at m1 w v) /\
  forall p, 0 <= p < CAP -> mbit (set_at m1 w v) p =
    if (p / 64 =? w) && (lo <? p mod 64) && (p mod 64 <=? lo + stay) then mbit m (pred p) else mbit m1 p.
Proof using Hm Hhi Hn HW HCAP.
  intros Hm1 Hst Hfit mask v. pose proof w_range as Hw. pose proof top_range.
  destruct (stay_word (word_at m w) (word_at m1 w) lo n stay) as [Hu Hv];
    [apply Hm|apply Hm1|unfold lo, top in *; lia|lia|unfold top in *; lia|lia|].
  assert (Hws : 0 <= w < SACK_WORDS) by lia.
  split; [by apply map_wf_set|]. intros p Hp. rewrite mbit_set by done.
  destruct (p / 64 =? w) eqn:Hpw; cbn [andb]; [|done].
  unfold v, mask, src. rewrite Hv by (apply Z.mod_pos_bound; lia). case_if; bool_facts.
  - destruct (pred_same_word p) as [Hd He]; [lia|unfold lo, top in *; lia|lia|].
    unfold mbit. by rewrite Hd, He, Hpw.
  - unfold mbit. by rewrite Hpw.
Qed.
End Round.

Lemma shift_round_slots m from left :
  map_wf m -> 0 <= from < CAP -> 0 < left < CAP ->
  let hi := (from + left - 1) mod CAP in
  let n := Z.min left (hi mod 64 + 1) in
  exists m', shift_round CAP m from left = (m', n) /\ map_wf m' /\
    forall p, 0 <= p < CAP -> mbit m' p = if lands hi n p then mbit m (pred p) else mbit m p.
Proof using HW HCAP.
  intros Hm Hf Hl hi n. unfold shift_round. rewrite WORDS_eq. fold hi. fold n.
  assert (Hhi : 0 <= hi < CAP) by (apply Z.mod_pos_bound; lia).
  pose proof (top_range hi) as Htop. pose proof (w_range hi Hhi) as Hw.
  assert (Hn : 1 <= n <= hi mod 64 + 1) by (unfold n; lia).
  unfold lands. destruct (decide (hi mod 64 = 63)) as [Ht|Ht].
  - replace (hi mod 64 =? 63) with true by lia. cbv zeta iota.
    destruct (carry_slots m hi n Hm Hhi Hn Ht) as [Hm1 Hb1].
    rewrite (word_get m) by (done || (pose proof (Z.mod_pos_bound (hi / 64 + 1) W); lia)).
    set (m1 := set_at m _ _) in *. rewrite (word_get m1) by (done || lia).
    case_if; bool_facts.
    + destruct (stay_slots m hi n Hm Hhi Hn m1 (n - 1) Hm1) as [Hm2 Hb2]; [lia|lia|].
      eexists. split; [done|]. split; [done|]. intros p Hp. rewrite Hb2, Hb1 by done.
      replace (p mod 64 <=? hi mod 64 + 1 - n + (n - 1)) with (p mod 64 <=? hi mod 64 + 1)
        by (pose proof (Z.mod_pos_bound p 64 ltac:(lia)); lia).
      cbn [andb]. destruct (_ && _ && _), (_ =? _); done.
    + eexists. split; [done|]. split; [done|]. intros p Hp. rewrite Hb1 by done. cbn [andb].
      replace (_ && _ && _) with false; [by rewrite orb_false_r|].
      pose proof (Z.mod_pos_bound p 64 ltac:(lia)). lia.
  - replace (hi mod 64 =? 63) with false by lia. cbv zeta iota. cbn [andb orb].
    rewrite (word_get m) by (done || lia). replace (0 <? n) with true by lia.
    destruct (stay_slots m hi n Hm Hhi Hn m n Hm) as [Hm2 Hb2]; [lia|lia|].
    eexists. split; [done|]. split; [done|]. intros p Hp. rewrite Hb2 by done.
    by replace (p mod 64 <=? hi mod 64 + 1 - n + n) with (p mod 64 <=? hi mod 64 + 1) by lia.
Qed.

(** Slots as distances on the circle. *)
Lemma circle_sub x : -CAP < x < CAP -> x mod CAP = if x <? 0 then x + CAP else x.
Proof using HW HCAP.
  intros Hx. case_if; bool_facts; [|apply Z.mod_small; lia].
  rewrite <- (Z.mod_add x 1) by lia. rewrite Z.mod_small; lia.
Qed.

Lemma lands_distance hi n p :
  0 <= hi < CAP -> 0 <= p < CAP -> 1 <= n <= hi mod 64 + 1 ->
  lands hi n p = ((hi + 1 - p) mod CAP <? n).
Proof using HW HCAP.
  intros Hh Hp Hn. unfold lands.
  assert (Hd : (hi + 1 - p) mod CAP = if hi + 1 - p =? CAP then 0 else
                 if hi + 1 - p <? 0 then hi + 1 - p + CAP else hi + 1 - p).
  { case_if; bool_facts; [by rewrite Heqb, Z.mod_same by lia|]. apply circle_sub. lia. }
  assert (Hc : (hi + 1) mod CAP = if hi + 1 =? CAP then 0 else hi + 1).
  { case_if; bool_facts; [by rewrite Heqb, Z.mod_same by lia|]. apply Z.mod_small. lia. }
  rewrite Hd, Hc. clear Hd Hc.
  pose proof (Z.div_mod hi 64 ltac:(lia)). pose proof (Z.mod_pos_bound hi 64 ltac:(lia)).
  pose proof (Z.div_mod p 64 ltac:(lia)). pose proof (Z.mod_pos_bound p 64 ltac:(lia)).
  assert (p / 64 <= hi / 64 - 1 \/ p / 64 = hi / 64 \/ hi / 64 + 1 <= p / 64) by lia.
  assert (0 <= p / 64 < W) by (split; [apply Z.div_pos|apply Z.div_lt_upper_bound]; lia).
  assert (0 <= hi / 64 < W) by (split; [apply Z.div_pos|apply Z.div_lt_upper_bound]; lia).
  repeat case_if; bool_facts; lia.
Qed.

Lemma shift_round_spec m from left :
  map_wf m -> 0 <= from < CAP -> 0 < left < CAP ->
  exists m' n, shift_round CAP m from left = (m', n) /\ map_wf m' /\ 1 <= n <= left /\
    forall p, 0 <= p < CAP -> mbit m' p =
      if (left - n <? (p - from) mod CAP) && ((p - from) mod CAP <=? left) then mbit m (pred p) else mbit m p.
Proof using HW HCAP.
  intros Hm Hf Hl. destruct (shift_round_slots m from left Hm Hf Hl) as (m' & Heq & Hm' & Hb).
  set (hi := (from + left - 1) mod CAP) in *. set (n := Z.min left (hi mod 64 + 1)) in *.
  pose proof (Z.mod_pos_bound hi 64 ltac:(lia)).
  assert (Hhi : 0 <= hi < CAP) by (apply Z.mod_pos_bound; lia).
  exists m', n. split; [done|]. split; [done|]. split; [unfold n; lia|].
  intros p Hp. rewrite Hb, lands_distance by (done || (unfold n; lia)).
  assert (Hd : (hi + 1 - p) mod CAP = (left - (p - from) mod CAP) mod CAP).
  { unfold hi. rewrite Zminus_mod_idemp_r. replace ((from + left - 1) mod CAP + 1 - p)
      with ((from + left - 1) mod CAP + (1 - p)) by lia. rewrite Zplus_mod_idemp_l. f_equal. lia. }
  rewrite Hd. pose proof (Z.mod_pos_bound (p - from) CAP ltac:(lia)) as Hk.
  set (k := (p - from) mod CAP) in *. rewrite circle_sub by lia.
  assert (n <= left) by (unfold n; lia).
  destruct (left - k <? 0) eqn:Hlk; repeat case_if; bool_facts; try done; lia.
Qed.

Lemma shift_loop_spec fuel : forall m from left,
  map_wf m -> 0 <= from < CAP -> 0 <= left < CAP -> left <= Z.of_nat fuel ->
  map_wf (shift_loop CAP fuel m from left) /\
  forall p, 0 <= p < CAP -> mbit (shift_loop CAP fuel m from left) p =
    if (0 <? (p - from) mod CAP) && ((p - from) mod CAP <=? left) then mbit m (pred p) else mbit m p.
Proof using HW HCAP.
  induction fuel as [|fuel IH]; intros m from left Hm Hf Hl Hfuel; cbn [shift_loop].
  { split; [done|]. intros p Hp. case_if; bool_facts; [lia|done]. }
  case_if; bool_facts; [|split; [done|]; intros p Hp; case_if; bool_facts; [lia|done]].
  destruct (shift_round_spec m from left Hm Hf ltac:(lia)) as (m1 & n & -> & Hm1 & Hn & Hb1).
  destruct (IH m1 from (left - n) Hm1 Hf ltac:(lia) ltac:(lia)) as [Hm2 Hb2]. split; [done|].
  intros p Hp. rewrite Hb2 by done.
  pose proof (Z.mod_pos_bound (p - from) CAP ltac:(lia)) as Hk.
  assert (Hpred : 0 < (p - from) mod CAP -> (pred p - from) mod CAP = (p - from) mod CAP - 1).
  { intros Hpos. unfold pred. rewrite Zminus_mod_idemp_l. replace (p - 1 - from) with (p - from - 1) by lia.
    rewrite <- Zminus_mod_idemp_l. apply Z.mod_small. lia. }
  assert (Hpp : 0 <= pred p < CAP) by (apply Z.mod_pos_bound; lia).
  set (k := (p - from) mod CAP) in *. case_if; bool_facts.
  - rewrite Hb1, Hpred by (done || lia). case_if; bool_facts; [lia|]. case_if; bool_facts; [done|lia].
  - rewrite Hb1 by done. fold k. repeat case_if; bool_facts; done || lia.
Qed.

End Shift.

(** ** Skipping SACKed runs *)

Lemma trailing_zeros_spec w : 
  0 <= trailing_zeros w <= 64 /\
  (forall k, 0 <= k < trailing_zeros w -> Z.testbit w k = false) /\
  (trailing_zeros w < 64 -> Z.testbit w (trailing_zeros w) = true).
Proof.
  unfold trailing_zeros.
  assert (Hgen : forall fuel k0, 0 <= k0 -> let r := trailing_zeros_from fuel w k0 in
    k0 <= r <= k0 + Z.of_nat fuel /\ (forall k, k0 <= k < r -> Z.testbit w k = false) /\
    (r < k0 + Z.of_nat fuel -> Z.testbit w r = true)).
  { induction fuel as [|fuel IH]; intros k0 Hk0; cbn [trailing_zeros_from]; [simpl; split_and!; intros; lia|].
    destruct (Z.testbit w k0) eqn:Hb.
    - split; [lia|]. split; [intros; lia|]. by intros.
    - destruct (IH (k0 + 1) ltac:(lia)) as (? & Hz & Ho). split; [lia|]. split.
      + intros k Hk. destruct (decide (k = k0)) as [->|]; [done|]. apply Hz. lia.
      + intros ?. apply Ho. lia. }
  destruct (Hgen 64%nat 0 ltac:(lia)) as (? & ? & ?). split_and!; try done; lia.
Qed.

Lemma not64_bit w k : is_u64 w -> 0 <= k -> Z.testbit (not64 w) k = (k <? 64) && negb (Z.testbit w k).
Proof.
  intros Hw Hk. unfold not64. destruct (decide (k < 64)) as [Hlt|Hge].
  - replace (k <? 64) with true by lia. cbn [andb].
    replace (M64 - 1 - w) with (Z.lnot w + 1 * 2 ^ 64) by (unfold Z.lnot; change (2 ^ 64) with M64; lia).
    rewrite <- (Z.mod_pow2_bits_low _ 64), Z.mod_add, Z.mod_pow2_bits_low by lia. by apply Z.lnot_spec.
  - replace (k <? 64) with false by lia. cbn [andb]. apply u64_high; [|lia]. unfold is_u64 in *. lia.
Qed.

Section Skip.
Variables (CAP W : Z) (q : t).
Hypothesis HW : 1 <= W <= SACK_WORDS.
Hypothesis HCAP : CAP = 64 * W.
Hypothesis Hm : map_wf (sacked_map q).

Definition lbit (i : Z) : bool := mbit (sacked_map q) (phys CAP q i).

(** The logical slots that share a bitmap word with slot [i]. *)
Lemma lbit_span i k :
  0 <= k < 64 - phys CAP q i mod 64 ->
  lbit (i + k) = Z.testbit (word_at (sacked_map q) (phys CAP q i / 64)) (phys CAP q i mod 64 + k).
Proof using HW HCAP.
  intros Hk. unfold lbit, mbit. set (p := phys CAP q i) in *.
  assert (Hp : 0 <= p < CAP) by (apply Z.mod_pos_bound; lia).
  pose proof (Z.div_mod p 64 ltac:(lia)). pose proof (Z.mod_pos_bound p 64 ltac:(lia)).
  assert (p / 64 < W) by (apply Z.div_lt_upper_bound; lia).
  assert (Hpk : phys CAP q (i + k) = p + k).
  { unfold phys. replace (head q + (i + k)) with (head q + i + k) by lia. rewrite <- Zplus_mod_idemp_l.
    change ((head q + i) mod CAP) with p. apply Z.mod_small. lia. }
  rewrite Hpk. f_equal; [f_equal|].
  - symmetry. apply (Z.div_unique _ _ _ (p mod 64 + k)); lia.
  - symmetry. apply (Z.mod_unique _ _ (p / 64)); lia.
Qed.

Lemma next_unsacked_loop_spec fuel : forall i,
  0 <= i -> len q - i < Z.of_nat fuel ->
  match next_unsacked_loop CAP fuel q i with
  | Some j => i <= j < len q /\ lbit j = false /\ (forall k, i <= k < j -> lbit k = true)
  | None => forall k, i <= k < len q -> lbit k = true
  end.
Proof using HW HCAP Hm.
  induction fuel as [|fuel IH]; intros i Hi Hf; cbn [next_unsacked_loop]; [intros; lia|].
  case_if; bool_facts; [|intros; lia]. cbv zeta.
  pose proof (Z.mod_pos_bound (phys CAP q i) 64 ltac:(lia)) as Hb.
  set (bit := phys CAP q i mod 64) in *. set (word := word_at _ _).
  assert (Hclear : forall k, 0 <= k < 64 - bit -> Z.testbit (Z.shiftr (not64 word) bit) k = negb (lbit (i + k))).
  { intros k Hk. rewrite Z.shiftr_spec, not64_bit by (apply Hm || lia).
    replace (k + bit <? 64) with true by lia. cbn [andb]. rewrite lbit_span by done. fold bit word.
    f_equal. f_equal. lia. }
  destruct (trailing_zeros_spec (Z.shiftr (not64 word) bit)) as (Ht & Hz & Ho).
  set (tz := trailing_zeros _) in *. set (span := Z.min (64 - bit) (len q - i)).
  assert (Hspan : span <= 64 - bit /\ 0 < span <= len q - i) by (unfold span; lia).
  case_if; bool_facts.
  - split; [lia|]. split.
    + specialize (Ho ltac:(lia)). rewrite Hclear in Ho by lia. by apply negb_true_iff.
    + intros k Hk. specialize (Hz (k - i) ltac:(lia)). rewrite Hclear in Hz by lia.
      replace (i + (k - i)) with k in Hz by lia. by apply negb_false_iff.
  - assert (Hrun : forall k, i <= k < i + span -> lbit k = true).
    { intros k Hk. specialize (Hz (k - i) ltac:(lia)). rewrite Hclear in Hz by lia.
      replace (i + (k - i)) with k in Hz by lia. by apply negb_false_iff. }
    specialize (IH (i + span) ltac:(lia) ltac:(lia)).
    destruct (next_unsacked_loop CAP fuel q (i + span)) as [j|].
    + destruct IH as (? & ? & IH). split; [lia|]. split; [done|]. intros k Hk.
      destruct (decide (k < i + span)); [apply Hrun|apply IH]; lia.
    + intros k Hk. destruct (decide (k < i + span)); [apply Hrun|apply IH]; lia.
Qed.

Lemma next_unsacked_spec i :
  0 <= i ->
  match next_unsacked CAP q i with
  | Some j => i <= j < len q /\ lbit j = false /\ (forall k, i <= k < j -> lbit k = true)
  | None => forall k, i <= k < len q -> lbit k = true
  end.
Proof using HW HCAP Hm. intros Hi. apply next_unsacked_loop_spec; lia. Qed.

End Skip.

End RtxBits.
