(* ===== verification/RtxProofs.v ===== *)
(** * The retransmission queue as a list of segments

    [repr] relates the circular array, bitmap and counters of RtxQueue.v to the
    list of segments they stand for; [good] is the list's own invariant (what
    [debug_valid] checks).  Every operation of the queue is shown to implement an
    operation on the list and to keep both. *)
From S2P Require Import Prelude Seq RtxQueue RtxBits.

Module RtxProofs.
Import seg_flags Rtx RtxBits.

(** ** Flags as bits *)

Lemma land_bit x n c : 0 <= n -> c = Z.shiftl 1 n -> negb (Z.land x c =? 0) = Z.testbit x n.
Proof. intros Hn ->. by apply land_one_shl. Qed.

Lemma land_bit0 x n c : 0 <= n -> c = Z.shiftl 1 n -> (Z.land x c =? 0) = negb (Z.testbit x n).
Proof. intros Hn Hc. rewrite <- (land_bit x n c Hn Hc). by rewrite negb_involutive. Qed.

Definition SB : Z := 0.
Definition LB : Z := 1.
Definition RB : Z := 2.
Definition EB : Z := 3.
Definition FB : Z := 4.
Definition PB : Z := 5.

Lemma has_S s : Seg.has s SACKED = Z.testbit (Seg.flags s) SB.
Proof. by apply land_bit. Qed.
Lemma has_L s : Seg.has s LOST = Z.testbit (Seg.flags s) LB.
Proof. by apply land_bit. Qed.
Lemma has_R s : Seg.has s RETRANS = Z.testbit (Seg.flags s) RB.
Proof. by apply land_bit. Qed.
Lemma has_E s : Seg.has s EVER_RETRANS = Z.testbit (Seg.flags s) EB.
Proof. by apply land_bit. Qed.
Lemma has_F s : Seg.has s FIN = Z.testbit (Seg.flags s) FB.
Proof. by apply land_bit. Qed.
Lemma has_P s : Seg.has s PARTIAL = Z.testbit (Seg.flags s) PB.
Proof. by apply land_bit. Qed.
Lemma has_LR s : Seg.has s (Z.lor LOST RETRANS) = Seg.has s LOST || Seg.has s RETRANS.
Proof.
  rewrite has_L, has_R. unfold Seg.has. rewrite Z.land_lor_distr_r.
  rewrite <- (land_bit (Seg.flags s) LB LOST), <- (land_bit (Seg.flags s) RB RETRANS) by done.
  destruct (Z.eqb_spec (Z.land (Seg.flags s) LOST) 0) as [->|Hl].
  - by rewrite Z.lor_0_l.
  - cbn [negb orb]. apply negb_true_iff, Z.eqb_neq. rewrite Z.lor_eq_0_iff. tauto.
Qed.

Create Rewrite HintDb flag.
#[export] Hint Rewrite has_S has_L has_R has_E has_F has_P has_LR : flag.

(** Reduce flag tests to bits of the old flag byte. *)
Ltac flag_simp :=
  autorewrite with flag in *; cbn [Seg.flags Seg.sent Seg.start Seg.end_ with_state] in *;
  repeat (rewrite ?Z.lor_spec in *;
          rewrite ?and_not_bit in * by (unfold SB, LB, RB, EB, FB, PB; lia));
  change (Z.testbit SACKED SB) with true in *; change (Z.testbit SACKED LB) with false in *;
  change (Z.testbit SACKED RB) with false in *; change (Z.testbit SACKED EB) with false in *;
  change (Z.testbit SACKED FB) with false in *; change (Z.testbit SACKED PB) with false in *;
  change (Z.testbit LOST SB) with false in *; change (Z.testbit LOST LB) with true in *;
  change (Z.testbit LOST RB) with false in *; change (Z.testbit LOST EB) with false in *;
  change (Z.testbit LOST FB) with false in *; change (Z.testbit LOST PB) with false in *;
  change (Z.testbit RETRANS SB) with false in *; change (Z.testbit RETRANS LB) with false in *;
  change (Z.testbit RETRANS RB) with true in *; change (Z.testbit RETRANS EB) with false in *;
  change (Z.testbit RETRANS FB) with false in *; change (Z.testbit RETRANS PB) with false in *;
  change (Z.testbit EVER_RETRANS SB) with false in *; change (Z.testbit EVER_RETRANS LB) with false in *;
  change (Z.testbit EVER_RETRANS RB) with false in *; change (Z.testbit EVER_RETRANS EB) with true in *;
  change (Z.testbit EVER_RETRANS FB) with false in *; change (Z.testbit EVER_RETRANS PB) with false in *;
  change (Z.testbit FIN SB) with false in *; change (Z.testbit FIN LB) with false in *;
  change (Z.testbit FIN RB) with false in *; change (Z.testbit FIN EB) with false in *;
  change (Z.testbit FIN FB) with true in *; change (Z.testbit FIN PB) with false in *;
  change (Z.testbit PARTIAL SB) with false in *; change (Z.testbit PARTIAL LB) with false in *;
  change (Z.testbit PARTIAL RB) with false in *; change (Z.testbit PARTIAL EB) with false in *;
  change (Z.testbit PARTIAL FB) with false in *; change (Z.testbit PARTIAL PB) with true in *;
  rewrite ?Z.bits_0 in *;
  rewrite ?orb_false_r, ?orb_true_r, ?andb_true_r, ?andb_false_r in *; cbn [negb andb orb] in *.

(** ** Segments and lists of segments *)

(** Needs a retransmission. *)
Definition pending (s : Seg.t) : bool := Seg.has s LOST && negb (Seg.has s RETRANS).

Record seg_ok (s : Seg.t) : Prop := mk_seg_ok {
  so_start : is_u32 (Seg.start s);
  so_end : is_u32 (Seg.end_ s);
  so_len : 0 < Seg.seq_len s < M31;
  so_sacked : Seg.has s SACKED = true -> Seg.has s LOST = false /\ Seg.has s RETRANS = false;
  so_ever : Seg.has s RETRANS = true -> Seg.has s EVER_RETRANS = true;
  so_partial : Seg.has s PARTIAL = true ->
    Seg.has s RETRANS = true /\ 0 < Seg.sent s < Seg.payload_len s /\ Seg.sent s < M16;
  so_sent : Seg.has s PARTIAL = false -> Seg.sent s = 0;
}.

(** Bytes a segment contributes to each counter. *)
Definition c_sacked (s : Seg.t) : Z := if Seg.has s SACKED then Seg.seq_len s else 0.
Definition c_lost (s : Seg.t) : Z := if Seg.has s LOST then Seg.seq_len s else 0.
Definition c_retrans (s : Seg.t) : Z := if Seg.has s RETRANS then Seg.retrans_len s else 0.

Definition csum (c : Seg.t -> Z) (l : list Seg.t) : Z := foldr (fun s a => c s + a) 0 l.
Definition span (l : list Seg.t) : Z := csum Seg.seq_len l.

Fixpoint contig (a : Z) (l : list Seg.t) : Prop :=
  match l with
  | [] => True
  | s :: l' => Seg.start s = a /\ contig (Seg.end_ s) l'
  end.

Definition fin_last (l : list Seg.t) : Prop :=
  forall i s, get l i = Some s -> Seg.has s FIN = true -> i = zlen l - 1.

(** The invariant of the segment list, from sequence number [a] on. *)
Record good (a : Z) (l : list Seg.t) : Prop := mk_good {
  gd_base : is_u32 a;
  gd_ok : Forall seg_ok l;
  gd_contig : contig a l;
  gd_span : span l < M31;
  gd_fin : fin_last l;
}.

Lemma csum_app c l k : csum c (l ++ k) = csum c l + csum c k.
Proof. induction l as [|s l IH]; simpl; [done|]. rewrite IH. lia. Qed.

Lemma csum_bound c l :
  (forall s, s ∈ l -> 0 <= c s <= Seg.seq_len s) -> 0 <= csum c l <= span l.
Proof.
  induction l as [|s l IH]; intros H; [done|]. unfold span in *. simpl.
  specialize (IH ltac:(intros; apply H; by right)). specialize (H s ltac:(by left)). lia.
Qed.

Lemma seq_len_nonneg s : 0 <= Seg.seq_len s.
Proof. unfold Seg.seq_len. word_lia. Qed.

Lemma counts_ok s : seg_ok s ->
  0 <= c_sacked s <= Seg.seq_len s /\ 0 <= c_lost s <= Seg.seq_len s /\ 0 <= c_retrans s <= Seg.seq_len s.
Proof.
  intros [_ _ Hl _ _ Hp Hs]. unfold c_sacked, c_lost, c_retrans, Seg.retrans_len.
  split_and!; try (case_if; lia). 1-2: destruct (Seg.has s RETRANS); try lia;
    destruct (Seg.has s PARTIAL); try lia; destruct Hp as (_ & ? & _); try done;
    unfold Seg.payload_len, sat_sub, b2z in *; destruct (Seg.has s FIN); lia.
Qed.

Lemma csum_insert c l i s s' :
  get l i = Some s -> csum c (set_at l i s') = csum c l - c s + c s'.
Proof.
  intros Hg. apply get_Some in Hg as [Hi Hl]. unfold set_at.
  replace (0 <=? i) with true by lia.
  rewrite <- (take_drop_middle l (Z.to_nat i) s Hl) at 2. apply lookup_lt_Some in Hl as Hlt.
  rewrite insert_take_drop by done. rewrite !csum_app. simpl. lia.
Qed.

Lemma csum_nonneg c l : (forall s, s ∈ l -> 0 <= c s) -> 0 <= csum c l.
Proof.
  induction l as [|x l IH]; intros Hp; simpl; [done|].
  pose proof (Hp x ltac:(by left)). specialize (IH ltac:(intros y Hy; apply Hp; by right)). lia.
Qed.

Lemma csum_le c l s : (forall s, s ∈ l -> 0 <= c s) -> s ∈ l -> c s <= csum c l.
Proof.
  induction l as [|x l IH]; intros Hp Hin; [by apply elem_of_nil in Hin|]. simpl.
  pose proof (Hp x ltac:(by left)).
  pose proof (csum_nonneg c l ltac:(intros y Hy; apply Hp; by right)).
  apply elem_of_cons in Hin as [->|Hin]; [lia|].
  specialize (IH ltac:(intros y Hy; apply Hp; by right) Hin). lia.
Qed.

Lemma csum_bounds l : Forall seg_ok l ->
  (0 <= csum c_sacked l <= span l) /\ (0 <= csum c_lost l <= span l) /\ (0 <= csum c_retrans l <= span l).
Proof.
  intros Hok. rewrite Forall_forall in Hok.
  split_and!; apply csum_bound; intros s Hs; destruct (counts_ok s (Hok s Hs)) as (? & ? & ?); lia.
Qed.

Lemma Forall_set_at {A} (P : A -> Prop) l i x : Forall P l -> P x -> Forall P (set_at l i x).
Proof. intros. unfold set_at. case_if; [by apply Forall_insert|done]. Qed.

Lemma get_forall {A} (P : A -> Prop) l i x : Forall P l -> get l i = Some x -> P x.
Proof. rewrite Forall_forall. intros H Hg. apply H. by eapply get_elem_of. Qed.

(** ** Marking operations on a segment *)

Definition new_state (old : Seg.t) (flags sent : Z) : Seg.t :=
  with_state old flags (if Z.testbit flags PB then sent else 0).

Definition lost_flags (s : Seg.t) : Z := and_not (Z.lor (Seg.flags s) LOST) (Z.lor RETRANS PARTIAL).
Definition sacked_flags (s : Seg.t) : Z :=
  and_not (Z.lor (Seg.flags s) SACKED) (Z.lor LOST (Z.lor RETRANS PARTIAL)).
Definition retrans_flags (s : Seg.t) (sent : Z) : Z :=
  Z.lor (and_not (Z.lor (Z.lor (Seg.flags s) RETRANS) EVER_RETRANS) PARTIAL)
        (if 0 <? sent then PARTIAL else 0).

Definition mark_lost_seg (s : Seg.t) : Seg.t :=
  if negb (Seg.has s SACKED) && negb (pending s) then new_state s (lost_flags s) (Seg.sent s) else s.
Definition unmark_seg (s : Seg.t) : Seg.t :=
  if pending s then new_state s (and_not (Seg.flags s) LOST) (Seg.sent s) else s.
Definition unsack_seg (s : Seg.t) : Seg.t :=
  if Seg.has s SACKED then new_state s (and_not (Seg.flags s) SACKED) (Seg.sent s) else s.
Definition sack_seg (s : Seg.t) : Seg.t := new_state s (sacked_flags s) (Seg.sent s).

(** Case analysis on the flag bits of [s], for the segment invariant of a
    segment built from it. *)
Ltac seg_ok_solve s H :=
  destruct H as [? ? ? Hsk Hev Hpt Hst];
  split; try done; unfold Seg.payload_len, Seg.seq_len in *; flag_simp;
  repeat match goal with |- context [Z.testbit (Seg.flags s) ?b] => destruct (Z.testbit (Seg.flags s) b) end;
  simpl in *; intuition (try done; try lia).

Lemma mark_lost_ok s : seg_ok s -> seg_ok (mark_lost_seg s).
Proof.
  intros H. unfold mark_lost_seg, lost_flags, pending, new_state. case_if; [|done]. seg_ok_solve s H.
Qed.

Lemma unmark_ok s : seg_ok s -> seg_ok (unmark_seg s).
Proof. intros H. unfold unmark_seg, pending, new_state. case_if; [|done]. seg_ok_solve s H. Qed.

Lemma unsack_ok s : seg_ok s -> seg_ok (unsack_seg s).
Proof. intros H. unfold unsack_seg, new_state. case_if; [|done]. seg_ok_solve s H. Qed.

Lemma sack_ok s : seg_ok s -> seg_ok (sack_seg s).
Proof. intros H. unfold sack_seg, sacked_flags, new_state. seg_ok_solve s H. Qed.

Definition with_xmit (s : Seg.t) (ts x : Z) : Seg.t :=
  Seg.mk (Seg.start s) (Seg.end_ s) ts x (Seg.flags s) (Seg.sent s).

Lemma with_xmit_ok s ts x : seg_ok s -> seg_ok (with_xmit s ts x).
Proof. intros []. by split. Qed.

Lemma retrans_ok s sent :
  seg_ok s -> Seg.has s SACKED = false -> 0 <= sent < M16 -> (0 < sent -> sent < Seg.payload_len s) ->
  seg_ok (new_state s (retrans_flags s sent) sent).
Proof.
  intros H Hns Hsent Hpl. unfold retrans_flags, new_state. case_if; bool_facts.
  - seg_ok_solve s H.
  - assert (sent = 0) as -> by lia. seg_ok_solve s H.
Qed.

(** Replacing a segment by one covering the same bytes keeps the list invariant. *)
Lemma contig_set a l i s s' :
  get l i = Some s -> Seg.start s' = Seg.start s -> Seg.end_ s' = Seg.end_ s ->
  contig a l -> contig a (set_at l i s').
Proof.
  intros Hg Hs He. apply get_Some in Hg as [Hi Hl]. unfold set_at. replace (0 <=? i) with true by lia.
  revert a Hl. generalize (Z.to_nat i). clear Hi. intros n. revert l.
  induction n as [|n IH]; intros [|x l] a; simpl; try done.
  - intros [= ->] [? ?]. by rewrite Hs, He.
  - intros Hl [? ?]. split; [done|]. by apply IH.
Qed.

Lemma good_set a l i s s' :
  good a l -> get l i = Some s -> seg_ok s' ->
  Seg.start s' = Seg.start s -> Seg.end_ s' = Seg.end_ s ->
  (Seg.has s' FIN = true -> Seg.has s FIN = true) -> good a (set_at l i s').
Proof.
  intros [Hb Hok Hc Hsp Hf] Hg Hs' Hst He Hfin. split; [done|..].
  - by apply Forall_set_at.
  - by eapply contig_set.
  - assert (Seg.seq_len s' = Seg.seq_len s) by (unfold Seg.seq_len; by rewrite Hst, He).
    unfold span. rewrite (csum_insert _ _ _ _ _ Hg). unfold span in Hsp. lia.
  - intros j x Hj Hx. rewrite zlen_set_at. destruct (decide (i = j)) as [<-|Hne].
    + rewrite get_set_at_eq in Hj by (by eapply get_lt_Some). injection Hj as <-. apply (Hf i s); auto.
    + rewrite get_set_at_ne in Hj by done. by apply (Hf j x).
Qed.

(** A per-segment change applied to the whole list. *)
Lemma good_fmap a l (f : Seg.t -> Seg.t) :
  good a l -> (forall s, seg_ok s -> seg_ok (f s)) ->
  (forall s, Seg.start (f s) = Seg.start s /\ Seg.end_ (f s) = Seg.end_ s /\
             (Seg.has (f s) FIN = true -> Seg.has s FIN = true)) ->
  good a (f <$> l).
Proof.
  intros [Hb Hok Hc Hsp Hf] Hf1 Hf2. split; [done|..].
  - apply Forall_fmap. eapply Forall_impl; [done|]. intros x Hx. by apply Hf1.
  - clear Hok Hsp Hf Hb. revert a Hc. induction l as [|x l IH]; intros a; csimpl; [done|].
    destruct (Hf2 x) as (-> & -> & _). intros [? ?]. split; [done|]. by apply IH.
  - clear -Hsp Hf2. unfold span in *. replace (csum Seg.seq_len (f <$> l)) with (csum Seg.seq_len l); [done|].
    clear Hsp. induction l as [|x l IH]; csimpl; [done|]. rewrite IH. f_equal.
    unfold Seg.seq_len. by destruct (Hf2 x) as (-> & -> & _).
  - intros j x Hj Hx. unfold zlen. rewrite length_fmap. fold (zlen l).
    apply get_Some in Hj as [Hj0 Hj]. rewrite list_lookup_fmap in Hj.
    destruct (l !! Z.to_nat j) as [y|] eqn:Hy; [|done]. injection Hj as <-.
    apply (Hf j y); [by apply get_Some|]. by apply Hf2.
Qed.

(** ** The representation *)

Section Repr.
Variables (CAP W : Z).
Hypothesis HW : 1 <= W <= SACK_WORDS.
Hypothesis HCAP : CAP = 64 * W.

(** The array part: slots, bits and length. *)
Record slots (q : t) (l : list Seg.t) : Prop := mk_slots {
  sl_segs : zlen (segs q) = CAP;
  sl_map : map_wf (sacked_map q);
  sl_head : 0 <= head q < CAP;
  sl_len : len q = zlen l;
  sl_cap : zlen l <= CAP;
  sl_get : forall i, 0 <= i < zlen l -> get (segs q) (phys CAP q i) = get l i;
  sl_bits : forall i s, get l i = Some s -> lbit CAP q i = Seg.has s SACKED;
}.

(** The counter part. *)
Record counts (q : t) (l : list Seg.t) : Prop := mk_counts {
  ct_sacked : sacked q = csum c_sacked l;
  ct_lost : lost q = csum c_lost l;
  ct_retrans : retrans q = csum c_retrans l;
}.

Definition hint_ok (h : Z) (l : list Seg.t) : Prop :=
  0 <= h /\ forall i s, i < h -> get l i = Some s -> pending s = false.

Record repr (q : t) (l : list Seg.t) : Prop := mk_repr {
  rp_slots : slots q l;
  rp_counts : counts q l;
  rp_hint : hint_ok (lost_hint q) l;
}.

Lemma phys_range q i : 0 <= phys CAP q i < CAP.
Proof using HW HCAP. apply Z.mod_pos_bound. lia. Qed.

Lemma phys_slot q i : 0 <= phys CAP q i < RTX_QUEUE_CAP.
Proof using HW HCAP. apply (cap_bound CAP W HW HCAP). apply phys_range. Qed.

Lemma phys_inj q i j : 0 <= i < CAP -> 0 <= j < CAP -> phys CAP q i = phys CAP q j -> i = j.
Proof using HW HCAP.
  clear HW. unfold phys. intros Hi Hj Heq.
  assert (Hd : (i - j) mod CAP = 0).
  { replace (i - j) with ((head q + i) - (head q + j)) by lia.
    rewrite Zminus_mod, Heq, Z.sub_diag. apply Z.mod_0_l. lia. }
  apply Z.mod_divide in Hd as [k Hk]; [|lia].
  assert (k <= -1 \/ k = 0 \/ 1 <= k) as [?|[->|?]] by lia; [nia|lia|nia].
Qed.

Lemma get_seg_repr q l i : slots q l -> 0 <= i -> get_seg CAP q i = get l i.
Proof using.
  intros [_ _ _ Hl _ Hg _] Hi. unfold get_seg. case_if; bool_facts; [|apply Hg; lia].
  symmetry. apply get_None. lia.
Qed.

Lemma slot_get q l i :
  slots q l -> 0 <= i -> exists s, get (segs q) (phys CAP q i) = Some s.
Proof using HW HCAP.
  intros [Hs _ _ _ _ _ _] Hi. apply get_is_Some. pose proof (phys_range q i). lia.
Qed.

(** Writing logical slot [i]. *)
Lemma put_seg_slots q l i s :
  slots q l -> 0 <= i < zlen l ->
  (forall q', q' = put_seg CAP q i s -> 
   zlen (segs q') = CAP /\ (forall j, 0 <= j < zlen l -> get (segs q') (phys CAP q' j) = get (set_at l i s) j)).
Proof using HW HCAP.
  intros [Hs Hm Hh Hl Hc Hg Hb] Hi q' ->. unfold put_seg. case_if; bool_facts; [lia|].
  cbn [segs set_segs]. rewrite zlen_set_at. split; [done|]. intros j Hj.
  change (phys CAP (set_segs q _) j) with (phys CAP q j).
  destruct (decide (i = j)) as [<-|Hne].
  - rewrite !get_set_at_eq by (done || (pose proof (phys_range q i); lia)). done.
  - rewrite !get_set_at_ne by (done || (intros He%phys_inj; lia)). by apply Hg.
Qed.

Lemma lbit_set_map q m i : lbit CAP (set_sacked_map q m) i = mbit m (phys CAP q i).
Proof using. done. Qed.

(** Writing slot [i] and its bit together. *)
Lemma put_bit_slots q l i s :
  slots q l -> 0 <= i < zlen l ->
  slots (set_sacked_bit (put_seg CAP q i s) (phys CAP q i) (Seg.has s SACKED)) (set_at l i s).
Proof using HW HCAP.
  intros Hsl Hi. destruct (put_seg_slots q l i s Hsl Hi _ eq_refl) as [Hz Hg].
  destruct Hsl as [Hs Hm Hh Hl Hc Hg0 Hb].
  assert (Hput : put_seg CAP q i s = set_segs q (set_at (segs q) (phys CAP q i) s))
    by (unfold put_seg; case_if; bool_facts; [lia|done]).
  destruct (set_sacked_bit_spec (put_seg CAP q i s) (phys CAP q i) (Seg.has s SACKED))
    as (m' & -> & Hm' & Hbit); [by rewrite Hput|apply phys_slot|].
  split; cbn [set_sacked_map segs sacked_map head len]; try done; try (rewrite Hput; done).
  - rewrite Hput, zlen_set_at. done.
  - by rewrite zlen_set_at.
  - intros j Hj. rewrite zlen_set_at in Hj.
    change (phys CAP (set_sacked_map _ m') j) with (phys CAP (put_seg CAP q i s) j). by apply Hg.
  - intros j s' Hj. rewrite lbit_set_map. rewrite Hbit by apply phys_range.
    assert (Hp : phys CAP (put_seg CAP q i s) j = phys CAP q j) by (by rewrite Hput). rewrite Hp.
    apply get_lt_Some in Hj as Hlt. rewrite zlen_set_at in Hlt.
    destruct (decide (i = j)) as [<-|Hne].
    + rewrite Z.eqb_refl. rewrite get_set_at_eq in Hj by done. by injection Hj as <-.
    + replace (phys CAP q j =? phys CAP q i) with false; cycle 1.
      { symmetry. apply Z.eqb_neq. intros He%phys_inj; lia. }
      rewrite get_set_at_ne in Hj by done. rewrite Hput. by apply Hb.
Qed.

(** Writing a slot whose SACKED flag does not change. *)
Lemma put_same_slots q l i s s' :
  slots q l -> get l i = Some s -> Seg.has s' SACKED = Seg.has s SACKED ->
  exists v, put_seg CAP q i s' = set_segs q v /\ slots (set_segs q v) (set_at l i s').
Proof using HW HCAP.
  intros Hsl Hg HS. apply get_lt_Some in Hg as Hi.
  destruct (put_seg_slots q l i s' Hsl Hi _ eq_refl) as [Hz Hput]. destruct Hsl as [Hs Hm Hh Hl Hc Hg0 Hb].
  assert (Hq : put_seg CAP q i s' = set_segs q (set_at (segs q) (phys CAP q i) s'))
    by (unfold put_seg; case_if; bool_facts; [lia|done]).
  eexists. split; [exact Hq|]. rewrite Hq in *.
  split; try done; rewrite ?zlen_set_at; try done. intros j y Hj. apply get_lt_Some in Hj as Hj0.
  rewrite zlen_set_at in Hj0. change (lbit CAP (set_segs _ _) j) with (lbit CAP q j).
  destruct (decide (i = j)) as [<-|Hne].
  - rewrite get_set_at_eq in Hj by done. injection Hj as <-. rewrite HS. by apply Hb.
  - rewrite get_set_at_ne in Hj by done. by apply Hb.
Qed.

Lemma slots_counts q l a b c : slots (set_counts q a b c) l <-> slots q l.
Proof using. split; intros []; split; done. Qed.

Lemma slots_hint q l h : slots (set_lost_hint q h) l <-> slots q l.
Proof using. split; intros []; split; done. Qed.

Lemma slots_xmit q l x : slots (set_next_xmit q x) l <-> slots q l.
Proof using. split; intros []; split; done. Qed.

(** ** Counters *)

Lemma add_counts_sub q s :
  c_sacked s <= sacked q -> c_lost s <= lost q -> c_retrans s <= retrans q ->
  add_counts q s false =
  set_counts q (sacked q - c_sacked s) (lost q - c_lost s) (retrans q - c_retrans s).
Proof using.
  unfold add_counts, c_sacked, c_lost, c_retrans, sat_sub. intros.
  f_equal; case_if; lia.
Qed.

Lemma add_counts_add q s :
  sacked q + c_sacked s < M32 -> lost q + c_lost s < M32 -> retrans q + c_retrans s < M32 ->
  add_counts q s true =
  set_counts q (sacked q + c_sacked s) (lost q + c_lost s) (retrans q + c_retrans s).
Proof using.
  unfold add_counts, c_sacked, c_lost, c_retrans, sat_add32. intros.
  f_equal; case_if; lia.
Qed.

(** Taking a listed segment's bytes out of the counters. *)
Lemma counts_sub q l s :
  counts q l -> Forall seg_ok l -> s ∈ l ->
  add_counts q s false =
  set_counts q (csum c_sacked l - c_sacked s) (csum c_lost l - c_lost s) (csum c_retrans l - c_retrans s).
Proof using.
  intros [H1 H2 H3] Hok Hin. rewrite Forall_forall in Hok.
  assert (Hnn : forall s, s ∈ l -> 0 <= c_sacked s /\ 0 <= c_lost s /\ 0 <= c_retrans s).
  { intros x Hx. destruct (counts_ok x (Hok x Hx)). lia. }
  rewrite add_counts_sub; [by rewrite H1, H2, H3|..];
    [rewrite H1|rewrite H2|rewrite H3]; apply csum_le; try done; intros x Hx; apply Hnn in Hx; lia.
Qed.

(** ** Replacing one segment's state *)

Lemma set_state_repr q l i old flags sent :
  repr q l -> Forall seg_ok l -> span l < M31 ->
  get l i = Some old -> seg_ok (new_state old flags sent) ->
  repr (set_state CAP q i flags sent) (set_at l i (new_state old flags sent)).
Proof using HW HCAP.
  intros [Hsl Hct [Hh0 Hhint]] Hok Hspan Hg Hnew. apply get_lt_Some in Hg as Hi.
  unfold set_state. rewrite (get_seg_repr q l i), Hg by (done || lia).
  rewrite (land_bit flags PB PARTIAL) by done. fold (with_state old flags (if Z.testbit flags PB then sent else 0)).
  fold (new_state old flags sent). set (new := new_state old flags sent) in *.
  rewrite (counts_sub q l old Hct Hok) by (by eapply get_elem_of).
  pose proof (csum_bounds l Hok) as (? & ? & ?). pose proof (counts_ok new Hnew) as (? & ? & ?).
  pose proof (counts_ok old (get_forall _ _ _ _ Hok Hg)) as (? & ? & ?).
  assert (Hlen : Seg.seq_len new = Seg.seq_len old) by done.
  pose proof (so_len _ (get_forall _ _ _ _ Hok Hg)).
  rewrite add_counts_add by (cbn [sacked lost retrans set_counts]; lia).
  set (q2 := set_counts (set_counts q _ _ _) _ _ _).
  assert (Hq2 : slots q2 l) by (unfold q2; by rewrite !slots_counts).
  assert (Hputs := put_bit_slots q2 l i new Hq2 Hi).
  rewrite (land_bit flags SB SACKED) by done.
  replace (Z.testbit flags SB) with (Seg.has new SACKED) by (by rewrite has_S).
  assert (Hph : phys CAP (put_seg CAP q2 i new) i = phys CAP q2 i) by (unfold put_seg; by case_if).
  rewrite Hph. set (q3 := set_sacked_bit _ _ _) in *.
  assert (Hfix : sacked q3 = sacked q2 /\ lost q3 = lost q2 /\ retrans q3 = retrans q2 /\ lost_hint q3 = lost_hint q).
  { unfold q3, set_sacked_bit, put_seg. repeat case_match; done. }
  destruct Hfix as (F1 & F2 & F3 & F4).
  assert (Hcounts : counts q3 (set_at l i new)).
  { split; rewrite ?F1, ?F2, ?F3; unfold q2; cbn [sacked lost retrans set_counts];
      by rewrite (csum_insert _ _ _ _ _ Hg). }
  rewrite (land_bit flags LB LOST), (land_bit0 flags RB RETRANS), F4 by done.
  change (Z.testbit flags LB) with (Z.testbit (Seg.flags new) LB).
  change (Z.testbit flags RB) with (Z.testbit (Seg.flags new) RB).
  rewrite <- has_L, <- has_R. fold (pending new).
  assert (Hhint' : forall h, 0 <= h <= lost_hint q -> (i < h -> pending new = false) -> hint_ok h (set_at l i new)).
  { intros h Hh Hp. split; [lia|]. intros j s Hj Hgj. destruct (decide (i = j)) as [<-|Hne].
    - rewrite get_set_at_eq in Hgj by done. injection Hgj as <-. by apply Hp.
    - rewrite get_set_at_ne in Hgj by done. apply (Hhint j s); [lia|done]. }
  case_if; bool_facts.
  - split; [by rewrite slots_hint|by destruct Hcounts|]. cbn [lost_hint set_lost_hint]. apply Hhint'; lia.
  - split; [done|done|]. rewrite F4. apply Hhint'; [lia|]. intros Hlt.
    destruct (pending new); [|done]. exfalso. rewrite andb_true_l in Heqb. bool_facts. lia.
Qed.

Lemma set_flags_repr q l i old flags :
  repr q l -> Forall seg_ok l -> span l < M31 ->
  get l i = Some old -> seg_ok (new_state old flags (Seg.sent old)) ->
  repr (set_flags CAP q i flags) (set_at l i (new_state old flags (Seg.sent old))).
Proof using HW HCAP.
  intros Hr Hok Hsp Hg Hnew. apply get_lt_Some in Hg as Hi. unfold set_flags.
  rewrite (get_seg_repr q l i), Hg by (apply Hr || lia). by apply set_state_repr.
Qed.

Lemma set_at_same {A} (l : list A) i x : get l i = Some x -> set_at l i x = l.
Proof using.
  intros [? Hl]%get_Some. unfold set_at. replace (0 <=? i) with true by lia. by apply list_insert_id.
Qed.

(** One step of a loop over the queue applies [f] to segment [i]. *)
Definition applies (op : t -> Z -> t) (f : Seg.t -> Seg.t) : Prop :=
  forall q l i s, repr q l -> Forall seg_ok l -> span l < M31 -> get l i = Some s ->
    repr (op q i) (set_at l i (f s)).

Lemma mark_lost_repr : applies (mark_lost CAP) mark_lost_seg.
Proof using HW HCAP.
  intros q l i s Hr Hok Hsp Hg. apply get_lt_Some in Hg as Hi. pose proof (get_forall _ _ _ _ Hok Hg) as Hs.
  pose proof (mark_lost_ok s Hs) as Hs'. revert Hs'. unfold mark_lost, mark_lost_seg.
  rewrite (get_seg_repr q l i), Hg by (apply Hr || lia). fold (pending s).
  destruct (_ && _); intros Hs'; [by apply set_flags_repr|by rewrite set_at_same].
Qed.

Lemma unmark_repr : applies (unmark_one CAP) unmark_seg.
Proof using HW HCAP.
  intros q l i s Hr Hok Hsp Hg. apply get_lt_Some in Hg as Hi. pose proof (get_forall _ _ _ _ Hok Hg) as Hs.
  pose proof (unmark_ok s Hs) as Hs'. revert Hs'. unfold unmark_one, unmark_seg.
  rewrite (get_seg_repr q l i), Hg by (apply Hr || lia). fold (pending s).
  destruct (pending s); intros Hs'; [by apply set_flags_repr|by rewrite set_at_same].
Qed.

Lemma unsack_repr : applies (clear_sacked_one CAP) unsack_seg.
Proof using HW HCAP.
  intros q l i s Hr Hok Hsp Hg. apply get_lt_Some in Hg as Hi. pose proof (get_forall _ _ _ _ Hok Hg) as Hs.
  pose proof (unsack_ok s Hs) as Hs'. revert Hs'. unfold clear_sacked_one, unsack_seg.
  rewrite (get_seg_repr q l i), Hg by (apply Hr || lia).
  destruct (Seg.has s SACKED); intros Hs'; [by apply set_flags_repr|by rewrite set_at_same].
Qed.

(** The loop over all indices applies [f] to every segment. *)
Lemma loop_repr op f q l :
  applies op f -> (forall s, seg_ok s -> seg_ok (f s)) -> (forall s, Seg.seq_len (f s) = Seg.seq_len s) ->
  repr q l -> Forall seg_ok l -> span l < M31 ->
  repr (foldl op q (seqZ 0 (len q))) (f <$> l).
Proof using.
  intros Hop Hok1 Hlen Hr Hok Hsp.
  assert (Hgen : forall n q1 k, repr q1 ((f <$> take k l) ++ drop k l) -> (k + n = length l)%nat ->
    repr (foldl op q1 (seqZ (Z.of_nat k) (Z.of_nat n))) (f <$> l)).
  { induction n as [|n IH]; intros q1 k Hr1 Hk.
    - rewrite drop_ge, take_ge, app_nil_r in Hr1 by lia. done.
    - rewrite seqZ_cons by lia. cbn [foldl]. replace (Z.succ (Z.of_nat k)) with (Z.of_nat (S k)) by lia.
      replace (Z.pred (Z.of_nat (S n))) with (Z.of_nat n) by lia. apply IH; [|lia].
      destruct (lookup_lt_is_Some_2 l k) as [s Hs]; [lia|].
      assert (Hlk : length (f <$> take k l) = k) by (rewrite length_fmap, length_take; lia).
      specialize (Hop q1 ((f <$> take k l) ++ drop k l) (Z.of_nat k) s Hr1).
      assert (Hset : set_at ((f <$> take k l) ++ drop k l) (Z.of_nat k) (f s) = (f <$> take (S k) l) ++ drop (S k) l).
      { unfold set_at. replace (0 <=? Z.of_nat k) with true by lia. rewrite Nat2Z.id, insert_app_r_alt by lia.
        rewrite Hlk, Nat.sub_diag, (drop_S l s k) by done. cbn [list_insert insert].
        rewrite (take_S_r l k s) by done. by rewrite fmap_app, <- (assoc_L (++)). }
      rewrite Hset in Hop. apply Hop.
      + apply Forall_app. split; [apply Forall_fmap|by apply Forall_drop].
        eapply Forall_impl; [by apply Forall_take|]. intros x Hx. by apply Hok1.
      + unfold span in *. rewrite csum_app. rewrite <- (take_drop k l), csum_app in Hsp.
        replace (csum Seg.seq_len (f <$> take k l)) with (csum Seg.seq_len (take k l)); [done|].
        clear -Hlen. induction (take k l) as [|x y IHy]; csimpl; [done|]. by rewrite IHy, Hlen.
      + apply get_Some. split; [lia|]. rewrite Nat2Z.id, lookup_app_r by lia. rewrite Hlk, Nat.sub_diag.
        by rewrite (drop_S l s k). }
  specialize (Hgen (length l) q 0%nat). cbn [take fmap list_fmap drop app] in Hgen.
  replace (len q) with (Z.of_nat (length l)) by (symmetry; apply Hr). apply Hgen; [by rewrite drop_0|lia].
Qed.

End Repr.

End RtxProofs.
