(* ===== verification/RtxSplit.v ===== *)
(** * Splitting a segment of the retransmission queue

    [split] moves the entries above the split point up one slot, with their
    bitmap bits, and replaces the segment by its two halves. *)
From S2P Require Import Prelude Seq RtxQueue RtxBits RtxProofs.

Module RtxSplit.
Import seg_flags Rtx RtxBits RtxProofs.

(** ** The two halves *)

Definition inside (s : Seg.t) (at_ : Z) : bool := seq_lt (Seg.start s) at_ && seq_lt at_ (Seg.end_ s).

Section Halves.
Variables (s : Seg.t) (at_ : Z).
Hypothesis Hok : seg_ok s.
Hypothesis Hat : is_u32 at_.
Hypothesis Hin : inside s at_ = true.
Let below := wsub32 at_ (Seg.start s).

Lemma halves_len :
  0 < below < Seg.seq_len s /\ Seg.seq_len s < M31 /\
  wsub32 (Seg.end_ s) at_ = Seg.seq_len s - below.
Proof using Hok Hat Hin.
  destruct Hok as [? ? Hl _ _ _ _]. unfold inside in Hin. apply andb_true_iff in Hin as [H1 H2].
  unfold below, Seg.seq_len, seq_lt in *. word_lia.
Qed.

Lemma lower_fields :
  Seg.start (split_lower s at_) = Seg.start s /\ Seg.end_ (split_lower s at_) = at_ /\
  Seg.seq_len (split_lower s at_) = below.
Proof using. unfold split_lower, Seg.seq_len. by case_if. Qed.

Lemma upper_fields :
  Seg.start (split_upper s at_) = at_ /\ Seg.end_ (split_upper s at_) = Seg.end_ s /\
  Seg.seq_len (split_upper s at_) = wsub32 (Seg.end_ s) at_.
Proof using. unfold split_upper, Seg.seq_len. by repeat case_if. Qed.

Lemma lower_ok : seg_ok (split_lower s at_) /\ Seg.has (split_lower s at_) FIN = false /\
  Seg.has (split_lower s at_) SACKED = Seg.has s SACKED /\ pending (split_lower s at_) = pending s.
Proof using Hok Hat Hin.
  pose proof halves_len as (Hb & HL & _). pose proof lower_fields as (Hs & He & Hl).
  unfold below in *. destruct Hok as [? ? ? Hsk Hev Hpt Hst].
  split; [|unfold split_lower, pending; case_if; flag_simp; done].
  split; rewrite ?Hs, ?He, ?Hl; try done; try lia; unfold Seg.payload_len; rewrite ?Hl;
    unfold split_lower in *; case_if; flag_simp; try done; try tauto.
  - intros HP. rewrite HP in *. destruct (Hpt eq_refl) as (? & ? & ?). cbn [andb] in Heqb. bool_facts.
    split; [done|]. unfold sat_sub, b2z. lia.
Qed.

Lemma upper_ok : seg_ok (split_upper s at_) /\ Seg.has (split_upper s at_) FIN = Seg.has s FIN /\
  Seg.has (split_upper s at_) SACKED = Seg.has s SACKED /\
  (Seg.has s PARTIAL = false -> pending (split_upper s at_) = pending s).
Proof using Hok Hat Hin.
  pose proof halves_len as (Hb & HL & Hu). pose proof upper_fields as (Hs & He & Hl).
  unfold below in *. destruct Hok as [? ? ? Hsk Hev Hpt Hst].
  split; [|unfold split_upper, pending; repeat case_if; flag_simp; try done; congruence].
  split; rewrite ?Hs, ?He, ?Hl, ?Hu; try done; try lia; unfold Seg.payload_len; rewrite ?Hl, ?Hu;
    unfold split_upper in *; repeat case_if; bool_facts; flag_simp; try done; try tauto; try congruence.
  - intros HS. destruct (Hpt eq_refl) as (HR & _). destruct (Hsk HS). congruence.
  - intros _. destruct (Hpt eq_refl) as (? & ? & ?). unfold Seg.payload_len in *. flag_simp.
    unfold sat_sub, as_u16 in *. rewrite Z.mod_small by lia. split; [done|lia].
Qed.

End Halves.

(** ** The list after a split *)

Definition split_list (l : list Seg.t) (i : Z) (s : Seg.t) (at_ : Z) : list Seg.t :=
  take (Z.to_nat i) l ++ split_lower s at_ :: split_upper s at_ :: drop (S (Z.to_nat i)) l.

Lemma split_list_len l i s at_ : get l i = Some s -> zlen (split_list l i s at_) = zlen l + 1.
Proof.
  intros [Hi Hl]%get_Some. apply lookup_lt_Some in Hl. unfold split_list, zlen.
  rewrite length_app. cbn [length]. rewrite length_take, length_drop. lia.
Qed.

Lemma split_list_get l i s at_ j :
  get l i = Some s -> 0 <= j ->
  get (split_list l i s at_) j =
    if j <? i then get l j else if j =? i then Some (split_lower s at_)
    else if j =? i + 1 then Some (split_upper s at_) else get l (j - 1).
Proof.
  intros [Hi Hl]%get_Some Hj. apply lookup_lt_Some in Hl. unfold split_list, get.
  replace (0 <=? j) with true by lia.
  assert (Hlen : length (take (Z.to_nat i) l) = Z.to_nat i) by (rewrite length_take; lia).
  destruct (j <? i) eqn:E1; bool_facts.
  - rewrite lookup_app_l by lia. by rewrite lookup_take_lt by lia.
  - rewrite lookup_app_r by lia. rewrite Hlen. destruct (j =? i) eqn:E2; bool_facts.
    + subst j. by rewrite Nat.sub_diag.
    + destruct (j =? i + 1) eqn:E3; bool_facts.
      * subst j. by replace (Z.to_nat (i + 1) - Z.to_nat i)%nat with 1%nat by lia.
      * replace (Z.to_nat j - Z.to_nat i)%nat with (S (S (Z.to_nat j - Z.to_nat i - 2))) by lia.
        change ((?x :: ?y :: ?k) !! S (S ?n)) with (k !! n). rewrite lookup_drop. replace (0 <=? j - 1) with true by lia. f_equal. lia.
Qed.

Lemma split_csum c l i s at_ :
  get l i = Some s -> csum c (split_list l i s at_) = csum c l - c s + c (split_lower s at_) + c (split_upper s at_).
Proof.
  intros [Hi Hl]%get_Some. unfold split_list. rewrite <- (take_drop_middle l (Z.to_nat i) s Hl) at 3.
  rewrite !csum_app. simpl. lia.
Qed.

Lemma contig_app a l k :
  contig a (l ++ k) <-> contig a l /\ contig (default a (Seg.end_ <$> list.last l)) k.
Proof.
  revert a. induction l as [|x l IH]; intros a; [simpl; tauto|]. cbn [app contig]. rewrite IH.
  destruct l as [|y l]; simpl; [tauto|].
  assert (forall b, default b (Seg.end_ <$> list.last (y :: l)) = default a (Seg.end_ <$> list.last (y :: l))) as He.
  { intros b. destruct (list.last (y :: l)) eqn:E; [done|]. by apply last_None in E. }
  simpl in He. rewrite (He (Seg.end_ x)). tauto.
Qed.

Lemma split_good a l i s at_ :
  good a l -> get l i = Some s -> is_u32 at_ -> inside s at_ = true -> good a (split_list l i s at_).
Proof.
  intros [Hb Hok Hc Hsp Hf] Hg Hat Hin. pose proof (get_forall _ _ _ _ Hok Hg) as Hs.
  destruct (lower_ok s at_ Hs Hat Hin) as (Hlok & HlF & _). destruct (upper_ok s at_ Hs Hat Hin) as (Huok & HuF & _).
  destruct (halves_len s at_ Hs Hat Hin) as (Hbl & HL & Hu).
  destruct (lower_fields s at_) as (Hls & Hle & Hll). destruct (upper_fields s at_) as (Hus & Hue & Hul).
  split; [done|..].
  - unfold split_list. apply Forall_app. split; [by apply Forall_take|].
    repeat (apply Forall_cons; split; [done|]). by apply Forall_drop.
  - apply get_Some in Hg as [Hi Hl]. unfold split_list.
    rewrite <- (take_drop_middle l (Z.to_nat i) s Hl) in Hc. apply contig_app in Hc as [Hc1 [Hst Hc2]].
    apply contig_app. split; [done|]. cbn [contig]. rewrite Hls, Hle, Hus, Hue. done.
  - unfold span in *. rewrite split_csum by done. rewrite Hll, Hul. lia.
  - intros j x Hj Hx. rewrite split_list_len by done. apply get_lt_Some in Hj as Hjl.
    rewrite (split_list_get l i s at_ j Hg) in Hj by lia.
    destruct (j <? i) eqn:E1; bool_facts; [apply (Hf j x Hj) in Hx; apply get_lt_Some in Hg; lia|].
    destruct (j =? i) eqn:E2; bool_facts; [injection Hj as <-; congruence|].
    destruct (j =? i + 1) eqn:E3; bool_facts.
    + injection Hj as <-. rewrite HuF in Hx. apply (Hf i s Hg) in Hx. lia.
    + apply (Hf (j - 1) x Hj) in Hx. lia.
Qed.

(** ** The queue after a split *)

Section Repr.
Variables (CAP W : Z).
Hypothesis HW : 1 <= W <= SACK_WORDS.
Hypothesis HCAP : CAP = 64 * W.

Lemma shift_segs_up_spec n : forall q j,
  zlen (segs q) = CAP -> Z.of_nat n <= j < CAP ->
  exists v, shift_segs_up CAP n q j = set_segs q v /\ zlen v = CAP /\
    forall k, 0 <= k < CAP ->
      get v (phys CAP q k) =
      if (j - Z.of_nat n <? k) && (k <=? j) then get (segs q) (phys CAP q (k - 1)) else get (segs q) (phys CAP q k).
Proof using HW HCAP.
  induction n as [|n IH]; intros q j Hz Hj; cbn [shift_segs_up].
  - exists (segs q). split; [by destruct q|]. split; [done|]. intros k Hk. case_if; bool_facts; [lia|done].
  - destruct (proj2 (get_is_Some (segs q) (phys CAP q (j - 1)))) as [x Hx].
    { rewrite Hz. by apply (phys_range CAP W). }
    rewrite Hx. set (q1 := set_segs q _).
    destruct (IH q1 (j - 1)) as (v & -> & Hv & Hget); [by unfold q1; cbn; rewrite zlen_set_at|lia|].
    exists v. split; [done|]. split; [done|]. intros k Hk. change (phys CAP q k) with (phys CAP q1 k).
    rewrite Hget by done. unfold q1. cbn [segs set_segs].
    change (phys CAP (set_segs q ?v) ?k) with (phys CAP q k).
    assert (Hne : forall m, 0 <= m < CAP -> m <> j -> phys CAP q j <> phys CAP q m).
    { intros m Hm Hmj He. apply (phys_inj CAP W HW HCAP) in He; lia. }
    destruct (decide (k = j)) as [->|Hkj].
    + rewrite get_set_at_eq by (rewrite Hz; by apply (phys_range CAP W)). 
      replace ((j - 1 - Z.of_nat n <? j) && (j <=? j - 1)) with false by lia.
      rewrite Z.leb_refl, (proj2 (Z.ltb_lt _ _)) by lia. done.
    + replace (j - Z.of_nat (S n)) with (j - 1 - Z.of_nat n) by lia.
      replace (k <=? j) with (k <=? j - 1) by lia.
      case_if; bool_facts; [rewrite get_set_at_ne by (apply Hne; lia)|rewrite get_set_at_ne by (by apply Hne)]; done.
Qed.

Lemma pred_phys q k : pred CAP (phys CAP q k) = phys CAP q (k - 1).
Proof using. unfold pred, phys. rewrite Zminus_mod_idemp_l. f_equal. lia. Qed.

Lemma shift_bits_spec q i n :
  map_wf (sacked_map q) -> 0 <= i -> 0 <= n -> i + n < CAP ->
  exists m, shift_sacked_bits_up CAP q (phys CAP q i) n = set_sacked_map q m /\ map_wf m /\
    forall k, 0 <= k < CAP ->
      mbit m (phys CAP q k) = if (i <? k) && (k <=? i + n) then lbit CAP q (k - 1) else lbit CAP q k.
Proof using HW HCAP.
  intros Hm Hi Hn Hin. pose proof (phys_range CAP W HW HCAP q) as Hph. unfold shift_sacked_bits_up. eexists. split; [done|].
  destruct (shift_loop_spec CAP W HW HCAP (Z.to_nat n) (sacked_map q) (phys CAP q i) n Hm (Hph i) ltac:(lia) ltac:(lia))
    as [Hm' Hbit].
  split; [done|]. intros k Hk. rewrite Hbit by apply Hph. rewrite pred_phys. unfold lbit.
  assert (Hd : (phys CAP q k - phys CAP q i) mod CAP = (k - i) mod CAP).
  { unfold phys. rewrite <- Zminus_mod. f_equal. lia. }
  rewrite Hd. clear Hd Hbit Hph Hm' Hm. destruct (decide (i <= k)) as [Hle|Hgt].
  - rewrite Z.mod_small by lia. by replace ((0 <? k - i) && (k - i <=? n)) with ((i <? k) && (k <=? i + n)) by lia.
  - replace ((k - i) mod CAP) with (k - i + CAP); cycle 1.
    { rewrite <- (Z.mod_small (k - i + CAP) CAP) by lia. rewrite <- (Z_mod_plus_full (k - i) 1 CAP). f_equal. lia. }
    replace ((i <? k) && (k <=? i + n)) with false by lia.
    replace ((0 <? k - i + CAP) && (k - i + CAP <=? n)) with false by lia. done.
Qed.

(** Shift, grow and write both halves: the array now holds the split list. *)
Lemma split_slots q l i s at_ a b c :
  slots CAP q l -> get l i = Some s -> zlen l < CAP ->
  Seg.has (split_lower s at_) SACKED = Seg.has s SACKED ->
  Seg.has (split_upper s at_) SACKED = Seg.has s SACKED ->
  let q1 := shift_segs_up CAP (Z.to_nat (len q - (i + 1))) q (len q) in
  let q2 := shift_sacked_bits_up CAP q1 (phys CAP q1 (i + 1)) (len q1 - (i + 1)) in
  let q3 := set_counts (set_len q2 (len q2 + 1)) a b c in
  let q4 := put_seg CAP (put_seg CAP q3 i (split_lower s at_)) (i + 1) (split_upper s at_) in
  exists v m, set_sacked_bit q4 (phys CAP q4 (i + 1)) (Seg.has s SACKED) =
    mk v m (head q) (len q + 1) a b c (lost_hint q) (next_xmit q) /\
    slots CAP (mk v m (head q) (len q + 1) a b c (lost_hint q) (next_xmit q)) (split_list l i s at_).
Proof using HW HCAP.
  intros Hsl Hg Hc Hlo Hup. apply get_lt_Some in Hg as Hi. destruct Hsl as [Hs Hm Hh Hl _ Hget Hbits].
  pose proof (phys_range CAP W HW HCAP q) as Hph.
  destruct (shift_segs_up_spec (Z.to_nat (len q - (i + 1))) q (len q)) as (v & Hv & Hvl & Hvg); [done|lia|].
  replace (len q - Z.of_nat (Z.to_nat (len q - (i + 1)))) with (i + 1) in Hvg by lia.
  rewrite Hv. intros q1.
  destruct (shift_bits_spec q1 (i + 1) (len q1 - (i + 1))) as (m & Hmm & Hmwf & Hmb);
    [done|lia|unfold q1; cbn; lia|unfold q1; cbn; lia|].
  rewrite Hmm. intros q2 q3 q4.
  assert (Hq4 : q4 = mk (set_at (set_at v (phys CAP q i) (split_lower s at_)) (phys CAP q (i + 1)) (split_upper s at_)) m
                  (head q) (len q + 1) a b c (lost_hint q) (next_xmit q)).
  { unfold q4, put_seg. cbn [len set_counts set_len q3 q2 q1 set_sacked_map set_segs].
    replace (len q + 1 <=? i) with false by lia. cbn [len set_segs q3 set_counts set_len q2 q1 set_sacked_map].
    by replace (len q + 1 <=? i + 1) with false by lia. }
  destruct (set_sacked_bit_spec q4 (phys CAP q (i + 1)) (Seg.has s SACKED)) as (m' & Heq & Hm' & Hb');
    [by rewrite Hq4|by apply (phys_slot CAP W)|].
  exists (set_at (set_at v (phys CAP q i) (split_lower s at_)) (phys CAP q (i + 1)) (split_upper s at_)), m'.
  assert (Hp4 : phys CAP q4 (i + 1) = phys CAP q (i + 1)) by (by rewrite Hq4).
  rewrite Hp4, Heq, Hq4. split; [done|].
  assert (Hinj : forall j k, 0 <= j < CAP -> 0 <= k < CAP -> j <> k -> phys CAP q j <> phys CAP q k).
  { intros j k Hj Hk Hne He. by apply (phys_inj CAP W HW HCAP) in He. }
  split; cbn [segs sacked_map head len]; try done.
  - by rewrite !zlen_set_at.
  - rewrite split_list_len by done. lia.
  - rewrite split_list_len by done. lia.
  - intros j Hj. rewrite split_list_len in Hj by done. rewrite split_list_get by (done || lia).
    change (phys CAP (mk _ _ _ _ _ _ _ _ _) j) with (phys CAP q j).
    destruct (decide (j = i + 1)) as [->|Hj1].
    { rewrite get_set_at_eq by (rewrite zlen_set_at, Hvl; apply Hph). repeat case_if; bool_facts; try lia; done. }
    rewrite get_set_at_ne by (apply Hinj; lia). destruct (decide (j = i)) as [->|Hji].
    { rewrite get_set_at_eq by (rewrite Hvl; apply Hph). repeat case_if; bool_facts; try lia; done. }
    rewrite get_set_at_ne by (apply Hinj; lia). rewrite Hvg by lia. destruct (Z.ltb_spec j i).
    + replace ((i + 1 <? j) && (j <=? len q)) with false by lia. apply Hget. lia.
    + replace ((i + 1 <? j) && (j <=? len q)) with true by lia. replace (j =? i) with false by lia.
      replace (j =? i + 1) with false by lia. apply Hget. lia.
  - intros j x Hj. apply get_lt_Some in Hj as Hjl. rewrite split_list_len in Hjl by done.
    rewrite (split_list_get l i s at_ j Hg) in Hj by lia. unfold lbit. cbn [sacked_map].
    change (phys CAP (mk _ _ _ _ _ _ _ _ _) j) with (phys CAP q j). rewrite Hb' by apply Hph.
    replace (phys CAP q j =? phys CAP q (i + 1)) with (j =? i + 1); cycle 1.
    { destruct (Z.eqb_spec j (i + 1)) as [->|Hne]; symmetry; [apply Z.eqb_refl|apply Z.eqb_neq, Hinj; lia]. }
    rewrite Hq4. cbn [sacked_map]. change (phys CAP q j) with (phys CAP q1 j). rewrite Hmb by lia.
    change (lbit CAP q1) with (lbit CAP q). change (len q1) with (len q).
    destruct (j =? i + 1) eqn:E1; bool_facts.
    { repeat case_if in Hj; bool_facts; try lia; congruence. }
    destruct (Z.ltb_spec j i).
    { replace ((i + 1 <? j) && (j <=? i + 1 + (len q - (i + 1)))) with false by lia. by apply Hbits. }
    destruct (Z.eqb_spec j i) as [->|].
    { replace ((i + 1 <? i) && (i <=? i + 1 + (len q - (i + 1)))) with false by lia.
      injection Hj as <-. rewrite Hlo. by apply Hbits. }
    replace ((i + 1 <? j) && (j <=? i + 1 + (len q - (i + 1)))) with true by lia. by apply Hbits.
Qed.

(** The hint [split] leaves. *)
Definition split_hint (h i : Z) (s upper : Seg.t) : Z :=
  let h := if i + 1 <? h then h + 1 else h in
  if Seg.has s PARTIAL && Seg.has upper LOST && negb (Seg.has upper RETRANS) then Z.min h (i + 1) else h.

Lemma split_hint_ok h l i s at_ :
  seg_ok s -> is_u32 at_ -> inside s at_ = true -> get l i = Some s ->
  hint_ok h l -> hint_ok (split_hint h i s (split_upper s at_)) (split_list l i s at_).
Proof using.
  intros Hs Hat Hin Hg [Hh0 Hh]. apply get_lt_Some in Hg as Hi.
  destruct (lower_ok s at_ Hs Hat Hin) as (_ & _ & _ & Hlp). destruct (upper_ok s at_ Hs Hat Hin) as (_ & _ & _ & Hup).
  unfold split_hint. rewrite <- andb_assoc. fold (pending (split_upper s at_)).
  assert (Hcase : i < h -> pending s = false) by (intros; by eapply Hh).
  split; [repeat case_if; lia|]. intros j x Hj Hx. apply get_lt_Some in Hx as Hj0.
  rewrite (split_list_get l i s at_ j Hg) in Hx by lia.
  destruct (Z.ltb_spec j i).
  { apply (Hh j x); [|done]. repeat case_if in Hj; bool_facts; lia. }
  destruct (Z.eqb_spec j i) as [->|].
  { injection Hx as <-. rewrite Hlp. apply Hcase. repeat case_if in Hj; bool_facts; lia. }
  destruct (Z.eqb_spec j (i + 1)) as [->|].
  - injection Hx as <-. destruct (Seg.has s PARTIAL); cbn [andb] in Hj.
    + destruct (pending (split_upper s at_)); [lia|done].
    + rewrite Hup by done. apply Hcase. case_if in Hj; bool_facts; lia.
  - apply (Hh (j - 1) x); [|done]. repeat case_if in Hj; bool_facts; lia.
Qed.

(** Without a partial retransmission, the halves count what the whole did. *)
Lemma split_counts_whole l i s at_ :
  seg_ok s -> is_u32 at_ -> inside s at_ = true -> get l i = Some s -> Seg.has s PARTIAL = false ->
  csum c_sacked (split_list l i s at_) = csum c_sacked l /\
  csum c_lost (split_list l i s at_) = csum c_lost l /\
  csum c_retrans (split_list l i s at_) = csum c_retrans l.
Proof using.
  intros Hs Hat Hin Hg Hp. rewrite !split_csum by done.
  destruct (halves_len s at_ Hs Hat Hin) as (Hb & HL & Hu).
  destruct (lower_fields s at_) as (_ & _ & Hll). destruct (upper_fields s at_) as (_ & _ & Hul).
  unfold c_sacked, c_lost, c_retrans, Seg.retrans_len. rewrite Hll, Hul, Hu.
  unfold split_lower, split_upper. rewrite Hp. cbn [andb]. flag_simp. rewrite Hp.
  repeat case_if; lia.
Qed.

Lemma split_counts q l i s at_ :
  counts q l -> Forall seg_ok l -> span l < M31 -> is_u32 at_ -> inside s at_ = true -> get l i = Some s ->
  (if Seg.has s PARTIAL
   then add_counts (add_counts (add_counts q s false) (split_lower s at_) true) (split_upper s at_) true else q) =
  set_counts q (csum c_sacked (split_list l i s at_)) (csum c_lost (split_list l i s at_))
    (csum c_retrans (split_list l i s at_)).
Proof using.
  intros Hct Hok Hsp Hat Hin Hg. pose proof (get_forall _ _ _ _ Hok Hg) as Hs. destruct (Seg.has s PARTIAL) eqn:HP.
  - rewrite (counts_sub q l s Hct Hok) by (by eapply get_elem_of). rewrite !split_csum by done.
    destruct (lower_ok s at_ Hs Hat Hin) as (Hl & _). destruct (upper_ok s at_ Hs Hat Hin) as (Hu & _).
    apply counts_ok in Hl as (? & ? & ?), Hu as (? & ? & ?). pose proof (counts_ok s Hs) as (? & ? & ?).
    pose proof (csum_bounds l Hok) as (? & ? & ?). destruct (halves_len s at_ Hs Hat Hin) as (? & ? & ?).
    destruct (lower_fields s at_) as (_ & _ & ?). destruct (upper_fields s at_) as (_ & _ & ?).
    rewrite (add_counts_add _ (split_lower s at_)) by (cbn [sacked lost retrans set_counts]; lia).
    rewrite (add_counts_add _ (split_upper s at_)) by (cbn [sacked lost retrans set_counts]; lia). by destruct q.
  - destruct (split_counts_whole l i s at_) as (-> & -> & ->); try done.
    destruct Hct as [<- <- <-]. by destruct q.
Qed.

Lemma split_repr q l i s at_ :
  repr CAP q l -> Forall seg_ok l -> span l < M31 -> get l i = Some s -> is_u32 at_ -> inside s at_ = true ->
  zlen l < CAP ->
  exists q', split CAP q i at_ = (q', true) /\ repr CAP q' (split_list l i s at_) /\ next_xmit q' = next_xmit q.
Proof using HW HCAP.
  intros [Hsl Hct Hh] Hok Hsp Hg Hat Hin Hc. apply get_lt_Some in Hg as Hi.
  pose proof (get_forall _ _ _ _ Hok Hg) as Hs. pose proof (sl_len CAP q l Hsl) as Hlen.
  pose proof (split_hint_ok _ l i s at_ Hs Hat Hin Hg Hh) as Hh'.
  destruct (lower_ok s at_ Hs Hat Hin) as (_ & _ & HlS & _). destruct (upper_ok s at_ Hs Hat Hin) as (_ & _ & HuS & _).
  destruct (split_slots q l i s at_ (csum c_sacked (split_list l i s at_)) (csum c_lost (split_list l i s at_))
              (csum c_retrans (split_list l i s at_)) Hsl Hg Hc HlS HuS) as (v & m & Hq4 & Hsl4).
  unfold split. rewrite (get_seg_repr CAP q l i), Hg by (done || lia). fold (inside s at_). rewrite Hin. cbn [negb orb].
  replace (is_full CAP q) with false by (unfold is_full; lia).
  cbv zeta. rewrite (split_counts _ l i s at_); try done; cycle 1.
  { destruct (shift_segs_up_spec (Z.to_nat (len q - (i + 1))) q (len q)) as (w & -> & _);
      [apply Hsl|lia|]. destruct Hct. by split. }
  rewrite Hq4. eexists. split; [done|]. unfold split_hint in Hh'. cbn [lost_hint] in *.
  split; [|by repeat case_if].
  destruct (i + 1 <? lost_hint q); destruct (Seg.has s PARTIAL && _ && _);
    (split; [by rewrite ?slots_hint|done|exact Hh']).
Qed.

(** Outside a segment, or with the table full, nothing changes. *)
Lemma split_fails q l i s at_ :
  slots CAP q l -> get l i = Some s -> inside s at_ = false \/ zlen l = CAP -> split CAP q i at_ = (q, false).
Proof using.
  intros Hsl Hg Hno. apply get_lt_Some in Hg as Hi. unfold split.
  rewrite (get_seg_repr CAP q l i), Hg by (done || lia). fold (inside s at_). unfold is_full.
  rewrite (sl_len CAP q l Hsl). destruct Hno as [-> | ->]; [done|]. by rewrite Z.eqb_refl, orb_true_r.
Qed.

End Repr.
End RtxSplit.
