(* ===== verification/RtxOps.v ===== *)
(** * Operations of the retransmission queue on the segment list

    Insertion, marking and search: [push], [retransmitted], [mark_all_lost],
    [unmark_lost], [clear_sacked], [next_lost] and [find] implement the
    corresponding operations on the list of segments. *)
From S2P Require Import Prelude Seq RtxQueue RtxBits RtxProofs RtxSplit.

Module RtxOps.
Import seg_flags Rtx RtxBits RtxProofs RtxSplit.

(** ** Offsets of segments from the start of the list *)

Definition ofs (l : list Seg.t) (i : Z) : Z := span (take (Z.to_nat i) l).

Lemma seq_len_end s : is_u32 (Seg.end_ s) -> Seg.end_ s = wadd32 (Seg.start s) (Seg.seq_len s).
Proof. unfold Seg.seq_len. intros. word_lia. Qed.

Lemma span_nonneg l : 0 <= span l.
Proof. apply csum_nonneg. intros. apply seq_len_nonneg. Qed.

Lemma span_cons s l : span (s :: l) = Seg.seq_len s + span l.
Proof. done. Qed.

Lemma span_app l k : span (l ++ k) = span l + span k.
Proof. apply csum_app. Qed.

Lemma ofs_0 l : ofs l 0 = 0.
Proof. done. Qed.

Lemma ofs_succ l i s : get l i = Some s -> ofs l (i + 1) = ofs l i + Seg.seq_len s.
Proof.
  intros [Hi Hl]%get_Some. unfold ofs. replace (Z.to_nat (i + 1)) with (S (Z.to_nat i)) by lia.
  rewrite (take_S_r l _ s Hl), span_app, span_cons. change (span []) with 0. lia.
Qed.

Lemma ofs_cons s l i : 0 <= i -> ofs (s :: l) (i + 1) = Seg.seq_len s + ofs l i.
Proof. intros Hi. unfold ofs. replace (Z.to_nat (i + 1)) with (S (Z.to_nat i)) by lia. apply span_cons. Qed.

Lemma ofs_all l i : zlen l <= i -> ofs l i = span l.
Proof. intros. unfold ofs. by rewrite take_ge by (unfold zlen in *; lia). Qed.

Lemma ofs_le l i j : i <= j -> ofs l i <= ofs l j.
Proof.
  intros Hij. unfold ofs. rewrite <- (take_drop (Z.to_nat i) (take (Z.to_nat j) l)).
  rewrite take_take, Nat.min_l by lia. rewrite span_app. pose proof (span_nonneg (drop (Z.to_nat i) (take (Z.to_nat j) l))). lia.
Qed.

Lemma ofs_range l i : 0 <= ofs l i <= span l.
Proof.
  split; [apply span_nonneg|]. destruct (decide (i <= zlen l)).
  - rewrite <- (ofs_all l (zlen l)) by lia. by apply ofs_le.
  - rewrite ofs_all by lia. lia.
Qed.

(** A listed segment lies at its offset from the base. *)
Lemma contig_start a l i s :
  is_u32 a -> Forall seg_ok l -> contig a l -> get l i = Some s -> Seg.start s = wadd32 a (ofs l i).
Proof.
  intros Ha Hok Hc [Hi Hl]%get_Some. unfold ofs. clear Hi. revert a l Ha Hok Hc Hl.
  generalize (Z.to_nat i). intros n. induction n as [|n IH]; intros a [|x l] Ha Hok Hc Hl; try done.
  - injection Hl as ->. destruct Hc as [-> _]. simpl. unfold span. simpl. word_lia.
  - destruct Hc as [Hx Hc]. apply Forall_cons in Hok as [Hxo Hok]. cbn [take].
    rewrite (IH (Seg.end_ x) l); [|apply Hxo|done|done|done]. rewrite span_cons.
    rewrite (seq_len_end x), wadd32_assoc by apply Hxo. by rewrite Hx.
Qed.

Record at_ofs (a : Z) (l : list Seg.t) (i : Z) (s : Seg.t) : Prop := mk_at_ofs {
  ao_start : Seg.start s = wadd32 a (ofs l i);
  ao_end : Seg.end_ s = wadd32 a (ofs l i + Seg.seq_len s);
  ao_next : ofs l (i + 1) = ofs l i + Seg.seq_len s;
  ao_len : 0 < Seg.seq_len s;
  ao_lo : 0 <= ofs l i;
  ao_hi : ofs l i + Seg.seq_len s <= span l;
}.

Lemma good_at a l i s : good a l -> get l i = Some s -> at_ofs a l i s.
Proof.
  intros [Ha Hok Hc Hsp _] Hg. pose proof (get_forall _ _ _ _ Hok Hg) as Hs.
  pose proof (contig_start a l i s Ha Hok Hc Hg) as Hst. pose proof (ofs_succ l i s Hg) as Hn.
  pose proof (ofs_range l i). pose proof (ofs_range l (i + 1)). destruct Hs as [? ? ? _ _ _ _].
  split; try done; try lia. rewrite (seq_len_end s), Hst, wadd32_assoc by done. done.
Qed.

Section Repr.
Variables (CAP W : Z).
Hypothesis HW : 1 <= W <= SACK_WORDS.
Hypothesis HCAP : CAP = 64 * W.

(** ** Insertion *)

(** What [emit_data] pushes: no scoreboard state yet. *)
Definition fresh (s : Seg.t) : Prop :=
  Seg.has s SACKED = false /\ Seg.has s LOST = false /\ Seg.has s RETRANS = false.

Lemma new_repr : repr CAP (new CAP) [].
Proof using HW HCAP.
  split; [|by split|split; [done|]; intros i s _ Hg; apply get_Some in Hg as [_ Hg]; done].
  split; cbn [new segs sacked_map head len]; try done; try lia.
  - unfold zlen. rewrite length_replicate. lia.
  - split; [done|]. intros i. unfold word_at, get. case_if; [|done].
    destruct (replicate _ _ !! _) as [x|] eqn:E; [|done]. by apply lookup_replicate in E as [-> _].
  - change (zlen []) with 0. lia.
  - intros i Hi. change (zlen []) with 0 in Hi. lia.
  - intros i s Hg. by apply get_Some in Hg as [_ ?].
Qed.

Lemma clear_repr q l : repr CAP q l -> repr CAP (clear q) [].
Proof using HW HCAP.
  intros [Hsl _ _]. pose proof new_repr as [Hn _ _].
  split; [|by split|split; [done|]; intros i s _ Hg; apply get_Some in Hg as [_ Hg]; done].
  destruct Hn. split; cbn [clear segs sacked_map head len]; try done; [apply Hsl|].
  intros i. change (zlen []) with 0. lia.
Qed.

Lemma get_snoc {A} (l : list A) x i : get (l ++ [x]) i = if i =? zlen l then Some x else get l i.
Proof using.
  rewrite get_app. destruct (Z.eqb_spec i (zlen l)) as [->|Hne].
  - rewrite Z.ltb_irrefl, Z.sub_diag. done.
  - case_if; bool_facts; [done|]. transitivity (@None A); [apply get_None|symmetry; apply get_None];
      change (zlen [x]) with 1; lia.
Qed.

Lemma push_repr q l s :
  repr CAP q l -> zlen l < CAP -> fresh s ->
  exists q', push CAP q s = (q', true) /\ repr CAP q' (l ++ [with_xmit_seq s (next_xmit q)]) /\
    next_xmit q' = wadd32 (next_xmit q) 1.
Proof using HW HCAP.
  intros [Hsl Hct [Hh0 Hh]] Hlt (HS & HL & HR). unfold push, is_full. pose proof (sl_len CAP q l Hsl) as Hlen.
  replace (len q =? CAP) with false by lia. pose proof (zlen_nonneg l).
  destruct (slot_get CAP W HW HCAP q l (len q) Hsl ltac:(lia)) as [old ->].
  set (x := with_xmit_seq s _). set (q1 := set_len _ _).
  destruct Hsl as [Hs Hm Hhd _ Hc Hget Hbits].
  destruct (set_sacked_bit_spec q1 (phys CAP q (len q)) (Seg.has s SACKED)) as (m & -> & Hm' & Hb);
    [done|by apply (phys_slot CAP W)|].
  assert (Hinj : forall j, 0 <= j < zlen l -> phys CAP q (len q) <> phys CAP q j).
  { intros j Hj He. apply (phys_inj CAP W HW HCAP) in He; lia. }
  pose proof (phys_range CAP W HW HCAP q) as Hph.
  eexists. split; [done|]. split; [|done]. split; [|split|split; [done|]].
  - split; cbn [q1 set_sacked_map set_len set_next_xmit set_segs segs sacked_map head len]; rewrite ?zlen_set_at; try done.
    + rewrite zlen_app, Hlen. done.
    + rewrite zlen_app. change (zlen [x]) with 1. lia.
    + intros j Hj. rewrite zlen_app in Hj. change (zlen [x]) with 1 in Hj.
      change (phys CAP (set_sacked_map _ _) j) with (phys CAP q j). rewrite get_snoc. destruct (Z.eqb_spec j (zlen l)) as [->|Hne].
      * rewrite Hlen, get_set_at_eq; [done|]. rewrite Hs. apply Hph.
      * rewrite get_set_at_ne by (apply Hinj; lia). apply Hget. lia.
    + intros j y Hj. unfold lbit. cbn [sacked_map]. change (phys CAP (set_sacked_map _ _) j) with (phys CAP q j).
      rewrite Hb by apply Hph. rewrite get_snoc in Hj. destruct (Z.eqb_spec j (zlen l)) as [->|Hne].
      * rewrite Hlen, Z.eqb_refl. by injection Hj as <-.
      * apply get_lt_Some in Hj as Hj'. pose proof (Hinj j Hj'). replace (phys CAP q j =? phys CAP q (len q)) with false by lia.
        by apply Hbits.
  - change (sacked q = csum c_sacked (l ++ [x])). rewrite csum_app, (ct_sacked q l Hct). unfold c_sacked at 3. simpl.
    change (Seg.has x SACKED) with (Seg.has s SACKED). rewrite HS. lia.
  - change (lost q = csum c_lost (l ++ [x])). rewrite csum_app, (ct_lost q l Hct). unfold c_lost at 3. simpl.
    change (Seg.has x LOST) with (Seg.has s LOST). rewrite HL. lia.
  - change (retrans q = csum c_retrans (l ++ [x])). rewrite csum_app, (ct_retrans q l Hct). unfold c_retrans at 3. simpl.
    change (Seg.has x RETRANS) with (Seg.has s RETRANS). rewrite HR. lia.
  - intros j y Hj Hg. rewrite get_snoc in Hg. case_if in Hg; [|by apply (Hh j y)].
    injection Hg as <-. unfold pending. change (Seg.has x LOST) with (Seg.has s LOST). by rewrite HL.
Qed.

Lemma push_full q l s : slots CAP q l -> zlen l = CAP -> push CAP q s = (q, false).
Proof using. intros Hsl Hf. unfold push, is_full. by rewrite (sl_len CAP q l Hsl), Hf, Z.eqb_refl. Qed.

Lemma push_good a l s x :
  good a l -> seg_ok s -> Seg.start s = wadd32 a (span l) -> span l + Seg.seq_len s < M31 ->
  (forall i y, get l i = Some y -> Seg.has y FIN = false) ->
  good a (l ++ [with_xmit_seq s x]).
Proof using.
  intros [Ha Hok Hc Hsp Hf] Hs Hst Hlen Hnf. split; [done|..].
  - apply Forall_app. split; [done|]. apply Forall_singleton. destruct Hs. by split.
  - apply contig_app. split; [done|]. simpl. split; [|done]. rewrite Hst.
    destruct (list.last l) as [y|] eqn:E; simpl.
    + rewrite last_lookup in E. assert (Hg : get l (zlen l - 1) = Some y).
      { apply lookup_lt_Some in E as E'. apply get_Some. unfold zlen. split; [lia|].
        replace (Z.to_nat (Z.of_nat (length l) - 1)) with (Init.Nat.pred (length l)) by lia. done. }
      pose proof (good_at a l _ _ (mk_good a l Ha Hok Hc Hsp Hf) Hg) as [_ -> Hn _ _ _].
      rewrite <- Hn, ofs_all by lia. done.
    + apply last_None in E. subst l. unfold span. simpl. word_lia.
  - rewrite span_app, span_cons. unfold Seg.seq_len in *. cbn. change (span []) with 0. lia.
  - intros j y Hj Hy. rewrite get_snoc in Hj. rewrite zlen_app. change (zlen [_]) with 1.
    destruct (Z.eqb_spec j (zlen l)); [lia|]. rewrite (Hnf j y Hj) in Hy. done.
Qed.

(** ** Marks *)

Lemma hint_zero l : hint_ok 0 l.
Proof using. split; [done|]. intros i s Hi Hg. apply get_lt_Some in Hg. lia. Qed.

Lemma repr_hint q l h : repr CAP q l -> hint_ok h l -> repr CAP (set_lost_hint q h) l.
Proof using. intros [Hs [] _] Hh. split; [by rewrite slots_hint|by split|done]. Qed.

Lemma mark_all_lost_repr q l :
  repr CAP q l -> Forall seg_ok l -> span l < M31 -> repr CAP (mark_all_lost CAP q) (mark_lost_seg <$> l).
Proof using HW HCAP.
  intros. apply repr_hint; [|apply hint_zero]. apply loop_repr; try done.
  - by apply (mark_lost_repr CAP W).
  - apply mark_lost_ok.
  - intros s. unfold mark_lost_seg. by case_if.
Qed.

Lemma unmark_lost_repr q l :
  repr CAP q l -> Forall seg_ok l -> span l < M31 -> repr CAP (unmark_lost CAP q) (unmark_seg <$> l).
Proof using HW HCAP.
  intros. apply repr_hint; [|apply hint_zero]. apply loop_repr; try done.
  - by apply (unmark_repr CAP W).
  - apply unmark_ok.
  - intros s. unfold unmark_seg. by case_if.
Qed.

Lemma clear_sacked_repr q l :
  repr CAP q l -> Forall seg_ok l -> span l < M31 -> repr CAP (clear_sacked CAP q) (unsack_seg <$> l).
Proof using HW HCAP.
  intros. apply loop_repr; try done.
  - by apply (unsack_repr CAP W).
  - apply unsack_ok.
  - intros s. unfold unsack_seg. by case_if.
Qed.

Definition retrans_seg (s : Seg.t) (now sent x : Z) : Seg.t :=
  with_xmit (new_state s (retrans_flags s sent) sent) now x.

Lemma retransmitted_repr q l i s now sent :
  repr CAP q l -> Forall seg_ok l -> span l < M31 -> get l i = Some s ->
  Seg.has s SACKED = false -> 0 <= sent < M16 -> (0 < sent -> sent < Seg.payload_len s) ->
  repr CAP (retransmitted CAP q i now sent) (set_at l i (retrans_seg s now sent (next_xmit q))).
Proof using HW HCAP.
  intros Hr Hok Hsp Hg Hns Hsent Hpl. apply get_lt_Some in Hg as Hi. pose proof (get_forall _ _ _ _ Hok Hg) as Hs.
  pose proof (retrans_ok s sent Hs Hns Hsent Hpl) as Hn.
  pose proof (set_state_repr CAP W HW HCAP q l i s _ _ Hr Hok Hsp Hg Hn) as Hr1.
  unfold retransmitted. rewrite (get_seg_repr CAP q l i), Hg by (apply Hr || lia).
  fold (retrans_flags s sent). set (q1 := set_state CAP q i _ sent) in *.
  assert (Hx : next_xmit q1 = next_xmit q).
  { unfold q1, set_state, put_seg, set_sacked_bit. repeat case_match; done. }
  rewrite (get_seg_repr CAP q1 _ i (rp_slots _ _ _ Hr1)), get_set_at_eq by lia.
  set (n := new_state s _ sent) in *. change (Seg.mk _ _ now _ _ _) with (with_xmit n now (next_xmit q1)). rewrite Hx.
  destruct Hr1 as [Hsl Hct Hh]. assert (Hgn : get (set_at l i n) i = Some n) by (by rewrite get_set_at_eq).
  destruct (put_same_slots CAP W HW HCAP q1 _ i n (with_xmit n now (next_xmit q)) Hsl Hgn eq_refl) as (v & -> & Hsl2).
  assert (Hset : set_at (set_at l i n) i (with_xmit n now (next_xmit q)) = set_at l i (retrans_seg s now sent (next_xmit q))).
  { unfold set_at. case_if; [|done]. apply list_insert_insert_eq. }
  rewrite Hset in Hsl2. split; [by rewrite slots_xmit|split|]; cbn.
  - rewrite (ct_sacked _ _ Hct), !(csum_insert _ _ _ _ _ Hg). done.
  - rewrite (ct_lost _ _ Hct), !(csum_insert _ _ _ _ _ Hg). done.
  - rewrite (ct_retrans _ _ Hct), !(csum_insert _ _ _ _ _ Hg). done.
  - destruct Hh as [Hh0 Hh]. split; [done|]. intros j y Hj Hgj. destruct (decide (i = j)) as [<-|Hne].
    + rewrite get_set_at_eq in Hgj by done. injection Hgj as <-. by apply (Hh i n Hj).
    + rewrite get_set_at_ne in Hgj by done. apply (Hh j y Hj). by rewrite get_set_at_ne.
Qed.

(** ** Searches *)

(** The first segment waiting for retransmission, as a linear scan finds it. *)
Definition first_pending (l : list Seg.t) (r : option Z) : Prop :=
  match r with
  | Some i => (exists s, get l i = Some s /\ pending s = true) /\
              forall j s, j < i -> get l j = Some s -> pending s = false
  | None => forall j s, get l j = Some s -> pending s = false
  end.

Lemma next_lost_loop_spec fuel : forall q l i,
  repr CAP q l -> 0 <= i -> zlen l - i < Z.of_nat fuel ->
  (forall j s, j < i -> get l j = Some s -> pending s = false) ->
  repr CAP (fst (next_lost_loop CAP fuel q i)) l /\ first_pending l (snd (next_lost_loop CAP fuel q i)).
Proof using.
  induction fuel as [|fuel IH]; intros q l i Hr Hi Hfuel Hpre; cbn [next_lost_loop].
  - cbn [fst snd]. assert (Hall : forall j s, get l j = Some s -> pending s = false).
    { intros j s Hg. apply (Hpre j s); [|done]. apply get_lt_Some in Hg. lia. }
    split; [|done]. apply repr_hint; [done|]. split; [rewrite (sl_len _ _ _ (rp_slots _ _ _ Hr)); apply zlen_nonneg|].
    intros j s _. apply Hall.
  - rewrite (get_seg_repr CAP q l i) by (apply Hr || done). destruct (get l i) as [s|] eqn:Hg.
    + fold (pending s). destruct (pending s) eqn:Hp; cbn [fst snd].
      * split; [|split; [by exists s|done]]. apply repr_hint; [done|]. by split.
      * apply IH; [done|lia|lia|]. intros j y Hj Hgj. destruct (decide (j = i)) as [->|]; [congruence|]. apply (Hpre j y); [lia|done].
    + cbn [fst snd]. apply get_None in Hg. assert (Hall : forall j s, get l j = Some s -> pending s = false).
      { intros j s Hj. apply (Hpre j s); [|done]. apply get_lt_Some in Hj. lia. }
      split; [|done]. apply repr_hint; [done|]. split; [rewrite (sl_len _ _ _ (rp_slots _ _ _ Hr)); apply zlen_nonneg|].
      intros j s _. apply Hall.
Qed.

Lemma next_lost_spec q l :
  repr CAP q l -> repr CAP (fst (next_lost CAP q)) l /\ first_pending l (snd (next_lost CAP q)).
Proof using.
  intros Hr. destruct (rp_hint _ _ _ Hr) as [H0 Hh]. apply next_lost_loop_spec; try done.
  rewrite (sl_len _ _ _ (rp_slots _ _ _ Hr)). pose proof (zlen_nonneg l). lia.
Qed.

(** [find]: binary search for the segment holding an offset. *)
Lemma find_loop_spec fuel : forall q a l first rel lo hi,
  slots CAP q l -> good a l -> first = a -> 0 <= rel < M32 -> 0 <= lo <= hi -> hi <= zlen l -> hi - lo < Z.of_nat fuel ->
  ofs l lo <= rel -> (hi < zlen l -> rel < ofs l hi) ->
  match find_loop CAP fuel q first rel lo hi with
  | Some i => exists s, get l i = Some s /\ ofs l i <= rel < ofs l i + Seg.seq_len s
  | None => span l <= rel
  end.
Proof using.
  induction fuel as [|fuel IH]; intros q a l first rel lo hi Hsl Hgd -> Hrel Hlo Hhi Hfuel Hlow Hhigh; [lia|].
  cbn [find_loop]. case_if; bool_facts; cycle 1.
  { assert (lo = hi) as <- by lia. destruct (decide (lo < zlen l)); [specialize (Hhigh ltac:(lia)); lia|].
    by rewrite ofs_all in Hlow by lia. }
  set (mid := lo + (hi - lo) / 2). assert (Hmid : lo <= mid < hi) by (unfold mid; Z.div_mod_to_equations; lia).
  rewrite (get_seg_repr CAP q l mid) by (done || lia).
  destruct (proj2 (get_is_Some l mid)) as [s Hs]; [lia|]. rewrite Hs.
  destruct (good_at a l mid s Hgd Hs) as [Hst He Hnx Hpos H0 Hsp]. pose proof (gd_span _ _ Hgd).
  rewrite He, Hst. change (wsub32 ?x a) with (off x a). rewrite !off_wadd32 by lia.
  case_if; bool_facts; [apply (IH q a); try done; lia|]. case_if; bool_facts; [apply (IH q a); try done; lia|].
  exists s. split; [done|lia].
Qed.

Lemma find_spec q a l seq :
  slots CAP q l -> good a l ->
  match find CAP q seq with
  | Some i => exists s, get l i = Some s /\ ofs l i <= off seq a < ofs l i + Seg.seq_len s
  | None => span l <= off seq a
  end.
Proof using.
  intros Hsl Hgd. unfold find. rewrite (get_seg_repr CAP q l 0) by done. destruct (get l 0) as [s|] eqn:Hs.
  - pose proof (good_at a l 0 s Hgd Hs) as [Hst _ _ _ _ _]. rewrite ofs_0 in Hst.
    assert (Seg.start s = a) as -> by (rewrite Hst; pose proof (gd_base _ _ Hgd); word_lia).
    apply get_lt_Some in Hs. apply (find_loop_spec _ q a l a); try done; rewrite ?(sl_len _ _ _ Hsl); try lia.
    + unfold off. word_lia.
    + rewrite ofs_0. unfold off. word_lia.
  - apply get_None in Hs. assert (l = []) as -> by (apply zlen_0; pose proof (zlen_nonneg l); lia).
    change (span []) with 0. unfold off. word_lia.
Qed.

End Repr.
End RtxOps.
