(* ===== verification/RtxAck.v ===== *)
(** * Cumulative acknowledgement of the retransmission queue

    [ack_to] pops the acknowledged prefix of the segment list and trims the
    segment the acknowledgement falls into. *)
From S2P Require Import Prelude Seq RtxQueue RtxBits RtxProofs RtxSplit RtxOps.

Module RtxAck.
Import seg_flags Rtx RtxBits RtxProofs RtxSplit RtxOps.

(** ** The list operation *)

Definition ack_call (s : Seg.t) : Seg.t * bool := (s, negb (Seg.has s SACKED)).

Fixpoint ack_list (una : Z) (l : list Seg.t) : list Seg.t * Z * list (Seg.t * bool) :=
  match l with
  | [] => ([], 0, [])
  | s :: l' =>
      if seq_le (Seg.end_ s) una then
        let '(k, r, c) := ack_list una l' in (k, Seg.seq_len s + r, ack_call s :: c)
      else if seq_lt (Seg.start s) una then
        (trim s una :: l', wsub32 una (Seg.start s), [ack_call s])
      else (l, 0, [])
  end.

Lemma good_tail a s l : good a (s :: l) -> good (Seg.end_ s) l.
Proof.
  intros [Ha Hok Hc Hsp Hf]. apply Forall_cons in Hok as [Hs Hok]. destruct Hc as [_ Hc].
  rewrite span_cons in Hsp. destruct Hs as [? ? ? _ _ _ _]. split; try done; [lia|].
  intros i x Hg Hx. apply get_lt_Some in Hg as Hi. specialize (Hf (i + 1) x).
  change (s :: l) with ([s] ++ l) in Hf. rewrite zlen_app, get_app in Hf. change (zlen [s]) with 1 in Hf.
  replace (i + 1 <? 1) with false in Hf by lia. replace (i + 1 - 1) with i in Hf by lia.
  specialize (Hf Hg Hx). lia.
Qed.

Lemma good_head a s l : good a (s :: l) -> Seg.start s = a.
Proof. by intros [_ _ [? _] _ _]. Qed.

Lemma trim_good a s l una :
  good a (s :: l) -> is_u32 una -> inside s una = true -> good una (trim s una :: l).
Proof.
  intros Hgd Hu Hin. pose proof (split_good a (s :: l) 0 s una Hgd eq_refl Hu Hin) as Hsp.
  unfold split_list in Hsp. cbn [Z.to_nat take drop app] in Hsp. rewrite drop_0 in Hsp.
  apply good_tail in Hsp. destruct (lower_fields s una) as (_ & He & _). by rewrite He in Hsp.
Qed.

(** What an acknowledgement [d] bytes into the queue leaves. *)
Record ack_result (a d : Z) (l : list Seg.t) (k : list Seg.t) (r : Z) (c : list (Seg.t * bool)) : Prop := mk_ack_result {
  ar_removed : r = d;
  ar_good : good (wadd32 a d) k;
  ar_span : span k = span l - d;
  ar_calls : exists n, 0 <= n <= zlen l /\ c = ack_call <$> take (Z.to_nat n) l /\
               d <= ofs l n /\ (0 < n -> ofs l (n - 1) < d);
}.

Lemma ack_list_spec : forall l a d,
  good a l -> 0 <= d <= span l ->
  let '(k, r, c) := ack_list (wadd32 a d) l in ack_result a d l k r c.
Proof.
  induction l as [|s l IH]; intros a d Hgd Hd; cbn [ack_list].
  { change (span []) with 0 in *. assert (d = 0) as -> by lia. replace (wadd32 a 0) with a by (pose proof (gd_base _ _ Hgd); word_lia).
    split; try done; [|]. { destruct Hgd as [? ? ? ? ?]. replace (wadd32 a 0) with a by word_lia. by split. }
    exists 0. split_and!; try done; lia. }
  pose proof (good_head _ _ _ Hgd) as Hst. pose proof (good_tail _ _ _ Hgd) as Hgt.
  pose proof (gd_span _ _ Hgd) as Hsp. rewrite span_cons in *.
  pose proof (Forall_inv (gd_ok _ _ Hgd)) as Hs. pose proof (so_len s Hs) as Hlen. pose proof (gd_base _ _ Hgd) as Ha.
  pose proof (span_nonneg l).
  assert (He : Seg.end_ s = wadd32 a (Seg.seq_len s)) by (rewrite (seq_len_end s), Hst by apply Hs; done).
  assert (H0 : a = wadd32 a 0) by word_lia.
  assert (seq_le (Seg.end_ s) (wadd32 a d) = (Seg.seq_len s <=? d)) as -> by (rewrite He; apply seq_le_offset; lia).
  assert (seq_lt (Seg.start s) (wadd32 a d) = (0 <? d)) as -> by (rewrite Hst; rewrite H0 at 1; apply seq_lt_offset; lia).
  destruct (Z.leb_spec (Seg.seq_len s) d) as [Hle|Hgt'].
  - specialize (IH (Seg.end_ s) (d - Seg.seq_len s) Hgt ltac:(lia)).
    assert (Hw : wadd32 (Seg.end_ s) (d - Seg.seq_len s) = wadd32 a d) by (rewrite He, wadd32_assoc; f_equal; lia).
    rewrite Hw in IH. destruct (ack_list _ l) as [[k r] c]. destruct IH as [-> Hk Hks (n & Hn & -> & Hd1 & Hd2)].
    rewrite Hw in Hk. split; [lia|done|rewrite span_cons; lia|]. exists (n + 1).
    replace (Z.to_nat (n + 1)) with (S (Z.to_nat n)) by lia.
    change (zlen (s :: l)) with (Z.of_nat (S (length l))). unfold zlen in Hn.
    split_and!; [lia|lia|done|rewrite ofs_cons by lia; lia|]. intros _. replace (n + 1 - 1) with n by lia.
    destruct (decide (n = 0)) as [->|]; [rewrite ofs_0; lia|].
    replace n with (n - 1 + 1) by lia. rewrite ofs_cons by lia. specialize (Hd2 ltac:(lia)). lia.
  - destruct (Z.ltb_spec 0 d) as [Hpos|Hz].
    + assert (Hin : inside s (wadd32 a d) = true).
      { unfold inside. rewrite He, Hst. rewrite H0 at 1. rewrite !seq_lt_offset by lia. lia. }
      assert (Hd' : wsub32 (wadd32 a d) (Seg.start s) = d) by (rewrite Hst; word_lia).
      split; [done|by apply (trim_good a); auto with word_range|..].
      * rewrite !span_cons. destruct (halves_len s (wadd32 a d) Hs ltac:(auto with word_range) Hin) as (_ & _ & Hu).
        destruct (upper_fields s (wadd32 a d)) as (_ & _ & Hul). change (trim s (wadd32 a d)) with (split_upper s (wadd32 a d)).
        rewrite Hul, Hu, Hd'. lia.
      * exists 1. split_and!; try done; [unfold zlen; simpl; lia|].
        change (ofs (s :: l) 1) with (Seg.seq_len s + 0). lia.
    + assert (d = 0) as -> by lia. split; [done|by rewrite <- H0|rewrite span_cons; lia|].
      exists 0. split_and!; try done; lia.
Qed.

(** An acknowledgement below the queue changes nothing. *)
Lemma ack_list_old l a e :
  good a l -> 0 < e -> e + span l < M31 -> ack_list (wadd32 a (- e)) l = (l, 0, []).
Proof.
  intros Hgd He Hb. destruct l as [|s l]; [done|]. cbn [ack_list].
  pose proof (good_head _ _ _ Hgd) as Hst. rewrite span_cons in Hb. pose proof (span_nonneg l).
  pose proof (Forall_inv (gd_ok _ _ Hgd)) as Hs. pose proof (so_len s Hs) as Hlen.
  assert (Hen : Seg.end_ s = wadd32 a (Seg.seq_len s)) by (rewrite (seq_len_end s), Hst by apply Hs; done).
  assert (H0 : a = wadd32 a 0) by (pose proof (gd_base _ _ Hgd); word_lia).
  assert (seq_le (Seg.end_ s) (wadd32 a (- e)) = (Seg.seq_len s <=? - e)) as -> by (rewrite Hen; apply seq_le_offset; lia).
  assert (seq_lt (Seg.start s) (wadd32 a (- e)) = (0 <? - e)) as -> by (rewrite Hst; rewrite H0 at 1; apply seq_lt_offset; lia).
  replace (Seg.seq_len s <=? - e) with false by lia. by replace (0 <? - e) with false by lia.
Qed.

(** ** The queue operation *)

Section Repr.
Variables (CAP W : Z).
Hypothesis HW : 1 <= W <= SACK_WORDS.
Hypothesis HCAP : CAP = 64 * W.

Lemma get_cons_0 {A} (s : A) l : get (s :: l) 0 = Some s.
Proof using. done. Qed.

Lemma get_cons_S {A} (s : A) l i : 0 <= i -> get (s :: l) (i + 1) = get l i.
Proof using.
  intros. unfold get. replace (0 <=? i + 1) with true by lia. replace (0 <=? i) with true by lia.
  by replace (Z.to_nat (i + 1)) with (S (Z.to_nat i)) by lia.
Qed.

Lemma zlen_cons_succ {A} (s : A) l : zlen (s :: l) = zlen l + 1.
Proof using. unfold zlen. simpl. lia. Qed.

Lemma csum_cons c s l : csum c (s :: l) = c s + csum c l.
Proof using. done. Qed.

(** Dropping the head segment. *)
Definition pop (q : t) (s : Seg.t) : t :=
  let q := add_counts q s false in
  let q := set_head q ((head q + 1) mod CAP) in
  let q := set_len q (len q - 1) in
  set_lost_hint q (sat_sub (lost_hint q) 1).

Lemma pop_repr q s l : repr CAP q (s :: l) -> Forall seg_ok (s :: l) -> repr CAP (pop q s) l.
Proof using HW HCAP.
  intros [Hsl Hct [Hh0 Hh]] Hok. unfold pop. rewrite (counts_sub q (s :: l) s Hct Hok) by (by left).
  destruct Hsl as [Hs Hm Hhd Hl Hc Hget Hb]. rewrite zlen_cons_succ in *. pose proof (zlen_nonneg l).
  assert (Hph : forall a b c h, forall i, phys CAP (set_lost_hint (set_len (set_head (set_counts q a b c) ((head q + 1) mod CAP)) (len q - 1)) h) i
                  = phys CAP q (i + 1)).
  { intros a b c h i. unfold phys. cbn [head set_lost_hint set_len set_head]. rewrite Zplus_mod_idemp_l. f_equal. lia. }
  split; [|split; cbn [sacked lost retrans set_lost_hint set_len set_head set_counts]; rewrite csum_cons; lia|].
  - split; cbn [set_lost_hint set_len set_head set_counts segs sacked_map head len]; try done; try lia.
    + apply Z.mod_pos_bound. lia.
    + intros i Hi. rewrite Hph, Hget, get_cons_S by lia. done.
    + intros i x Hx. unfold lbit. rewrite Hph. apply (Hb (i + 1) x). apply get_lt_Some in Hx as ?. by rewrite get_cons_S by lia.
  - cbn. split; [unfold sat_sub; lia|]. intros i x Hi Hx. apply get_lt_Some in Hx as ?.
    apply (Hh (i + 1) x); [unfold sat_sub in Hi; lia|]. by rewrite get_cons_S by lia.
Qed.

(** Trimming the head segment. *)
Definition cut (q : t) (s : Seg.t) (una : Z) : t :=
  let q := add_counts q s false in
  let q := if Seg.has s PARTIAL && negb (wsub32 una (Seg.start s) <? Seg.sent s) then set_lost_hint q 0 else q in
  put_seg CAP (add_counts q (trim s una) true) 0 (trim s una).

Lemma cut_repr q a s l una :
  repr CAP q (s :: l) -> good a (s :: l) -> is_u32 una -> inside s una = true -> repr CAP (cut q s una) (trim s una :: l).
Proof using HW HCAP.
  intros [Hsl Hct [Hh0 Hh]] [_ Hok _ Hsp _] Hu Hin. pose proof (Forall_inv Hok) as Hs.
  destruct (upper_ok s una Hs Hu Hin) as (Hto & _ & HtS & Htp). change (split_upper s una) with (trim s una) in *.
  destruct (upper_fields s una) as (_ & _ & Htl). change (split_upper s una) with (trim s una) in *.
  destruct (halves_len s una Hs Hu Hin) as (Hb & HL & Hul).
  unfold cut. rewrite (counts_sub q (s :: l) s Hct Hok) by (by left).
  set (h := if Seg.has s PARTIAL && negb (wsub32 una (Seg.start s) <? Seg.sent s) then 0 else lost_hint q).
  set (q1 := set_counts q _ _ _).
  assert (Hq1 : (if Seg.has s PARTIAL && negb (wsub32 una (Seg.start s) <? Seg.sent s) then set_lost_hint q1 0 else q1) =
                set_lost_hint q1 h) by (unfold h; case_if; by destruct q).
  rewrite Hq1. pose proof (csum_bounds _ Hok) as (? & ? & ?). pose proof (counts_ok _ Hto) as (? & ? & ?).
  pose proof (counts_ok _ Hs) as (? & ? & ?). pose proof (so_len _ Hs).
  rewrite add_counts_add by (unfold q1; cbn [sacked lost retrans set_counts set_lost_hint]; lia).
  set (q2 := set_counts (set_lost_hint q1 h) _ _ _).
  assert (Hq2 : slots CAP q2 (s :: l)) by (unfold q2, q1; by rewrite slots_counts, slots_hint, slots_counts).
  destruct (put_same_slots CAP W HW HCAP q2 (s :: l) 0 s (trim s una) Hq2 eq_refl HtS) as (v & -> & Hsl').
  change (set_at (s :: l) 0 (trim s una)) with (trim s una :: l) in Hsl'. split; [done| |].
  { split; cbn [q2 q1 sacked lost retrans set_segs set_lost_hint set_counts]; rewrite !csum_cons; lia. }
  cbn [lost_hint set_segs q2 set_counts set_lost_hint]. unfold h. split; [case_if; lia|].
  intros i x Hi Hx. destruct (decide (i = 0)) as [->|Hne].
  - injection Hx as <-. destruct (Seg.has s PARTIAL) eqn:HP; cbn [andb] in Hi.
    + destruct (_ <? Seg.sent s) eqn:E; cbn [negb] in Hi; [|lia]. assert (pending s = false) as Hps by (by apply (Hh 0 s)).
      unfold trim. rewrite HP, E. exact Hps.
    + rewrite Htp by done. by apply (Hh 0 s).
  - apply get_lt_Some in Hx as Hx0. apply (Hh i x); [case_if in Hi; lia|]. replace i with (i - 1 + 1) in Hx |- * by lia.
    rewrite get_cons_S in Hx |- * by lia. done.
Qed.

Lemma ack_loop_repr fuel : forall q a l d removed calls,
  repr CAP q l -> good a l -> is_u32 d -> zlen l < Z.of_nat fuel -> 0 <= removed -> removed + span l < M32 ->
  let '(k, r, c) := ack_list d l in
  exists q', ack_loop CAP fuel q d removed calls = (q', removed + r, calls ++ c) /\ repr CAP q' k /\ 0 <= r <= span l.
Proof using HW HCAP.
  induction fuel as [|fuel IH]; intros q a l una removed calls Hr Hgd Hu Hfuel Hr0 Hrs; [pose proof (zlen_nonneg l); lia|].
  cbn [ack_loop]. rewrite (get_seg_repr CAP q l 0) by (apply Hr || done). destruct l as [|s l].
  { cbn [ack_list get]. exists q. change (span []) with 0. rewrite app_nil_r, Z.add_0_r. done. }
  rewrite get_cons_0. cbn [ack_list]. pose proof (Forall_inv (gd_ok _ _ Hgd)) as Hs. pose proof (so_len s Hs).
  rewrite span_cons, zlen_cons_succ in *. pose proof (span_nonneg l). pose proof (good_tail _ _ _ Hgd) as Hgt.
  destruct (seq_le (Seg.end_ s) una) eqn:E1.
  - fold (pop q s). unfold sat_add32. rewrite Z.min_l by lia.
    specialize (IH (pop q s) (Seg.end_ s) l una (removed + Seg.seq_len s) (calls ++ [ack_call s])
                  (pop_repr q s l Hr (gd_ok _ _ Hgd)) Hgt Hu ltac:(lia) ltac:(lia) ltac:(lia)).
    destruct (ack_list una l) as [[k r] c]. destruct IH as (q' & Heq & Hr' & Hrb). exists q'.
    rewrite <- (assoc_L (++)) in Heq. rewrite Z.add_assoc. split; [exact Heq|]. split; [done|lia].
  - destruct (seq_lt (Seg.start s) una) eqn:E2.
    + assert (Hin : inside s una = true).
      { unfold inside. rewrite E2. destruct Hs as [Hs1 Hs2 Hs3 _ _ _ _]. unfold Seg.seq_len in Hs3.
        clear -E1 E2 Hs1 Hs2 Hs3 Hu. word_lia. }
      destruct (halves_len s una Hs Hu Hin) as (Hb & HL & _). unfold sat_add32. rewrite Z.min_l by lia.
      exists (cut q s una). split; [done|]. split; [by eapply cut_repr|lia].
    + exists q. rewrite app_nil_r, Z.add_0_r. split; [done|]. split; [done|lia].
Qed.

Lemma ack_to_repr q a l una :
  repr CAP q l -> good a l -> is_u32 una ->
  let '(k, r, c) := ack_list una l in
  exists q', ack_to CAP q una = (q', r, c) /\ repr CAP q' k.
Proof using HW HCAP.
  intros Hr Hgd Hu. pose proof (gd_span _ _ Hgd).
  pose proof (ack_loop_repr (S (Z.to_nat (len q))) q a l una 0 [] Hr Hgd Hu) as Hloop.
  rewrite (sl_len _ _ _ (rp_slots _ _ _ Hr)) in Hloop. specialize (Hloop ltac:(lia) ltac:(lia) ltac:(lia)).
  unfold ack_to. rewrite (sl_len _ _ _ (rp_slots _ _ _ Hr)).
  destruct (ack_list una l) as [[k r] c]. destruct Hloop as (q' & -> & Hr' & _). rewrite Z.add_0_l.
  eexists. split; [done|]. case_if; [|done]. bool_facts. rewrite (sl_len _ _ _ (rp_slots _ _ _ Hr')) in *.
  assert (k = []) as -> by (by apply zlen_0). destruct Hr' as [Hs [] _]. 
  split; [|done|apply hint_zero]. rewrite slots_hint. destruct Hs. split; try done; [cbn; lia|..].
  - intros i Hi. change (zlen []) with 0 in Hi. lia.
  - intros i x Hx. by apply get_Some in Hx as [_ ?].
Qed.

End Repr.
End RtxAck.
