(* ===== verification/RtxSack.v ===== *)
(** * Selective acknowledgement of the retransmission queue

    [sack] marks the bytes of a block: it splits the segments that straddle
    the block's edges, skips runs already SACKed through the bitmap, and marks
    every segment inside. *)
From S2P Require Import Prelude Seq RtxQueue RtxBits RtxProofs RtxSplit RtxOps RtxAck.

Module RtxSack.
Import seg_flags Rtx RtxBits RtxProofs RtxSplit RtxOps RtxAck.

(** ** The queue byte by byte *)

(** The segment holding the byte [x] above the start of the queue. *)
Fixpoint seg_at (l : list Seg.t) (x : Z) : option Seg.t :=
  match l with
  | [] => None
  | s :: l' => if x <? Seg.seq_len s then Some s else seg_at l' (x - Seg.seq_len s)
  end.

Definition sacked_at (l : list Seg.t) (x : Z) : bool :=
  match seg_at l x with Some s => Seg.has s SACKED | None => false end.

Lemma seg_at_app l k x :
  0 <= x -> seg_at (l ++ k) x = if x <? span l then seg_at l x else seg_at k (x - span l).
Proof.
  revert x. induction l as [|s l IH]; intros x Hx.
  - change (span []) with 0. replace (x <? 0) with false by lia. cbn [app]. f_equal. lia.
  - cbn [app seg_at]. rewrite span_cons. pose proof (seq_len_nonneg s). pose proof (span_nonneg l).
    destruct (Z.ltb_spec x (Seg.seq_len s)); [by replace (x <? Seg.seq_len s + span l) with true by lia|].
    rewrite IH by lia. replace (x <? Seg.seq_len s + span l) with (x - Seg.seq_len s <? span l) by lia.
    case_if; [done|]. f_equal. lia.
Qed.

Lemma sacked_at_mid l k s x :
  0 <= x -> sacked_at (l ++ s :: k) x =
  if x <? span l then sacked_at l x
  else if x <? span l + Seg.seq_len s then Seg.has s SACKED
  else sacked_at k (x - (span l + Seg.seq_len s)).
Proof.
  intros Hx. unfold sacked_at. rewrite seg_at_app by done. case_if; [done|]. cbn [seg_at].
  replace (x - span l <? Seg.seq_len s) with (x <? span l + Seg.seq_len s) by lia. case_if; [done|].
  by replace (x - (span l + Seg.seq_len s)) with (x - span l - Seg.seq_len s) by lia.
Qed.

Lemma list_mid (l : list Seg.t) i s : get l i = Some s -> l = take (Z.to_nat i) l ++ s :: drop (S (Z.to_nat i)) l.
Proof. intros [_ Hl]%get_Some. symmetry. by apply take_drop_middle. Qed.

Lemma set_at_mid (l : list Seg.t) i s s' :
  get l i = Some s -> set_at l i s' = take (Z.to_nat i) l ++ s' :: drop (S (Z.to_nat i)) l.
Proof.
  intros [Hi Hl]%get_Some. unfold set_at. replace (0 <=? i) with true by lia.
  apply insert_take_drop. by apply lookup_lt_Some in Hl.
Qed.

Lemma sacked_at_mid_get l i s x :
  get l i = Some s -> 0 <= x -> sacked_at l x =
  if x <? ofs l i then sacked_at (take (Z.to_nat i) l) x
  else if x <? ofs l i + Seg.seq_len s then Seg.has s SACKED
  else sacked_at (drop (S (Z.to_nat i)) l) (x - (ofs l i + Seg.seq_len s)).
Proof.
  intros Hg Hx. pose proof (sacked_at_mid (take (Z.to_nat i) l) (drop (S (Z.to_nat i)) l) s x Hx) as Hm.
  by rewrite <- (list_mid l i s Hg) in Hm.
Qed.

(** The SACKED flag of the bytes of segment [i]. *)
Lemma sacked_at_get l i s x :
  get l i = Some s -> ofs l i <= x < ofs l i + Seg.seq_len s -> sacked_at l x = Seg.has s SACKED.
Proof.
  intros Hg Hx. pose proof (ofs_range l i). rewrite (sacked_at_mid_get l i s x Hg) by lia.
  replace (x <? ofs l i) with false by lia. by replace (x <? ofs l i + Seg.seq_len s) with true by lia.
Qed.

Lemma sacked_at_set l i s s' x :
  get l i = Some s -> Seg.seq_len s' = Seg.seq_len s -> 0 <= x ->
  sacked_at (set_at l i s') x =
  if (ofs l i <=? x) && (x <? ofs l i + Seg.seq_len s) then Seg.has s' SACKED else sacked_at l x.
Proof.
  intros Hg Hl Hx. rewrite (set_at_mid l i s s' Hg), sacked_at_mid, Hl by done. fold (ofs l i).
  rewrite (sacked_at_mid_get l i s x Hg Hx). repeat case_if; bool_facts; try lia; done.
Qed.

Lemma sacked_at_split l i s at_ x :
  seg_ok s -> is_u32 at_ -> inside s at_ = true -> get l i = Some s -> 0 <= x ->
  sacked_at (split_list l i s at_) x = sacked_at l x.
Proof.
  intros Hs Hat Hin Hg Hx. unfold split_list. rewrite (sacked_at_mid_get l i s x Hg Hx), sacked_at_mid by done.
  fold (ofs l i).
  destruct (lower_ok s at_ Hs Hat Hin) as (_ & _ & -> & _). destruct (halves_len s at_ Hs Hat Hin) as (Hb & HL & Hu).
  destruct (lower_fields s at_) as (_ & _ & ->). destruct (upper_fields s at_) as (_ & _ & Hul).
  destruct (x <? ofs l i) eqn:E1; [done|]. bool_facts.
  set (n := ofs l i) in *. set (b := wsub32 at_ _) in *.
  destruct (x <? n + b) eqn:E2; bool_facts; [by replace (x <? n + Seg.seq_len s) with true by lia|].
  unfold sacked_at at 1. cbn [seg_at]. rewrite Hul, Hu.
  replace (x - (n + b) <? Seg.seq_len s - b) with (x <? n + Seg.seq_len s) by lia. case_if.
  - by destruct (upper_ok s at_ Hs Hat Hin) as (_ & _ & -> & _).
  - unfold sacked_at. by replace (x - (n + b) - (Seg.seq_len s - b)) with (x - (n + Seg.seq_len s)) by lia.
Qed.

Lemma ofs_set l i s s' j : get l i = Some s -> Seg.seq_len s' = Seg.seq_len s -> ofs (set_at l i s') j = ofs l j.
Proof.
  intros Hg Hl. pose proof (get_lt_Some _ _ _ Hg). unfold ofs, set_at. replace (0 <=? i) with true by lia.
  destruct (decide (j <= i)); [by rewrite take_insert_ge by lia|]. rewrite take_insert_lt by lia.
  assert (Hg' : get (take (Z.to_nat j) l) i = Some s) by (rewrite get_take; by replace (i <? j) with true by lia).
  pose proof (csum_insert Seg.seq_len _ _ _ s' Hg') as Hc. unfold set_at in Hc. replace (0 <=? i) with true in Hc by lia.
  unfold span. rewrite Hc. lia.
Qed.

Lemma ofs_split_le l i s at_ j : get l i = Some s -> j <= i -> ofs (split_list l i s at_) j = ofs l j.
Proof.
  intros Hg Hj. pose proof (get_lt_Some _ _ _ Hg) as Hi. unfold ofs, split_list. rewrite take_app_le.
  - by rewrite take_take, Nat.min_l by lia.
  - rewrite length_take. unfold zlen in Hi. lia.
Qed.

Lemma locate l x : 0 <= x < span l -> exists m s, get l m = Some s /\ ofs l m <= x < ofs l m + Seg.seq_len s.
Proof.
  revert x. induction l as [|s l IH]; intros x Hx; [change (span []) with 0 in Hx; lia|]. rewrite span_cons in Hx.
  destruct (decide (x < Seg.seq_len s)) as [Hlt|Hge]; [exists 0, s; rewrite ofs_0; split; [done|lia]|].
  destruct (IH (x - Seg.seq_len s)) as (m & y & Hg & Hm); [lia|]. apply get_lt_Some in Hg as Hm0.
  exists (m + 1), y. rewrite get_cons_S, ofs_cons by lia. split; [done|lia].
Qed.

(** A run of SACKed segments covers its bytes. *)
Lemma sacked_run l i j x :
  0 <= i -> (forall k s, i <= k < j -> get l k = Some s -> Seg.has s SACKED = true) -> j <= zlen l ->
  ofs l i <= x < ofs l j -> sacked_at l x = true.
Proof.
  intros Hi Hall Hj Hx. pose proof (ofs_range l i). pose proof (ofs_range l j).
  destruct (locate l x) as (m & s & Hg & Hm); [lia|]. rewrite (sacked_at_get l m s x Hg Hm). apply (Hall m); [|done].
  rewrite <- (ofs_succ l m s Hg) in Hm. pose proof (ofs_le l (m + 1) i). pose proof (ofs_le l j m). lia.
Qed.

(** ** What marking a block does to the list *)

(** A property of the list that splitting and SACK-marking segments keep. *)
Definition sack_stable (P : list Seg.t -> Prop) : Prop :=
  (forall l i s at_, get l i = Some s -> P l -> P (split_list l i s at_)) /\
  (forall l i s, get l i = Some s -> P l -> P (set_at l i (sack_seg s))).

Record sack_result (a L R : Z) (l k : list Seg.t) (n : Z) (c : list Seg.t) : Prop := mk_sack_result {
  sr_good : good a k;
  sr_span : span k = span l;
  sr_sound : forall x, 0 <= x -> sacked_at k x = true -> sacked_at l x = true \/ L <= x < R;
  sr_mono : forall x, 0 <= x -> sacked_at l x = true -> sacked_at k x = true;
  sr_count : csum c_sacked k = csum c_sacked l + n;
  sr_calls : csum Seg.seq_len c = n;
  sr_new : Forall (fun s => Seg.has s SACKED = false) c;
  sr_stable : forall P, sack_stable P -> P l -> P k;
}.

Lemma sack_refl a L R l : good a l -> sack_result a L R l l 0 [].
Proof. intros. split; try done; [tauto|lia]. Qed.

Lemma sack_trans a L R l1 l2 l3 n m c d :
  sack_result a L R l1 l2 n c -> sack_result a L R l2 l3 m d -> sack_result a L R l1 l3 (n + m) (c ++ d).
Proof.
  intros [G1 S1 O1 M1 C1 A1 N1 T1] [G2 S2 O2 M2 C2 A2 N2 T2]. split; try done.
  - by rewrite S2, S1.
  - intros x Hx H3. destruct (O2 x Hx H3) as [H2|]; [by apply O1|tauto].
  - auto.
  - lia.
  - rewrite csum_app. lia.
  - by apply Forall_app.
  - intros P HP Hl. apply T2; [done|]. by apply T1.
Qed.

Lemma sack_split a L R l i s at_ :
  good a l -> get l i = Some s -> is_u32 at_ -> inside s at_ = true ->
  sack_result a L R l (split_list l i s at_) 0 [].
Proof.
  intros Hgd Hg Hat Hin. pose proof (get_forall _ _ _ _ (gd_ok _ _ Hgd) Hg) as Hs.
  destruct (halves_len s at_ Hs Hat Hin) as (Hb & HL & Hu).
  destruct (lower_fields s at_) as (_ & _ & Hll). destruct (upper_fields s at_) as (_ & _ & Hul).
  split; try done.
  - by apply split_good.
  - unfold span. rewrite split_csum by done. lia.
  - intros x Hx. rewrite sacked_at_split by done. tauto.
  - intros x Hx. by rewrite sacked_at_split by done.
  - rewrite split_csum by done. unfold c_sacked at 2 3 4.
    destruct (lower_ok s at_ Hs Hat Hin) as (_ & _ & -> & _). destruct (upper_ok s at_ Hs Hat Hin) as (_ & _ & -> & _).
    case_if; lia.
  - intros P [Hsplit _]. by apply Hsplit.
Qed.

Lemma sack_mark a L R l i s :
  good a l -> get l i = Some s -> Seg.has s SACKED = false -> L <= ofs l i -> ofs l i + Seg.seq_len s <= R ->
  sack_result a L R l (set_at l i (sack_seg s)) (Seg.seq_len s) [s].
Proof.
  intros Hgd Hg HS HL HR. pose proof (get_forall _ _ _ _ (gd_ok _ _ Hgd) Hg) as Hs.
  assert (Hlen : Seg.seq_len (sack_seg s) = Seg.seq_len s) by done.
  assert (HS' : Seg.has (sack_seg s) SACKED = true) by (unfold sack_seg, new_state, sacked_flags; flag_simp; done).
  split.
  - apply (good_set a l i s); try done; [by apply sack_ok|]. unfold sack_seg, new_state, sacked_flags. by flag_simp.
  - unfold span. rewrite (csum_insert _ _ _ _ _ Hg). lia.
  - intros x Hx. rewrite (sacked_at_set l i s) by done. case_if; [bool_facts; intros; right; lia|tauto].
  - intros x Hx H. rewrite (sacked_at_set l i s) by done. by case_if.
  - rewrite (csum_insert _ _ _ _ _ Hg). unfold c_sacked at 2 3. rewrite HS, HS'. lia.
  - simpl. lia.
  - by apply Forall_singleton.
  - intros P [_ Hmark]. by apply Hmark.
Qed.

(** ** The queue operation *)

Section Repr.
Variables (CAP W : Z).
Hypothesis HW : 1 <= W <= SACK_WORDS.
Hypothesis HCAP : CAP = 64 * W.
Variables (a L R : Z).
Hypothesis HLR : 0 <= L < R.

(** The right edge can be cut out, or is a segment boundary already. *)
Definition room (l : list Seg.t) : Prop := zlen l < CAP \/ exists j, ofs l j = R.

(** The scan at index [i] has passed the left edge. *)
Definition left_ok (l : list Seg.t) (i : Z) : Prop :=
  L <= ofs l i \/ exists s, get l i = Some s /\ Seg.has s SACKED = true /\ L <= ofs l (i + 1).

Definition block_done (l k : list Seg.t) (i : Z) : Prop :=
  room l -> left_ok l i -> forall x, L <= x < R -> ofs l i <= x -> sacked_at k x = true.

(** What the marking loop guarantees from index [i] of list [l]. *)
Definition sack_post (l : list Seg.t) (i newly : Z) (calls : list Seg.t) (res : t * Z * list Seg.t) : Prop :=
  exists q k n c, res = (q, newly + n, calls ++ c) /\ repr CAP q k /\
    sack_result a L R l k n c /\ block_done l k i.

Lemma sack_post_stop q l i newly calls :
  repr CAP q l -> good a l -> (forall x, left_ok l i -> L <= x < R -> ofs l i <= x -> sacked_at l x = true) ->
  sack_post l i newly calls (q, newly, calls).
Proof using.
  intros Hr Hgd Hdone. exists q, l, 0, []. rewrite app_nil_r, Z.add_0_r. split_and!; try done; [by apply sack_refl|].
  intros _ Hl x Hx Hi. by apply Hdone.
Qed.

(** Continue the loop from another list and index. *)
Lemma sack_post_step l i newly calls l1 i1 n1 c1 res :
  sack_result a L R l l1 n1 c1 ->
  (room l -> room l1) -> (room l -> left_ok l i -> left_ok l1 i1) ->
  (forall x, room l -> left_ok l i -> L <= x < R -> ofs l i <= x < ofs l1 i1 -> sacked_at l1 x = true) ->
  sack_post l1 i1 (newly + n1) (calls ++ c1) res -> sack_post l i newly calls res.
Proof using HLR.
  intros H1 Hroom Hleft Hpart (q & k & n & c & -> & Hr & H2 & Hd).
  exists q, k, (n1 + n), (c1 ++ c). rewrite Z.add_assoc, (assoc_L (++)). split; [done|]. split; [done|].
  split; [by eapply sack_trans|]. intros Hrm Hl x Hx Hi. destruct (decide (ofs l1 i1 <= x)).
  - apply Hd; auto.
  - apply (sr_mono _ _ _ _ _ _ _ H2); [lia|]. apply Hpart; try done. lia.
Qed.

Lemma room_cross l i s :
  room l -> get l i = Some s -> ofs l i < R < ofs l i + Seg.seq_len s -> zlen l < CAP.
Proof using.
  intros [?|[j Hj]] Hg Hx; [done|exfalso]. rewrite <- (ofs_succ l i s Hg) in Hx.
  pose proof (ofs_le l j i). pose proof (ofs_le l (i + 1) j). lia.
Qed.

Lemma ofs_split_next l i s at_ :
  get l i = Some s -> ofs (split_list l i s at_) (i + 1) = ofs l i + wsub32 at_ (Seg.start s).
Proof using.
  intros Hg. apply get_lt_Some in Hg as Hi. rewrite (ofs_succ _ i (split_lower s at_)).
  - rewrite ofs_split_le by (done || lia). by destruct (lower_fields s at_) as (_ & _ & ->).
  - rewrite split_list_get by (done || lia). by rewrite Z.ltb_irrefl, Z.eqb_refl.
Qed.

(** The run of SACKed slots found through the bitmap. *)
Lemma bitmap_run q l i s j x :
  slots CAP q l -> get l i = Some s -> Seg.has s SACKED = true -> j <= zlen l ->
  (forall k, i + 1 <= k < j -> lbit CAP q k = true) -> ofs l i <= x < ofs l j -> sacked_at l x = true.
Proof using.
  intros Hsl Hg HS Hj Hbit Hx. apply get_lt_Some in Hg as Hi. apply (sacked_run l i j x); try done; [lia|].
  intros k y Hk Hy. destruct (decide (k = i)) as [->|]; [congruence|].
  rewrite <- (sl_bits _ _ _ Hsl k y Hy). apply Hbit. lia.
Qed.

(** Continuing after a split at the right edge. *)
Lemma post_split l i s newly calls res :
  good a l -> R <= span l -> get l i = Some s -> Seg.has s SACKED = false -> ofs l i < R < ofs l i + Seg.seq_len s ->
  sack_post (split_list l i s (wadd32 a R)) i newly calls res -> sack_post l i newly calls res.
Proof using HLR.
  intros Hgd HR Hg ES Hx Hpost. destruct (good_at a l i s Hgd Hg) as [Hst Hen _ _ Hlo Hhi]. apply get_lt_Some in Hg as Hil.
  pose proof (gd_span _ _ Hgd) as Hsp. assert (Hat : is_u32 (wadd32 a R)) by auto with word_range.
  assert (Hin : inside s (wadd32 a R) = true) by (unfold inside; rewrite Hst, Hen, !seq_lt_offset by lia; lia).
  apply (sack_post_step l i newly calls (split_list l i s (wadd32 a R)) i 0 []).
  - by apply sack_split.
  - intros _. right. exists (i + 1). rewrite ofs_split_next, Hst, wsub32_wadd32, Z.mod_small by (done || lia). lia.
  - intros _ [Hl|(y & Hy & HS & _)]; [|congruence]. left. by rewrite ofs_split_le by (done || lia).
  - intros x _ _ Hx1 Hx2. rewrite ofs_split_le in Hx2 by (done || lia). lia.
  - by rewrite Z.add_0_r, app_nil_r.
Qed.

(** Continuing after a segment inside the block was marked. *)
Lemma post_mark l i s newly calls res :
  good a l -> get l i = Some s -> Seg.has s SACKED = false -> L <= ofs l i -> ofs l i + Seg.seq_len s <= R ->
  sack_post (set_at l i (sack_seg s)) (i + 1) (newly + Seg.seq_len s) (calls ++ [s]) res ->
  sack_post l i newly calls res.
Proof using HLR.
  intros Hgd Hg ES HL HR. pose proof (ofs_succ l i s Hg) as Hnx. pose proof (ofs_range l i).
  assert (Hlen : Seg.seq_len (sack_seg s) = Seg.seq_len s) by done. pose proof (seq_len_nonneg s).
  apply sack_post_step.
  - by apply sack_mark.
  - intros [?|[j Hj]]; [left; by rewrite zlen_set_at|right; exists j; by rewrite (ofs_set l i s)].
  - intros _ _. left. rewrite (ofs_set l i s) by done. lia.
  - intros x _ _ Hx Hx'. rewrite (ofs_set l i s) in Hx' by done. rewrite (sacked_at_set l i s) by (done || lia).
    replace ((ofs l i <=? x) && (x <? ofs l i + Seg.seq_len s)) with true by lia.
    unfold sack_seg, new_state, sacked_flags. by flag_simp.
Qed.

Lemma sack_loop_spec fuel : forall q l i newly calls,
  repr CAP q l -> good a l -> R <= span l -> 0 <= i ->
  2 * CAP - i - zlen l < Z.of_nat fuel -> i <= CAP ->
  0 <= newly -> newly + (span l - csum c_sacked l) < M32 ->
  sack_post l i newly calls (sack_loop CAP fuel q (wadd32 a L) (wadd32 a R) i newly calls).
Proof using HW HCAP HLR.
  induction fuel as [|fuel IH]; intros q l i newly calls Hr Hgd HR Hi Hfuel Hic Hn0 Hn;
    [pose proof (sl_cap _ _ _ (rp_slots _ _ _ Hr)); lia|].
  pose proof (rp_slots _ _ _ Hr) as Hsl. pose proof (sl_cap _ _ _ Hsl) as Hcap. pose proof (gd_span _ _ Hgd) as Hsp.
  cbn [sack_loop]. rewrite (get_seg_repr CAP q l i) by done. destruct (get l i) as [s|] eqn:Hg; cycle 1.
  { apply sack_post_stop; try done. intros x _ Hx Hx'. apply get_None in Hg. rewrite ofs_all in Hx' by lia. lia. }
  destruct (good_at a l i s Hgd Hg) as [Hst Hen Hnx Hpos Hlo Hhi]. apply get_lt_Some in Hg as Hil.
  pose proof (get_forall _ _ _ _ (gd_ok _ _ Hgd) Hg) as Hs.
  rewrite Hst, Hen. rewrite !seq_lt_offset, seq_le_offset by lia.
  destruct (ofs l i <? R) eqn:E1; bool_facts; cbn [negb]; cycle 1.
  { apply sack_post_stop; try done. intros; lia. }
  destruct (Seg.has s SACKED) eqn:ES.
  - pose proof (next_unsacked_spec CAP W q HW HCAP (sl_map _ _ _ Hsl) (i + 1) ltac:(lia)) as Hnu.
    rewrite (sl_len _ _ _ Hsl) in Hnu. destruct (next_unsacked CAP q (i + 1)) as [j|].
    + destruct Hnu as (Hj & _ & Hbit). pose proof (ofs_le l (i + 1) j).
      apply (sack_post_step l i newly calls l j 0 []); [by apply sack_refl|done|..].
      * intros _ [Hl|(y & Hy & _ & Hl)]; left; lia.
      * intros x _ _ Hx Hx'. by apply (bitmap_run q l i s j); [..|lia| |].
      * rewrite Z.add_0_r, app_nil_r. apply IH; try done; lia.
    + apply sack_post_stop; try done. intros x _ Hx Hx'. apply (bitmap_run q l i s (zlen l)); try done.
      rewrite (ofs_all l (zlen l)) by lia. lia.
  - destruct (R <? ofs l i + Seg.seq_len s) eqn:E2; bool_facts.
    + assert (Hat : is_u32 (wadd32 a R)) by auto with word_range.
      assert (Hin : inside s (wadd32 a R) = true) by (unfold inside; rewrite Hst, Hen, !seq_lt_offset by lia; lia).
      destruct (decide (zlen l < CAP)) as [Hlt|Hfull].
      * destruct (split_repr CAP W HW HCAP q l i s _ Hr (gd_ok _ _ Hgd) Hsp Hg Hat Hin Hlt) as (q' & -> & Hr' & _).
        destruct (sack_split a L R l i s _ Hgd Hg Hat Hin) as [Hgd' Hsp' _ _ Hcs _ _ _].
        apply (post_split l i s); try done. apply IH; try done; rewrite ?split_list_len by done; lia.
      * rewrite (split_fails CAP q l i s) by (done || (right; lia)).
        exists q, l, 0, []. rewrite app_nil_r, Z.add_0_r. split_and!; try done; [by apply sack_refl|].
        intros Hrm _. exfalso. apply Hfull. apply (room_cross l i s Hrm Hg). lia.
    + destruct (L <=? ofs l i) eqn:E3; bool_facts.
      * pose proof (sack_mark a L R l i s Hgd Hg ES E3 E2) as Hres.
        pose proof (csum_bounds _ (gd_ok _ _ (sr_good _ _ _ _ _ _ _ Hres))) as ([_ Hcb] & _ & _).
        destruct Hres as [Hgd' Hsp' _ _ Hcs _ _ _]. unfold sat_add32. rewrite Z.min_l by lia.
        apply (post_mark l i s); try done. apply IH; try done; rewrite ?zlen_set_at; try lia.
        apply (set_flags_repr CAP W HW HCAP q l i s (sacked_flags s) Hr (gd_ok _ _ Hgd) Hsp Hg (sack_ok s Hs)).
      * apply (sack_post_step l i newly calls l (i + 1) 0 []); [by apply sack_refl|done|..].
        -- intros _ [Hl|(y & Hy & HS & _)]; [lia|congruence].
        -- intros x _ [Hl|(y & Hy & HS & _)]; [lia|congruence].
        -- rewrite Z.add_0_r, app_nil_r. apply IH; try done; lia.
Qed.

(** Cutting the left edge out: the list, the index the loop starts from. *)
Lemma left_split q l i s :
  repr CAP q l -> good a l -> R <= span l -> get l i = Some s -> ofs l i <= L < ofs l i + Seg.seq_len s ->
  exists q1 l1 i1,
    (if seq_lt (Seg.start s) (wadd32 a L) && negb (Seg.has s SACKED)
     then let '(q', ok) := split CAP q i (wadd32 a L) in if ok then (q', i + 1) else (q', i) else (q, i)) = (q1, i1) /\
    repr CAP q1 l1 /\ sack_result a L R l l1 0 [] /\ 0 <= i1 <= CAP /\
    (zlen l < CAP -> zlen l1 <= zlen l + 1 /\ left_ok l1 i1 /\ ofs l1 i1 <= L).
Proof using HW HCAP HLR.
  intros Hr Hgd HR Hg HL. destruct (good_at a l i s Hgd Hg) as [Hst Hen Hnx _ Hlo Hhi]. apply get_lt_Some in Hg as Hil.
  pose proof (gd_span _ _ Hgd) as Hsp. pose proof (sl_cap _ _ _ (rp_slots _ _ _ Hr)) as Hcap.
  rewrite Hst, seq_lt_offset by lia. destruct (ofs l i <? L) eqn:E1; bool_facts; cbn [andb].
  - destruct (Seg.has s SACKED) eqn:ES; cbn [negb].
    { exists q, l, i. split_and!; try done; try lia; [by apply sack_refl|]. intros _. split; [lia|]. split; [|lia].
      right. exists s. split_and!; try done. lia. }
    assert (Hat : is_u32 (wadd32 a L)) by auto with word_range.
    assert (Hin : inside s (wadd32 a L) = true) by (unfold inside; rewrite Hst, Hen, !seq_lt_offset by lia; lia).
    destruct (decide (zlen l < CAP)) as [Hlt|Hfull].
    + destruct (split_repr CAP W HW HCAP q l i s _ Hr (gd_ok _ _ Hgd) Hsp Hg Hat Hin Hlt) as (q' & -> & Hr' & _).
      assert (Hofs : ofs (split_list l i s (wadd32 a L)) (i + 1) = L).
      { rewrite ofs_split_next, Hst, wsub32_wadd32, Z.mod_small by (done || lia). lia. }
      exists q', (split_list l i s (wadd32 a L)), (i + 1). split_and!; try done; try lia; [by apply sack_split|].
      intros _. rewrite split_list_len by done. split; [lia|]. split; [left|]; lia.
    + rewrite (split_fails CAP q l i s) by (apply Hr || done || (right; lia)).
      exists q, l, i. split_and!; try done; try lia. by apply sack_refl.
  - exists q, l, i. split_and!; try done; try lia; [by apply sack_refl|]. intros _. split; [lia|]. split; [left|]; lia.
Qed.

Lemma sack_block q l :
  repr CAP q l -> good a l -> R <= span l ->
  exists q' k n c,
    match find CAP q (wadd32 a L) with
    | None => (q, 0, [])
    | Some i =>
        let '(q, i) :=
          match get_seg CAP q i with
          | Some s =>
              if seq_lt (Seg.start s) (wadd32 a L) && negb (Seg.has s SACKED) then
                let '(q', ok) := split CAP q i (wadd32 a L) in if ok then (q', i + 1) else (q', i)
              else (q, i)
          | None => (q, i)
          end in
        sack_loop CAP (Z.to_nat (2 * CAP + 2)) q (wadd32 a L) (wadd32 a R) i 0 []
    end = (q', n, c) /\ repr CAP q' k /\ sack_result a L R l k n c /\
    (zlen l + 2 <= CAP -> forall x, L <= x < R -> sacked_at k x = true).
Proof using HW HCAP HLR.
  intros Hr Hgd HR. pose proof (gd_span _ _ Hgd) as Hsp.
  pose proof (find_spec CAP q a l (wadd32 a L) (rp_slots _ _ _ Hr) Hgd) as Hf.
  rewrite off_wadd32 in Hf by lia. destruct (find CAP q (wadd32 a L)) as [i|]; [|lia].
  destruct Hf as (s & Hg & HL). apply get_lt_Some in Hg as Hil.
  rewrite (get_seg_repr CAP q l i), Hg by (apply Hr || lia).
  destruct (left_split q l i s Hr Hgd HR Hg HL) as (q1 & l1 & i1 & -> & Hr1 & Hres1 & Hi1 & Hleft).
  pose proof (csum_bounds _ (gd_ok _ _ (sr_good _ _ _ _ _ _ _ Hres1))) as ([Hc0 _] & _ & _).
  pose proof (zlen_nonneg l1). pose proof (sr_span _ _ _ _ _ _ _ Hres1) as Hsp1.
  destruct (sack_loop_spec (Z.to_nat (2 * CAP + 2)) q1 l1 i1 0 [] Hr1 (sr_good _ _ _ _ _ _ _ Hres1))
    as (q' & k & n & c & -> & Hr' & Hres2 & Hdone); try lia.
  exists q', k, n, c. split; [done|]. split; [done|]. split; [exact (sack_trans _ _ _ _ _ _ _ _ _ _ Hres1 Hres2)|].
  intros Hroom x Hx. destruct (Hleft ltac:(lia)) as (Hz & Hl & Hle). apply Hdone; try done; [left; lia|lia].
Qed.

End Repr.

Section Spec.
Variables (CAP W : Z).
Hypothesis HW : 1 <= W <= SACK_WORDS.
Hypothesis HCAP : CAP = 64 * W.

Lemma sack_weaken a L R lo hi l k n c :
  lo <= L -> R <= hi -> sack_result a L R l k n c -> sack_result a lo hi l k n c.
Proof using.
  intros HL HR [G S O M C A N T]. split; try done. intros x Hx Hk. destruct (O x Hx Hk); [by left|right; lia].
Qed.

(** The whole operation on a block whose edges are [lo] and [hi] bytes above
    the start of the queue. *)
Lemma sack_spec q a l lo hi :
  repr CAP q l -> good a l -> span l - M31 < lo -> lo < hi < M31 -> hi - lo < M31 ->
  exists q' k n c,
    sack CAP q (wadd32 a lo) (wadd32 a hi) = (q', n, c) /\ repr CAP q' k /\ sack_result a lo hi l k n c /\
    (zlen l + 2 <= CAP -> forall x, 0 <= x < span l -> lo <= x < hi -> sacked_at k x = true).
Proof using HW HCAP.
  intros Hr Hgd Hlo Hhi Hd. pose proof (gd_span _ _ Hgd) as Hsp. pose proof (span_nonneg l).
  pose proof (sl_len _ _ _ (rp_slots _ _ _ Hr)) as Hlen. pose proof (gd_base _ _ Hgd) as Ha.
  assert (H0 : a = wadd32 a 0) by word_lia.
  unfold sack. rewrite seq_lt_offset by lia. replace (lo <? hi) with true by lia. cbn [negb orb].
  unfold is_empty, last. rewrite Hlen. destruct (Z.eqb_spec (zlen l) 0) as [Hz|Hnz].
  { apply zlen_0 in Hz. subst l. exists q, [], 0, []. split; [done|]. split; [done|]. split; [by apply sack_refl|].
    intros _ x Hx. change (span []) with 0 in Hx. lia. }
  pose proof (zlen_nonneg l).
  rewrite !(get_seg_repr CAP q l) by (apply Hr || lia).
  destruct (proj2 (get_is_Some l 0)) as [fs Hfs]; [lia|]. destruct (proj2 (get_is_Some l (zlen l - 1))) as [ls Hls]; [lia|].
  rewrite Hfs, Hls. destruct (good_at a l 0 fs Hgd Hfs) as [Hst _ _ _ _ _]. rewrite ofs_0, <- H0 in Hst.
  destruct (good_at a l _ ls Hgd Hls) as [_ Hen Hnx _ _ _]. rewrite <- Hnx, ofs_all in Hen by lia.
  assert (seq_lt (wadd32 a lo) (Seg.start fs) = (lo <? 0)) as -> by (rewrite Hst; rewrite H0 at 2; apply seq_lt_offset; lia).
  assert (seq_lt (Seg.end_ ls) (wadd32 a hi) = (span l <? hi)) as -> by (rewrite Hen; apply seq_lt_offset; lia).
  assert ((if lo <? 0 then Seg.start fs else wadd32 a lo) = wadd32 a (Z.max lo 0)) as ->.
  { case_if; bool_facts; [rewrite Z.max_r by lia; congruence|by rewrite Z.max_l by lia]. }
  assert ((if span l <? hi then Seg.end_ ls else wadd32 a hi) = wadd32 a (Z.min hi (span l))) as ->.
  { case_if; bool_facts; [by rewrite Z.min_r by lia|by rewrite Z.min_l by lia]. }
  rewrite seq_lt_offset by lia. destruct (Z.max lo 0 <? Z.min hi (span l)) eqn:E; bool_facts; cbn [negb].
  - destruct (sack_block CAP W HW HCAP a (Z.max lo 0) (Z.min hi (span l)) ltac:(lia) q l Hr Hgd ltac:(lia))
      as (q' & k & n & c & -> & Hr' & Hres & Hdone).
    exists q', k, n, c. split; [done|]. split; [done|]. split; [eapply sack_weaken, Hres; lia|].
    intros Hroom x Hx Hx'. apply Hdone; lia.
  - exists q, l, 0, []. split; [done|]. split; [done|]. split; [by apply sack_refl|lia].
Qed.

End Spec.
End RtxSack.
