(* ===== verification/RtxXmit.v ===== *)
(** * Transmission order of the queued segments

    Every segment carries the number of its latest transmission.  Segments
    that were never retransmitted were sent in sequence order: the fact the
    RACK loss scan relies on to stop early. *)
From S2P Require Import Prelude Seq RtxQueue RtxBits RtxProofs RtxSplit RtxOps RtxAck RtxSack.

Module RtxXmit.
Import seg_flags Rtx RtxBits RtxProofs RtxSplit RtxOps RtxAck RtxSack.

(** How many transmissions ago the segment was last sent, [nx] being the next
    transmission number. *)
Definition age (nx : Z) (s : Seg.t) : Z := off nx (Seg.xmit_seq s).

Record xorder (nx : Z) (l : list Seg.t) : Prop := mk_xorder {
  xo_age : forall i s, get l i = Some s -> 1 <= age nx s < M31;
  xo_order : forall i j s s', i < j -> get l i = Some s -> get l j = Some s' ->
    Seg.has s EVER_RETRANS = false -> age nx s' <= age nx s;
}.

(** [s'] was cut out of [s] or changed state without being sent again. *)
Definition same_xmit (s s' : Seg.t) : Prop :=
  Seg.xmit_seq s' = Seg.xmit_seq s /\ Seg.has s' EVER_RETRANS = Seg.has s EVER_RETRANS.

(** The segments of [k] come from segments of [l], in order. *)
Lemma xorder_from nx l k (f : Z -> Z) :
  (forall i s', get k i = Some s' -> exists s, get l (f i) = Some s /\ same_xmit s s') ->
  (forall i j, i < j -> f i < f j \/ f i = f j) -> xorder nx l -> xorder nx k.
Proof.
  intros Hfrom Hmono [Ha Ho]. split.
  - intros i s' Hg. destruct (Hfrom i s' Hg) as (s & Hs & Hx & _). unfold age. rewrite Hx. by apply (Ha (f i)).
  - intros i j s' t' Hij Hi Hj Hev. destruct (Hfrom i s' Hi) as (s & Hs & Hx & He).
    destruct (Hfrom j t' Hj) as (u & Hu & Hxu & _). unfold age. rewrite Hx, Hxu.
    destruct (Hmono i j Hij) as [Hlt|Heq]; [|rewrite Heq in Hs; simplify_eq; done].
    apply (Ho (f i) (f j)); try done. by rewrite <- He.
Qed.

Lemma xorder_set nx l i s s' :
  get l i = Some s -> same_xmit s s' -> xorder nx l -> xorder nx (set_at l i s').
Proof.
  intros Hg Hx. apply (xorder_from nx l _ id); [|unfold id; lia]. intros j t' Hj. unfold id.
  destruct (decide (i = j)) as [<-|Hne].
  - rewrite get_set_at_eq in Hj by (by eapply get_lt_Some). injection Hj as <-. by exists s.
  - rewrite get_set_at_ne in Hj by done. by exists t'.
Qed.

Lemma xorder_fmap nx l f : (forall s, same_xmit s (f s)) -> xorder nx l -> xorder nx (f <$> l).
Proof.
  intros Hf. apply (xorder_from nx l _ id); [|unfold id; lia]. intros i s' Hg. unfold id.
  apply get_Some in Hg as [Hi Hg]. rewrite list_lookup_fmap in Hg. destruct (l !! Z.to_nat i) as [s|] eqn:E; [|done].
  injection Hg as <-. exists s. split; [by apply get_Some|done].
Qed.

Lemma same_xmit_lower s at_ : same_xmit s (split_lower s at_).
Proof. unfold split_lower, same_xmit. case_if; (split; [done|by flag_simp]). Qed.

Lemma same_xmit_upper s at_ : same_xmit s (split_upper s at_).
Proof. unfold split_upper, same_xmit. repeat case_if; (split; [done|by flag_simp]). Qed.

Lemma same_xmit_sack s : same_xmit s (sack_seg s).
Proof. unfold sack_seg, new_state, sacked_flags, same_xmit. split; [done|by flag_simp]. Qed.

Lemma same_xmit_mark s : same_xmit s (mark_lost_seg s).
Proof. unfold mark_lost_seg, new_state, lost_flags, same_xmit. case_if; (split; [done|by flag_simp]). Qed.

Lemma same_xmit_unmark s : same_xmit s (unmark_seg s).
Proof. unfold unmark_seg, new_state, same_xmit. case_if; (split; [done|by flag_simp]). Qed.

Lemma same_xmit_unsack s : same_xmit s (unsack_seg s).
Proof. unfold unsack_seg, new_state, same_xmit. case_if; (split; [done|by flag_simp]). Qed.

Lemma xorder_split nx l i s at_ : get l i = Some s -> xorder nx l -> xorder nx (split_list l i s at_).
Proof.
  intros Hg. apply (xorder_from nx l _ (fun j => if j <=? i then j else j - 1)).
  - intros j s' Hj. apply get_lt_Some in Hj as Hj0. rewrite (split_list_get l i s at_ j Hg) in Hj by lia.
    destruct (Z.ltb_spec j i). { exists s'. replace (j <=? i) with true by lia. done. }
    destruct (Z.eqb_spec j i) as [->|].
    { injection Hj as <-. exists s. rewrite Z.leb_refl. split; [done|apply same_xmit_lower]. }
    replace (j <=? i) with false by lia. destruct (Z.eqb_spec j (i + 1)) as [->|]; [|by exists s'].
    injection Hj as <-. exists s. replace (i + 1 - 1) with i by lia. split; [done|apply same_xmit_upper].
  - intros j k Hjk. repeat case_if; bool_facts; lia.
Qed.

Lemma xorder_sack nx : sack_stable (xorder nx).
Proof.
  split; [intros l i s at_; apply xorder_split|]. intros l i s Hg. apply (xorder_set nx l i s); [done|apply same_xmit_sack].
Qed.

Lemma xorder_tail nx s l : xorder nx (s :: l) -> xorder nx l.
Proof.
  apply (xorder_from nx _ l (fun i => i + 1)); [|lia]. intros i s' Hg. exists s'.
  apply get_lt_Some in Hg as Hi. rewrite get_cons_S by lia. done.
Qed.

Lemma xorder_ack nx una l : xorder nx l -> xorder nx (fst (fst (ack_list una l))).
Proof.
  induction l as [|s l IH]; intros Hx; [done|]. cbn [ack_list]. case_if.
  - apply xorder_tail in Hx. specialize (IH Hx). by destruct (ack_list una l) as [[k r] c].
  - case_if; [|done]. change (trim s una :: l) with (set_at (s :: l) 0 (trim s una)).
    by apply (xorder_set nx (s :: l) 0 s); [..|apply same_xmit_upper|].
Qed.

(** All queued segments are recent enough for one more transmission. *)
Definition xmit_room (nx : Z) (l : list Seg.t) : bool := forallb (fun s => age nx s <? M31 - 1) l.

Lemma age_succ nx s : is_u32 nx -> 1 <= age nx s < M31 - 1 -> age (wadd32 nx 1) s = age nx s + 1.
Proof. unfold age, off. intros. word_lia. Qed.

Lemma age_next nx s : is_u32 nx -> Seg.xmit_seq s = nx -> age (wadd32 nx 1) s = 1.
Proof. unfold age, off. intros ? ->. word_lia. Qed.

Lemma xmit_room_get nx l i s : xmit_room nx l = true -> get l i = Some s -> age nx s < M31 - 1.
Proof.
  intros Hr Hg. unfold xmit_room in Hr. rewrite forallb_forall in Hr. specialize (Hr s).
  apply get_elem_of, list_elem_of_In in Hg. specialize (Hr Hg). lia.
Qed.

(** A transmission: segment [i] (new or resent) gets the next number. *)
Lemma xorder_sent nx l k i :
  is_u32 nx -> xmit_room nx l = true -> xorder nx l ->
  (forall j s, get k j = Some s -> j <> i -> get l j = Some s) ->
  (forall s, get k i = Some s -> Seg.xmit_seq s = nx /\
     (Seg.has s EVER_RETRANS = true \/ forall j t, i < j -> get k j = Some t -> False)) ->
  xorder (wadd32 nx 1) k.
Proof.
  intros Hu Hroom [Ha Ho] Hother Hi.
  assert (Hage : forall j s, get k j = Some s -> (j = i -> age (wadd32 nx 1) s = 1) /\
            (j <> i -> age (wadd32 nx 1) s = age nx s + 1 /\ 1 <= age nx s < M31 - 1)).
  { intros j s Hg. split.
    - intros ->. apply age_next; [done|]. by apply Hi.
    - intros Hne. pose proof (Hother j s Hg Hne) as Hg'. pose proof (Ha j s Hg').
      pose proof (xmit_room_get nx l j s Hroom Hg'). rewrite age_succ by (done || lia). lia. }
  split.
  - intros j s Hg. destruct (Hage j s Hg) as [H1 H2]. destruct (decide (j = i)) as [->|Hne].
    + rewrite H1 by done. lia.
    + destruct (H2 Hne) as [-> ?]. lia.
  - intros j m s t Hjm Hj Hm Hev. destruct (Hage j s Hj) as [J1 J2]. destruct (Hage m t Hm) as [M1 M2].
    destruct (decide (j = i)) as [->|Hji].
    + destruct (Hi s Hj) as [_ [He|Hno]]; [congruence|]. exfalso. by apply (Hno m t).
    + destruct (J2 Hji) as [-> ?]. destruct (decide (m = i)) as [->|Hmi]; [rewrite M1 by done; lia|].
      destruct (M2 Hmi) as [-> ?]. pose proof (Ho j m s t Hjm (Hother j s Hj Hji) (Hother m t Hm Hmi) Hev). lia.
Qed.

(** ** Operations that send nothing keep the transmission counter *)

Section Counter.
Variable CAP : Z.

Lemma set_state_next q i f n : next_xmit (set_state CAP q i f n) = next_xmit q.
Proof. unfold set_state, put_seg, set_sacked_bit. repeat case_match; done. Qed.

Lemma set_flags_next q i f : next_xmit (set_flags CAP q i f) = next_xmit q.
Proof. apply set_state_next. Qed.

Lemma shift_segs_up_next n : forall q j, next_xmit (shift_segs_up CAP n q j) = next_xmit q.
Proof. induction n as [|n IH]; intros q j; [done|]. cbn [shift_segs_up]. rewrite IH. by case_match. Qed.

Lemma split_next q i at_ : next_xmit (fst (split CAP q i at_)) = next_xmit q.
Proof.
  unfold split. case_match; [|done]. case_if; [done|]. cbn [fst].
  rewrite <- (shift_segs_up_next (Z.to_nat (len q - (i + 1))) q (len q)).
  unfold put_seg, set_sacked_bit. repeat case_match; done.
Qed.

Lemma ack_to_next q una : next_xmit (fst (fst (ack_to CAP q una))) = next_xmit q.
Proof.
  unfold ack_to.
  assert (Hloop : forall n q r c, next_xmit (fst (fst (ack_loop CAP n q una r c))) = next_xmit q).
  { induction n as [|n IH]; intros q' r c; [done|]. cbn [ack_loop]. case_match; [|done]. case_if; [by rewrite IH|].
    case_if; [|done]. cbn [fst]. unfold put_seg. repeat case_match; done. }
  specialize (Hloop (S (Z.to_nat (len q))) q 0 []). destruct (ack_loop _ _ _ _ _ _) as [[q' r] c].
  cbn [fst] in *. rewrite <- Hloop. by case_if.
Qed.

Lemma sack_next q lo hi : next_xmit (fst (fst (sack CAP q lo hi))) = next_xmit q.
Proof.
  assert (Hloop : forall n q l r i m c, next_xmit (fst (fst (sack_loop CAP n q l r i m c))) = next_xmit q).
  { induction n as [|n IH]; intros q' l r i m c; [done|]. cbn [sack_loop]. case_match; [|done]. case_if; [done|].
    case_if; [case_match; [by rewrite IH|done]|]. case_if.
    - pose proof (split_next q' i r) as Hs. destruct (split CAP q' i r) as [q1 ok]. cbn [fst] in Hs.
      case_if; [by rewrite IH|done].
    - case_if; rewrite IH; [apply set_flags_next|done]. }
  unfold sack. case_if; [done|]. destruct (get_seg CAP q 0) as [fs|]; [|done]. destruct (last CAP q) as [ls|]; [|done].
  set (l := if seq_lt lo _ then _ else _). set (r := if seq_lt _ hi then _ else _). clearbody l r. cbv zeta.
  case_if; [done|]. destruct (find CAP q l) as [i|]; [|done]. destruct (get_seg CAP q i) as [s|]; [|apply Hloop].
  case_if; [|apply Hloop]. pose proof (split_next q i l) as Hs. destruct (split CAP q i l) as [q1 ok].
  cbn [fst] in Hs. case_if; by rewrite Hloop.
Qed.

Lemma foldl_next (op : t -> Z -> t) idx : (forall q i, next_xmit (op q i) = next_xmit q) ->
  forall q, next_xmit (foldl op q idx) = next_xmit q.
Proof. intros Hop. induction idx as [|i idx IH]; intros q; [done|]. cbn [foldl]. by rewrite IH. Qed.

Lemma mark_lost_next q i : next_xmit (mark_lost CAP q i) = next_xmit q.
Proof. unfold mark_lost. case_match; [|done]. case_if; [apply set_flags_next|done]. Qed.

Lemma mark_all_lost_next q : next_xmit (mark_all_lost CAP q) = next_xmit q.
Proof. apply foldl_next. apply mark_lost_next. Qed.

Lemma unmark_lost_next q : next_xmit (unmark_lost CAP q) = next_xmit q.
Proof.
  apply foldl_next. intros q' i. unfold unmark_one. case_match; [|done]. case_if; [apply set_flags_next|done].
Qed.

Lemma clear_sacked_next q : next_xmit (clear_sacked CAP q) = next_xmit q.
Proof.
  apply foldl_next. intros q' i. unfold clear_sacked_one. case_match; [|done]. case_if; [apply set_flags_next|done].
Qed.

Lemma next_lost_next q : next_xmit (fst (next_lost CAP q)) = next_xmit q.
Proof.
  unfold next_lost. generalize (lost_hint q). generalize (S (Z.to_nat (len q))). intros n.
  induction n as [|n IH]; intros i; [done|]. cbn [next_lost_loop]. case_match; [|done]. case_if; [done|apply IH].
Qed.

Lemma retransmitted_next q i now sent s :
  get_seg CAP q i = Some s -> get_seg CAP (set_state CAP q i (retrans_flags s sent) sent) i <> None ->
  next_xmit (retransmitted CAP q i now sent) = wadd32 (next_xmit q) 1.
Proof.
  intros Hg Hn. unfold retransmitted. rewrite Hg. fold (retrans_flags s sent).
  destruct (get_seg CAP (set_state CAP q i (retrans_flags s sent) sent) i); [|done].
  cbn [next_xmit set_next_xmit]. by rewrite set_state_next.
Qed.

End Counter.
End RtxXmit.
