(* ===== verification/RtxSpec.v ===== *)
(** * What the retransmission queue promises

    The queue's self-check [debug_valid] holds after every operation, and the
    operations do what their callers rely on: cumulative and selective
    acknowledgement, loss marking and the searches. *)
From S2P Require Import Prelude Seq RtxQueue RtxBits RtxProofs RtxSplit RtxOps RtxAck RtxSack RtxXmit.

Module RtxSpec.
Import seg_flags Rtx RtxBits RtxProofs RtxSplit RtxOps RtxAck RtxSack RtxXmit.

Section Valid.
Variables (CAP W : Z).
Hypothesis HW : 1 <= W <= SACK_WORDS.
Hypothesis HCAP : CAP = 64 * W.

(** ** The self-check *)

Lemma entry_valid_ok q a l i s e :
  slots CAP q l -> good a l -> get l i = Some s -> (e = None \/ e = Some (Seg.start s)) ->
  entry_valid CAP q i s e = true.
Proof using HW HCAP.
  intros Hsl Hgd Hg He. pose proof (get_forall _ _ _ _ (gd_ok _ _ Hgd) Hg) as [Hst Hen Hlen Hsk Hev Hpt Hsn].
  unfold entry_valid. rewrite has_LR.
  assert (seq_lt (Seg.start s) (Seg.end_ s) = true) as -> by (unfold Seg.seq_len in Hlen; clear -Hst Hen Hlen; word_lia).
  assert (match e with Some e => Seg.start s =? e | None => true end = true) as ->
    by (destruct He as [-> | ->]; [done|apply Z.eqb_refl]).
  rewrite (sacked_bit_mbit q) by (apply Hsl || by apply (phys_slot CAP W)). fold (lbit CAP q i).
  rewrite (sl_bits _ _ _ Hsl i s Hg), eqb_reflx.
  assert (negb (Seg.has s FIN && negb (i + 1 =? len q)) = true) as ->.
  { rewrite (sl_len _ _ _ Hsl). destruct (Seg.has s FIN) eqn:HF; [|done]. pose proof (gd_fin _ _ Hgd i s Hg HF). lia. }
  rewrite andb_true_r. destruct (Seg.has s PARTIAL).
  - destruct (Hpt eq_refl) as (HR & Hsent & _). rewrite HR, Hev by done.
    destruct (Seg.has s SACKED); [by destruct (Hsk eq_refl); congruence|]. cbn [andb negb orb]. lia.
  - rewrite (Hsn eq_refl). destruct (Seg.has s SACKED).
    + by destruct (Hsk eq_refl) as [-> ->].
    + destruct (Seg.has s RETRANS); [by rewrite Hev|done].
Qed.

Lemma valid_loop_ok n : forall q a l i e A B C,
  slots CAP q l -> good a l -> 0 <= i -> i + Z.of_nat n = zlen l ->
  (e = None \/ e = Some (wadd32 a (ofs l i))) ->
  let k := drop (Z.to_nat i) l in
  valid_loop CAP n q i e A B C = Some (A + csum c_sacked k, B + csum c_lost k, C + csum c_retrans k).
Proof using HW HCAP.
  induction n as [|n IH]; intros q a l i e A B C Hsl Hgd Hi Hn He k; cbn [valid_loop].
  - unfold k. rewrite drop_ge by (unfold zlen in Hn; lia). simpl. by rewrite !Z.add_0_r.
  - rewrite (get_seg_repr CAP q l i) by done. destruct (proj2 (get_is_Some l i)) as [s Hg]; [lia|]. rewrite Hg.
    destruct (good_at a l i s Hgd Hg) as [Hst Hen Hnx _ _ _].
    rewrite (entry_valid_ok q a l i s e) by (try done; by rewrite Hst).
    rewrite (IH q a l (i + 1)) by (done || lia || (right; by rewrite Hen, Hnx)).
    unfold k. apply get_Some in Hg as [_ Hl]. rewrite (drop_S l s _ Hl).
    replace (Z.to_nat (i + 1)) with (S (Z.to_nat i)) by lia. rewrite !csum_cons. f_equal.
    unfold c_sacked at 2, c_lost at 2, c_retrans at 2. f_equal; [f_equal|]; case_if; lia.
Qed.

Lemma debug_valid_ok q a l :
  repr CAP q l -> good a l -> debug_valid CAP q a (wadd32 a (span l)) = true.
Proof using HW HCAP.
  intros [Hsl Hct _] Hgd. pose proof (sl_len _ _ _ Hsl) as Hlen. pose proof (zlen_nonneg l). unfold debug_valid.
  rewrite (valid_loop_ok _ q a l 0 None 0 0 0 Hsl Hgd) by (try done; try lia; by left). cbn [Z.to_nat].
  rewrite drop_0, !Z.add_0_l. destruct Hct as [-> -> ->]. rewrite !Z.eqb_refl. cbn [andb].
  unfold last. rewrite Hlen, !(get_seg_repr CAP q l) by (done || lia).
  destruct (Z.eqb_spec (zlen l) 0) as [Hz|Hnz]; [by case_match|].
  destruct (proj2 (get_is_Some l 0)) as [fs Hfs]; [lia|]. destruct (proj2 (get_is_Some l (zlen l - 1))) as [ls Hls]; [lia|].
  rewrite (get_seg_repr CAP q l) by (done || lia).
  rewrite Hfs, Hls. destruct (good_at a l 0 fs Hgd Hfs) as [Hst _ _ _ _ _]. rewrite ofs_0 in Hst.
  destruct (good_at a l _ ls Hgd Hls) as [_ Hen Hnx _ _ _]. rewrite <- Hnx, ofs_all in Hen by lia.
  rewrite Hen, Z.eqb_refl, Hst, andb_true_r. apply negb_true_iff. clear. word_lia.
Qed.

(** ** Sequences of operations *)

(** The segments in order, as the queue reports them. *)
Definition segments (q : t) : list Seg.t := omap (get_seg CAP q) (seqZ 0 (len q)).

Lemma segments_repr q l : slots CAP q l -> segments q = l.
Proof using.
  intros Hsl. unfold segments. rewrite (sl_len _ _ _ Hsl).
  assert (Hgen : forall k n, (n + length k = length l)%nat -> drop n l = k ->
            omap (get_seg CAP q) (seqZ (Z.of_nat n) (Z.of_nat (length k))) = k).
  { induction k as [|s k IH]; intros n Hn Hd; [done|]. cbn [length]. rewrite seqZ_cons by lia. cbn [omap list_omap].
    assert (Hl : l !! n = Some s) by (rewrite <- (Nat.add_0_r n), <- lookup_drop, Hd; done).
    rewrite (get_seg_repr CAP q l) by (done || lia). unfold get. replace (0 <=? Z.of_nat n) with true by lia.
    rewrite Nat2Z.id, Hl. f_equal. replace (Z.succ (Z.of_nat n)) with (Z.of_nat (S n)) by lia.
    replace (Z.pred (Z.of_nat (S (length k)))) with (Z.of_nat (length k)) by lia.
    apply IH; [cbn [length] in Hn; lia|]. rewrite (drop_S l s n Hl) in Hd. by injection Hd. }
  apply (Hgen l 0%nat); [lia|apply drop_0].
Qed.

(** The calls the connection makes, on the queue between [snd_una] and
    [snd_nxt]. *)
Inductive op :=
  | Push (s : Seg.t) | Ack (u : Z) | SackBlock (left right : Z)
  | MarkLost (i : Z) | MarkAllLost | UnmarkLost | ClearSacked | NextLost
  | Retransmit (i now sent : Z).

Record st := mk_st { st_q : t; st_una : Z; st_nxt : Z }.

Definition init (iss : Z) : st := mk_st (new CAP) iss iss.

Definition step (x : st) (o : op) : st :=
  let q := st_q x in
  let on q' := mk_st q' (st_una x) (st_nxt x) in
  match o with
  | Push s => let '(q', ok) := push CAP q s in mk_st q' (st_una x) (if ok then Seg.end_ s else st_nxt x)
  | Ack u => mk_st (fst (fst (ack_to CAP q u))) u (st_nxt x)
  | SackBlock lft rgt => on (fst (fst (sack CAP q lft rgt)))
  | MarkLost i => on (mark_lost CAP q i)
  | MarkAllLost => on (mark_all_lost CAP q)
  | UnmarkLost => on (unmark_lost CAP q)
  | ClearSacked => on (clear_sacked CAP q)
  | NextLost => on (fst (next_lost CAP q))
  | Retransmit i now sent => on (retransmitted CAP q i now sent)
  end.

(** The callers' side of the contract: data is pushed in order, at most half
    the sequence space is outstanding, no queued segment is 2^31 transmissions
    old, acknowledgements and blocks lie within reach of the window, and only
    unSACKed segments are retransmitted. *)
Definition allowed (x : st) (o : op) : bool :=
  let out := off (st_nxt x) (st_una x) in
  match o with
  | Push s =>
      (Seg.start s =? st_nxt x) && (0 <=? Seg.end_ s) && (Seg.end_ s <? M32)
      && (0 <? Seg.seq_len s) && (out + Seg.seq_len s <? M31)
      && (Z.land (Seg.flags s) (Z.lor (Z.lor SACKED LOST) (Z.lor RETRANS PARTIAL)) =? 0) && (Seg.sent s =? 0)
      && xmit_room (next_xmit (st_q x)) (segments (st_q x))
      && match last CAP (st_q x) with Some y => negb (Seg.has y FIN) | None => true end
  | Ack u => (0 <=? u) && (u <? M32) && (off u (st_una x) <=? out)
  | SackBlock lft rgt =>
      let lo := as_i32 (wsub32 lft (st_una x)) in
      let hi := as_i32 (wsub32 rgt (st_una x)) in
      (0 <=? lft) && (lft <? M32) && (0 <=? rgt) && (rgt <? M32)
      && (out - M31 <? lo) && (lo <? hi) && (hi - lo <? M31)
  | Retransmit i _ sent =>
      match get_seg CAP (st_q x) i with
      | Some s => negb (Seg.has s SACKED) && (0 <=? i) && (0 <=? sent) && (sent <? M16)
                  && ((sent =? 0) || (sent <? Seg.payload_len s))
                  && xmit_room (next_xmit (st_q x)) (segments (st_q x))
      | None => true
      end
  | MarkLost i => 0 <=? i
  | _ => true
  end.

Fixpoint run (x : st) (ops : list op) : option st :=
  match ops with
  | [] => Some x
  | o :: ops' => if allowed x o then run (step x o) ops' else None
  end.

Record inv (x : st) (l : list Seg.t) : Prop := mk_inv {
  iv_repr : repr CAP (st_q x) l;
  iv_good : good (st_una x) l;
  iv_nxt : st_nxt x = wadd32 (st_una x) (span l);
  iv_next : is_u32 (next_xmit (st_q x));
  iv_xmit : xorder (next_xmit (st_q x)) l;
}.

Lemma inv_out x l : inv x l -> off (st_nxt x) (st_una x) = span l.
Proof using.
  intros [_ Hgd -> _ _]. pose proof (gd_span _ _ Hgd). pose proof (span_nonneg l). apply off_wadd32. lia.
Qed.

Lemma span_fmap f l : (forall s, Seg.seq_len (f s) = Seg.seq_len s) -> span (f <$> l) = span l.
Proof using. intros Hf. induction l as [|x l IH]; [done|]. by rewrite fmap_cons, !span_cons, Hf, IH. Qed.

(** A per-segment change over the whole queue. *)
Lemma inv_fmap x l (f : Seg.t -> Seg.t) q' :
  inv x l -> (forall s, seg_ok s -> seg_ok (f s)) ->
  (forall s, Seg.start (f s) = Seg.start s /\ Seg.end_ (f s) = Seg.end_ s /\
             (Seg.has (f s) FIN = true -> Seg.has s FIN = true)) ->
  (forall s, same_xmit s (f s)) -> next_xmit q' = next_xmit (st_q x) ->
  repr CAP q' (f <$> l) -> inv (mk_st q' (st_una x) (st_nxt x)) (f <$> l).
Proof using.
  intros [_ Hgd Hn Hu Hx] Hok Hf Hsame Hnx Hr. split; cbn; rewrite ?Hnx; [done|by apply good_fmap| |done|by apply xorder_fmap].
  rewrite Hn. f_equal. symmetry. apply span_fmap. intros s. unfold Seg.seq_len. by destruct (Hf s) as (-> & -> & _).
Qed.

(** A change of one segment's state. *)
Lemma inv_set x l i s s' q' :
  inv x l -> get l i = Some s -> seg_ok s' ->
  Seg.start s' = Seg.start s -> Seg.end_ s' = Seg.end_ s -> (Seg.has s' FIN = true -> Seg.has s FIN = true) ->
  is_u32 (next_xmit q') -> xorder (next_xmit q') (set_at l i s') ->
  repr CAP q' (set_at l i s') -> inv (mk_st q' (st_una x) (st_nxt x)) (set_at l i s').
Proof using.
  intros [_ Hgd Hn _ _] Hg Hok Hs He Hf Hu Hx Hr. split; cbn; [done|by eapply good_set| |done|done]. rewrite Hn. f_equal.
  assert (Seg.seq_len s' = Seg.seq_len s) as Hl by (unfold Seg.seq_len; by rewrite Hs, He).
  unfold span. rewrite (csum_insert _ _ _ _ _ Hg). lia.
Qed.

Lemma mark_lost_fields s :
  Seg.start (mark_lost_seg s) = Seg.start s /\ Seg.end_ (mark_lost_seg s) = Seg.end_ s /\
  (Seg.has (mark_lost_seg s) FIN = true -> Seg.has s FIN = true).
Proof using. unfold mark_lost_seg, new_state, lost_flags. case_if; [|done]. split_and!; try done. by flag_simp. Qed.

Lemma unmark_fields s :
  Seg.start (unmark_seg s) = Seg.start s /\ Seg.end_ (unmark_seg s) = Seg.end_ s /\
  (Seg.has (unmark_seg s) FIN = true -> Seg.has s FIN = true).
Proof using. unfold unmark_seg, new_state. case_if; [|done]. split_and!; try done. by flag_simp. Qed.

Lemma unsack_fields s :
  Seg.start (unsack_seg s) = Seg.start s /\ Seg.end_ (unsack_seg s) = Seg.end_ s /\
  (Seg.has (unsack_seg s) FIN = true -> Seg.has s FIN = true).
Proof using. unfold unsack_seg, new_state. case_if; [|done]. split_and!; try done. by flag_simp. Qed.

Lemma retrans_fields s now sent x :
  Seg.start (retrans_seg s now sent x) = Seg.start s /\ Seg.end_ (retrans_seg s now sent x) = Seg.end_ s /\
  (Seg.has (retrans_seg s now sent x) FIN = true -> Seg.has s FIN = true).
Proof using.
  unfold retrans_seg, with_xmit, new_state, retrans_flags. split_and!; try done. case_if; by flag_simp.
Qed.

Lemma inv_init iss : is_u32 iss -> inv (init iss) [].
Proof using HW HCAP.
  intros Hi. split; cbn; [by apply (new_repr CAP W)| |change (span []) with 0; word_lia|done|].
  - split; try done. intros i s Hg. by apply get_Some in Hg as [_ ?].
  - split; [intros i s Hg|intros i j s s' _ Hg]; by apply get_Some in Hg as [_ ?].
Qed.

Lemma step_push x l s : inv x l -> allowed x (Push s) = true -> exists k, inv (step x (Push s)) k.
Proof using HW HCAP.
  intros Hinv Hal. pose proof (inv_out x l Hinv) as Hout. destruct Hinv as [Hr Hgd Hn Hu32 Hx].
  cbn [allowed] in Hal. rewrite Hout, (segments_repr _ l) in Hal by apply Hr. apply andb_true_iff in Hal as [Hal Hlast]. bool_facts.
  match goal with H : Z.land _ _ = 0 |- _ => rename H into Hfl end.
  match goal with H : Seg.start s = _ |- _ => rename H into Hst end.
  assert (Hbits : forall b, 0 <= b -> Z.testbit (Z.lor (Z.lor SACKED LOST) (Z.lor RETRANS PARTIAL)) b = true ->
                    Z.testbit (Seg.flags s) b = false).
  { intros b Hb Hm. apply (f_equal (fun z => Z.testbit z b)) in Hfl. rewrite Z.land_spec, Hm, Z.bits_0, andb_true_r in Hfl. done. }
  pose proof (Hbits SB ltac:(done) eq_refl) as BS. pose proof (Hbits LB ltac:(done) eq_refl) as BL.
  pose proof (Hbits RB ltac:(done) eq_refl) as BR. pose proof (Hbits PB ltac:(done) eq_refl) as BP.
  pose proof (gd_base _ _ Hgd) as Hu. pose proof (span_nonneg l).
  assert (Hok : seg_ok s).
  { split; rewrite ?has_S, ?has_L, ?has_R, ?has_P, ?BS, ?BL, ?BR, ?BP; try done; try lia.
    rewrite Hst, Hn. auto with word_range. }
  cbn [step]. destruct (decide (zlen l < CAP)) as [Hlt|Hfull].
  - destruct (push_repr CAP W HW HCAP (st_q x) l s Hr Hlt) as (q' & -> & Hr' & Hnx).
    { split_and!; by rewrite ?has_S, ?has_L, ?has_R. }
    eexists. split; [exact Hr'|..]; cbn [st_una st_nxt].
    + apply push_good; try done; [by rewrite <- Hn|]. intros i y Hy. destruct (Seg.has y FIN) eqn:HF; [|done].
      pose proof (gd_fin _ _ Hgd i y Hy HF) as ->. unfold last in Hlast.
      pose proof (get_lt_Some _ _ _ Hy). rewrite (sl_len _ _ _ (rp_slots _ _ _ Hr)) in Hlast.
      replace (zlen l =? 0) with false in Hlast by lia.
      rewrite (get_seg_repr CAP _ l) in Hlast by (apply Hr || lia). rewrite Hy, HF in Hlast. done.
    + rewrite (seq_len_end s) by apply Hok. rewrite Hst, Hn, wadd32_assoc, span_app, span_cons. f_equal.
      change (span []) with 0. change (Seg.seq_len (with_xmit_seq s _)) with (Seg.seq_len s). lia.
    + cbn [st_q]. rewrite Hnx. auto with word_range.
    + cbn [st_q]. rewrite Hnx. apply (xorder_sent _ l _ (zlen l)); try done.
      * intros j y Hy Hne. rewrite get_snoc in Hy. by replace (j =? zlen l) with false in Hy by lia.
      * intros y Hy. rewrite get_snoc, Z.eqb_refl in Hy. injection Hy as <-. split; [done|right].
        intros j t Hj Ht. apply get_lt_Some in Ht. rewrite zlen_app in Ht. change (zlen [_]) with 1 in Ht. lia.
  - rewrite (push_full CAP (st_q x) l) by (apply Hr || (pose proof (sl_cap _ _ _ (rp_slots _ _ _ Hr)); lia)).
    by exists l.
Qed.

Lemma step_ack x l u : inv x l -> allowed x (Ack u) = true -> exists k, inv (step x (Ack u)) k.
Proof using HW HCAP.
  intros Hinv Hal. pose proof (inv_out x l Hinv) as Hout. destruct Hinv as [Hr Hgd Hn Hu32 Hx].
  cbn [allowed] in Hal. rewrite Hout in Hal. bool_facts. assert (Hu : is_u32 u) by done.
  set (d := off u (st_una x)) in *. assert (Hd : wadd32 (st_una x) d = u) by (by apply wadd32_off).
  pose proof (ack_list_spec l (st_una x) d Hgd) as Hspec. pose proof (ack_to_repr CAP W HW HCAP _ _ l u Hr Hgd Hu) as Hack.
  rewrite Hd in Hspec. pose proof (xorder_ack _ u l Hx) as Hxa. rewrite <- (ack_to_next CAP _ u) in Hxa, Hu32.
  cbn [step]. destruct (ack_list u l) as [[k r] c]. destruct Hack as (q' & Heq & Hr'). rewrite Heq in *. cbn [fst] in *.
  destruct Hspec as [_ Hgk Hsk _]; [unfold d, off in *; word_lia|]. rewrite Hd in Hgk.
  exists k. split; cbn [st_q st_una st_nxt]; try done. rewrite Hn, <- Hd, wadd32_assoc. f_equal. lia.
Qed.

Lemma step_sack x l lft rgt : inv x l -> allowed x (SackBlock lft rgt) = true -> exists k, inv (step x (SackBlock lft rgt)) k.
Proof using HW HCAP.
  intros Hinv Hal. pose proof (inv_out x l Hinv) as Hout. destruct Hinv as [Hr Hgd Hn Hu32 Hx].
  cbn [allowed] in Hal. rewrite Hout in Hal. bool_facts.
  set (lo := as_i32 _) in *. set (hi := as_i32 (wsub32 rgt _)) in *.
  assert (Hlo : wadd32 (st_una x) lo = lft) by (unfold lo; word_lia).
  assert (Hhi : wadd32 (st_una x) hi = rgt) by (unfold hi; word_lia).
  assert (hi < M31) by (unfold hi; word_lia).
  destruct (sack_spec CAP W HW HCAP (st_q x) (st_una x) l lo hi Hr Hgd) as (q' & k & n & c & Heq & Hr' & Hres & _); try lia.
  rewrite Hlo, Hhi in Heq. pose proof (sack_next CAP (st_q x) lft rgt) as Hnx.
  cbn [step]. rewrite Heq in *. cbn [fst] in *. exists k.
  split; cbn [st_q st_una st_nxt]; rewrite ?Hnx; [done|apply Hres|by rewrite Hn, (sr_span _ _ _ _ _ _ _ Hres)|done|].
  apply (sr_stable _ _ _ _ _ _ _ Hres _ (xorder_sack _) Hx).
Qed.

Lemma step_one x l o : inv x l -> allowed x o = true -> exists k, inv (step x o) k.
Proof using HW HCAP.
  intros Hinv Hal. pose proof (iv_good _ _ Hinv) as Hgd. pose proof (iv_repr _ _ Hinv) as Hr.
  pose proof (gd_ok _ _ Hgd) as Hok. pose proof (gd_span _ _ Hgd) as Hsp.
  pose proof (iv_next _ _ Hinv) as Hu. pose proof (iv_xmit _ _ Hinv) as Hx.
  destruct o as [s|u|lft rgt|i| | | | |i now sent].
  - by apply (step_push x l).
  - by apply (step_ack x l).
  - by apply (step_sack x l).
  - cbn [allowed] in Hal. bool_facts. cbn [step]. destruct (get l i) as [s|] eqn:Hg.
    + destruct (mark_lost_fields s) as (? & ? & ?). eexists. apply (inv_set x l i s (mark_lost_seg s)); try done.
      * apply mark_lost_ok. by eapply get_forall.
      * by rewrite mark_lost_next.
      * rewrite mark_lost_next. apply (xorder_set _ l i s); [done|apply same_xmit_mark|done].
      * by apply (mark_lost_repr CAP W).
    + exists l. unfold mark_lost. rewrite (get_seg_repr CAP _ l), Hg by (apply Hr || lia). by destruct x.
  - eexists. apply (inv_fmap x l mark_lost_seg); try done; [apply mark_lost_ok|apply mark_lost_fields|
      apply same_xmit_mark|apply mark_all_lost_next|by apply (mark_all_lost_repr CAP W)].
  - eexists. apply (inv_fmap x l unmark_seg); try done; [apply unmark_ok|apply unmark_fields|
      apply same_xmit_unmark|apply unmark_lost_next|by apply (unmark_lost_repr CAP W)].
  - eexists. apply (inv_fmap x l unsack_seg); try done; [apply unsack_ok|apply unsack_fields|
      apply same_xmit_unsack|apply clear_sacked_next|by apply (clear_sacked_repr CAP W)].
  - exists l. destruct Hinv as [_ _ Hn _ _]. split; cbn [step st_q st_una st_nxt]; rewrite ?next_lost_next; try done. by apply next_lost_spec.
  - cbn [allowed] in Hal. cbn [step]. destruct (get_seg CAP (st_q x) i) as [s|] eqn:Hg.
    + rewrite (segments_repr _ l) in Hal by apply Hr. bool_facts. rewrite (get_seg_repr CAP _ l) in Hg by (apply Hr || lia).
      assert (Hpl : 0 < sent -> sent < Seg.payload_len s) by (intros; match goal with H : _ || _ = true |- _ => apply orb_true_iff in H as [?|?] end; lia).
      destruct (retrans_fields s now sent (next_xmit (st_q x))) as (? & ? & ?).
      pose proof (get_forall _ _ _ _ Hok Hg) as Hs. pose proof (get_lt_Some _ _ _ Hg) as Hi.
      assert (Hnx : next_xmit (retransmitted CAP (st_q x) i now sent) = wadd32 (next_xmit (st_q x)) 1).
      { apply (retransmitted_next CAP _ _ _ _ s); [by rewrite (get_seg_repr CAP _ l) by (apply Hr || lia)|].
        pose proof (set_state_repr CAP W HW HCAP _ l i s _ _ Hr Hok Hsp Hg (retrans_ok s sent Hs ltac:(done) ltac:(lia) Hpl)) as Hr1.
        rewrite (get_seg_repr CAP _ _ i (rp_slots _ _ _ Hr1)), get_set_at_eq by lia. done. }
      eexists. apply (inv_set x l i s (retrans_seg s now sent (next_xmit (st_q x)))); try done.
      * apply with_xmit_ok, retrans_ok; done || lia.
      * rewrite Hnx. auto with word_range.
      * rewrite Hnx. apply (xorder_sent _ l _ i); try done.
        -- intros j y Hy Hne. by rewrite get_set_at_ne in Hy by done.
        -- intros y Hy. rewrite get_set_at_eq in Hy by done. injection Hy as <-. split; [done|left].
           unfold retrans_seg, with_xmit, new_state, retrans_flags. case_if; flag_simp; done.
      * apply (retransmitted_repr CAP W); try done; lia.
    + exists l. unfold retransmitted. rewrite Hg. by destruct x.
Qed.

Lemma run_inv ops : forall x l x', inv x l -> run x ops = Some x' -> exists k, inv x' k.
Proof using HW HCAP.
  induction ops as [|o ops IH]; intros x l x' Hinv Hrun; cbn [run] in Hrun; [injection Hrun as <-; by exists l|].
  destruct (allowed x o) eqn:E; [|done]. destruct (step_one x l o Hinv E) as [k Hk]. by apply (IH (step x o) k).
Qed.

Lemma sacked_lost_disjoint l : Forall seg_ok l -> csum c_sacked l + csum c_lost l <= span l.
Proof using.
  induction 1 as [|s l Hs Hl IH]; [done|]. rewrite !csum_cons, span_cons. destruct Hs as [_ _ Hlen Hsk _ _ _].
  unfold c_sacked at 1, c_lost at 1. destruct (Seg.has s SACKED); [destruct (Hsk eq_refl) as [-> _]; lia|case_if; lia].
Qed.

Lemma sacked_at_cons s l b :
  sacked_at (s :: l) b = if b <? Seg.seq_len s then Seg.has s SACKED else sacked_at l (b - Seg.seq_len s).
Proof using. unfold sacked_at. cbn [seg_at]. by case_if. Qed.

(** Cumulative acknowledgement keeps the marks of what it leaves. *)
Lemma ack_list_sacked : forall l a d b, good a l -> 0 <= d <= b ->
  d <= span l -> sacked_at (fst (fst (ack_list (wadd32 a d) l))) (b - d) = sacked_at l b.
Proof using.
  induction l as [|s l IH]; intros a d b Hgd Hd Hds; [done|]. cbn [ack_list].
  pose proof (good_head _ _ _ Hgd) as Hst. pose proof (good_tail _ _ _ Hgd) as Hgt. rewrite span_cons in Hds.
  pose proof (gd_span _ _ Hgd) as Hsp. rewrite span_cons in Hsp. pose proof (span_nonneg l).
  pose proof (Forall_inv (gd_ok _ _ Hgd)) as Hs. pose proof (so_len s Hs) as Hlen. pose proof (gd_base _ _ Hgd) as Ha.
  assert (He : Seg.end_ s = wadd32 a (Seg.seq_len s)) by (rewrite (seq_len_end s), Hst by apply Hs; done).
  assert (H0 : a = wadd32 a 0) by word_lia.
  assert (seq_le (Seg.end_ s) (wadd32 a d) = (Seg.seq_len s <=? d)) as -> by (rewrite He; apply seq_le_offset; lia).
  assert (E2 : seq_lt (Seg.start s) (wadd32 a d) = (0 <? d)) by (rewrite Hst; rewrite H0 at 1; apply seq_lt_offset; lia).
  rewrite E2, sacked_at_cons. destruct (Z.leb_spec (Seg.seq_len s) d).
  - specialize (IH (Seg.end_ s) (d - Seg.seq_len s) (b - Seg.seq_len s) Hgt ltac:(lia) ltac:(lia)).
    replace (wadd32 (Seg.end_ s) (d - Seg.seq_len s)) with (wadd32 a d) in IH by (rewrite He, wadd32_assoc; f_equal; lia).
    destruct (ack_list _ l) as [[k r] c]. cbn [fst] in *. replace (b <? Seg.seq_len s) with false by lia. rewrite <- IH. f_equal. lia.
  - destruct (0 <? d) eqn:E; cbn [fst]; bool_facts.
    + assert (Hin : inside s (wadd32 a d) = true).
      { unfold inside. rewrite E2, He, seq_lt_offset by lia. lia. }
      assert (Hat : is_u32 (wadd32 a d)) by auto with word_range.
      destruct (halves_len s _ Hs Hat Hin) as (_ & _ & Hu). destruct (upper_fields s (wadd32 a d)) as (_ & _ & Hul).
      change (trim s (wadd32 a d)) with (split_upper s (wadd32 a d)). rewrite sacked_at_cons, Hul, Hu.
      assert (wsub32 (wadd32 a d) (Seg.start s) = d) as -> by (rewrite Hst; word_lia).
      destruct (upper_ok s _ Hs Hat Hin) as (_ & _ & -> & _).
      replace (b - d <? Seg.seq_len s - d) with (b <? Seg.seq_len s) by lia. case_if; [done|]. f_equal. lia.
    + replace d with 0 by lia. rewrite Z.sub_0_r. apply sacked_at_cons.
Qed.

(** ** The promises *)

(** The states the connection can bring the queue to. *)
Definition reachable (iss : Z) (x : st) : Prop := is_u32 iss /\ exists ops, run (init iss) ops = Some x.

Lemma reachable_inv iss x : reachable iss x -> inv x (segments (st_q x)).
Proof using HW HCAP.
  intros [Hiss [ops Hrun]]. destruct (run_inv ops (init iss) [] x (inv_init iss Hiss) Hrun) as [k Hk].
  by rewrite (segments_repr _ k) by apply Hk.
Qed.


(** C30 [sack] on a block from [lo] to [hi] bytes above [snd_una]: no byte
    outside the block is newly marked, no mark is lost, the returned count is
    the growth of the SACKed counter and the sum of the segments handed to
    the callback; with two free slots for the splits, exactly the block's
    bytes are marked. *)
Theorem sack_marks_block iss x lo hi :
  reachable iss x ->
  let out := off (st_nxt x) (st_una x) in
  let q := st_q x in
  out - M31 < lo -> lo < hi < M31 -> hi - lo < M31 ->
  let '(q', n, c) := sack CAP q (wadd32 (st_una x) lo) (wadd32 (st_una x) hi) in
  (forall b, 0 <= b -> sacked_at (segments q') b = true -> sacked_at (segments q) b = true \/ lo <= b < hi) /\
  (forall b, 0 <= b -> sacked_at (segments q) b = true -> sacked_at (segments q') b = true) /\
  (len q + 2 <= CAP -> forall b, 0 <= b < out ->
     sacked_at (segments q') b = sacked_at (segments q) b || ((lo <=? b) && (b <? hi))) /\
  sacked q' = sacked q + n /\ csum Seg.seq_len c = n /\
  debug_valid CAP q' (st_una x) (st_nxt x) = true.
Proof using HW HCAP.
  intros Hre out q Hlo Hhi Hd. pose proof (reachable_inv iss x Hre) as Hinv. pose proof (inv_out _ _ Hinv) as Hout.
  destruct Hinv as [Hr Hgd Hn _ _]. unfold out, q in *. rewrite Hout in *.
  destruct (sack_spec CAP W HW HCAP (st_q x) (st_una x) _ lo hi Hr Hgd) as (q' & k & n & c & -> & Hr' & Hres & Hdone); try lia.
  rewrite (segments_repr q' k) by apply Hr'. destruct Hres as [Hgk Hsk Hso Hmo Hct Hca _ _].
  split; [done|]. split; [done|]. split.
  - intros Hroom b Hb. rewrite (sl_len _ _ _ (rp_slots _ _ _ Hr)) in Hroom. apply eq_true_iff_eq.
    rewrite orb_true_iff, andb_true_iff, Z.leb_le, Z.ltb_lt. split; [by apply Hso; lia|].
    intros [Hs|Hs]; [by apply Hmo; [lia|]|by apply Hdone].
  - split; [by rewrite (ct_sacked _ _ (rp_counts _ _ _ Hr')), (ct_sacked _ _ (rp_counts _ _ _ Hr))|]. split; [done|].
    rewrite Hn, <- Hsk. by apply debug_valid_ok.
Qed.

(** C31 [ack_to] with an acknowledgement [d] bytes above [snd_una]: it removes
    exactly [d] bytes from the front, reports to the callback the segments
    with at least one acknowledged byte, in order, and leaves every mark above. *)
Theorem ack_removes_prefix iss x d :
  reachable iss x ->
  let out := off (st_nxt x) (st_una x) in
  let q := st_q x in
  0 <= d <= out ->
  let '(q', removed, calls) := ack_to CAP q (wadd32 (st_una x) d) in
  removed = d /\ span (segments q') = out - d /\
  (forall b, d <= b -> sacked_at (segments q') (b - d) = sacked_at (segments q) b) /\
  (exists n, calls = ack_call <$> take (Z.to_nat n) (segments q) /\
     d <= ofs (segments q) n /\ (0 < n -> ofs (segments q) (n - 1) < d)) /\
  debug_valid CAP q' (wadd32 (st_una x) d) (st_nxt x) = true.
Proof using HW HCAP.
  intros Hre out q Hd. pose proof (reachable_inv iss x Hre) as Hinv. pose proof (inv_out _ _ Hinv) as Hout.
  destruct Hinv as [Hr Hgd Hn _ _]. unfold out, q in *. rewrite Hout in *.
  pose proof (ack_to_repr CAP W HW HCAP _ _ _ (wadd32 (st_una x) d) Hr Hgd ltac:(auto with word_range)) as Hack.
  pose proof (ack_list_spec _ _ d Hgd Hd) as Hspec.
  pose proof (fun b Hb => ack_list_sacked _ _ d b Hgd Hb ltac:(lia)) as Hsk.
  destruct (ack_list _ _) as [[k r] c]. destruct Hack as (q' & -> & Hr'). cbn [fst] in Hsk.
  rewrite (segments_repr q' k) by apply Hr'. destruct Hspec as [-> Hgk Hspk (m & Hm & -> & Hm1 & Hm2)].
  split; [done|]. split; [done|]. split; [intros b Hb; apply Hsk; lia|]. split; [by exists m|].
  replace (st_nxt x) with (wadd32 (wadd32 (st_una x) d) (span k)); [by apply debug_valid_ok|].
  rewrite wadd32_assoc, Hn. f_equal. lia.
Qed.

(** C32 [next_lost] with its cached start index returns the oldest segment
    marked lost and not yet retransmitted, as a scan of the whole queue would. *)
Theorem next_lost_oldest iss x :
  reachable iss x ->
  let '(q', r) := next_lost CAP (st_q x) in
  first_pending (segments (st_q x)) r /\ segments q' = segments (st_q x).
Proof using HW HCAP.
  intros Hre. destruct (reachable_inv iss x Hre) as [Hr _ _ _ _]. pose proof (next_lost_spec CAP _ _ Hr) as [Hr' Hf].
  destruct (next_lost CAP (st_q x)) as [q' r]. cbn [fst snd] in *. split; [done|]. by apply segments_repr, Hr'.
Qed.

(** C33 [find]'s binary search over the circular array returns the segment
    containing a sequence number, and [None] exactly for numbers outside the
    queue. *)
Theorem find_containing iss x seq :
  reachable iss x ->
  match find CAP (st_q x) seq with
  | Some i => exists s, get (segments (st_q x)) i = Some s /\ off seq (Seg.start s) < Seg.seq_len s
  | None => off (st_nxt x) (st_una x) <= off seq (st_una x)
  end.
Proof using HW HCAP.
  intros Hre. pose proof (reachable_inv iss x Hre) as Hinv. pose proof (inv_out _ _ Hinv) as ->. destruct Hinv as [Hr Hgd Hn _ _].
  pose proof (find_spec CAP _ _ _ seq (rp_slots _ _ _ Hr) Hgd) as Hf. destruct (find CAP (st_q x) seq) as [i|]; [|done].
  destruct Hf as (s & Hg & Hs). exists s. split; [done|]. destruct (good_at _ _ _ _ Hgd Hg) as [-> _ _ _ Hlo Hhi].
  pose proof (gd_span _ _ Hgd) as Hsp. revert Hs Hlo Hhi Hsp. generalize (ofs (segments (st_q x)) i). intros z. word_lia.
Qed.

End Valid.

(** ** Instances *)

(** Four segments across the wrap of the sequence space; the second is split
    by a SACK block, the first is lost and retransmitted. *)
Definition ex_iss : Z := 4294967196.
Definition ex_seg (i : Z) : Seg.t :=
  Seg.mk (wadd32 ex_iss (100 * i)) (wadd32 ex_iss (100 * i + 100)) 0 0 0 0.
Definition ex_ops : list op :=
  [Push (ex_seg 0); Push (ex_seg 1); Push (ex_seg 2); Push (ex_seg 3);
   SackBlock (wadd32 ex_iss 150) (wadd32 ex_iss 200); MarkLost 0; MarkLost 1; NextLost; Retransmit 0 7 40].
Definition ex_state : st := default (init 64 ex_iss) (run 64 (init 64 ex_iss) ex_ops).

Lemma ex_words : 1 <= 1 <= SACK_WORDS.
Proof. by vm_compute. Qed.

Lemma ex_reachable : reachable 64 ex_iss ex_state.
Proof. split; [by vm_compute|]. exists ex_ops. vm_compute. reflexivity. Qed.

Lemma ex_una : st_una ex_state = ex_iss.
Proof. vm_compute. reflexivity. Qed.

Lemma ex_out : off (st_nxt ex_state) (st_una ex_state) = 400.
Proof. vm_compute. reflexivity. Qed.


Lemma sack_marks_block_witness :
  reachable 64 ex_iss ex_state /\
  let '(q', n, c) := sack 64 (st_q ex_state) (wadd32 ex_iss 120) (wadd32 ex_iss 330) in
  sacked q' = sacked (st_q ex_state) + n /\ csum Seg.seq_len c = n.
Proof.
  split; [exact ex_reachable|].
  pose proof (sack_marks_block 64 1 ex_words eq_refl ex_iss ex_state 120 330 ex_reachable) as Hs.
  cbv zeta in Hs. rewrite ex_out, ex_una in Hs. specialize (Hs ltac:(lia) ltac:(lia) ltac:(lia)).
  destruct (sack 64 (st_q ex_state) (wadd32 ex_iss 120) (wadd32 ex_iss 330)) as [[q' n] c].
  destruct Hs as (_ & _ & _ & Hc & Hn & _). split; assumption.
Defined.

Lemma ack_removes_prefix_witness :
  reachable 64 ex_iss ex_state /\
  let '(q', removed, calls) := ack_to 64 (st_q ex_state) (wadd32 ex_iss 170) in removed = 170.
Proof.
  split; [exact ex_reachable|].
  pose proof (ack_removes_prefix 64 1 ex_words eq_refl ex_iss ex_state 170 ex_reachable) as Hs.
  cbv zeta in Hs. rewrite ex_out, ex_una in Hs. specialize (Hs ltac:(lia)).
  destruct (ack_to 64 (st_q ex_state) (wadd32 ex_iss 170)) as [[q' r] c]. destruct Hs as (Hr & _). exact Hr.
Defined.

Lemma next_lost_oldest_witness :
  reachable 64 ex_iss ex_state /\
  let '(q', r) := next_lost 64 (st_q ex_state) in first_pending (segments 64 (st_q ex_state)) r.
Proof.
  split; [exact ex_reachable|].
  pose proof (next_lost_oldest 64 1 ex_words eq_refl ex_iss ex_state ex_reachable) as Hs.
  destruct (next_lost 64 (st_q ex_state)) as [q' r]. destruct Hs as [Hf _]. exact Hf.
Defined.

Lemma ex_find : find 64 (st_q ex_state) (wadd32 ex_iss 160) = Some 2.
Proof. vm_compute. reflexivity. Qed.

Lemma find_containing_witness :
  reachable 64 ex_iss ex_state /\
  exists s, get (segments 64 (st_q ex_state)) 2 = Some s /\ off (wadd32 ex_iss 160) (Seg.start s) < Seg.seq_len s.
Proof.
  split; [exact ex_reachable|].
  pose proof (find_containing 64 1 ex_words eq_refl ex_iss ex_state (wadd32 ex_iss 160) ex_reachable) as Hs.
  rewrite ex_find in Hs. exact Hs.
Defined.

End RtxSpec.
