(* ===== verification/Rack.v ===== *)
(** * RACK loss detection (src/rack.rs).

    The transmit-order comparison, the windowed minimum of the round-trip
    time, the RACK state of RFC 8985 and the loss scan over the
    retransmission queue. *)
From S2P Require Import Prelude Seq RtxQueue.

Definition MIN_RTT_WINDOW_MS : Z := 300000.
Definition DUP_THRESH : Z := 3.

Definition sent_after (x1 seq1 x2 seq2 : Z) : bool :=
  let d := as_i32 (wsub32 x1 x2) in
  (0 <? d) || ((d =? 0) && seq_gt seq1 seq2).

(** [u32::try_from(x).unwrap_or(u32::MAX)] for an unsigned [x]. *)
Definition try_u32 (x : Z) : Z := if x <? M32 then x else M32 - 1.

Module WinMin.

(** The arrays [t] and [v] of the source, cell by cell. *)
Record t := mk {
  t0 : Z; t1 : Z; t2 : Z;
  v0 : Z; v1 : Z; v2 : Z;
  valid : bool;
}.

Definition new : t := mk 0 0 0 0 0 0 false.

Definition get (w : t) : option Z := if valid w then Some (v0 w) else None.

Definition reset (tm v : Z) : t := mk tm tm tm v v v true.

(** [self.t = [self.t[1], self.t[2], t]; self.v = [self.v[1], self.v[2], v]] *)
Definition shift (w : t) (tm v : Z) : t := mk (t1 w) (t2 w) tm (v1 w) (v2 w) v (valid w).

(** [self.t[1] = t; self.v[1] = v; self.t[2] = t; self.v[2] = v] *)
Definition set12 (w : t) (tm v : Z) : t := mk (t0 w) tm tm (v0 w) v v (valid w).

(** [self.t[2] = t; self.v[2] = v] *)
Definition set2 (w : t) (tm v : Z) : t := mk (t0 w) (t1 w) tm (v0 w) (v1 w) v (valid w).

Definition update (w : t) (win tm v : Z) : t :=
  if negb (valid w) || (v <=? v0 w) || (win <? sat_sub tm (t2 w)) then reset tm v else
  let w := if v <=? v1 w then set12 w tm v else if v <=? v2 w then set2 w tm v else w in
  let dt := sat_sub tm (t0 w) in
  if win <? dt then
    let w := shift w tm v in
    if win <? sat_sub tm (t0 w) then shift w tm v else w
  else if (t1 w =? t0 w) && (win / 4 <? dt) then set12 w tm v
  else if (t2 w =? t1 w) && (win / 2 <? dt) then set2 w tm v
  else w.

End WinMin.

Module Rack.
Import seg_flags.

Record t := mk {
  valid : bool;
  xmit_seq : Z;
  end_seq : Z;
  rtt : Z;
  min_rtt : WinMin.t;
  fack : Z;
  fack_valid : bool;
  prior_fack : Z;
  prior_fack_valid : bool;
  reordering_seen : bool;
  reo_wnd_extra : Z;
  reo_wnd_persist : Z;
  dsack_round_active : bool;
  dsack_round : Z;
}.

Definition new : t := mk false 0 0 0 WinMin.new 0 false 0 false false 0 0 false 0.

Definition set_min_rtt r v := mk (valid r) (xmit_seq r) (end_seq r) (rtt r) v (fack r) (fack_valid r) (prior_fack r) (prior_fack_valid r) (reordering_seen r) (reo_wnd_extra r) (reo_wnd_persist r) (dsack_round_active r) (dsack_round r).
Definition set_fack r v b := mk (valid r) (xmit_seq r) (end_seq r) (rtt r) (min_rtt r) v b (prior_fack r) (prior_fack_valid r) (reordering_seen r) (reo_wnd_extra r) (reo_wnd_persist r) (dsack_round_active r) (dsack_round r).
Definition set_prior_fack r v b := mk (valid r) (xmit_seq r) (end_seq r) (rtt r) (min_rtt r) (fack r) (fack_valid r) v b (reordering_seen r) (reo_wnd_extra r) (reo_wnd_persist r) (dsack_round_active r) (dsack_round r).
Definition set_reordering_seen r v := mk (valid r) (xmit_seq r) (end_seq r) (rtt r) (min_rtt r) (fack r) (fack_valid r) (prior_fack r) (prior_fack_valid r) v (reo_wnd_extra r) (reo_wnd_persist r) (dsack_round_active r) (dsack_round r).
Definition set_rtt r v := mk (valid r) (xmit_seq r) (end_seq r) v (min_rtt r) (fack r) (fack_valid r) (prior_fack r) (prior_fack_valid r) (reordering_seen r) (reo_wnd_extra r) (reo_wnd_persist r) (dsack_round_active r) (dsack_round r).
Definition set_segment r x e := mk true x e (rtt r) (min_rtt r) (fack r) (fack_valid r) (prior_fack r) (prior_fack_valid r) (reordering_seen r) (reo_wnd_extra r) (reo_wnd_persist r) (dsack_round_active r) (dsack_round r).
Definition set_reo r e p := mk (valid r) (xmit_seq r) (end_seq r) (rtt r) (min_rtt r) (fack r) (fack_valid r) (prior_fack r) (prior_fack_valid r) (reordering_seen r) e p (dsack_round_active r) (dsack_round r).
Definition set_round r a d := mk (valid r) (xmit_seq r) (end_seq r) (rtt r) (min_rtt r) (fack r) (fack_valid r) (prior_fack r) (prior_fack_valid r) (reordering_seen r) (reo_wnd_extra r) (reo_wnd_persist r) a d.

Definition sample_rtt (r : t) (now v : Z) : t :=
  set_min_rtt r (WinMin.update (min_rtt r) MIN_RTT_WINDOW_MS now v).

Definition on_ack_start (r : t) : t := set_prior_fack r (fack r) (fack_valid r).

(** The retransmission ambiguity filter of step 2: the early returns. *)
Definition ambiguous (r : t) (seg : Seg.t) (seg_rtt : Z) (tsecr_ms : option Z) : bool :=
  Seg.has seg EVER_RETRANS
  && (match tsecr_ms with
      | Some ts => as_i32 (wsub32 ts (as_u32 (Seg.xmit_ts seg))) <? 0
      | None => false
      end
      || match WinMin.get (min_rtt r) with Some m => seg_rtt <? m | None => false end).

Definition on_delivered (r : t) (seg : Seg.t) (now : Z) (tsecr_ms : option Z) : t :=
  let r := if prior_fack_valid r && negb (Seg.has seg EVER_RETRANS) && seq_gt (prior_fack r) (Seg.end_ seg)
           then set_reordering_seen r true else r in
  let r := if negb (fack_valid r) || seq_gt (Seg.end_ seg) (fack r)
           then set_fack r (Seg.end_ seg) true else r in
  let seg_rtt := try_u32 (sat_sub now (Seg.xmit_ts seg)) in
  if ambiguous r seg seg_rtt tsecr_ms then r else
  let r := set_rtt r seg_rtt in
  if negb (valid r) || sent_after (Seg.xmit_seq seg) (Seg.end_ seg) (xmit_seq r) (end_seq r)
  then set_segment r (Seg.xmit_seq seg) (Seg.end_ seg) else r.

Definition on_dsack (r : t) (snd_una snd_nxt : Z) : t :=
  let r := if dsack_round_active r && seq_ge snd_una (dsack_round r)
           then set_round r false (dsack_round r) else r in
  let r := if negb (dsack_round_active r)
           then set_reo (set_round r true snd_nxt) (Z.min (sat_add32 (reo_wnd_extra r) 1) 15) 16 else r in
  set_reordering_seen r true.

Definition on_recovery_exit (r : t) : t :=
  let p := sat_sub (reo_wnd_persist r) 1 in
  set_reo r (if p =? 0 then 0 else reo_wnd_extra r) p.

Definition reo_wnd (r : t) (srtt : Z) (in_recovery : bool) (sacked_bytes mss : Z) : Z :=
  if negb (reordering_seen r) && (in_recovery || (sat_mul32 DUP_THRESH mss <=? sacked_bytes)) then 0 else
  let base := default srtt (WinMin.get (min_rtt r)) / 4 in
  Z.min (sat_mul32 base (reo_wnd_extra r + 1)) (Z.max srtt 1).

Section Detect.
Variable CAP : Z.

(** The loop of [detect_loss] from index [i]. *)
Fixpoint detect_loop (fuel : nat) (r : t) (q : Rtx.t) (now thresh i timeout : Z) (marked : bool)
    : Rtx.t * bool * Z :=
  match fuel with
  | O => (q, marked, timeout)
  | S fuel' =>
      match Rtx.get_seg CAP q i with
      | None => (q, marked, timeout)
      | Some s =>
          if Seg.has s SACKED then
            match Rtx.next_unsacked CAP q (i + 1) with
            | Some j => detect_loop fuel' r q now thresh j timeout marked
            | None => (q, marked, timeout)
            end
          else if Seg.has s LOST && negb (Seg.has s RETRANS) then
            detect_loop fuel' r q now thresh (i + 1) timeout marked
          else if negb (sent_after (xmit_seq r) (end_seq r) (Seg.xmit_seq s) (Seg.end_ s)) then
            if negb (Seg.has s EVER_RETRANS) then (q, marked, timeout)
            else detect_loop fuel' r q now thresh (i + 1) timeout marked
          else
            let deadline := sat_add64 (Seg.xmit_ts s) thresh in
            if deadline <=? now then detect_loop fuel' r (Rtx.mark_lost CAP q i) now thresh (i + 1) timeout true
            else detect_loop fuel' r q now thresh (i + 1) (Z.max timeout (deadline - now)) marked
      end
  end.

Definition detect_loss (r : t) (q : Rtx.t) (now reo_wnd : Z) : Rtx.t * (bool * option Z) :=
  if negb (valid r) then (q, (false, None)) else
  let thresh := sat_add64 (rtt r) reo_wnd in
  let '(q, marked, timeout) := detect_loop (S (Z.to_nat (Rtx.len q))) r q now thresh 0 0 false in
  (q, (marked, if 0 <? timeout then Some timeout else None)).

End Detect.
End Rack.
