(* ===== verification/RackProofs.v ===== *)
(** * RACK loss detection against its specification

    The scan of [detect_loss], with its early exit and its skips over SACKed
    runs, marks exactly the segments RFC 8985 step 5 calls lost; the minimum
    round-trip filter reports recent samples; the reordering window is
    bounded. *)
From S2P Require Import Prelude Seq RtxQueue RtxBits RtxProofs RtxSplit RtxOps RtxAck RtxSack RtxXmit RtxSpec Rack.

Module RackProofs.
Import seg_flags Rtx RtxBits RtxProofs RtxOps RtxSack RtxXmit RtxSpec.

(** ** The loss scan *)

Section Scan.
Variables (r : Rack.t) (now thresh : Z).

(** Outstanding, not already waiting for retransmission, and sent before the
    most recently sent segment known delivered. *)
Definition candidate (s : Seg.t) : bool :=
  negb (Seg.has s SACKED) && negb (pending s)
  && sent_after (Rack.xmit_seq r) (Rack.end_seq r) (Seg.xmit_seq s) (Seg.end_ s).

Definition deadline (s : Seg.t) : Z := sat_add64 (Seg.xmit_ts s) thresh.

Definition overdue (s : Seg.t) : bool := candidate s && (deadline s <=? now).

Definition judge (s : Seg.t) : Seg.t := if overdue s then mark_lost_seg s else s.

(** Time left until a candidate is overdue. *)
Definition delay (s : Seg.t) : Z := if candidate s && negb (deadline s <=? now) then deadline s - now else 0.

Definition max_delay (l : list Seg.t) : Z := foldr (fun s a => Z.max (delay s) a) 0 l.

Definition idle (s : Seg.t) : Prop := overdue s = false /\ delay s = 0.

Lemma idle_not_candidate s : candidate s = false -> idle s.
Proof using. intros H. unfold idle, overdue, delay. by rewrite H. Qed.

Lemma delay_nonneg s : 0 <= delay s.
Proof using. unfold delay. case_if; bool_facts; lia. Qed.

Lemma max_delay_nonneg l : 0 <= max_delay l.
Proof using. induction l as [|s l IH]; simpl; [done|]. pose proof (delay_nonneg s). lia. Qed.

Lemma scan_skip l i j :
  0 <= i <= j -> (forall k s, i <= k < j -> get l k = Some s -> idle s) ->
  existsb overdue (drop (Z.to_nat i) l) = existsb overdue (drop (Z.to_nat j) l) /\
  max_delay (drop (Z.to_nat i) l) = max_delay (drop (Z.to_nat j) l).
Proof using.
  intros Hij Hidle. assert (exists n, j = i + Z.of_nat n) as [n ->] by (exists (Z.to_nat (j - i)); lia).
  revert i Hij Hidle. induction n as [|n IH]; intros i Hij Hidle; [by rewrite Z.add_0_r|].
  specialize (IH (i + 1) ltac:(lia)). replace (i + 1 + Z.of_nat n) with (i + Z.of_nat (S n)) in IH by lia.
  destruct IH as [IH1 IH2]; [intros k s Hk; apply Hidle; lia|].
  destruct (get l i) as [s|] eqn:Hg.
  - destruct (Hidle i s ltac:(lia) Hg) as [Ho Hd]. apply get_Some in Hg as [_ Hl]. rewrite (drop_S l s _ Hl).
    replace (Z.to_nat (i + 1)) with (S (Z.to_nat i)) in IH1, IH2 by lia. cbn [existsb max_delay foldr]. rewrite Ho, Hd.
    fold (max_delay (drop (S (Z.to_nat i)) l)). pose proof (max_delay_nonneg (drop (S (Z.to_nat i)) l)).
    rewrite <- IH1, <- IH2. split; [done|lia].
  - apply get_None in Hg. rewrite !drop_ge by (unfold zlen in Hg; lia). done.
Qed.

Lemma scan_step l i s :
  get l i = Some s ->
  existsb overdue (drop (Z.to_nat i) l) = overdue s || existsb overdue (drop (Z.to_nat (i + 1)) l) /\
  max_delay (drop (Z.to_nat i) l) = Z.max (delay s) (max_delay (drop (Z.to_nat (i + 1)) l)).
Proof using.
  intros [Hi Hl]%get_Some. replace (Z.to_nat (i + 1)) with (S (Z.to_nat i)) by lia. by rewrite (drop_S l s _ Hl).
Qed.

(** The list with the segments below [i] judged. *)
Definition judged (i : Z) (l : list Seg.t) : list Seg.t :=
  (judge <$> take (Z.to_nat i) l) ++ drop (Z.to_nat i) l.

Lemma judged_get i j l : 0 <= i <= j -> i <= zlen l -> get (judged i l) j = get l j.
Proof using.
  intros Hij Hi. unfold judged. rewrite get_app.
  assert (Hz : zlen (judge <$> take (Z.to_nat i) l) = i) by (unfold zlen in *; rewrite length_fmap, length_take; lia).
  rewrite Hz. replace (j <? i) with false by lia. rewrite get_drop by lia.
  replace (0 <=? j - i) with true by lia. f_equal. lia.
Qed.

Lemma judged_step i l s : get l i = Some s -> judged (i + 1) l = set_at (judged i l) i (judge s).
Proof using.
  intros Hg. pose proof (get_lt_Some _ _ _ Hg) as Hi. apply get_Some in Hg as [_ Hl]. unfold judged, set_at.
  replace (0 <=? i) with true by lia. replace (Z.to_nat (i + 1)) with (S (Z.to_nat i)) by lia.
  assert (Hz : length (judge <$> take (Z.to_nat i) l) = Z.to_nat i) by (rewrite length_fmap, length_take; unfold zlen in Hi; lia).
  rewrite insert_app_r_alt, Hz, Nat.sub_diag by lia. rewrite (drop_S l s _ Hl), (take_S_r l _ s Hl), fmap_app.
  cbn [insert list_insert]. by rewrite <- (assoc_L (++)).
Qed.

Lemma judged_idle i l s : get l i = Some s -> overdue s = false -> judged (i + 1) l = judged i l.
Proof using.
  intros Hg Ho. pose proof (get_lt_Some _ _ _ Hg) as Hi. rewrite (judged_step i l s Hg). unfold judge. rewrite Ho. apply set_at_same.
  by rewrite judged_get by lia.
Qed.

Lemma judged_skip i j l :
  0 <= i <= j -> j <= zlen l -> (forall m s, i <= m < j -> get l m = Some s -> idle s) -> judged j l = judged i l.
Proof using.
  intros Hij Hj Hidle. assert (exists n, j = i + Z.of_nat n) as [n ->] by (exists (Z.to_nat (j - i)); lia).
  induction n as [|n IH]; [by rewrite Z.add_0_r|]. replace (i + Z.of_nat (S n)) with (i + Z.of_nat n + 1) in * by lia.
  destruct (proj2 (get_is_Some l (i + Z.of_nat n))) as [s Hs]; [lia|].
  rewrite (judged_idle _ _ s Hs) by (apply (Hidle (i + Z.of_nat n) s); [lia|done]). apply IH; [|lia|lia].
  intros m u Hm. apply Hidle. lia.
Qed.

Lemma judged_all l : judged (zlen l) l = judge <$> l.
Proof using. unfold judged, zlen. rewrite Nat2Z.id, take_ge, drop_ge, app_nil_r by lia. done. Qed.

Lemma judge_len s : Seg.seq_len (judge s) = Seg.seq_len s.
Proof using. unfold judge, mark_lost_seg. by repeat case_if. Qed.

Lemma judged_ok i l : Forall seg_ok l -> Forall seg_ok (judged i l) /\ span (judged i l) = span l.
Proof using.
  intros Hok. unfold judged. split.
  - apply Forall_app. split; [apply Forall_fmap|by apply Forall_drop]. eapply Forall_impl; [by apply Forall_take|].
    intros s Hs. unfold compose, judge. case_if; [by apply mark_lost_ok|done].
  - rewrite span_app, span_fmap by apply judge_len. by rewrite <- span_app, take_drop.
Qed.

Definition before (s : Seg.t) : bool := sent_after (Rack.xmit_seq r) (Rack.end_seq r) (Seg.xmit_seq s) (Seg.end_ s).

(** A never-retransmitted segment that is not before RACK.segment has no
    later one before it either. *)
Definition stops (l : list Seg.t) : Prop :=
  forall i j s s', i < j -> get l i = Some s -> get l j = Some s' ->
    Seg.has s EVER_RETRANS = false -> before s = false -> before s' = false.

Section Loop.
Variables (CAP W : Z).
Hypothesis HW : 1 <= W <= SACK_WORDS.
Hypothesis HCAP : CAP = 64 * W.
Variables (a : Z) (l : list Seg.t).
Hypothesis Hgd : good a l.
Hypothesis Hstops : stops l.

(** The result of the scan from index [i]. *)
Definition scanned (i timeout : Z) (marked : bool) (res : t * bool * Z) : Prop :=
  exists q, res = (q, marked || existsb overdue (drop (Z.to_nat i) l), Z.max timeout (max_delay (drop (Z.to_nat i) l))) /\
    repr CAP q (judge <$> l).

Lemma scanned_end q i timeout marked :
  0 <= i <= zlen l -> 0 <= timeout -> repr CAP q (judged i l) -> (forall m s, i <= m -> get l m = Some s -> idle s) ->
  scanned i timeout marked (q, marked, timeout).
Proof using.
  intros Hi Ht Hr Hidle. exists q.
  rewrite <- judged_all, (judged_skip i (zlen l)) by (lia || (intros m s Hm; apply Hidle; lia)). split; [|done].
  destruct (scan_skip l i (zlen l)) as [-> ->]; [lia|intros m s Hm; apply Hidle; lia|].
  rewrite drop_ge by (unfold zlen; lia). simpl. rewrite orb_false_r. f_equal. lia.
Qed.

Lemma scanned_skip i j timeout marked res :
  0 <= i <= j -> (forall m s, i <= m < j -> get l m = Some s -> idle s) ->
  scanned j timeout marked res -> scanned i timeout marked res.
Proof using.
  intros Hij Hidle (q & -> & Hr). exists q. by destruct (scan_skip l i j Hij Hidle) as [-> ->].
Qed.

Lemma scanned_one i s timeout marked timeout' marked' res :
  get l i = Some s -> marked' = marked || overdue s -> timeout' = Z.max timeout (delay s) ->
  scanned (i + 1) timeout' marked' res -> scanned i timeout marked res.
Proof using.
  intros Hg -> -> (q & -> & Hr). exists q. destruct (scan_step l i s Hg) as [-> ->].
  rewrite orb_assoc, Z.max_assoc. done.
Qed.

Lemma sacked_idle s : Seg.has s SACKED = true -> idle s.
Proof using. intros HS. apply idle_not_candidate. unfold candidate. by rewrite HS. Qed.

Lemma detect_loop_spec fuel : forall q i timeout marked,
  0 <= i <= zlen l -> zlen l - i < Z.of_nat fuel -> 0 <= timeout -> repr CAP q (judged i l) ->
  scanned i timeout marked (Rack.detect_loop CAP fuel r q now thresh i timeout marked).
Proof using HW HCAP Hgd Hstops.
  induction fuel as [|fuel IH]; intros q i timeout marked Hi Hfuel Ht Hr; [lia|]. cbn [Rack.detect_loop].
  rewrite (get_seg_repr CAP q (judged i l)) by (apply Hr || lia). rewrite judged_get by lia.
  destruct (get l i) as [s|] eqn:Hg; cycle 1.
  { apply get_None in Hg. apply scanned_end; try done. intros m s Hm Hs. apply get_lt_Some in Hs. lia. }
  pose proof (get_lt_Some _ _ _ Hg) as Hil. fold (before s).
  assert (Hskip1 : idle s -> scanned (i + 1) timeout marked (Rack.detect_loop CAP fuel r q now thresh (i + 1) timeout marked) ->
            scanned i timeout marked (Rack.detect_loop CAP fuel r q now thresh (i + 1) timeout marked)).
  { intros Hid. apply scanned_skip; [lia|]. intros m u Hm Hu. assert (m = i) as -> by lia. congruence. }
  assert (Hnext : forall q', overdue s = false -> repr CAP q' (judged i l) -> repr CAP q' (judged (i + 1) l))
    by (intros q' Ho; by rewrite (judged_idle i l s Hg Ho)).
  destruct (Seg.has s SACKED) eqn:ES.
  - pose proof (next_unsacked_spec CAP W q HW HCAP (sl_map _ _ _ (rp_slots _ _ _ Hr)) (i + 1) ltac:(lia)) as Hnu.
    assert (Hzl : zlen (judged i l) = zlen l) by (unfold judged, zlen; rewrite length_app, length_fmap, length_take, length_drop; lia).
    assert (Hrun : forall j, j <= zlen l -> (forall k, i + 1 <= k < j -> lbit CAP q k = true) ->
              forall m u, i <= m < j -> get l m = Some u -> idle u).
    { intros j Hj Hbit m u Hm Hu. apply sacked_idle. destruct (decide (m = i)) as [->|]; [congruence|].
      rewrite <- (sl_bits _ _ _ (rp_slots _ _ _ Hr) m u) by (by rewrite judged_get by lia). apply Hbit. lia. }
    rewrite (sl_len _ _ _ (rp_slots _ _ _ Hr)), Hzl in Hnu. destruct (next_unsacked CAP q (i + 1)) as [j|].
    + destruct Hnu as (Hj & _ & Hbit). apply (scanned_skip i j); [lia|apply (Hrun j); [lia|done]|].
      apply IH; try lia. rewrite (judged_skip i j) by (lia || (apply Hrun; [lia|done])). done.
    + apply scanned_end; try done. intros m u Hm Hu. apply (Hrun (zlen l) ltac:(lia) Hnu m u); [|done].
      apply get_lt_Some in Hu. lia.
  - fold (pending s). destruct (pending s) eqn:EP.
    { assert (Hid : idle s) by (apply idle_not_candidate; unfold candidate; by rewrite EP, andb_false_r).
      apply Hskip1; [done|]. apply IH; try lia. by apply Hnext; [apply Hid|]. }
    destruct (before s) eqn:EB; cbn [negb].
    + assert (Hcand : candidate s = true) by (unfold candidate; fold (before s); by rewrite ES, EP, EB).
      fold (deadline s). destruct (deadline s <=? now) eqn:ED.
      * assert (Ho : overdue s = true) by (unfold overdue; by rewrite Hcand, ED).
        apply (scanned_one i s timeout marked timeout true); try done.
        -- by rewrite Ho, orb_true_r.
        -- unfold delay. rewrite Hcand, ED. cbn [negb andb]. lia.
        -- apply IH; try lia. rewrite (judged_step i l s Hg). unfold judge. rewrite Ho.
           destruct (judged_ok i l (gd_ok _ _ Hgd)) as [Hok Hsp]. apply (mark_lost_repr CAP W); try done.
           ++ rewrite Hsp. apply Hgd.
           ++ by rewrite judged_get by lia.
      * assert (Ho : overdue s = false) by (unfold overdue; by rewrite ED, andb_false_r).
        assert (Hd : delay s = deadline s - now) by (unfold delay; by rewrite Hcand, ED).
        apply (scanned_one i s timeout marked (Z.max timeout (deadline s - now)) marked); [done|by rewrite Ho, orb_false_r|by rewrite Hd|].
        apply IH; try lia. by apply Hnext.
    + assert (Hid : idle s) by (apply idle_not_candidate; unfold candidate; fold (before s); by rewrite EB, andb_false_r).
      destruct (Seg.has s EVER_RETRANS) eqn:EE; cbn [negb].
      * apply Hskip1; [done|]. apply IH; try lia. by apply Hnext; [apply Hid|].
      * apply scanned_end; try done. intros m u Hm Hu. destruct (decide (m = i)) as [->|]; [congruence|].
        apply idle_not_candidate. unfold candidate. fold (before u).
        rewrite (Hstops i m s u ltac:(lia) Hg Hu EE EB). by rewrite andb_false_r.
Qed.

End Loop.
End Scan.
(** ** Transmission order gives the early exit *)

(** RACK.segment was sent within the last 2^31 transmissions and its end is
    within reach of the window. *)
Definition rack_near (r : Rack.t) (x : st) : bool :=
  let g := off (next_xmit (st_q x)) (Rack.xmit_seq r) in
  (0 <=? Rack.xmit_seq r) && (Rack.xmit_seq r <? M32) && (0 <=? Rack.end_seq r) && (Rack.end_seq r <? M32)
  && (1 <=? g) && (g <? M31)
  && (off (st_nxt x) (st_una x) - M31 <? as_i32 (wsub32 (Rack.end_seq r) (st_una x))).

Lemma sent_after_age nx a x1 x2 e1 e2 :
  1 <= off nx x1 < M31 -> 1 <= off nx x2 < M31 -> -M31 < e1 - e2 < M31 ->
  sent_after x1 (wadd32 a e1) x2 (wadd32 a e2) =
  (off nx x1 <? off nx x2) || ((off nx x1 =? off nx x2) && (e2 <? e1)).
Proof.
  intros H1 H2 He. unfold sent_after. rewrite seq_gt_offset by done.
  assert (as_i32 (wsub32 x1 x2) = off nx x2 - off nx x1) as -> by (unfold off in *; word_lia).
  destruct (e2 <? e1); rewrite ?andb_false_r, ?andb_true_r; lia.
Qed.

Lemma xorder_stops CAP r x l : inv CAP x l -> rack_near r x = true -> stops r l.
Proof.
  intros Hinv Hnear i j s s' Hij Hi Hj Hev Hb. unfold rack_near in Hnear. cbv zeta in Hnear. rewrite (inv_out CAP x l Hinv) in Hnear. bool_facts.
  destruct Hinv as [_ Hgd _ Hu [Hage Hord]]. pose proof (gd_span _ _ Hgd).
  destruct (good_at _ l i s Hgd Hi) as [_ Hei Hni Hpi Hlo Hhi]. destruct (good_at _ l j s' Hgd Hj) as [_ Hej Hnj Hpos _ Hhj].
  pose proof (ofs_le l (i + 1) j ltac:(lia)). pose proof (Hord i j s s' Hij Hi Hj Hev) as Hle.
  pose proof (Hage i s Hi). pose proof (Hage j s' Hj). unfold age in *.
  set (er := as_i32 (wsub32 (Rack.end_seq r) (st_una x))) in *.
  assert (Her : Rack.end_seq r = wadd32 (st_una x) er) by (unfold er; word_lia).
  assert (er < M31) by (unfold er; word_lia).
  unfold before in *. rewrite Her, Hei in Hb. rewrite Her, Hej.
  rewrite (sent_after_age (next_xmit (st_q x))) in Hb by lia. rewrite (sent_after_age (next_xmit (st_q x))) by lia.
  apply orb_false_iff in Hb as [Hb1 Hb2]. lia.
Qed.

(** C34 RACK step 5: [detect_loss] marks lost exactly the outstanding segments
    sent before RACK.segment whose deadline [xmit_ts + rtt + reo_wnd] has
    passed, as a scan of every segment would (neither the early exit nor the
    skips over SACKed runs lose one); it reports whether it marked any, and
    the time until the last remaining candidate is overdue. *)
Theorem detect_loss_exact CAP W iss x r now reo :
  1 <= W <= SACK_WORDS -> CAP = 64 * W -> reachable CAP iss x -> rack_near r x = true -> Rack.valid r = true ->
  let thresh := sat_add64 (Rack.rtt r) reo in
  let '(q', (marked, timeout)) := Rack.detect_loss CAP r (st_q x) now reo in
  segments CAP q' = judge r now thresh <$> segments CAP (st_q x) /\
  marked = existsb (overdue r now thresh) (segments CAP (st_q x)) /\
  timeout = (let d := max_delay r now thresh (segments CAP (st_q x)) in if 0 <? d then Some d else None).
Proof.
  intros HW HCAP Hre Hnear Hv thresh. pose proof (reachable_inv CAP W HW HCAP iss x Hre) as Hinv.
  pose proof (xorder_stops CAP r x _ Hinv Hnear) as Hst. set (l := segments CAP (st_q x)) in *.
  unfold Rack.detect_loss. rewrite Hv. cbn [negb]. fold thresh.
  destruct (detect_loop_spec r now thresh CAP W HW HCAP (st_una x) l (iv_good _ _ _ Hinv) Hst
              (S (Z.to_nat (len (st_q x)))) (st_q x) 0 0 false) as (q' & -> & Hr').
  - pose proof (zlen_nonneg l). lia.
  - rewrite (sl_len _ _ _ (rp_slots _ _ _ (iv_repr _ _ _ Hinv))). pose proof (zlen_nonneg l). lia.
  - lia.
  - unfold judged. cbn [Z.to_nat take fmap list_fmap app]. rewrite drop_0. apply Hinv.
  - cbn [Z.to_nat]. rewrite drop_0. split; [by apply segments_repr, Hr'|]. split; [done|].
    pose proof (max_delay_nonneg r now thresh l). rewrite Z.max_r by lia. done.
Qed.

(** One segment was delivered by SACK; the two sent before it are judged at
    time 130 with a 60 ms round trip and a 15 ms reordering window. *)
Definition ex_rack : Rack.t := Rack.mk true 2 (wadd32 ex_iss 300) 60 WinMin.new 0 false 0 false false 0 0 false 0.
Definition ex_sent (i ts : Z) : Seg.t :=
  Seg.mk (wadd32 ex_iss (100 * i)) (wadd32 ex_iss (100 * i + 100)) ts 0 0 0.
Definition ex_rack_ops : list op :=
  [Push (ex_sent 0 50); Push (ex_sent 1 58); Push (ex_sent 2 60); Push (ex_sent 3 61);
   SackBlock (wadd32 ex_iss 200) (wadd32 ex_iss 300)].
Definition ex_rack_state : st := default (init 64 ex_iss) (run 64 (init 64 ex_iss) ex_rack_ops).

Lemma ex_rack_reachable : reachable 64 ex_iss ex_rack_state.
Proof. split; [by vm_compute|]. exists ex_rack_ops. vm_compute. reflexivity. Qed.

Lemma detect_loss_exact_witness :
  reachable 64 ex_iss ex_rack_state /\
  let '(q', (marked, timeout)) := Rack.detect_loss 64 ex_rack (st_q ex_rack_state) 130 15 in
  marked = existsb (overdue ex_rack 130 75) (segments 64 (st_q ex_rack_state)).
Proof.
  split; [exact ex_rack_reachable|].
  pose proof (detect_loss_exact 64 1 ex_iss ex_rack_state ex_rack 130 15 ex_words eq_refl ex_rack_reachable
    ltac:(vm_compute; reflexivity) eq_refl) as Hd. cbv zeta in Hd.
  destruct (Rack.detect_loss 64 ex_rack (st_q ex_rack_state) 130 15) as [q' [m t]].
  destruct Hd as (_ & Hm & _). exact Hm.
Defined.

(** ** The windowed minimum *)

(** The filter after a history of (time, value) samples. *)
Definition min_of (win : Z) (hist : list (Z * Z)) : WinMin.t :=
  foldl (fun w '(tm, v) => WinMin.update w win tm v) WinMin.new hist.

(** The sample [(tm, v)] occurs in the history and nothing after it is lower. *)
Definition anchored (hist : list (Z * Z)) (tm v : Z) : Prop :=
  exists pre post, hist = pre ++ (tm, v) :: post /\ Forall (fun s => v <= snd s) post.

Record filtered (win now : Z) (hist : list (Z * Z)) (w : WinMin.t) : Prop := mk_filtered {
  fl_valid : WinMin.valid w = true;
  fl_0 : anchored hist (WinMin.t0 w) (WinMin.v0 w);
  fl_1 : anchored hist (WinMin.t1 w) (WinMin.v1 w);
  fl_2 : anchored hist (WinMin.t2 w) (WinMin.v2 w);
  fl_recent : sat_sub now (WinMin.t0 w) <= win;
}.

Lemma anchored_new hist tm v : anchored (hist ++ [(tm, v)]) tm v.
Proof. by exists hist, []. Qed.

Lemma anchored_keep hist tm v tm' v' : anchored hist tm v -> v <= v' -> anchored (hist ++ [(tm', v')]) tm v.
Proof.
  intros (pre & post & -> & Hp) Hv. exists pre, (post ++ [(tm', v')]). rewrite <- (assoc_L (++)). split; [done|].
  apply Forall_app. split; [done|]. by apply Forall_singleton.
Qed.

Lemma update_filtered win hist w now tm v :
  0 <= win -> (hist = [] /\ w = WinMin.new \/ filtered win now hist w) ->
  filtered win tm (hist ++ [(tm, v)]) (WinMin.update w win tm v).
Proof.
  intros Hwin Hw. pose proof (anchored_new hist tm v) as Hnew.
  assert (Hreset : filtered win tm (hist ++ [(tm, v)]) (WinMin.reset tm v)).
  { split; cbn; try done. unfold sat_sub. lia. }
  unfold WinMin.update. destruct Hw as [[-> ->]|[Hv H0 H1 H2 _]]; [done|]. rewrite Hv. cbn [negb orb].
  destruct (v <=? WinMin.v0 w) eqn:E0; [done|]. destruct (win <? sat_sub tm (WinMin.t2 w)) eqn:E2; [done|].
  cbn [orb]. bool_facts.
  set (w1 := if v <=? WinMin.v1 w then _ else _).
  assert (Hw1 : anchored (hist ++ [(tm, v)]) (WinMin.t0 w1) (WinMin.v0 w1) /\
                anchored (hist ++ [(tm, v)]) (WinMin.t1 w1) (WinMin.v1 w1) /\
                anchored (hist ++ [(tm, v)]) (WinMin.t2 w1) (WinMin.v2 w1) /\
                WinMin.valid w1 = true /\ sat_sub tm (WinMin.t2 w1) <= win).
  { unfold w1. repeat case_if; bool_facts; cbn; split_and!; try done; try (apply anchored_keep; [done|lia]);
      unfold sat_sub in *; lia. }
  clearbody w1. destruct Hw1 as (A0 & A1 & A2 & Hv1 & Ht2).
  repeat case_if; bool_facts; split; cbn in *; try done; lia.
Qed.

Lemma min_of_snoc win hist tm v : min_of win (hist ++ [(tm, v)]) = WinMin.update (min_of win hist) win tm v.
Proof. unfold min_of. by rewrite foldl_app. Qed.

Lemma min_of_filtered win hist : 0 <= win ->
  hist = [] \/ exists now, filtered win now hist (min_of win hist) /\ (fst <$> list.last hist) = Some now.
Proof.
  intros Hwin. induction hist as [|[tm v] hist IH] using rev_ind; [by left|]. right. exists tm.
  rewrite min_of_snoc, last_snoc. split; [|done]. destruct IH as [->|(now & Hf & _)].
  - apply (update_filtered win [] _ tm); auto.
  - apply (update_filtered win hist _ now); auto.
Qed.

(** C35 The minimum round-trip filter: after any non-empty series of samples it
    reports a sample of the series no older than the window, and no later
    sample is lower. *)
Theorem min_rtt_recent_sample hist tm v :
  exists t m pre post,
    WinMin.get (min_of MIN_RTT_WINDOW_MS (hist ++ [(tm, v)])) = Some m /\
    hist ++ [(tm, v)] = pre ++ (t, m) :: post /\ Forall (fun s => m <= snd s) post /\
    m <= v /\ sat_sub tm t <= MIN_RTT_WINDOW_MS.
Proof.
  destruct (min_of_filtered MIN_RTT_WINDOW_MS (hist ++ [(tm, v)]) ltac:(done)) as [He|(now & Hf & Hl)].
  { by apply app_nil in He as [_ ?]. }
  rewrite last_snoc in Hl. injection Hl as <-. destruct Hf as [Hv (pre & post & Heq & Hp) _ _ Hr].
  eexists _, _, pre, post. unfold WinMin.get. rewrite Hv. split_and!; try done.
  destruct post as [|s post] using rev_ind.
  - apply app_inj_tail in Heq as [_ [= _ Hvv]]. lia.
  - clear IHpost. rewrite app_comm_cons, (assoc_L (++)) in Heq. apply app_inj_tail in Heq as [_ Hs].
    apply Forall_app in Hp as [_ Hp]. apply Forall_cons in Hp as [Hp _]. rewrite <- Hs in Hp. exact Hp.
Qed.

(** ** The reordering window *)

(** The growth steps taken stay within the cap of [on_dsack]. *)
Definition reo_ok (r : Rack.t) : Prop := 0 <= Rack.reo_wnd_extra r <= 15.

Inductive rack_op :=
  | SampleRtt (now v : Z) | AckStart | Delivered (s : Seg.t) (now : Z) (tsecr : option Z)
  | Dsack (snd_una snd_nxt : Z) | RecoveryExit.

Definition rack_step (r : Rack.t) (o : rack_op) : Rack.t :=
  match o with
  | SampleRtt now v => Rack.sample_rtt r now v
  | AckStart => Rack.on_ack_start r
  | Delivered s now ts => Rack.on_delivered r s now ts
  | Dsack una nxt => Rack.on_dsack r una nxt
  | RecoveryExit => Rack.on_recovery_exit r
  end.

Lemma rack_step_ok r o : reo_ok r -> reo_ok (rack_step r o).
Proof.
  unfold reo_ok. intros Hr. destruct o; cbn [rack_step]; try done.
  - unfold Rack.on_delivered. by repeat (case_if; try done).
  - unfold Rack.on_dsack. repeat case_if; cbn; unfold sat_add32; lia.
  - unfold Rack.on_recovery_exit. cbn. case_if; lia.
Qed.

Lemma rack_run_ok ops : forall r, reo_ok r -> reo_ok (foldl rack_step r ops).
Proof. induction ops as [|o ops IH]; intros r Hr; [done|]. cbn [foldl]. apply IH. by apply rack_step_ok. Qed.

(** C36 Whatever ACKs, D-SACKs and recoveries a connection has seen, the
    reordering window is at most the smoothed round-trip time (at least 1 ms)
    and at most four times the measured minimum. *)
Theorem reo_wnd_bounded ops srtt in_rec sacked mss :
  let r := foldl rack_step Rack.new ops in
  0 <= srtt -> (forall m, WinMin.get (Rack.min_rtt r) = Some m -> 0 <= m) ->
  0 <= Rack.reo_wnd r srtt in_rec sacked mss <= Z.max srtt 1 /\
  Rack.reo_wnd r srtt in_rec sacked mss <= 4 * default srtt (WinMin.get (Rack.min_rtt r)).
Proof.
  intros r Hs Hm. assert (Hok : reo_ok r) by (by apply rack_run_ok).
  assert (Hb : 0 <= default srtt (WinMin.get (Rack.min_rtt r))).
  { destruct (WinMin.get (Rack.min_rtt r)) as [m|]; [by apply Hm|done]. }
  unfold Rack.reo_wnd. case_if; [lia|]. clear Heqb. clearbody r. revert Hb. generalize (default srtt (WinMin.get (Rack.min_rtt r))).
  intros b Hb. unfold reo_ok in Hok. unfold sat_mul32.
  assert (0 <= b / 4 /\ 4 * (b / 4) <= b) by (Z.div_mod_to_equations; lia).
  assert (0 <= b / 4 * (Rack.reo_wnd_extra r + 1) <= 16 * (b / 4)) by nia. lia.
Qed.

Lemma reo_wnd_bounded_witness :
  let r := foldl rack_step Rack.new [SampleRtt 10 80; SampleRtt 20 60; Dsack 0 1000; Dsack 1000 2000] in
  0 <= Rack.reo_wnd r 70 true 0 1460 <= Z.max 70 1.
Proof.
  apply (reo_wnd_bounded [SampleRtt 10 80; SampleRtt 20 60; Dsack 0 1000; Dsack 1000 2000] 70 true 0 1460).
  - lia.
  - intros m Hm. vm_compute in Hm. injection Hm as <-. lia.
Defined.

End RackProofs.
