(* ===== verification/RtxCover.v ===== *)
(** * What the connection needs of the retransmission queue

    [covers a n fin q]: the queue holds [n] contiguous sequence numbers from
    [a] on, the last of them a FIN when [fin] says so.  Every operation the
    connection uses keeps it, whatever the peer puts into an ACK. *)
From S2P Require Import Prelude Seq RtxQueue RtxBits RtxProofs RtxSplit RtxOps RtxAck RtxSack RtxXmit RtxSpec Rack.

Module RtxCover.
Import seg_flags Rtx RtxBits RtxProofs RtxSplit RtxOps RtxAck RtxSack RtxXmit RtxSpec.

Definition ends_fin (l : list Seg.t) : bool :=
  match get l (zlen l - 1) with Some s => Seg.has s FIN | None => false end.

(** ** Lists *)

Lemma ends_fin_set l i s s' :
  get l i = Some s -> Seg.has s' FIN = Seg.has s FIN -> ends_fin (set_at l i s') = ends_fin l.
Proof.
  intros Hg HF. unfold ends_fin. rewrite zlen_set_at. destruct (decide (i = zlen l - 1)) as [->|Hne].
  - rewrite get_set_at_eq by (by eapply get_lt_Some). by rewrite Hg.
  - by rewrite get_set_at_ne.
Qed.

Lemma ends_fin_fmap l f : (forall s, Seg.has (f s) FIN = Seg.has s FIN) -> ends_fin (f <$> l) = ends_fin l.
Proof.
  intros Hf. unfold ends_fin. unfold zlen. rewrite length_fmap. unfold get. case_if; [|done].
  rewrite list_lookup_fmap. by destruct (l !! _); simpl.
Qed.

Lemma ends_fin_snoc l s : ends_fin (l ++ [s]) = Seg.has s FIN.
Proof.
  unfold ends_fin. rewrite zlen_app. change (zlen [s]) with 1. rewrite get_snoc.
  by replace (zlen l + 1 - 1 =? zlen l) with true by lia.
Qed.

Lemma ends_fin_cons s l : l <> [] -> ends_fin (s :: l) = ends_fin l.
Proof.
  intros Hl. unfold ends_fin. rewrite zlen_cons. assert (0 < zlen l) by (destruct l; [done|unfold zlen; simpl; lia]).
  replace (1 + zlen l - 1) with (zlen l - 1 + 1) by lia. by rewrite get_cons_S by lia.
Qed.

Lemma upper_fin s at_ : Seg.has (split_upper s at_) FIN = Seg.has s FIN.
Proof. unfold split_upper, with_state. repeat case_if; flag_simp; done. Qed.

Lemma ends_fin_split l i s at_ : get l i = Some s -> ends_fin (split_list l i s at_) = ends_fin l.
Proof.
  intros Hg. unfold ends_fin. apply get_lt_Some in Hg as Hi. rewrite split_list_len by done.
  rewrite (split_list_get l i s) by (done || lia).
  replace (zlen l + 1 - 1 <? i) with false by lia. replace (zlen l + 1 - 1 =? i) with false by lia.
  destruct (Z.eqb_spec (zlen l + 1 - 1) (i + 1)) as [E|E].
  - replace (zlen l - 1) with i by lia. by rewrite Hg, upper_fin.
  - by replace (zlen l + 1 - 1 - 1) with (zlen l - 1) by lia.
Qed.

Lemma ends_fin_ack una l : fst (fst (ack_list una l)) <> [] -> ends_fin (fst (fst (ack_list una l))) = ends_fin l.
Proof.
  induction l as [|s l IH]; cbn [ack_list]; [done|].
  destruct (seq_le (Seg.end_ s) una).
  - destruct (ack_list una l) as [[k r] c] eqn:E. cbn [fst] in *. intros Hk. rewrite IH by done.
    symmetry. apply ends_fin_cons. intros ->. cbn in E. by simplify_eq.
  - destruct (seq_lt (Seg.start s) una); [|done]. cbn [fst]. intros _.
    destruct l as [|x l]; [|by rewrite (ends_fin_cons (trim s una)), (ends_fin_cons s)].
    unfold ends_fin. change (Seg.has (trim s una) FIN = Seg.has s FIN). apply upper_fin.
Qed.

(** Every segment's text lies below the FIN. *)
Lemma text_extent a l i s :
  good a l -> get l i = Some s -> ofs l i + Seg.payload_len s <= span l - b2z (ends_fin l).
Proof.
  intros Hgd Hg. destruct (good_at a l i s Hgd Hg) as [_ _ Hn Hpos H0 Hsp]. apply get_lt_Some in Hg as Hi.
  unfold ends_fin, Seg.payload_len, sat_sub. destruct (decide (i = zlen l - 1)) as [->|Hne].
  - rewrite Hg. destruct (Seg.has s FIN); simpl; lia.
  - destruct (proj2 (get_is_Some l (zlen l - 1))) as [y Hy]; [lia|]. rewrite Hy.
    destruct (good_at a l _ y Hgd Hy) as [_ _ _ Hy1 _ Hy2].
    pose proof (ofs_le l (i + 1) (zlen l - 1) ltac:(lia)). destruct (Seg.has s FIN), (Seg.has y FIN); simpl; lia.
Qed.

(** ** The queue *)

Section Cover.
Variables (CAP W : Z).
Hypothesis HW : 1 <= W <= SACK_WORDS.
Hypothesis HCAP : CAP = 64 * W.

Definition covers (a n : Z) (fin : bool) (q : t) : Prop :=
  exists l, repr CAP q l /\ good a l /\ span l = n /\ ends_fin l = fin.

Lemma covers_bounds a n fin q : covers a n fin q -> is_u32 a /\ b2z fin <= n < M31 /\ 0 <= len q <= CAP.
Proof using.
  intros (l & Hr & Hgd & <- & <-). pose proof (sl_len _ _ _ (rp_slots _ _ _ Hr)). pose proof (sl_cap _ _ _ (rp_slots _ _ _ Hr)).
  pose proof (zlen_nonneg l). split; [apply Hgd|]. split; [|lia]. split; [|apply Hgd]. pose proof (span_nonneg l).
  unfold ends_fin. destruct (get l (zlen l - 1)) as [s|] eqn:Hg; [|done].
  destruct (good_at _ _ _ _ Hgd Hg) as [_ _ _ ? ? ?]. destruct (Seg.has s FIN); simpl; lia.
Qed.

Lemma covers_clear a n fin q b : covers a n fin q -> is_u32 b -> covers b 0 false (clear q).
Proof using HW HCAP.
  intros (l & Hr & _) Hb. exists []. split; [by eapply (clear_repr CAP W)|]. split; [|done].
  split; try done. intros i s Hg. by apply get_Some in Hg as [_ ?].
Qed.

Lemma covers_new b : is_u32 b -> covers b 0 false (new CAP).
Proof using HW HCAP.
  intros Hb. exists []. split; [by apply (new_repr CAP W)|]. split; [|done].
  split; try done. intros i s Hg. by apply get_Some in Hg as [_ ?].
Qed.

(** A change of one segment's marks. *)
Lemma covers_set a l i s s' q' :
  good a l -> get l i = Some s -> seg_ok s' -> Seg.start s' = Seg.start s -> Seg.end_ s' = Seg.end_ s ->
  Seg.has s' FIN = Seg.has s FIN -> repr CAP q' (set_at l i s') -> covers a (span l) (ends_fin l) q'.
Proof using.
  intros Hgd Hg Hok Hs He Hf Hr. exists (set_at l i s'). split; [done|].
  split; [eapply good_set; try done; by rewrite Hf|]. split; [|by eapply ends_fin_set].
  assert (Seg.seq_len s' = Seg.seq_len s) as Hl by (unfold Seg.seq_len; by rewrite Hs, He).
  unfold span. rewrite (csum_insert _ _ _ _ _ Hg). lia.
Qed.

Lemma covers_fmap a l f q' :
  good a l -> (forall s, seg_ok s -> seg_ok (f s)) ->
  (forall s, Seg.start (f s) = Seg.start s /\ Seg.end_ (f s) = Seg.end_ s /\ Seg.has (f s) FIN = Seg.has s FIN) ->
  repr CAP q' (f <$> l) -> covers a (span l) (ends_fin l) q'.
Proof using.
  intros Hgd Hok Hf Hr. exists (f <$> l). split; [done|]. split; [|split].
  - apply good_fmap; try done. intros s. destruct (Hf s) as (? & ? & ->). done.
  - apply span_fmap. intros s. unfold Seg.seq_len. by destruct (Hf s) as (-> & -> & _).
  - apply ends_fin_fmap. intros s. apply Hf.
Qed.

Lemma mark_lost_same s :
  Seg.start (mark_lost_seg s) = Seg.start s /\ Seg.end_ (mark_lost_seg s) = Seg.end_ s /\
  Seg.has (mark_lost_seg s) FIN = Seg.has s FIN.
Proof using. unfold mark_lost_seg, new_state, lost_flags. case_if; [|done]. split_and!; try done. by flag_simp. Qed.

Lemma unmark_same s :
  Seg.start (unmark_seg s) = Seg.start s /\ Seg.end_ (unmark_seg s) = Seg.end_ s /\
  Seg.has (unmark_seg s) FIN = Seg.has s FIN.
Proof using. unfold unmark_seg, new_state. case_if; [|done]. split_and!; try done. by flag_simp. Qed.

Lemma unsack_same s :
  Seg.start (unsack_seg s) = Seg.start s /\ Seg.end_ (unsack_seg s) = Seg.end_ s /\
  Seg.has (unsack_seg s) FIN = Seg.has s FIN.
Proof using. unfold unsack_seg, new_state. case_if; [|done]. split_and!; try done. by flag_simp. Qed.

Lemma retrans_same s now sent x :
  Seg.start (retrans_seg s now sent x) = Seg.start s /\ Seg.end_ (retrans_seg s now sent x) = Seg.end_ s /\
  Seg.has (retrans_seg s now sent x) FIN = Seg.has s FIN.
Proof using.
  unfold retrans_seg, with_xmit, new_state, retrans_flags. split_and!; try done. case_if; by flag_simp.
Qed.

Lemma covers_mark_lost a n fin q i : covers a n fin q -> 0 <= i -> covers a n fin (mark_lost CAP q i).
Proof using HW HCAP.
  intros (l & Hr & Hgd & <- & <-) Hi. destruct (get l i) as [s|] eqn:Hg.
  - destruct (mark_lost_same s) as (? & ? & ?). apply (covers_set a l i s (mark_lost_seg s)); try done.
    + apply mark_lost_ok. eapply get_forall; [apply Hgd|done].
    + apply (mark_lost_repr CAP W); try done; apply Hgd.
  - unfold mark_lost. rewrite (get_seg_repr CAP _ l), Hg by (apply Hr || lia). by exists l.
Qed.

Lemma covers_mark_all_lost a n fin q : covers a n fin q -> covers a n fin (mark_all_lost CAP q).
Proof using HW HCAP.
  intros (l & Hr & Hgd & <- & <-). apply (covers_fmap a l mark_lost_seg); [done|apply mark_lost_ok|apply mark_lost_same|].
  apply (mark_all_lost_repr CAP W); try done; apply Hgd.
Qed.

Lemma covers_unmark_lost a n fin q : covers a n fin q -> covers a n fin (unmark_lost CAP q).
Proof using HW HCAP.
  intros (l & Hr & Hgd & <- & <-). apply (covers_fmap a l unmark_seg); [done|apply unmark_ok|apply unmark_same|].
  apply (unmark_lost_repr CAP W); try done; apply Hgd.
Qed.

Lemma covers_clear_sacked a n fin q : covers a n fin q -> covers a n fin (clear_sacked CAP q).
Proof using HW HCAP.
  intros (l & Hr & Hgd & <- & <-). apply (covers_fmap a l unsack_seg); [done|apply unsack_ok|apply unsack_same|].
  apply (clear_sacked_repr CAP W); try done; apply Hgd.
Qed.

Lemma covers_detect_loop fuel : forall r q now th i to mk a n fin, 
  covers a n fin q -> 0 <= i -> covers a n fin (fst (fst (Rack.detect_loop CAP fuel r q now th i to mk))).
Proof using HW HCAP.
  induction fuel as [|fuel IH]; intros r q now th i to mk a n fin Hc Hi; cbn [Rack.detect_loop]; [done|].
  destruct (get_seg CAP q i) as [s|]; [|done]. case_if; [|repeat case_if; try done; apply IH; try lia; try done].
  - destruct Hc as (l & Hr & Hl).
    pose proof (next_unsacked_spec CAP W q HW HCAP (sl_map _ _ _ (rp_slots _ _ _ Hr)) (i + 1) ltac:(lia)) as Hnu.
    assert (Hc : covers a n fin q) by (by exists l).
    destruct (next_unsacked CAP q (i + 1)); [|done]. apply IH; [done|lia].
  - by apply covers_mark_lost.
Qed.

Lemma covers_detect_loss a n fin q r now reo :
  covers a n fin q -> covers a n fin (fst (Rack.detect_loss CAP r q now reo)).
Proof using HW HCAP.
  intros Hc. unfold Rack.detect_loss. case_if; [done|].
  pose proof (covers_detect_loop (S (Z.to_nat (len q))) r q now (sat_add64 (Rack.rtt r) reo) 0 0 false a n fin Hc ltac:(lia)) as H.
  by destruct (Rack.detect_loop _ _ _ _ _ _ _ _ _) as [[? ?] ?].
Qed.

(** What is known of the segment at an index. *)
Record entry (a n : Z) (fin : bool) (s : Seg.t) (o : Z) : Prop := mk_entry {
  en_start : Seg.start s = wadd32 a o;
  en_lo : 0 <= o;
  en_text : o + Seg.payload_len s <= n - b2z fin;
  en_fin : Seg.has s FIN = true -> fin = true /\ o + Seg.payload_len s = n - 1;
  en_len : 0 <= Seg.payload_len s /\ o + Seg.seq_len s <= n;
}.

Lemma covers_entry a n fin q i s :
  covers a n fin q -> 0 <= i -> get_seg CAP q i = Some s -> exists o, entry a n fin s o.
Proof using.
  intros (l & Hr & Hgd & <- & <-) Hi Hg. rewrite (get_seg_repr CAP _ l) in Hg by (apply Hr || lia).
  pose proof (text_extent a l i s Hgd Hg). destruct (good_at _ _ _ _ Hgd Hg) as [Hs _ _ Hl Ho Hsp].
  exists (ofs l i). split; try done; [|unfold Seg.payload_len, sat_sub; lia].
  intros HF. pose proof (gd_fin _ _ Hgd _ _ Hg HF) as ->. unfold ends_fin, Seg.payload_len, sat_sub. rewrite Hg, HF.
  split; [done|]. destruct (good_at _ _ _ _ Hgd Hg) as [_ _ Hn _ _ _].
  rewrite (ofs_all l (_ + 1)) in Hn by lia. simpl. lia.
Qed.

Lemma covers_head a n fin q :
  covers a n fin q ->
  (len q = 0 <-> n = 0) /\ (0 < n -> Seg.start <$> get_seg CAP q 0 = Some a).
Proof using.
  intros (l & Hr & Hgd & <- & <-). rewrite (sl_len _ _ _ (rp_slots _ _ _ Hr)).
  destruct l as [|s l]; [split; [done|]; change (span []) with 0; lia|].
  rewrite (get_seg_repr CAP _ (s :: l)) by (apply Hr || lia).
  destruct (good_at _ _ 0 s Hgd eq_refl) as [Hs _ _ Hl _ Hsp]. rewrite ofs_0 in *. split.
  - rewrite zlen_cons. pose proof (zlen_nonneg l). lia.
  - intros _. simpl. rewrite Hs. pose proof (gd_base _ _ Hgd). f_equal. word_lia.
Qed.

Lemma covers_valid a n fin q : covers a n fin q -> debug_valid CAP q a (wadd32 a n) = true.
Proof using HW HCAP. intros (l & Hr & Hgd & <- & _). by apply (debug_valid_ok CAP W). Qed.

Lemma covers_next_lost a n fin q :
  covers a n fin q ->
  let '(q', r) := next_lost CAP q in
  covers a n fin q' /\
  match r with
  | Some i => 0 <= i /\ exists s, get_seg CAP q' i = Some s /\ Seg.has s SACKED = false
  | None => True
  end.
Proof using.
  intros (l & Hr & Hgd & Hn & Hf). pose proof (next_lost_spec CAP q l Hr) as [Hr' Hp].
  destruct (next_lost CAP q) as [q' [i|]]; cbn [fst snd] in *; (split; [by exists l|]); [|done].
  destruct Hp as [(s & Hg & Hpend) _]. apply get_lt_Some in Hg as Hi. split; [lia|].
  exists s. rewrite (get_seg_repr CAP _ l) by (apply Hr' || lia). split; [done|].
  pose proof (get_forall _ _ _ _ (gd_ok _ _ Hgd) Hg) as Hok. unfold pending in Hpend. bool_facts.
  destruct (Seg.has s SACKED) eqn:E; [|done]. destruct (so_sacked s Hok E). congruence.
Qed.

Lemma sack_keeps_fin fin : sack_stable (fun l => ends_fin l = fin).
Proof using.
  split; intros l i s; [intros at_|]; intros Hg <-; [by apply ends_fin_split|].
  eapply ends_fin_set; [done|]. unfold sack_seg, new_state, sacked_flags. by flag_simp.
Qed.

(** Whatever block the peer reports. *)
Lemma covers_sack a n fin q left right :
  covers a n fin q -> is_u32 left -> is_u32 right -> covers a n fin (fst (fst (sack CAP q left right))).
Proof using HW HCAP.
  intros Hc Hl Hr. pose proof Hc as (l & Hrp & Hgd & Hn & Hf). pose proof (gd_span _ _ Hgd) as Hsp.
  pose proof (span_nonneg l) as Hsp0. rewrite Hn in Hsp, Hsp0.
  unfold sack. case_if; [done|]. bool_facts. destruct (get_seg CAP q 0) as [fs|] eqn:E0; [|done].
  unfold last, is_empty in *. rewrite (sl_len _ _ _ (rp_slots _ _ _ Hrp)) in *. pose proof (zlen_nonneg l).
  destruct (Z.eqb_spec (zlen l) 0) as [|Hnz]; [done|].
  rewrite !(get_seg_repr CAP q l) in * by (apply Hrp || lia).
  destruct (get l (zlen l - 1)) as [ls|] eqn:E1; [|done].
  destruct (good_at a l 0 fs Hgd E0) as [Hst _ _ _ _ _]. rewrite ofs_0 in Hst.
  destruct (good_at a l _ ls Hgd E1) as [_ Hen Hnx _ _ _]. rewrite <- Hnx, ofs_all, Hn in Hen by lia.
  pose proof (gd_base _ _ Hgd) as Ha.
  set (l1 := if seq_lt left (Seg.start fs) then _ else left). set (r1 := if seq_lt (Seg.end_ ls) right then _ else right).
  assert (HL : exists L, l1 = wadd32 a L /\ 0 <= L < M31).
  { exists (off l1 a). unfold l1. rewrite Hst. destruct (seq_lt left (wadd32 a 0)) eqn:E; clear -Ha Hl E; word_lia. }
  assert (HR : exists R, r1 = wadd32 a R /\ n - M31 < R <= n).
  { exists (n - wsub32 (wadd32 a n) r1). unfold r1. rewrite Hen. destruct (seq_lt (wadd32 a n) right) eqn:E; clear -Ha Hr E Hsp Hsp0; word_lia. }
  destruct HL as (L & -> & HL). destruct HR as (R & -> & HR).
  destruct (seq_lt (wadd32 a L) (wadd32 a R)) eqn:Hlr; [|done]. cbn [negb].
  pose proof (find_spec CAP q a l (wadd32 a L) (rp_slots _ _ _ Hrp) Hgd) as Hfind.
  rewrite off_wadd32, Hn in Hfind by lia. destruct (find CAP q (wadd32 a L)) as [i|] eqn:Ei; [|done].
  assert (HLR : 0 <= L < R).
  { destruct Hfind as (s & Hg & Hi). destruct (good_at _ _ _ _ Hgd Hg) as [_ _ _ _ _ Hs]. rewrite Hn in Hs.
    clear -Hlr HL HR Hi Hs Hsp. word_lia. }
  destruct (sack_block CAP W HW HCAP a L R HLR q l Hrp Hgd ltac:(lia)) as (q' & k & m & c & E & Hr' & Hres & _).
  rewrite Ei in E. rewrite E. exists k. split; [done|]. split; [apply Hres|].
  split; [by rewrite (sr_span _ _ _ _ _ _ _ Hres)|]. by apply (sr_stable _ _ _ _ _ _ _ Hres _ (sack_keeps_fin fin)).
Qed.

(** An acknowledgement [d] bytes above the start. *)
Lemma covers_ack a n fin q d :
  covers a n fin q -> 0 <= d <= n ->
  covers (wadd32 a d) (n - d) (fin && (d <? n)) (fst (fst (ack_to CAP q (wadd32 a d)))).
Proof using HW HCAP.
  intros (l & Hr & Hgd & <- & <-) Hd.
  pose proof (ack_list_spec l a d Hgd Hd) as Hspec. pose proof (ack_to_repr CAP W HW HCAP _ _ l _ Hr Hgd (wadd32_range a d)) as Hack.
  pose proof (ends_fin_ack (wadd32 a d) l) as Hfin.
  destruct (ack_list (wadd32 a d) l) as [[k r] c]. destruct Hack as (q' & -> & Hr'). destruct Hspec as [_ Hgk Hsk _].
  cbn [fst] in *. exists k. split_and!; try done. destruct k as [|s k].
  - change (span []) with 0 in Hsk. replace (d <? span l) with false by lia. by rewrite andb_false_r.
  - rewrite Hfin by done. destruct (good_at _ _ 0 s Hgk eq_refl) as [_ _ _ ? ? ?].
    replace (d <? span l) with true by lia. by rewrite andb_true_r.
Qed.

(** A new segment at the end. *)
Lemma covers_push a n q len fin now :
  covers a n false q -> Rtx.len q <> CAP -> 0 <= len -> 0 < len + b2z fin -> n + len + b2z fin < M31 ->
  let s := Seg.mk (wadd32 a n) (wadd32 (wadd32 a n) (len + b2z fin)) now 0 (if fin then FIN else 0) 0 in
  exists q', push CAP q s = (q', true) /\ covers a (n + len + b2z fin) fin q'.
Proof using HW HCAP.
  intros (l & Hr & Hgd & <- & Hf) Hroom Hlen Hpos Hmax s. pose proof (sl_len _ _ _ (rp_slots _ _ _ Hr)) as Hql.
  pose proof (sl_cap _ _ _ (rp_slots _ _ _ Hr)). pose proof (gd_base _ _ Hgd). pose proof (span_nonneg l).
  assert (Hsl : Seg.seq_len s = len + b2z fin) by (unfold Seg.seq_len; cbn; clear -Hpos Hmax H1; word_lia).
  assert (Hfl : Seg.has s SACKED = false /\ Seg.has s LOST = false /\ Seg.has s RETRANS = false /\ Seg.has s PARTIAL = false /\ Seg.has s FIN = fin)
    by (unfold s; destruct fin; done).
  destruct Hfl as (FS & FL & FR & FP & FF).
  assert (Hok : seg_ok s).
  { split; rewrite ?FS, ?FR, ?FP; try done; [apply wadd32_range|apply wadd32_range|lia]. }
  destruct (push_repr CAP W HW HCAP q l s Hr ltac:(lia) ltac:(done)) as (q' & E & Hr' & _).
  exists q'. split; [done|]. eexists. split; [exact Hr'|]. split; [|split].
  - apply push_good; try done; [lia|]. intros i y Hy. destruct (Seg.has y FIN) eqn:HF; [|done].
    pose proof (gd_fin _ _ Hgd i y Hy HF) as ->. unfold ends_fin in Hf. rewrite Hy in Hf. congruence.
  - rewrite span_app, span_cons. change (span []) with 0. change (Seg.seq_len (with_xmit_seq s _)) with (Seg.seq_len s). lia.
  - rewrite ends_fin_snoc. done.
Qed.

Lemma covers_retransmitted a n fin q i s now sent :
  covers a n fin q -> 0 <= i -> get_seg CAP q i = Some s -> Seg.has s SACKED = false -> 0 <= sent < M16 ->
  (0 < sent -> sent < Seg.payload_len s) -> covers a n fin (retransmitted CAP q i now sent).
Proof using HW HCAP.
  intros (l & Hr & Hgd & <- & <-) Hi Hg HS Hsent Hpl. rewrite (get_seg_repr CAP _ l) in Hg by (apply Hr || lia).
  pose proof (get_forall _ _ _ _ (gd_ok _ _ Hgd) Hg) as Hok.
  destruct (retrans_same s now sent (next_xmit q)) as (? & ? & ?).
  apply (covers_set a l i s (retrans_seg s now sent (next_xmit q))); try done.
  - by apply with_xmit_ok, retrans_ok.
  - apply (retransmitted_repr CAP W); try done; apply Hgd.
Qed.

(** Cutting [mss] bytes off the front of a longer segment. *)
Lemma covers_split a n fin q i s mss :
  covers a n fin q -> 0 <= i -> get_seg CAP q i = Some s -> 0 < mss < Seg.payload_len s ->
  let '(q', ok) := split CAP q i (wadd32 (Seg.start s) mss) in
  covers a n fin q' /\
  if ok then exists s', get_seg CAP q' i = Some s' /\ Seg.start s' = Seg.start s /\
    Seg.payload_len s' = mss /\ Seg.has s' FIN = false /\ Seg.has s' SACKED = Seg.has s SACKED
  else q' = q.
Proof using HW HCAP.
  intros Hc Hi Hg Hm. pose proof Hc as (l & Hr & Hgd & Hn & Hf). rewrite (get_seg_repr CAP _ l) in Hg by (apply Hr || lia).
  pose proof (get_forall _ _ _ _ (gd_ok _ _ Hgd) Hg) as Hok. set (at_ := wadd32 _ mss).
  assert (Hin : inside s at_ = true).
  { destruct Hok as [Hu1 Hu2 Hl _ _ _ _]. unfold Seg.payload_len, Seg.seq_len, inside, at_, sat_sub in *. clear -Hm Hu1 Hu2 Hl.
    destruct (Seg.has s FIN); cbn [b2z] in *; word_lia. }
  pose proof (wadd32_range (Seg.start s) mss : is_u32 at_) as Hu.
  destruct (decide (zlen l = CAP)) as [Hfull|Hroom].
  { rewrite (split_fails CAP q l i s at_) by (apply Hr || done || by right). done. }
  pose proof (sl_cap _ _ _ (rp_slots _ _ _ Hr)).
  destruct (split_repr CAP W HW HCAP q l i s at_ Hr (gd_ok _ _ Hgd) (gd_span _ _ Hgd) Hg Hu Hin ltac:(lia))
    as (q' & -> & Hr' & _).
  destruct (halves_len s at_ Hok Hu Hin) as (Hb & HL & HU). destruct (lower_fields s at_) as (Hls & Hle & Hll).
  destruct (upper_fields s at_) as (_ & _ & Hul). destruct (lower_ok s at_ Hok Hu Hin) as (_ & HlF & HlS & _).
  split.
  - exists (split_list l i s at_). split; [done|]. split; [by apply split_good|]. split; [|by rewrite ends_fin_split].
    unfold span in *. rewrite split_csum by done. lia.
  - exists (split_lower s at_). rewrite (get_seg_repr CAP _ _ i (rp_slots _ _ _ Hr')), (split_list_get l i s) by (done || lia).
    replace (i <? i) with false by lia. rewrite Z.eqb_refl. split_and!; try done.
    unfold Seg.payload_len. rewrite HlF, Hll. unfold sat_sub, at_ in *. clear -Hm Hok. simpl.
    destruct Hok as [? ? Hl _ _ _ _]. unfold Seg.payload_len, Seg.seq_len, sat_sub in *.
    destruct (Seg.has s FIN); cbn [b2z] in *; word_lia.
Qed.

End Cover.
End RtxCover.
