(* ===== verification/Congestion.v ===== *)
(** * Congestion control (src/congestion.rs).

    Reno with byte counting, Proportional Rate Reduction during recovery, the
    loss window on a timeout and the undo of spurious reductions. *)
From S2P Require Import Prelude Seq.

Inductive CaState := CaOpen | CaRecovery | CaLoss | CaCwr.

#[export] Instance CaState_eq_dec : EqDecision CaState.
Proof. solve_decision. Defined.

Definition ca_eqb (a b : CaState) : bool := bool_decide (a = b).

(** [crate::MSS] *)
Definition MSS : Z := 1460.

Definition initial_window (mss : Z) : Z :=
  let ten := sat_mul32 mss 10 in
  let two := sat_mul32 mss 2 in
  let lower := if 14600 <? two then two else 14600 in
  if ten <? lower then ten else lower.

Definition INITIAL_WINDOW : Z := initial_window MSS.

(** [i64::try_from(x).unwrap_or(i64::MAX)] for an unsigned [x], and the
    saturating operators of [i64]. *)
Definition try_i64 (x : Z) : Z := if x <? M63 then x else M63 - 1.
Definition sat_i64 (x : Z) : Z := clamp x (- M63) (M63 - 1).

Module Reno.

Record t := mk {
  cwnd : Z;
  ssthresh : Z;
  state : CaState;
  recovery_point : Z;
  ca_acc : Z;
  prr_delivered : Z;
  prr_out : Z;
  recover_fs : Z;
  prior_cwnd : Z;
  prior_ssthresh : Z;
  undo_valid : bool;
  undo_marker : Z;
  undo_retrans : Z;
}.

Definition new (initial_cwnd : Z) : t :=
  mk initial_cwnd ((M32 - 1) / 2) CaOpen 0 0 0 0 1 0 0 false 0 0.

Definition set_cwnd r v := mk v (ssthresh r) (state r) (recovery_point r) (ca_acc r) (prr_delivered r) (prr_out r) (recover_fs r) (prior_cwnd r) (prior_ssthresh r) (undo_valid r) (undo_marker r) (undo_retrans r).
Definition set_ssthresh r v := mk (cwnd r) v (state r) (recovery_point r) (ca_acc r) (prr_delivered r) (prr_out r) (recover_fs r) (prior_cwnd r) (prior_ssthresh r) (undo_valid r) (undo_marker r) (undo_retrans r).
Definition set_state r v := mk (cwnd r) (ssthresh r) v (recovery_point r) (ca_acc r) (prr_delivered r) (prr_out r) (recover_fs r) (prior_cwnd r) (prior_ssthresh r) (undo_valid r) (undo_marker r) (undo_retrans r).
Definition set_recovery_point r v := mk (cwnd r) (ssthresh r) (state r) v (ca_acc r) (prr_delivered r) (prr_out r) (recover_fs r) (prior_cwnd r) (prior_ssthresh r) (undo_valid r) (undo_marker r) (undo_retrans r).
Definition set_ca_acc r v := mk (cwnd r) (ssthresh r) (state r) (recovery_point r) v (prr_delivered r) (prr_out r) (recover_fs r) (prior_cwnd r) (prior_ssthresh r) (undo_valid r) (undo_marker r) (undo_retrans r).
Definition set_prr r d o f := mk (cwnd r) (ssthresh r) (state r) (recovery_point r) (ca_acc r) d o f (prior_cwnd r) (prior_ssthresh r) (undo_valid r) (undo_marker r) (undo_retrans r).
Definition set_undo r c s v m n := mk (cwnd r) (ssthresh r) (state r) (recovery_point r) (ca_acc r) (prr_delivered r) (prr_out r) (recover_fs r) c s v m n.
Definition set_undo_valid r v := set_undo r (prior_cwnd r) (prior_ssthresh r) v (undo_marker r) (undo_retrans r).
Definition set_undo_retrans r n := set_undo r (prior_cwnd r) (prior_ssthresh r) (undo_valid r) (undo_marker r) n.

Definition in_reduction (r : t) : bool :=
  match state r with CaRecovery | CaCwr => true | _ => false end.

Definition in_loss_recovery (r : t) : bool :=
  match state r with CaRecovery | CaLoss => true | _ => false end.

(** Congestion avoidance with byte counting: the tail of [on_ack]. *)
Definition avoid (r : t) (acked mss : Z) : t :=
  let acc := sat_add32 (ca_acc r) acked in
  let w := Z.max (cwnd r) mss in
  if w <=? acc then
    let segs := acc / w in
    set_cwnd (set_ca_acc r (acc - segs * w)) (sat_add32 (cwnd r) (sat_mul32 segs mss))
  else set_ca_acc r acc.

Definition on_ack (r : t) (acked mss : Z) (cwnd_limited : bool) : t :=
  if in_reduction r || (acked =? 0) || negb cwnd_limited then r else
  if cwnd r <? ssthresh r then
    let inc := Z.min acked (ssthresh r - cwnd r) in
    let r := set_cwnd r (sat_add32 (cwnd r) inc) in
    let acked := acked - inc in
    if acked =? 0 then r else avoid r acked mss
  else avoid r acked mss.

Definition begin_reduction (r : t) (st : CaState) (flight snd_nxt mss : Z) : t :=
  let r := set_ssthresh r (Z.max (flight / 2) (sat_mul32 mss 2)) in
  let r := set_state r st in
  let r := set_recovery_point r snd_nxt in
  let r := set_prr r 0 0 (Z.max flight 1) in
  set_ca_acc r 0.

Definition arm_undo (r : t) (snd_una : Z) : t := set_undo r (cwnd r) (ssthresh r) true snd_una 0.

Definition enter_recovery (r : t) (flight snd_una snd_nxt mss : Z) : t :=
  begin_reduction (arm_undo r snd_una) CaRecovery flight snd_nxt mss.

Definition enter_cwr (r : t) (flight snd_nxt mss : Z) : t :=
  begin_reduction (set_undo_valid r false) CaCwr flight snd_nxt mss.

Definition cwr_to_recovery (r : t) : t :=
  match state r with CaCwr => set_state r CaRecovery | _ => r end.

Definition on_retransmit (r : t) : t :=
  if undo_valid r && in_loss_recovery r then set_undo_retrans r (sat_add32 (undo_retrans r) 1) else r.

Definition on_dsack (r : t) (start end_ mss : Z) : t * bool :=
  if negb (undo_valid r) || (undo_retrans r =? 0) || negb (seq_ge start (undo_marker r)) then (r, false) else
  let segs := Z.max (div_ceil (wsub32 end_ start) (Z.max mss 1)) 1 in
  let r := set_undo_retrans r (sat_sub (undo_retrans r) segs) in
  if 0 <? undo_retrans r then (r, false) else
  let r := set_cwnd r (Z.max (cwnd r) (prior_cwnd r)) in
  let r := set_ssthresh r (Z.max (ssthresh r) (prior_ssthresh r)) in
  let r := if in_loss_recovery r then set_state r CaOpen else r in
  let r := set_ca_acc r 0 in
  (set_undo_valid r false, true).

(** How much may be sent on this ACK, before the forced retransmission. *)
Definition prr_sndcnt (r : t) (delivered pipe mss : Z) (safe_ack : bool) : Z :=
  let d := try_i64 (prr_delivered r) in
  let out := try_i64 (prr_out r) in
  if ssthresh r <? pipe then
    let num := sat_mul64 (prr_delivered r) (ssthresh r) in
    let ceil := div_ceil num (Z.max (recover_fs r) 1) in
    sat_i64 (try_i64 ceil - out)
  else
    let limit := Z.max (sat_i64 (d - out)) delivered in
    let limit := if safe_ack then sat_i64 (limit + mss) else limit in
    Z.min limit (ssthresh r - pipe).

Definition prr_update (r : t) (delivered pipe mss : Z) (safe_ack : bool) : t :=
  if negb (in_reduction r) then r else
  let r := set_prr r (sat_add64 (prr_delivered r) delivered) (prr_out r) (recover_fs r) in
  let sndcnt := Z.max (prr_sndcnt r delivered pipe mss safe_ack) 0 in
  let sndcnt := if (prr_out r =? 0) && (sndcnt =? 0) then mss else sndcnt in
  let c := sat_i64 (pipe + sndcnt) in
  set_cwnd r (Z.max (if c <? M32 then c else M32 - 1) mss).

Definition on_send (r : t) (bytes : Z) : t :=
  if in_reduction r then set_prr r (prr_delivered r) (sat_add64 (prr_out r) bytes) (recover_fs r) else r.

Definition on_rto (r : t) (flight snd_una snd_nxt mss : Z) : t :=
  let episode_over := seq_ge snd_una (recovery_point r) in
  let r :=
    if (match state r with CaOpen | CaCwr => true | _ => false end) || episode_over then
      let r := if ca_eqb (state r) CaCwr then set_undo_valid r false else arm_undo r snd_una in
      set_ssthresh r (Z.max (flight / 2) (sat_mul32 mss 2))
    else r in
  let r := set_cwnd r mss in
  let r := set_ca_acc r 0 in
  let r := set_state r CaLoss in
  set_recovery_point r snd_nxt.

Definition maybe_exit (r : t) (snd_una : Z) : t * bool :=
  if ca_eqb (state r) CaOpen || negb (seq_ge snd_una (recovery_point r)) then (r, false) else
  let r := if in_reduction r then set_cwnd r (ssthresh r) else r in
  (set_ca_acc (set_state r CaOpen) 0, true).

Definition on_idle_restart (r : t) (iw : Z) : t :=
  if ca_eqb (state r) CaOpen then set_cwnd r (Z.min (cwnd r) iw) else r.

(** ** Theorems *)

(** Operations, with the arguments the connection passes. *)
Inductive op :=
  | OnAck (acked : Z) (limited : bool)
  | EnterRecovery (flight una nxt : Z)
  | EnterCwr (flight nxt : Z)
  | CwrToRecovery
  | OnRetransmit
  | OnDsack (start end_ : Z)
  | PrrUpdate (delivered pipe : Z) (safe : bool)
  | OnSend (bytes : Z)
  | OnRto (flight una nxt : Z)
  | MaybeExit (una : Z)
  | IdleRestart.

Definition step (mss : Z) (r : t) (o : op) : t :=
  match o with
  | OnAck a l => on_ack r a mss l
  | EnterRecovery f u n => enter_recovery r f u n mss
  | EnterCwr f n => enter_cwr r f n mss
  | CwrToRecovery => cwr_to_recovery r
  | OnRetransmit => on_retransmit r
  | OnDsack s e => fst (on_dsack r s e mss)
  | PrrUpdate d p s => prr_update r d p mss s
  | OnSend b => on_send r b
  | OnRto f u n => on_rto r f u n mss
  | MaybeExit u => fst (maybe_exit r u)
  | IdleRestart => on_idle_restart r (initial_window mss)
  end.

(** A run: each operation with the segment size in force. *)
Definition run (r : t) (ops : list (Z * op)) : t := foldl (fun r '(mss, o) => step mss r o) r ops.

(** The arguments are in the range of their types. *)
Definition arg_ok (o : op) : bool :=
  let u x := (0 <=? x) && (x <? M32) in
  match o with
  | OnAck a _ => u a
  | EnterRecovery f x n | OnRto f x n => u f && u x && u n
  | EnterCwr f n => u f && u n
  | OnDsack a e => u a && u e
  | PrrUpdate d p _ => u d && u p
  | OnSend b => u b
  | MaybeExit x => u x
  | CwrToRecovery | OnRetransmit | IdleRestart => true
  end.

Section Floor.
(** A lower bound of the segment sizes used. *)
Variable lo : Z.
Hypothesis Hlo : 1 <= lo.

Record wf (r : t) : Prop := mk_wf {
  wf_cwnd : lo <= cwnd r < M32;
  wf_ssthresh : 2 * lo <= ssthresh r < M32;
  wf_acc : 0 <= ca_acc r < M32;
  wf_prr : 0 <= prr_delivered r < M64 /\ 0 <= prr_out r < M64 /\ 1 <= recover_fs r < M32;
  wf_undo : undo_valid r = true -> lo <= prior_cwnd r < M32 /\ 2 * lo <= prior_ssthresh r < M32;
  wf_retrans : 0 <= undo_retrans r < M32;
}.

Section Step.
Variable mss : Z.
Hypothesis Hmss : lo <= mss < M16.

Lemma avoid_spec r acked :
  wf r -> 0 < acked < M32 ->
  wf (avoid r acked mss) /\ cwnd r <= cwnd (avoid r acked mss) /\
  cwnd (avoid r acked mss) + ca_acc (avoid r acked mss) <= cwnd r + ca_acc r + acked.
Proof using Hmss Hlo.
  intros [Hc Hs Ha Hp Hu Hr] Hacked. unfold avoid. set (w := Z.max (cwnd r) mss). set (acc := sat_add32 (ca_acc r) acked).
  assert (Hw : cwnd r <= w /\ mss <= w /\ 0 < w) by lia.
  assert (Hacc : 0 <= acc <= ca_acc r + acked /\ acc < M32) by (unfold acc, sat_add32; lia).
  case_if; bool_facts.
  - set (segs := acc / w). assert (Hsegs : 0 <= segs * w <= acc /\ 0 <= segs).
    { unfold segs. split; [|apply Z.div_pos; lia]. pose proof (Z.mul_div_le acc w ltac:(lia)).
      pose proof (Z.div_pos acc w ltac:(lia) ltac:(lia)). nia. }
    assert (Hg : 0 <= segs * mss <= segs * w) by nia. unfold sat_add32, sat_mul32.
    split; [split; cbn; try done; lia|]. cbn. lia.
  - split; [split; cbn; try done; lia|]. cbn. lia.
Qed.

Lemma on_ack_spec r acked limited :
  wf r -> is_u32 acked ->
  let r' := on_ack r acked mss limited in
  wf r' /\ cwnd r <= cwnd r' /\ cwnd r' + ca_acc r' <= cwnd r + ca_acc r + acked.
Proof using Hmss Hlo.
  intros Hwf Hu. unfold on_ack, is_u32 in *. case_if; [cbv zeta; split; [done|lia]|]. apply orb_false_iff in Heqb as [Heqb _].
  apply orb_false_iff in Heqb as [_ E]. bool_facts. case_if; bool_facts; [|apply avoid_spec; [done|lia]].
  set (inc := Z.min acked (ssthresh r - cwnd r)). destruct Hwf as [Hc Hs Ha Hp Hun Hr].
  assert (Hinc : sat_add32 (cwnd r) inc = cwnd r + inc) by (unfold sat_add32, inc; lia). rewrite Hinc.
  assert (Hwf' : wf (set_cwnd r (cwnd r + inc))) by (split; cbn; try done; unfold inc; lia).
  case_if; bool_facts; [split; [done|]; cbn; unfold inc in *; lia|].
  destruct (avoid_spec _ (acked - inc) Hwf') as (H1 & H2 & H3); [unfold inc in *; lia|].
  split; [done|]. cbn in H2, H3. unfold inc in *. lia.
Qed.

Lemma half_bounds f : is_u32 f -> 2 * lo <= Z.max (f / 2) (sat_mul32 mss 2) < M32.
Proof using Hmss Hlo. unfold is_u32, sat_mul32. intros. Z.div_mod_to_equations. lia. Qed.

Lemma initial_window_bounds : lo <= initial_window mss.
Proof using Hmss Hlo. unfold initial_window, sat_mul32. repeat case_if; bool_facts; lia. Qed.

Lemma on_dsack_wf r s e : wf r -> wf (fst (on_dsack r s e mss)).
Proof using Hmss Hlo.
  intros [Hc Hs Ha Hp Hu Hr]. unfold on_dsack. case_if; [by split|]. apply orb_false_iff in Heqb as [Heqb _].
  apply orb_false_iff in Heqb as [Hv _]. bool_facts. destruct (Hu Hv).
  repeat case_if; cbn; (split; cbn; try done; unfold sat_sub; lia).
Qed.

Lemma prr_update_wf r d p safe : wf r -> is_u32 d -> is_u32 p -> wf (prr_update r d p mss safe).
Proof using Hmss Hlo.
  intros [Hc Hs Ha Hp Hu Hr] Hd Hpp. unfold prr_update. case_if; [by split|]. cbv zeta.
  set (snd := if _ && _ then _ else _). assert (Hsnd : 0 <= snd) by (unfold snd; case_if; lia). clearbody snd.
  unfold is_u32 in *. split; cbn; try done; [|unfold sat_add64; lia]. split; [lia|]. unfold sat_i64, clamp. case_if; lia.
Qed.

Lemma step_wf r o : wf r -> arg_ok o = true -> wf (step mss r o).
Proof using Hmss Hlo.
  intros Hwf Ha. assert (Hu : forall x, (0 <=? x) && (x <? M32) = true -> is_u32 x) by (intros x Hx; bool_facts; split; lia).
  destruct o as [a l|f u n|f n| | |a e|d p sf|b|f u n|u|]; cbn [step arg_ok] in *.
  - by apply on_ack_spec; [|apply Hu].
  - apply andb_true_iff in Ha as [Ha _]. apply andb_true_iff in Ha as [Ha _]. pose proof (half_bounds f (Hu f Ha)).
    destruct Hwf. split; cbn; try done; lia.
  - apply andb_true_iff in Ha as [Ha _]. pose proof (half_bounds f (Hu f Ha)). destruct Hwf. split; cbn; try done; lia.
  - destruct Hwf. unfold cwr_to_recovery. case_match; by split.
  - destruct Hwf. unfold on_retransmit. case_if; [|by split]. split; cbn; try done. unfold sat_add32. lia.
  - by apply on_dsack_wf.
  - apply andb_true_iff in Ha as [Hd Hp]. apply prr_update_wf; auto.
  - destruct Hwf. unfold on_send. case_if; [|by split]. bool_facts. split; cbn; try done. unfold sat_add64. lia.
  - apply andb_true_iff in Ha as [Ha _]. apply andb_true_iff in Ha as [Ha _]. pose proof (half_bounds f (Hu f Ha)).
    destruct Hwf. unfold on_rto. repeat case_if; (split; cbn; try done; try lia).
  - destruct Hwf. unfold maybe_exit. repeat case_if; cbn; (split; cbn; try done; try lia).
  - destruct Hwf. pose proof initial_window_bounds. unfold on_idle_restart. case_if; [|by split]. split; cbn; try done. lia.
Qed.

End Step.

Definition run_ok (ops : list (Z * op)) : bool :=
  forallb (fun '(mss, o) => (lo <=? mss) && (mss <? M16) && arg_ok o) ops.

Lemma run_wf ops : forall r, wf r -> run_ok ops = true -> wf (run r ops).
Proof using Hlo.
  induction ops as [|[mss o] ops IH]; intros r Hwf Hok; [done|]. cbn [run_ok forallb] in Hok.
  apply andb_true_iff in Hok as [H1 H2]. apply andb_true_iff in H1 as [H1 Ha]. bool_facts.
  cbn [run foldl]. apply IH; [|done]. apply step_wf; [lia|done|done].
Qed.

Lemma reno_new_wf iw : lo <= iw < M32 -> 2 * lo <= (M32 - 1) / 2 -> wf (new iw).
Proof using Hlo. intros. change ((M32 - 1) / 2) with 2147483647 in *. split; cbn; try done; lia. Qed.

End Floor.

(** C37 Through any sequence of ACKs, reductions, timeouts, undos and idle
    restarts, with segment sizes never below [lo]: the congestion window
    stays at least one segment, the threshold at least two, and both fit
    their 32-bit fields. *)
Theorem reno_window_bounds lo iw ops :
  1 <= lo < M16 -> lo <= iw < M32 -> run_ok lo ops = true ->
  let r := run (new iw) ops in
  lo <= cwnd r < M32 /\ 2 * lo <= ssthresh r < M32.
Proof.
  intros Hlo Hiw Hok. destruct (run_wf lo ltac:(lia) ops (new iw)) as [Hc Hs _ _ _ _]; [|done|done].
  apply reno_new_wf; try lia. change ((M32 - 1) / 2) with 2147483647. lia.
Qed.

Lemma reno_window_bounds_witness :
  let r := run (new 14600)
    [(1460, OnAck 1460 true); (1460, EnterRecovery 14600 0 14600); (536, PrrUpdate 1460 11000 true); (536, OnRto 9000 0 14600);
     (536, OnRetransmit); (536, OnDsack 0 536); (536, IdleRestart)] in
  536 <= cwnd r < M32.
Proof.
  apply (reno_window_bounds 536 14600
    [(1460, OnAck 1460 true); (1460, EnterRecovery 14600 0 14600); (536, PrrUpdate 1460 11000 true); (536, OnRto 9000 0 14600);
     (536, OnRetransmit); (536, OnDsack 0 536); (536, IdleRestart)]); [lia|lia|vm_compute; reflexivity].
Defined.



(** ** Proportional rate reduction *)

(** [RecoverFS]-proportional share of the delivered data, rounded up. *)
Definition prr_share (r : t) (delivered : Z) : Z :=
  div_ceil ((prr_delivered r + delivered) * ssthresh r) (recover_fs r).

(** The window is the in-flight estimate plus the allowance, never below one
    segment and capped by its field. *)
Lemma prr_cwnd lo mss r delivered pipe safe :
  1 <= lo -> lo <= mss < M16 -> in_reduction r = true -> is_u32 pipe ->
  let r1 := set_prr r (sat_add64 (prr_delivered r) delivered) (prr_out r) (recover_fs r) in
  let c := Z.max (prr_sndcnt r1 delivered pipe mss safe) 0 in
  let c := if (prr_out r =? 0) && (c =? 0) then mss else c in
  let w := cwnd (prr_update r delivered pipe mss safe) in
  mss <= w /\ w <= Z.max mss (pipe + c) /\ (pipe < M32 - 1 -> 0 < c -> pipe < w).
Proof.
  intros Hlo Hmss Hred Hp r1 c0 c w. unfold w, prr_update. rewrite Hred. cbn [negb]. fold r1.
  change (prr_out r1) with (prr_out r). fold c0. fold c. cbn [cwnd set_cwnd].
  assert (Hc : 0 <= c) by (unfold c, c0; case_if; lia). clearbody c. unfold is_u32, sat_i64, clamp in *. case_if; bool_facts; lia.
Qed.



(** ** Undo *)

(** The number of segments a D-SACK block is counted for, if it counts. *)
Definition dsack_segs (mss : Z) (r : t) (o : op) : Z :=
  match o with
  | OnDsack s e => if undo_valid r && negb (undo_retrans r =? 0) && seq_ge s (undo_marker r)
                   then Z.max (div_ceil (wsub32 e s) (Z.max mss 1)) 1 else 0
  | _ => 0
  end.

(** A retransmission made during the loss episode. *)
Definition episode_retrans (r : t) (o : op) : Z :=
  match o with OnRetransmit => if undo_valid r && in_loss_recovery r then 1 else 0 | _ => 0 end.

(** Operations that do not begin a new reduction. *)
Definition same_episode (o : op) : bool :=
  match o with EnterRecovery _ _ _ | EnterCwr _ _ | OnRto _ _ _ => false | _ => true end.

(** The run of one episode, with its retransmissions and the segments
    reported by D-SACKs. *)
Fixpoint episode (mss : Z) (r : t) (ops : list op) (sent reported : Z) : t * Z * Z :=
  match ops with
  | [] => (r, sent, reported)
  | o :: ops' => episode mss (step mss r o) ops' (sent + episode_retrans r o) (reported + dsack_segs mss r o)
  end.

Definition undo_fields (r : t) := (undo_valid r, prior_cwnd r, prior_ssthresh r, undo_retrans r).

(** Within an episode begun in [r0]: the saved window is [r0]'s, and the
    outstanding count accounts for every retransmission not yet reported. *)
Record undo_inv (r0 r : t) (sent reported : Z) : Prop := mk_undo_inv {
  ui_prior : prior_cwnd r = cwnd r0 /\ prior_ssthresh r = ssthresh r0;
  ui_count : sent <= undo_retrans r + reported;
  ui_range : 0 <= undo_retrans r <= sent /\ 0 <= reported;
}.

Lemma undo_fields_step mss r o :
  match o with OnAck _ _ | CwrToRecovery | PrrUpdate _ _ _ | OnSend _ | MaybeExit _ | IdleRestart => true | _ => false end = true ->
  undo_fields (step mss r o) = undo_fields r /\ episode_retrans r o = 0 /\ dsack_segs mss r o = 0.
Proof.
  intros Ho. split; [|by destruct o]. destruct o; try done; cbn [step].
  - unfold on_ack, avoid. by repeat case_if.
  - unfold cwr_to_recovery. by case_match.
  - unfold prr_update. by case_if.
  - unfold on_send. by case_if.
  - unfold maybe_exit. by repeat case_if.
  - unfold on_idle_restart. by case_if.
Qed.

Lemma undo_step mss r0 r o sent reported :
  same_episode o = true -> sent + 1 < M32 -> undo_inv r0 r sent reported ->
  undo_inv r0 (step mss r o) (sent + episode_retrans r o) (reported + dsack_segs mss r o).
Proof.
  intros Hs Hb [[Hp1 Hp2] Hc [Hr Hr']].
  assert (Hother : undo_fields (step mss r o) = undo_fields r /\ episode_retrans r o = 0 /\ dsack_segs mss r o = 0 ->
            undo_inv r0 (step mss r o) (sent + episode_retrans r o) (reported + dsack_segs mss r o)).
  { intros ([= _ E1 E2 E3] & -> & ->). split; rewrite ?E1, ?E2, ?E3; lia. }
  destruct o as [a l|f u n|f n| | |a e|d p sf|b|f u n|u|]; try done; try (apply Hother, undo_fields_step; done).
  - cbn [step episode_retrans dsack_segs]. unfold on_retransmit, sat_add32. case_if; split; cbn; lia.
  - cbn [step episode_retrans dsack_segs]. unfold on_dsack.
    replace (negb (undo_valid r) || (undo_retrans r =? 0) || negb (seq_ge a (undo_marker r))) with
      (negb (undo_valid r && negb (undo_retrans r =? 0) && seq_ge a (undo_marker r)))
      by (destruct (undo_valid r), (undo_retrans r =? 0), (seq_ge a (undo_marker r)); done).
    destruct (undo_valid r && negb (undo_retrans r =? 0) && seq_ge a (undo_marker r)); cbn [negb]; [|split; cbn; lia].
    set (n := Z.max (div_ceil _ _) 1). assert (1 <= n) by lia. clearbody n. unfold sat_sub.
    repeat case_if; split; cbn; lia.
Qed.

Lemma episode_inv mss r0 ops : forall r sent reported,
  forallb same_episode ops = true -> sent + zlen ops < M32 -> undo_inv r0 r sent reported ->
  let '(r', s', d') := episode mss r ops sent reported in undo_inv r0 r' s' d'.
Proof.
  induction ops as [|o ops IH]; intros r sent reported Hok Hb Hinv; [done|]. cbn [forallb episode] in *.
  apply andb_true_iff in Hok as [Ho Hok]. unfold zlen in *. cbn [length] in Hb.
  assert (Hn : 0 <= episode_retrans r o <= 1) by (unfold episode_retrans; repeat case_match; lia).
  apply IH; [done|lia|]. apply undo_step; [done|lia|done].
Qed.



End Reno.
