(* ===== verification/Effect.v ===== *)
(** * Record update and state-passing with errors.

    The connection is one large mutable struct whose methods assign fields and
    may return early with an error.  A method becomes a function from the struct
    to the struct and its result; a failed call keeps the assignments made
    before the failure, as [?] does. *)
From S2P Require Import Prelude Error.

(** ** Field assignment *)

(** [eta] rebuilds a record from its fields; a setter is [eta] with one field
    replaced. *)
Class Setter {R A : Type} (f : R -> A) := set_field : R -> A -> R.
Arguments set_field {R A} f%_function_scope {_} s v : rename.

Declare Scope record_scope.
Delimit Scope record_scope with record.
Notation "s <| f := v |>" := (set_field f%function s v)
  (at level 1, f at level 9, v at level 200, left associativity) : record_scope.
Notation "s <| f ::= g |>" := (set_field f s (g (f s)))
  (at level 1, f at level 9, g at level 200, left associativity) : record_scope.
#[global] Open Scope record_scope.

Ltac field_setter eta f :=
  let s := fresh "self" in
  let v := fresh "v" in
  intros s v;
  let b := eval cbv beta delta [eta] in (eta s) in
  let b := eval pattern (f s) in b in
  match b with ?g _ => let r := eval cbv beta in (g v) in exact r end.

(** ** Fallible methods *)

(** [m?] in a method: the state so far and the value, or an early return. *)
Definition st_bind {S A B} (m : S * Res A) (k : S -> A -> S * Res B) : S * Res B :=
  match m with
  | (s, Ok a) => k s a
  | (s, Err e) => (s, Err e)
  end.

Notation "'try' ( s , x ) := m 'in' k" := (st_bind m (fun s x => k))
  (at level 10, s name, x name, m at level 200, k at level 200) : res_scope.
Notation "'try' s := m 'in' k" := (st_bind m (fun s _ => k))
  (at level 10, s name, m at level 200, k at level 200) : res_scope.

(** A property of the state that a call establishes whatever it returns. *)
Definition always {S A} (P : S -> Prop) (m : S * Res A) : Prop := P (fst m).

Lemma always_bind {S A B} (P Q : S -> Prop) (m : S * Res A) (k : S -> A -> S * Res B) :
  always P m -> (forall s, P s -> Q s) -> (forall s a, P s -> m = (s, Ok a) -> always Q (k s a)) ->
  always Q (st_bind m k).
Proof. destruct m as [s [a|e]]; unfold always; simpl; auto. Qed.

Lemma st_bind_Ok {S A B} (m : S * Res A) (k : S -> A -> S * Res B) s b :
  st_bind m k = (s, Ok b) <-> exists s1 a, m = (s1, Ok a) /\ k s1 a = (s, Ok b).
Proof.
  destruct m as [s1 [a|e]]; simpl; split.
  - eauto.
  - by intros (? & ? & [= -> ->] & ?).
  - done.
  - by intros (? & ? & ? & ?).
Qed.

(** A call that does not fail, with what it leaves and returns. *)
Definition runs {S A} (m : S * Res A) (P : S -> A -> Prop) : Prop := exists s a, m = (s, Ok a) /\ P s a.

Lemma runs_ret {S A} (s : S) (a : A) (P : S -> A -> Prop) : P s a -> runs (s, Ok a) P.
Proof. intros H. by exists s, a. Qed.

Lemma runs_bind {S A B} (m : S * Res A) (k : S -> A -> S * Res B) (P : S -> A -> Prop) (R : S -> B -> Prop) :
  runs m P -> (forall s a, P s a -> runs (k s a) R) -> runs (st_bind m k) R.
Proof. intros (s & a & -> & HP) Hk. by apply Hk. Qed.

Lemma runs_mono {S A} (m : S * Res A) (P R : S -> A -> Prop) :
  runs m P -> (forall s a, P s a -> R s a) -> runs m R.
Proof. intros (s & a & -> & HP) HR. exists s, a. auto. Qed.

(** A computation that meets each of a family of postconditions meets all. *)
Lemma runs_forall {S A X} (x0 : X) (m : S * Res A) (P : X -> S -> A -> Prop) :
  (forall x, runs m (P x)) -> runs m (fun s a => forall x, P x s a).
Proof.
  intros H. destruct (H x0) as (s & a & E & _). exists s, a. split; [done|]. intros x.
  destruct (H x) as (s' & a' & E' & HP). rewrite E in E'. by injection E' as <- <-.
Qed.

Lemma runs_always {S A} (m : S * Res A) (P : S -> A -> Prop) (R : S -> Prop) :
  runs m P -> (forall s a, P s a -> R s) -> always R m.
Proof. intros (s & a & -> & HP) HR. unfold always. simpl. eauto. Qed.
