(* ===== verification/Tcb.v ===== *)
(** * The connection (src/tcb/mod.rs): data, construction, teardown, helpers.

    The transmission control block as one record, with the source's fields in
    the source's order, and the methods every other part of the connection
    shares.  Input, acknowledgment, output, timers and cookies are the files
    that follow. *)
From S2P Require Import Prelude Error Seq State Effect Ring Sack Ooo TxRing Checksum Options Wire RtxQueue Rack Congestion.

(** The capacities the type is generic over, the crate's ring capacity (which
    sizes the out-of-order list) and the byte order of the machine. *)
Class Config := {
  en : Endian;
  BUF : Z;
  RTX : Z;
  TXQ : Z;
  BUF_CAP : Z;
}.

(** What the capacities must satisfy: [RtxQueue::VALID], [TxRing::VALID] and
    the check of [init_in_place]. *)
Class ConfigOk (C : Config) : Prop := {
  buf_pow2 : exists k, 0 <= k <= 30 /\ BUF = 2 ^ k;
  rtx_valid : Rtx.VALID RTX = true;
  txq_valid : 1 <= TXQ < M16;
}.

Definition MAX_PACKET : Z := 20 + 20 + MSS.

(** ** Constants *)

Definition TIME_WAIT_MS : Z := 60000.
Definition TIME_WAIT_MAX_MS : Z := 2 * TIME_WAIT_MS.
Definition RTO_MAX_MS : Z := 60000.
Definition RTO_MIN_MS : Z := 200.
Definition DELAYED_ACK_MS : Z := 40.
Definition DEFAULT_PEER_MSS : Z := 536.
Definition MIN_PEER_MSS : Z := 64.
Definition MIN_MTU : Z := 576.
Definition MAX_MTU : Z := as_u16 MAX_PACKET.
Definition HDR_LEN : Z := 40.
Definition TLP_MIN_PTO_MS : Z := 10.
Definition TLP_WC_DELACK_MS : Z := 200.
Definition MAX_SYN_RCVD_RETRIES : Z := 5.
Definition MAX_SYN_RETRIES : Z := 6.
Definition MAX_RETRANSMITS : Z := 10.
Definition DEFAULT_USER_TIMEOUT_MS : Z := 300000.
Definition DEFAULT_KEEPALIVE_IDLE_MS : Z := 600000.
Definition DEFAULT_KEEPALIVE_INTVL_MS : Z := 60000.
Definition DEFAULT_KEEPALIVE_COUNT : Z := 4.
Definition DEFAULT_FIN_WAIT2_TIMEOUT_MS : Z := 60000.
Definition OOW_RATELIMIT_MS : Z := 500.
Definition PAWS_IDLE_MS : Z := 24 * 24 * 60 * 60 * 1000.
Definition BLACKHOLE_RTO_STEP1 : Z := 3.
Definition BLACKHOLE_RTO_STEP2 : Z := 5.
Definition BLACKHOLE_MSS1 : Z := 1024.
Definition BLACKHOLE_MSS2 : Z := DEFAULT_PEER_MSS.
Definition PMTU_PROBE_MIN_MS : Z := 10000.
Definition PMTU_PROBE_MAX_MS : Z := 600000.
Definition COOKIE_TIME_BUCKET_MS : Z := 64000.

Module events.
Definition READABLE : Z := 1.
Definition WRITABLE : Z := 2.
Definition ESTABLISHED : Z := 4.
Definition PEER_CLOSED : Z := 8.
Definition CLOSED : Z := 16.
Definition TX_PENDING : Z := 32.
Definition ERROR : Z := 64.
Definition LISTENING : Z := 128.
Definition HALF_OPEN : Z := 256.
End events.

(** The loop stops by itself after 14 rounds. *)
Fixpoint ws_shift_loop (fuel : nat) (buf shift : Z) : Z :=
  match fuel with
  | O => shift
  | S fuel' =>
      if (65535 <? Z.shiftr buf shift) && (shift <? 14) then ws_shift_loop fuel' buf (shift + 1) else shift
  end.

Definition local_ws_shift (buf : Z) : Z := ws_shift_loop 15 buf 0.

Definition WS `{Config} : Z := local_ws_shift BUF.

Definition OOO_MAX `{Config} : Z := Ooo.OOO_MAX_RANGES BUF_CAP.

(** ** Deadlines *)

Module Deadline.

Definition t : Type := Z.
Definition OFF : t := 0.
Definition at_ (x : Z) : t := sat_add64 x 1.
Definition get (d : t) : option Z := if d =? 0 then None else Some (d - 1).
Definition is_armed (d : t) : bool := negb (d =? 0).
Definition due (d : t) (now : Z) : bool :=
  match get d with Some x => x <=? now | None => false end.

End Deadline.

(** ** Data *)

Record Endpoint := mkEndpoint { ip : list Z; port : Z }.

#[export] Instance Endpoint_eq_dec : EqDecision Endpoint.
Proof. solve_decision. Defined.

Record TcbConfig := mkTcbConfig {
  cfg_local : Endpoint;
  cfg_remote : Endpoint;
  cfg_isn : Z;
  cfg_initial_rto_ms : Z;
}.

Record HeldFin := mkHeldFin { fin_start : Z; fin_at : Z }.

Module Stats.

Record t := mk {
  segs_out : Z;
  segs_in : Z;
  bytes_sent : Z;
  bytes_retrans : Z;
  bytes_received : Z;
  dup_bytes_received : Z;
  segs_retrans : Z;
  dsacks_received : Z;
  fast_recoveries : Z;
  rto_count : Z;
  tlp_count : Z;
  ooo_drops : Z;
  oow_suppressed : Z;
  srtt_ms : Z;
  rttvar_ms : Z;
  min_rtt_ms : Z;
  rto_ms : Z;
  cwnd : Z;
  ssthresh : Z;
  pipe : Z;
  mss : Z;
  snd_wnd : Z;
  rcv_wnd : Z;
  ca_state : Z;
  state : Z;
  reserved : list Z;
}.

Definition eta (s : t) : t :=
  mk
    (segs_out s) (segs_in s) (bytes_sent s) (bytes_retrans s) (bytes_received s)
    (dup_bytes_received s) (segs_retrans s) (dsacks_received s) (fast_recoveries s)
    (rto_count s) (tlp_count s) (ooo_drops s) (oow_suppressed s) (srtt_ms s) (rttvar_ms s)
    (min_rtt_ms s) (rto_ms s) (cwnd s) (ssthresh s) (pipe s) (mss s) (snd_wnd s) (rcv_wnd s)
    (ca_state s) (state s) (reserved s).

#[global] Instance upd_segs_out : Setter segs_out := ltac:(field_setter eta segs_out).
#[global] Instance upd_segs_in : Setter segs_in := ltac:(field_setter eta segs_in).
#[global] Instance upd_bytes_sent : Setter bytes_sent := ltac:(field_setter eta bytes_sent).
#[global] Instance upd_bytes_retrans : Setter bytes_retrans := ltac:(field_setter eta bytes_retrans).
#[global] Instance upd_bytes_received : Setter bytes_received := ltac:(field_setter eta bytes_received).
#[global] Instance upd_dup_bytes_received : Setter dup_bytes_received := ltac:(field_setter eta dup_bytes_received).
#[global] Instance upd_segs_retrans : Setter segs_retrans := ltac:(field_setter eta segs_retrans).
#[global] Instance upd_dsacks_received : Setter dsacks_received := ltac:(field_setter eta dsacks_received).
#[global] Instance upd_fast_recoveries : Setter fast_recoveries := ltac:(field_setter eta fast_recoveries).
#[global] Instance upd_rto_count : Setter rto_count := ltac:(field_setter eta rto_count).
#[global] Instance upd_tlp_count : Setter tlp_count := ltac:(field_setter eta tlp_count).
#[global] Instance upd_ooo_drops : Setter ooo_drops := ltac:(field_setter eta ooo_drops).
#[global] Instance upd_oow_suppressed : Setter oow_suppressed := ltac:(field_setter eta oow_suppressed).
#[global] Instance upd_srtt_ms : Setter srtt_ms := ltac:(field_setter eta srtt_ms).
#[global] Instance upd_rttvar_ms : Setter rttvar_ms := ltac:(field_setter eta rttvar_ms).
#[global] Instance upd_min_rtt_ms : Setter min_rtt_ms := ltac:(field_setter eta min_rtt_ms).
#[global] Instance upd_rto_ms : Setter rto_ms := ltac:(field_setter eta rto_ms).
#[global] Instance upd_cwnd : Setter cwnd := ltac:(field_setter eta cwnd).
#[global] Instance upd_ssthresh : Setter ssthresh := ltac:(field_setter eta ssthresh).
#[global] Instance upd_pipe : Setter pipe := ltac:(field_setter eta pipe).
#[global] Instance upd_mss : Setter mss := ltac:(field_setter eta mss).
#[global] Instance upd_snd_wnd : Setter snd_wnd := ltac:(field_setter eta snd_wnd).
#[global] Instance upd_rcv_wnd : Setter rcv_wnd := ltac:(field_setter eta rcv_wnd).
#[global] Instance upd_ca_state : Setter ca_state := ltac:(field_setter eta ca_state).
#[global] Instance upd_state : Setter state := ltac:(field_setter eta state).
#[global] Instance upd_reserved : Setter reserved := ltac:(field_setter eta reserved).

Definition default : t := mk 0 0 0 0 0 0 0 0 0 0 0 0 0 0 0 0 0 0 0 0 0 0 0 0 0 [0; 0].

End Stats.

Definition inc64 (x : Z) : Z := sat_add64 x 1.
Definition inc32 (x : Z) : Z := sat_add32 x 1.

Definition KEY0 : list Z := replicate 16 0.

Module Tcb.

Record t := mk {
  state : State;
  local : Endpoint;
  remote : Endpoint;
  snd_una : Z;
  snd_nxt : Z;
  snd_wnd : Z;
  max_snd_wnd : Z;
  snd_wl1 : Z;
  snd_wl2 : Z;
  iss : Z;
  cfg_iss : Z;
  rcv_nxt : Z;
  rcv_wnd : Z;
  irs : Z;
  rcv_adv_edge : Z;
  last_ack_sent : Z;
  mtu : Z;
  local_mss : Z;
  peer_mss : Z;
  pmtu_mss : Z;
  pmtu_restore_mss : Z;
  pmtu_probe_mss : Z;
  pmtu_probe_inflight : bool;
  pmtu_probe_start : Z;
  pmtu_probe_end : Z;
  pmtu_probe_at : Z;
  pmtu_probe_backoff_ms : Z;
  ts_enabled : bool;
  ts_recent : Z;
  ts_recent_stamp : Z;
  ts_offset : Z;
  ws_ok : bool;
  snd_wscale : Z;
  rcv_wscale : Z;
  sack_enabled : bool;
  ecn_enabled : bool;
  ce_observed : bool;
  send_cwr_pending : bool;
  rtx : Rtx.t;
  rack : Rack.t;
  rack_deadline : Deadline.t;
  tlp_deadline : Deadline.t;
  tlp_end_seq : option Z;
  tlp_is_retrans : bool;
  dup_acks : Z;
  reno_sacked : Z;
  dsack_segs : Z;
  cc : Reno.t;
  cwnd_limited : bool;
  cwnd_limited_seq : Z;
  pipe_hiwat : Z;
  last_data_send_ms : Z;
  syn_xmit_ms : Z;
  syn_retransmitted : bool;
  syn_unacked : bool;
  snd_acked : Z;
  send_ring : Ring.t;
  send_lent : Z;
  send_lent_conn : Z;
  conn_gen : Z;
  recv_ring : Ring.t;
  ooo : Ooo.t;
  ooo_fin : option HeldFin;
  dsack : option (Z * Z);
  now_ms : Z;
  init_rto_ms : Z;
  rto_ms : Z;
  srtt_ms : Z;
  rttvar_ms : Z;
  rtt_first_sample : bool;
  rto_deadline : Deadline.t;
  rtx_count : Z;
  pending_ack : bool;
  delayed_ack_count : Z;
  ack_deadline : Deadline.t;
  persist_deadline : Deadline.t;
  persist_backoff_ms : Z;
  fin_sent : bool;
  fin_seq : Z;
  time_wait_deadline : Deadline.t;
  time_wait_since_ms : Z;
  fin_wait2_timeout_ms : Z;
  fin_wait2_deadline : Deadline.t;
  error : option TcpError;
  tx_ring : TxRing.t;
  egress_paused : bool;
  tx_csum_offload : bool;
  ip_id : Z;
  is_listener : bool;
  syn_rcvd_retries : Z;
  keepalive_idle_ms : Z;
  keepalive_intvl_ms : Z;
  keepalive_count : Z;
  keepalive_probes : Z;
  keepalive_deadline : Deadline.t;
  user_timeout_ms : Z;
  user_timeout_deadline : Deadline.t;
  ut_progress : Z;
  last_oow_ms : Deadline.t;
  cookie_secret : list Z;
  cookie_secret_set : bool;
  cookie_secret_explicit : bool;
  cookie_secret_used : bool;
  prev_cookie_secret : list Z;
  prev_cookie_secret_set : bool;
  prev_cookie_until_ms : Z;
  secret : list Z;
  secret_set : bool;
  stats : Stats.t;
}.

Definition eta (s : t) : t :=
  mk
    (state s) (local s) (remote s) (snd_una s) (snd_nxt s) (snd_wnd s) (max_snd_wnd s)
    (snd_wl1 s) (snd_wl2 s) (iss s) (cfg_iss s) (rcv_nxt s) (rcv_wnd s) (irs s)
    (rcv_adv_edge s) (last_ack_sent s) (mtu s) (local_mss s) (peer_mss s) (pmtu_mss s)
    (pmtu_restore_mss s) (pmtu_probe_mss s) (pmtu_probe_inflight s) (pmtu_probe_start s)
    (pmtu_probe_end s) (pmtu_probe_at s) (pmtu_probe_backoff_ms s) (ts_enabled s) (ts_recent s)
    (ts_recent_stamp s) (ts_offset s) (ws_ok s) (snd_wscale s) (rcv_wscale s) (sack_enabled s)
    (ecn_enabled s) (ce_observed s) (send_cwr_pending s) (rtx s) (rack s) (rack_deadline s)
    (tlp_deadline s) (tlp_end_seq s) (tlp_is_retrans s) (dup_acks s) (reno_sacked s)
    (dsack_segs s) (cc s) (cwnd_limited s) (cwnd_limited_seq s) (pipe_hiwat s)
    (last_data_send_ms s) (syn_xmit_ms s) (syn_retransmitted s) (syn_unacked s) (snd_acked s)
    (send_ring s) (send_lent s) (send_lent_conn s) (conn_gen s) (recv_ring s) (ooo s)
    (ooo_fin s) (dsack s) (now_ms s) (init_rto_ms s) (rto_ms s) (srtt_ms s) (rttvar_ms s)
    (rtt_first_sample s) (rto_deadline s) (rtx_count s) (pending_ack s) (delayed_ack_count s)
    (ack_deadline s) (persist_deadline s) (persist_backoff_ms s) (fin_sent s) (fin_seq s)
    (time_wait_deadline s) (time_wait_since_ms s) (fin_wait2_timeout_ms s)
    (fin_wait2_deadline s) (error s) (tx_ring s) (egress_paused s) (tx_csum_offload s)
    (ip_id s) (is_listener s) (syn_rcvd_retries s) (keepalive_idle_ms s) (keepalive_intvl_ms s)
    (keepalive_count s) (keepalive_probes s) (keepalive_deadline s) (user_timeout_ms s)
    (user_timeout_deadline s) (ut_progress s) (last_oow_ms s) (cookie_secret s)
    (cookie_secret_set s) (cookie_secret_explicit s) (cookie_secret_used s)
    (prev_cookie_secret s) (prev_cookie_secret_set s) (prev_cookie_until_ms s) (secret s)
    (secret_set s) (stats s).

#[global] Instance upd_state : Setter state := ltac:(field_setter eta state).
#[global] Instance upd_local : Setter local := ltac:(field_setter eta local).
#[global] Instance upd_remote : Setter remote := ltac:(field_setter eta remote).
#[global] Instance upd_snd_una : Setter snd_una := ltac:(field_setter eta snd_una).
#[global] Instance upd_snd_nxt : Setter snd_nxt := ltac:(field_setter eta snd_nxt).
#[global] Instance upd_snd_wnd : Setter snd_wnd := ltac:(field_setter eta snd_wnd).
#[global] Instance upd_max_snd_wnd : Setter max_snd_wnd := ltac:(field_setter eta max_snd_wnd).
#[global] Instance upd_snd_wl1 : Setter snd_wl1 := ltac:(field_setter eta snd_wl1).
#[global] Instance upd_snd_wl2 : Setter snd_wl2 := ltac:(field_setter eta snd_wl2).
#[global] Instance upd_iss : Setter iss := ltac:(field_setter eta iss).
#[global] Instance upd_cfg_iss : Setter cfg_iss := ltac:(field_setter eta cfg_iss).
#[global] Instance upd_rcv_nxt : Setter rcv_nxt := ltac:(field_setter eta rcv_nxt).
#[global] Instance upd_rcv_wnd : Setter rcv_wnd := ltac:(field_setter eta rcv_wnd).
#[global] Instance upd_irs : Setter irs := ltac:(field_setter eta irs).
#[global] Instance upd_rcv_adv_edge : Setter rcv_adv_edge := ltac:(field_setter eta rcv_adv_edge).
#[global] Instance upd_last_ack_sent : Setter last_ack_sent := ltac:(field_setter eta last_ack_sent).
#[global] Instance upd_mtu : Setter mtu := ltac:(field_setter eta mtu).
#[global] Instance upd_local_mss : Setter local_mss := ltac:(field_setter eta local_mss).
#[global] Instance upd_peer_mss : Setter peer_mss := ltac:(field_setter eta peer_mss).
#[global] Instance upd_pmtu_mss : Setter pmtu_mss := ltac:(field_setter eta pmtu_mss).
#[global] Instance upd_pmtu_restore_mss : Setter pmtu_restore_mss := ltac:(field_setter eta pmtu_restore_mss).
#[global] Instance upd_pmtu_probe_mss : Setter pmtu_probe_mss := ltac:(field_setter eta pmtu_probe_mss).
#[global] Instance upd_pmtu_probe_inflight : Setter pmtu_probe_inflight := ltac:(field_setter eta pmtu_probe_inflight).
#[global] Instance upd_pmtu_probe_start : Setter pmtu_probe_start := ltac:(field_setter eta pmtu_probe_start).
#[global] Instance upd_pmtu_probe_end : Setter pmtu_probe_end := ltac:(field_setter eta pmtu_probe_end).
#[global] Instance upd_pmtu_probe_at : Setter pmtu_probe_at := ltac:(field_setter eta pmtu_probe_at).
#[global] Instance upd_pmtu_probe_backoff_ms : Setter pmtu_probe_backoff_ms := ltac:(field_setter eta pmtu_probe_backoff_ms).
#[global] Instance upd_ts_enabled : Setter ts_enabled := ltac:(field_setter eta ts_enabled).
#[global] Instance upd_ts_recent : Setter ts_recent := ltac:(field_setter eta ts_recent).
#[global] Instance upd_ts_recent_stamp : Setter ts_recent_stamp := ltac:(field_setter eta ts_recent_stamp).
#[global] Instance upd_ts_offset : Setter ts_offset := ltac:(field_setter eta ts_offset).
#[global] Instance upd_ws_ok : Setter ws_ok := ltac:(field_setter eta ws_ok).
#[global] Instance upd_snd_wscale : Setter snd_wscale := ltac:(field_setter eta snd_wscale).
#[global] Instance upd_rcv_wscale : Setter rcv_wscale := ltac:(field_setter eta rcv_wscale).
#[global] Instance upd_sack_enabled : Setter sack_enabled := ltac:(field_setter eta sack_enabled).
#[global] Instance upd_ecn_enabled : Setter ecn_enabled := ltac:(field_setter eta ecn_enabled).
#[global] Instance upd_ce_observed : Setter ce_observed := ltac:(field_setter eta ce_observed).
#[global] Instance upd_send_cwr_pending : Setter send_cwr_pending := ltac:(field_setter eta send_cwr_pending).
#[global] Instance upd_rtx : Setter rtx := ltac:(field_setter eta rtx).
#[global] Instance upd_rack : Setter rack := ltac:(field_setter eta rack).
#[global] Instance upd_rack_deadline : Setter rack_deadline := ltac:(field_setter eta rack_deadline).
#[global] Instance upd_tlp_deadline : Setter tlp_deadline := ltac:(field_setter eta tlp_deadline).
#[global] Instance upd_tlp_end_seq : Setter tlp_end_seq := ltac:(field_setter eta tlp_end_seq).
#[global] Instance upd_tlp_is_retrans : Setter tlp_is_retrans := ltac:(field_setter eta tlp_is_retrans).
#[global] Instance upd_dup_acks : Setter dup_acks := ltac:(field_setter eta dup_acks).
#[global] Instance upd_reno_sacked : Setter reno_sacked := ltac:(field_setter eta reno_sacked).
#[global] Instance upd_dsack_segs : Setter dsack_segs := ltac:(field_setter eta dsack_segs).
#[global] Instance upd_cc : Setter cc := ltac:(field_setter eta cc).
#[global] Instance upd_cwnd_limited : Setter cwnd_limited := ltac:(field_setter eta cwnd_limited).
#[global] Instance upd_cwnd_limited_seq : Setter cwnd_limited_seq := ltac:(field_setter eta cwnd_limited_seq).
#[global] Instance upd_pipe_hiwat : Setter pipe_hiwat := ltac:(field_setter eta pipe_hiwat).
#[global] Instance upd_last_data_send_ms : Setter last_data_send_ms := ltac:(field_setter eta last_data_send_ms).
#[global] Instance upd_syn_xmit_ms : Setter syn_xmit_ms := ltac:(field_setter eta syn_xmit_ms).
#[global] Instance upd_syn_retransmitted : Setter syn_retransmitted := ltac:(field_setter eta syn_retransmitted).
#[global] Instance upd_syn_unacked : Setter syn_unacked := ltac:(field_setter eta syn_unacked).
#[global] Instance upd_snd_acked : Setter snd_acked := ltac:(field_setter eta snd_acked).
#[global] Instance upd_send_ring : Setter send_ring := ltac:(field_setter eta send_ring).
#[global] Instance upd_send_lent : Setter send_lent := ltac:(field_setter eta send_lent).
#[global] Instance upd_send_lent_conn : Setter send_lent_conn := ltac:(field_setter eta send_lent_conn).
#[global] Instance upd_conn_gen : Setter conn_gen := ltac:(field_setter eta conn_gen).
#[global] Instance upd_recv_ring : Setter recv_ring := ltac:(field_setter eta recv_ring).
#[global] Instance upd_ooo : Setter ooo := ltac:(field_setter eta ooo).
#[global] Instance upd_ooo_fin : Setter ooo_fin := ltac:(field_setter eta ooo_fin).
#[global] Instance upd_dsack : Setter dsack := ltac:(field_setter eta dsack).
#[global] Instance upd_now_ms : Setter now_ms := ltac:(field_setter eta now_ms).
#[global] Instance upd_init_rto_ms : Setter init_rto_ms := ltac:(field_setter eta init_rto_ms).
#[global] Instance upd_rto_ms : Setter rto_ms := ltac:(field_setter eta rto_ms).
#[global] Instance upd_srtt_ms : Setter srtt_ms := ltac:(field_setter eta srtt_ms).
#[global] Instance upd_rttvar_ms : Setter rttvar_ms := ltac:(field_setter eta rttvar_ms).
#[global] Instance upd_rtt_first_sample : Setter rtt_first_sample := ltac:(field_setter eta rtt_first_sample).
#[global] Instance upd_rto_deadline : Setter rto_deadline := ltac:(field_setter eta rto_deadline).
#[global] Instance upd_rtx_count : Setter rtx_count := ltac:(field_setter eta rtx_count).
#[global] Instance upd_pending_ack : Setter pending_ack := ltac:(field_setter eta pending_ack).
#[global] Instance upd_delayed_ack_count : Setter delayed_ack_count := ltac:(field_setter eta delayed_ack_count).
#[global] Instance upd_ack_deadline : Setter ack_deadline := ltac:(field_setter eta ack_deadline).
#[global] Instance upd_persist_deadline : Setter persist_deadline := ltac:(field_setter eta persist_deadline).
#[global] Instance upd_persist_backoff_ms : Setter persist_backoff_ms := ltac:(field_setter eta persist_backoff_ms).
#[global] Instance upd_fin_sent : Setter fin_sent := ltac:(field_setter eta fin_sent).
#[global] Instance upd_fin_seq : Setter fin_seq := ltac:(field_setter eta fin_seq).
#[global] Instance upd_time_wait_deadline : Setter time_wait_deadline := ltac:(field_setter eta time_wait_deadline).
#[global] Instance upd_time_wait_since_ms : Setter time_wait_since_ms := ltac:(field_setter eta time_wait_since_ms).
#[global] Instance upd_fin_wait2_timeout_ms : Setter fin_wait2_timeout_ms := ltac:(field_setter eta fin_wait2_timeout_ms).
#[global] Instance upd_fin_wait2_deadline : Setter fin_wait2_deadline := ltac:(field_setter eta fin_wait2_deadline).
#[global] Instance upd_error : Setter error := ltac:(field_setter eta error).
#[global] Instance upd_tx_ring : Setter tx_ring := ltac:(field_setter eta tx_ring).
#[global] Instance upd_egress_paused : Setter egress_paused := ltac:(field_setter eta egress_paused).
#[global] Instance upd_tx_csum_offload : Setter tx_csum_offload := ltac:(field_setter eta tx_csum_offload).
#[global] Instance upd_ip_id : Setter ip_id := ltac:(field_setter eta ip_id).
#[global] Instance upd_is_listener : Setter is_listener := ltac:(field_setter eta is_listener).
#[global] Instance upd_syn_rcvd_retries : Setter syn_rcvd_retries := ltac:(field_setter eta syn_rcvd_retries).
#[global] Instance upd_keepalive_idle_ms : Setter keepalive_idle_ms := ltac:(field_setter eta keepalive_idle_ms).
#[global] Instance upd_keepalive_intvl_ms : Setter keepalive_intvl_ms := ltac:(field_setter eta keepalive_intvl_ms).
#[global] Instance upd_keepalive_count : Setter keepalive_count := ltac:(field_setter eta keepalive_count).
#[global] Instance upd_keepalive_probes : Setter keepalive_probes := ltac:(field_setter eta keepalive_probes).
#[global] Instance upd_keepalive_deadline : Setter keepalive_deadline := ltac:(field_setter eta keepalive_deadline).
#[global] Instance upd_user_timeout_ms : Setter user_timeout_ms := ltac:(field_setter eta user_timeout_ms).
#[global] Instance upd_user_timeout_deadline : Setter user_timeout_deadline := ltac:(field_setter eta user_timeout_deadline).
#[global] Instance upd_ut_progress : Setter ut_progress := ltac:(field_setter eta ut_progress).
#[global] Instance upd_last_oow_ms : Setter last_oow_ms := ltac:(field_setter eta last_oow_ms).
#[global] Instance upd_cookie_secret : Setter cookie_secret := ltac:(field_setter eta cookie_secret).
#[global] Instance upd_cookie_secret_set : Setter cookie_secret_set := ltac:(field_setter eta cookie_secret_set).
#[global] Instance upd_cookie_secret_explicit : Setter cookie_secret_explicit := ltac:(field_setter eta cookie_secret_explicit).
#[global] Instance upd_cookie_secret_used : Setter cookie_secret_used := ltac:(field_setter eta cookie_secret_used).
#[global] Instance upd_prev_cookie_secret : Setter prev_cookie_secret := ltac:(field_setter eta prev_cookie_secret).
#[global] Instance upd_prev_cookie_secret_set : Setter prev_cookie_secret_set := ltac:(field_setter eta prev_cookie_secret_set).
#[global] Instance upd_prev_cookie_until_ms : Setter prev_cookie_until_ms := ltac:(field_setter eta prev_cookie_until_ms).
#[global] Instance upd_secret : Setter secret := ltac:(field_setter eta secret).
#[global] Instance upd_secret_set : Setter secret_set := ltac:(field_setter eta secret_set).
#[global] Instance upd_stats : Setter stats := ltac:(field_setter eta stats).

End Tcb.
Import Tcb.

Definition no_endpoint : Endpoint := mkEndpoint [0; 0; 0; 0] 0.

(** The states in which the connection transmits data (the [matches!] of
    [maybe_send_data] and its likes). *)
Definition may_transmit (s : State) : bool :=
  match s with Established | CloseWait | FinWait1 | Closing | LastAck => true | _ => false end.

Section Tcb.
Context `{C : Config}.

(** ** Construction and reset *)

Definition reset_connection_state (self : t) : t :=
  let self := self <| conn_gen := wadd32 (conn_gen self) 1 |> in
  let self := self <| iss := cfg_iss self |> in
  let self := self <| snd_una := iss self |> in
  let self := self <| snd_nxt := iss self |> in
  let self := self <| snd_wnd := 0 |> in
  let self := self <| max_snd_wnd := 0 |> in
  let self := self <| snd_wl1 := 0 |> in
  let self := self <| snd_wl2 := 0 |> in
  let self := self <| rcv_nxt := 0 |> in
  let self := self <| rcv_wnd := as_u32 BUF |> in
  let self := self <| irs := 0 |> in
  let self := self <| rcv_adv_edge := 0 |> in
  let self := self <| last_ack_sent := 0 |> in
  let self := self <| local_mss := sat_sub (mtu self) HDR_LEN |> in
  let self := self <| peer_mss := DEFAULT_PEER_MSS |> in
  let self := self <| pmtu_mss := local_mss self |> in
  let self := self <| pmtu_restore_mss := 0 |> in
  let self := self <| pmtu_probe_mss := 0 |> in
  let self := self <| pmtu_probe_inflight := false |> in
  let self := self <| pmtu_probe_start := 0 |> in
  let self := self <| pmtu_probe_end := 0 |> in
  let self := self <| pmtu_probe_at := 0 |> in
  let self := self <| pmtu_probe_backoff_ms := 0 |> in
  let self := self <| ts_enabled := false |> in
  let self := self <| ts_recent := 0 |> in
  let self := self <| ts_recent_stamp := 0 |> in
  let self := self <| ts_offset := 0 |> in
  let self := self <| ws_ok := false |> in
  let self := self <| snd_wscale := 0 |> in
  let self := self <| rcv_wscale := 0 |> in
  let self := self <| sack_enabled := false |> in
  let self := self <| ecn_enabled := false |> in
  let self := self <| ce_observed := false |> in
  let self := self <| send_cwr_pending := false |> in
  let self := self <| rtx := Rtx.clear (rtx self) |> in
  let self := self <| rack := Rack.new |> in
  let self := self <| rack_deadline := Deadline.OFF |> in
  let self := self <| tlp_deadline := Deadline.OFF |> in
  let self := self <| tlp_end_seq := None |> in
  let self := self <| tlp_is_retrans := false |> in
  let self := self <| dup_acks := 0 |> in
  let self := self <| reno_sacked := 0 |> in
  let self := self <| dsack_segs := 0 |> in
  let self := self <| cc := Reno.new (initial_window (local_mss self)) |> in
  let self := self <| cwnd_limited := false |> in
  let self := self <| cwnd_limited_seq := iss self |> in
  let self := self <| pipe_hiwat := 0 |> in
  let self := self <| last_data_send_ms := now_ms self |> in
  let self := self <| syn_xmit_ms := 0 |> in
  let self := self <| syn_retransmitted := false |> in
  let self := self <| syn_unacked := false |> in
  let self := self <| snd_acked := 0 |> in
  let self := self <| send_ring := Ring.clear (send_ring self) |> in
  let self := self <| recv_ring := Ring.clear (recv_ring self) |> in
  let self := self <| ooo := Ooo.clear (ooo self) |> in
  let self := self <| ooo_fin := None |> in
  let self := self <| dsack := None |> in
  let self := self <| rto_ms := init_rto_ms self |> in
  let self := self <| srtt_ms := 0 |> in
  let self := self <| rttvar_ms := 0 |> in
  let self := self <| rtt_first_sample := false |> in
  let self := self <| rto_deadline := Deadline.OFF |> in
  let self := self <| rtx_count := 0 |> in
  let self := self <| pending_ack := false |> in
  let self := self <| delayed_ack_count := 0 |> in
  let self := self <| ack_deadline := Deadline.OFF |> in
  let self := self <| persist_deadline := Deadline.OFF |> in
  let self := self <| persist_backoff_ms := 0 |> in
  let self := self <| fin_sent := false |> in
  let self := self <| fin_seq := 0 |> in
  let self := self <| time_wait_deadline := Deadline.OFF |> in
  let self := self <| time_wait_since_ms := 0 |> in
  let self := self <| fin_wait2_deadline := Deadline.OFF |> in
  let self := self <| error := None |> in
  let self := self <| tx_ring := TxRing.clear (tx_ring self) |> in
  let self := self <| syn_rcvd_retries := 0 |> in
  let self := self <| keepalive_probes := 0 |> in
  let self := self <| keepalive_deadline := Deadline.OFF |> in
  let self := self <| user_timeout_deadline := Deadline.OFF |> in
  let self := self <| ut_progress := 0 |> in
  let self := self <| last_oow_ms := Deadline.OFF |> in
  self <| stats := Stats.default |>.

(** What [setup] assigns before it resets the connection state. *)
Definition setup_assign (self : t) (cfg : TcbConfig) : t :=
  let self := self <| local := cfg_local cfg |> in
  let self := self <| remote := cfg_remote cfg |> in
  let self := self <| cfg_iss := cfg_isn cfg |> in
  let self := self <| iss := cfg_isn cfg |> in
  let self := self <| init_rto_ms := clamp (cfg_initial_rto_ms cfg) RTO_MIN_MS RTO_MAX_MS |> in
  let self := self <| mtu := MAX_MTU |> in
  let self := self <| local_mss := MAX_MTU - HDR_LEN |> in
  let self := self <| is_listener := false |> in
  let self := self <| cookie_secret := KEY0 |> in
  let self := self <| cookie_secret_set := false |> in
  let self := self <| cookie_secret_explicit := false |> in
  let self := self <| cookie_secret_used := false |> in
  let self := self <| prev_cookie_secret := KEY0 |> in
  let self := self <| prev_cookie_secret_set := false |> in
  let self := self <| prev_cookie_until_ms := 0 |> in
  let self := self <| secret := KEY0 |> in
  let self := self <| secret_set := false |> in
  let self := self <| now_ms := 0 |> in
  let self := self <| egress_paused := false |> in
  let self := self <| tx_csum_offload := false |> in
  let self := self <| send_lent := 0 |> in
  let self := self <| send_lent_conn := 0 |> in
  let self := self <| conn_gen := 0 |> in
  let self := self <| ip_id := Z.lxor (as_u16 (Z.shiftr (cfg_isn cfg) 16)) (as_u16 (cfg_isn cfg)) |> in
  let self := self <| keepalive_idle_ms := DEFAULT_KEEPALIVE_IDLE_MS |> in
  let self := self <| keepalive_intvl_ms := DEFAULT_KEEPALIVE_INTVL_MS |> in
  let self := self <| keepalive_count := DEFAULT_KEEPALIVE_COUNT |> in
  let self := self <| user_timeout_ms := DEFAULT_USER_TIMEOUT_MS |> in
  self <| fin_wait2_timeout_ms := DEFAULT_FIN_WAIT2_TIMEOUT_MS |>.

Definition setup (self : t) (cfg : TcbConfig) : t :=
  let self := reset_connection_state (setup_assign self cfg) in
  self <| state := Closed |>.

Definition reinit (self : t) (cfg : TcbConfig) : t := setup self cfg.

(** The storage [init_in_place] hands to [setup]: zero-filled, with the
    fields that are not valid as zeros written explicitly. *)
Definition zeroed : t :=
  mk
    Closed (mkEndpoint [0; 0; 0; 0] 0) (mkEndpoint [0; 0; 0; 0] 0) 0 0 0 0 0 0 0 0 0 0 0 0 0 0
    0 0 0 0 0 false 0 0 0 0 false 0 0 0 false 0 0 false false false false (Rtx.new RTX)
    Rack.new Deadline.OFF Deadline.OFF None false 0 0 0 (Reno.new INITIAL_WINDOW) false 0 0 0 0
    false false 0 (Ring.mk (replicate (Z.to_nat BUF) 0) 0 0 0) 0 0 0
    (Ring.mk (replicate (Z.to_nat BUF) 0) 0 0 0)
    (Ooo.mk (replicate (Z.to_nat OOO_MAX) (Ooo.mkRange 0 0 0)) 0 0) None None 0 0 0 0 0 false
    Deadline.OFF 0 false 0 Deadline.OFF Deadline.OFF 0 false 0 Deadline.OFF 0 0 Deadline.OFF
    None (TxRing.new TXQ MAX_PACKET) false false 0 false 0 0 0 0 0 Deadline.OFF 0 Deadline.OFF
    0 Deadline.OFF KEY0 false false false KEY0 false 0 KEY0 false Stats.default.

Definition new (cfg : TcbConfig) : Res t :=
  check (BUF =? 0) || negb (Z.land BUF (BUF - 1) =? 0) else Overflow ;
  Ok (setup zeroed cfg).

Definition reset_to_listen_or_closed (self : t) : t :=
  let return_to_listen := is_listener self in
  let self := reset_connection_state self in
  let self := self <| remote := no_endpoint |> in
  self <| state := if return_to_listen then Listen else Closed |>.

(** ** Teardown *)

Definition disarm_timers (self : t) : t :=
  let self := self <| rto_deadline := Deadline.OFF |> in
  let self := self <| time_wait_deadline := Deadline.OFF |> in
  let self := self <| fin_wait2_deadline := Deadline.OFF |> in
  let self := self <| persist_deadline := Deadline.OFF |> in
  let self := self <| ack_deadline := Deadline.OFF |> in
  let self := self <| rack_deadline := Deadline.OFF |> in
  let self := self <| tlp_deadline := Deadline.OFF |> in
  let self := self <| tlp_end_seq := None |> in
  let self := self <| keepalive_deadline := Deadline.OFF |> in
  let self := self <| keepalive_probes := 0 |> in
  let self := self <| user_timeout_deadline := Deadline.OFF |> in
  self <| pending_ack := false |>.

Definition release_buffers_and_timers (self : t) : t :=
  let self := self <| send_ring := Ring.clear (send_ring self) |> in
  let self := self <| ooo := Ooo.clear (ooo self) |> in
  let self := self <| ooo_fin := None |> in
  let self := self <| rtx := Rtx.clear (rtx self) |> in
  let self := self <| snd_nxt := snd_una self |> in
  let self := self <| syn_unacked := false |> in
  let self := self <| fin_sent := false |> in
  disarm_timers self.

Definition abort_local (self : t) : t :=
  let self := self <| state := Closed |> in
  let self := self <| error := Some ConnectionReset |> in
  let self := self <| recv_ring := Ring.clear (recv_ring self) |> in
  release_buffers_and_timers self.

Definition close_clean (self : t) : t :=
  release_buffers_and_timers (self <| state := Closed |>).

(** ** Shared helpers *)

Definition syn_outstanding (self : t) : bool := syn_unacked self.

Definition data_una (self : t) : Z := wadd32 (snd_una self) (b2z (syn_outstanding self)).

Definition unsent_bytes (self : t) : Z :=
  let sent_data := sat_sub (wsub32 (snd_nxt self) (data_una self)) (b2z (fin_sent self)) in
  sat_sub (as_u32 (Ring.len (send_ring self))) sent_data.

Definition egress_full (self : t) : bool :=
  egress_paused self || TxRing.is_full TXQ (tx_ring self).

Definition has_send_work (self : t) : bool :=
  negb (snd_una self =? snd_nxt self) || (0 <? unsent_bytes self).

Definition keepalive_applies (self : t) : bool :=
  match state self with
  | Established | CloseWait | FinWait1 | FinWait2 | Closing | LastAck => true
  | _ => false
  end.

Definition pipe (self : t) : Z :=
  let outstanding := wsub32 (snd_nxt self) (data_una self) in
  sat_sub (Rtx.pipe (rtx self) outstanding) (reno_sacked self).

Definition mss_payload (self : t) : Z :=
  let cap := Z.min (Z.min (local_mss self) (peer_mss self)) (pmtu_mss self) in
  let ts := if ts_enabled self then 12 else 0 in
  Z.max (sat_sub cap ts) 1.

Definition oow_allowed (self : t) : t * bool :=
  let limited :=
    match Deadline.get (last_oow_ms self) with
    | Some last => (last <=? now_ms self) && (now_ms self - last <? OOW_RATELIMIT_MS)
    | None => false
    end in
  if limited then (self <| stats ::= fun st => st <| Stats.oow_suppressed ::= inc32 |> |>, false)
  else (self <| last_oow_ms := Deadline.at_ (now_ms self) |>, true).

Definition arm_rto (self : t) : t :=
  self <| rto_deadline := Deadline.at_ (sat_add64 (now_ms self) (rto_ms self)) |>.

Definition update_rtt (self : t) (r_ms : Z) : t :=
  let r := Z.max r_ms 1 in
  let self :=
    if negb (rtt_first_sample self) then
      let self := self <| srtt_ms := r |> in
      let self := self <| rttvar_ms := Z.max (r / 2) 1 |> in
      self <| rtt_first_sample := true |>
    else
      let diff := Z.abs (srtt_ms self - r) in
      let self := self <| rttvar_ms := sat_add32 (sat_mul32 3 (rttvar_ms self)) diff / 4 |> in
      self <| srtt_ms := sat_add32 (sat_mul32 7 (srtt_ms self)) r / 8 |> in
  let rto := sat_add32 (srtt_ms self) (Z.max 1 (sat_mul32 (rttvar_ms self) 4)) in
  let self := self <| rto_ms := clamp rto RTO_MIN_MS RTO_MAX_MS |> in
  self <| rack := Rack.sample_rtt (rack self) (now_ms self) r |>.

Definition ts_val (self : t) : Z := wadd32 (as_u32 (now_ms self)) (ts_offset self).

Definition tsecr_to_ms (self : t) (tsecr : Z) : Z := wsub32 tsecr (ts_offset self).

(** [u32::from(w) << self.snd_wscale]: the shift is at most 14, so no bit of
    the 16-bit window leaves the 32-bit result. *)
Definition scale_peer_window (self : t) (w : Z) : Z := as_u32 (Z.shiftl w (snd_wscale self)).

(** ** Introspection *)

Definition min_deadline (ds : list Deadline.t) : option Z :=
  foldr (fun d acc =>
    match Deadline.get d, acc with
    | Some x, Some y => Some (Z.min x y)
    | Some x, None => Some x
    | None, _ => acc
    end) None ds.

Definition next_deadline (self : t) : option Z :=
  let ack := if pending_ack self && negb (egress_paused self) then ack_deadline self else Deadline.OFF in
  let keepalive := if egress_paused self then Deadline.OFF else keepalive_deadline self in
  let fin2 := if state_eqb (state self) FinWait2 then fin_wait2_deadline self else Deadline.OFF in
  min_deadline
    [time_wait_deadline self; fin2; rto_deadline self; tlp_deadline self; rack_deadline self;
     persist_deadline self; ack; keepalive; user_timeout_deadline self].

(** [debug_validate_invariants], as the conjunction of its checks. *)
Definition debug_validate_invariants (self : t) : bool :=
  let syn_phantom := b2z (syn_outstanding self) in
  let data_una := wadd32 (snd_una self) syn_phantom in
  let covered := wsub32 (snd_nxt self) data_una in
  negb (seq_lt (snd_nxt self) (snd_una self))
  && negb (syn_unacked self && (negb (snd_una self =? iss self) || (snd_nxt self =? iss self)))
  && (if is_synchronized (state self) then
        Rtx.debug_valid RTX (rtx self) data_una (snd_nxt self)
        && (if negb (Rtx.is_empty (rtx self)) || negb (covered =? 0)
            then bool_decide (Seg.start <$> Rtx.get_seg RTX (rtx self) 0 = Some data_una) else true)
        && (let fin := b2z (fin_sent self && seq_lt (snd_una self) (snd_nxt self)) in
            sat_sub covered fin <=? Ring.len (send_ring self))
      else true)
  && (if fin_sent self then
        (wadd32 (fin_seq self) 1 =? snd_nxt self)
        && (match state self with
            | FinWait1 | FinWait2 | Closing | TimeWait | LastAck | Closed => true
            | _ => false
            end)
        && negb ((match state self with FinWait2 | TimeWait => true | _ => false end)
                 && seq_le (snd_una self) (fin_seq self))
      else true)
  && negb (Deadline.is_armed (rto_deadline self) && (snd_una self =? snd_nxt self))
  && Ooo.debug_valid (ooo self) (rcv_nxt self)
  && (match Ooo.last_end (ooo self) with
      | Some e => wsub32 e (rcv_nxt self) <=? Ring.free BUF (recv_ring self)
      | None => true
      end)
  && (match ooo_fin self with
      | Some h =>
          can_recv (state self) && seq_gt (fin_at h) (rcv_nxt self) && negb (seq_gt (fin_start h) (fin_at h))
      | None => true
      end)
  && (match TxRing.peek_head_len (tx_ring self) with Some n => n <=? MAX_PACKET | None => true end).

Definition debug_check_liveness (self : t) : bool :=
  if Options.is_some (TxRing.peek_head_len (tx_ring self)) || state_eqb (state self) Closed then true else
  negb (negb (snd_una self =? snd_nxt self)
        && negb (Deadline.is_armed (rto_deadline self))
        && negb (Deadline.is_armed (tlp_deadline self))
        && negb (Deadline.is_armed (rack_deadline self)))
  && negb (can_send (state self) && (0 <? unsent_bytes self) && (snd_una self =? snd_nxt self)
           && negb (Deadline.is_armed (persist_deadline self))).

Definition poll (self : t) : Z :=
  let flag (b : bool) (f : Z) (ev : Z) := if b then Z.lor ev f else ev in
  let ev := flag (negb (Ring.is_empty (recv_ring self))) events.READABLE 0 in
  let ev := flag (can_send (state self) && (0 <? Ring.free BUF (send_ring self)) && (send_lent self =? 0))
              events.WRITABLE ev in
  let ev := flag (state_eqb (state self) Established) events.ESTABLISHED ev in
  let ev := flag (match state self with CloseWait | LastAck | Closing | TimeWait => true | _ => false end)
              events.PEER_CLOSED ev in
  let ev := flag (state_eqb (state self) Closed) events.CLOSED ev in
  let ev := flag (state_eqb (state self) Listen) events.LISTENING ev in
  let ev := flag (state_eqb (state self) SynRcvd) events.HALF_OPEN ev in
  let ev := flag (negb (TxRing.is_empty (tx_ring self))) events.TX_PENDING ev in
  flag (Options.is_some (error self)) events.ERROR ev.

End Tcb.
