(* ===== verification/TcbAck.v ===== *)
(** * Acknowledgment processing and loss recovery (src/tcb/ack.rs). *)
From S2P Require Import Prelude Error Seq State Effect Ring Sack Ooo TxRing Options Wire RtxQueue Rack Congestion Tcb.
Import Tcb.

Section Ack.
Context `{C : Config}.

Definition ack_acceptable (self : t) (ack : Z) : bool :=
  let max_wnd := Z.max (max_snd_wnd self) (local_mss self) in
  let back := if snd_acked self <? M32 then Z.min (snd_acked self) max_wnd else max_wnd in
  negb (seq_gt ack (snd_nxt self)) && negb (seq_lt ack (wsub32 (snd_una self) back)).

(** [enter_time_wait] of src/tcb/input.rs. *)
Definition enter_time_wait (self : t) : t :=
  let self := self <| time_wait_deadline := Deadline.at_ (sat_add64 (now_ms self) TIME_WAIT_MS) |> in
  let self := self <| time_wait_since_ms := now_ms self |> in
  let self := self <| fin_wait2_deadline := Deadline.OFF |> in
  let self := self <| keepalive_deadline := Deadline.OFF |> in
  self <| user_timeout_deadline := Deadline.OFF |>.

Definition pmtu_probe_on_ack (self : t) : t :=
  if negb (pmtu_probe_inflight self) then self else
  let delivered :=
    seq_ge (snd_una self) (pmtu_probe_end self)
    || match Rtx.find RTX (rtx self) (pmtu_probe_start self) with
       | Some i =>
           match Rtx.get_seg RTX (rtx self) i with
           | Some s => Seg.has s seg_flags.SACKED
           | None => false
           end
       | None => false
       end in
  if negb delivered then self else
  let self := self <| pmtu_probe_inflight := false |> in
  let self := self <| pmtu_mss := Z.max (pmtu_mss self) (pmtu_probe_mss self) |> in
  if pmtu_restore_mss self <=? pmtu_mss self then self <| pmtu_restore_mss := 0 |>
  else self <| pmtu_probe_at := now_ms self |>.

Definition update_send_window (self : t) (seg : Segment) (prior_una : Z) : t :=
  let seq := if seq_gt (seg_seq seg) (rcv_nxt self) then rcv_nxt self else seg_seq seg in
  let fresh :=
    seq_gt (seg_ack seg) prior_una
    || seq_lt (snd_wl1 self) seq
    || ((snd_wl1 self =? seq) && seq_le (snd_wl2 self) (seg_ack seg)) in
  if negb fresh then self else
  let wnd := scale_peer_window self (window seg) in
  let self := self <| snd_wnd := wnd |> in
  let self := self <| snd_wl1 := seq |> in
  let self := self <| snd_wl2 := seg_ack seg |> in
  self <| max_snd_wnd := Z.max (max_snd_wnd self) wnd |>.

Definition dsack_valid (self : t) (l r mss : Z) : t * bool :=
  let max_wnd := Z.max (max_snd_wnd self) (local_mss self) in
  let len := wsub32 r l in
  if negb (seq_lt l r) || seq_gt r (snd_nxt self) || (max_wnd <? len) then (self, false) else
  let segs := div_ceil len (Z.max mss 1) in
  let total := sat_add64 (dsack_segs self) segs in
  if Stats.segs_retrans (stats self) <? total then (self, false)
  else (self <| dsack_segs := total |>, true).

Definition note_progress (self : t) (acked : Z) : t :=
  let self := self <| persist_backoff_ms := 0 |> in
  if user_timeout_ms self =? 0 then self else
  if negb (has_send_work self) then
    let self := self <| user_timeout_deadline := Deadline.OFF |> in
    self <| ut_progress := 0 |>
  else
    let self := self <| ut_progress := sat_add32 (ut_progress self) acked |> in
    if (mss_payload self <=? ut_progress self) || negb (Deadline.is_armed (user_timeout_deadline self)) then
      let self := self <| ut_progress := 0 |> in
      self <| user_timeout_deadline := Deadline.at_ (sat_add64 (now_ms self) (user_timeout_ms self)) |>
    else self.

Definition rack_detect (self : t) : t * bool :=
  let mss := mss_payload self in
  let reo := Rack.reo_wnd (rack self) (srtt_ms self) (Reno.in_loss_recovery (cc self))
               (Rtx.sacked (rtx self)) mss in
  let '(q, (marked, timeout)) := Rack.detect_loss RTX (rack self) (rtx self) (now_ms self) reo in
  let self := self <| rtx := q |> in
  let self := self <| rack_deadline :=
    match timeout with
    | Some x => Deadline.at_ (sat_add64 (now_ms self) x)
    | None => Deadline.OFF
    end |> in
  (self, marked).

(** The result is [(newly_lost, was_duplicate_ack)]. *)
Definition newreno_detect (self : t) (seg : Segment) (acked wnd_before : Z) : t * (bool * bool) :=
  if acked =? 0 then
    let dup := (zlen (payload seg) =? 0) && negb (Wire.has seg flags.FIN)
               && negb (snd_una self =? snd_nxt self) && (snd_wnd self =? wnd_before) in
    if dup then
      let self := self <| dup_acks := sat_add8 (dup_acks self) 1 |> in
      if (dup_acks self =? 3) && negb (Reno.in_loss_recovery (cc self)) then
        (self <| rtx := Rtx.mark_lost RTX (rtx self) 0 |>, (true, true))
      else (self, (false, dup))
    else (self, (false, dup))
  else if negb (sack_enabled self) && ca_eqb (Reno.state (cc self)) CaRecovery
          && seq_lt (snd_una self) (Reno.recovery_point (cc self)) then
    (self <| rtx := Rtx.mark_lost RTX (rtx self) 0 |>, (true, false))
  else (self, (false, false)).

Definition enter_fast_recovery (self : t) (flight : Z) : t :=
  let mss := mss_payload self in
  let self :=
    if ca_eqb (Reno.state (cc self)) CaCwr then self <| cc ::= Reno.cwr_to_recovery |>
    else self <| cc := Reno.enter_recovery (cc self) flight (snd_una self) (snd_nxt self) mss |> in
  let self := self <| stats ::= fun st => st <| Stats.fast_recoveries ::= inc32 |> |> in
  let self := self <| tlp_end_seq := None |> in
  self <| tlp_deadline := Deadline.OFF |>.

Definition take_cwnd_limited (self : t) : t * bool :=
  let in_ss := Reno.cwnd (cc self) <? Reno.ssthresh (cc self) in
  let limited := cwnd_limited self
                 || (in_ss && (Reno.cwnd (cc self) <? sat_mul32 (pipe_hiwat self) 2)) in
  let self :=
    if seq_ge (snd_una self) (cwnd_limited_seq self) then
      let self := self <| cwnd_limited := false |> in
      let self := self <| pipe_hiwat := pipe self |> in
      self <| cwnd_limited_seq := snd_nxt self |>
    else self in
  (self, limited).

Definition tlp_on_ack (self : t) (ack : Z) (dsack : option (Z * Z)) (sack : bool) (delivered : Z) : t :=
  match tlp_end_seq self with
  | None => self
  | Some e =>
      if negb (seq_ge ack e) then self else
      if negb (tlp_is_retrans self) then self <| tlp_end_seq := None |> else
      if (match dsack with Some (_, r) => r =? e | None => false end)
      then self <| tlp_end_seq := None |> else
      if seq_gt ack e || (negb sack && (delivered =? 0)) then
        let self := self <| tlp_end_seq := None |> in
        if ca_eqb (Reno.state (cc self)) CaOpen then
          let mss := mss_payload self in
          let w := Reno.cwnd (cc self) in
          let self := self <| cc := Reno.set_ssthresh (cc self) (Z.max (w / 2) (sat_mul32 mss 2)) |> in
          self <| cc := Reno.set_cwnd (cc self) (Reno.ssthresh (cc self)) |>
        else self
      else self
  end.

Definition maybe_arm_tlp (self : t) : t :=
  let eligible :=
    sack_enabled self
    && ca_eqb (Reno.state (cc self)) CaOpen
    && negb (Options.is_some (tlp_end_seq self))
    && negb (snd_una self =? snd_nxt self)
    && may_transmit (state self) in
  if negb eligible then self <| tlp_deadline := Deadline.OFF |> else
  let srtt := if rtt_first_sample self then srtt_ms self else 500 in
  let pto := sat_mul64 srtt 2 in
  let pto := if Rtx.len (rtx self) =? 1 then sat_add64 pto TLP_WC_DELACK_MS else pto in
  let at_ := sat_add64 (now_ms self) (Z.max pto TLP_MIN_PTO_MS) in
  let at_ := match Deadline.get (rto_deadline self) with Some rto => Z.min at_ rto | None => at_ end in
  self <| tlp_deadline := Deadline.at_ at_ |>.

(** ** [process_ack], section by section *)

(** A believed D-SACK: the block is non-empty, within what was sent, and the
    retransmissions account for it. *)
Definition believe_dsack (self : t) (l0 r0 mss : Z) : t :=
  let self := self <| stats ::= fun st => st <| Stats.dsacks_received ::= inc64 |> |> in
  let self := self <| rack := Rack.on_dsack (rack self) (snd_una self) (snd_nxt self) |> in
  let '(cc', undone) := Reno.on_dsack (cc self) l0 r0 mss in
  let self := self <| cc := cc' |> in
  if undone then
    let self := self <| rtx := Rtx.unmark_lost RTX (rtx self) |> in
    self <| rack ::= Rack.on_recovery_exit |>
  else self.

(** [rtx.sack(l, r, |s| rack.on_delivered(s, now, None))] *)
Definition sack_one (now : Z) '((self, delivered) : t * Z) '((l, r) : Z * Z) : t * Z :=
  let '(q, n, calls) := Rtx.sack RTX (rtx self) l r in
  let self := self <| rtx := q |> in
  let self := self <| rack := foldl (fun rk s => Rack.on_delivered rk s now None) (rack self) calls |> in
  (self, sat_add32 delivered n).

(** The SACK section: the state, the believed D-SACK, whether the segment
    carried blocks and the bytes they newly cover. *)
Definition ack_sack (self : t) (seg : Segment) (mss : Z) : t * (option (Z * Z) * bool * Z) :=
  if negb (sack_enabled self) then (self, (None, false, 0)) else
  let blocks := SackBlocks.as_slice (sack (options seg)) in
  match blocks with
  | [] => (self, (None, false, 0))
  | (l0, r0) :: _ =>
      let is_dsack :=
        seq_le r0 (seg_ack seg)
        || match get blocks 1 with Some (l1, r1) => seq_le l1 l0 && seq_le r0 r1 | None => false end in
      let '(self, valid) := if is_dsack then dsack_valid self l0 r0 mss else (self, false) in
      let '(self, dsack) := if valid then (believe_dsack self l0 r0 mss, Some (l0, r0)) else (self, None) in
      let '(self, delivered) :=
        foldl (sack_one (now_ms self)) (self, 0) (drop (if is_dsack then 1 else 0) blocks) in
      (self, (dsack, true, delivered))
  end.

(** What the closure of [ack_to] accumulates: RACK's state, the oldest and
    newest send times and whether a retransmission was acknowledged. *)
Definition on_acked (now : Z) (tsecr_ms : option Z)
    '((rk, oldest, newest, retrans) : Rack.t * option Z * Z * bool) '((s, newly) : Seg.t * bool)
    : Rack.t * option Z * Z * bool :=
  if newly then
    let rk := Rack.on_delivered rk s now tsecr_ms in
    let newest := Z.max newest (Seg.xmit_ts s) in
    if Seg.has s seg_flags.EVER_RETRANS then (rk, oldest, newest, true)
    else (rk, Some (match oldest with Some k => Z.min k (Seg.xmit_ts s) | None => Seg.xmit_ts s end),
          newest, retrans)
  else (rk, oldest, newest, retrans).

(** The round-trip sample of a cumulative ACK. *)
Definition rtt_sample (now : Z) (tsecr_ms oldest : option Z) (newest : Z) (retrans : bool) : option Z :=
  if retrans then
    match tsecr_ms with
    | Some ts => if negb (seq_gt ts (as_u32 newest)) then Some (wsub32 (as_u32 now) ts) else None
    | None => None
    end
  else
    match oldest with
    | Some x => let d := sat_sub now x in if d <? M32 then Some d else None
    | None => None
    end.

(** The cumulative section, for [acked > 0]. *)
Definition ack_cumulative (self : t) (ack acked mss : Z) (tsecr_ms : option Z) (delivered : Z) : t * Z :=
  let prior_una := snd_una self in
  let now := now_ms self in
  let syn_acked := syn_outstanding self in
  let fin_acked := fin_sent self && seq_le prior_una (fin_seq self) && seq_gt ack (fin_seq self) in
  let sacked_before := Rtx.sacked (rtx self) in
  let '(q, _, calls) := Rtx.ack_to RTX (rtx self) ack in
  let '(rk, oldest, newest, retrans) := foldl (on_acked now tsecr_ms) (rack self, None, 0, false) calls in
  let self := self <| rtx := q |> in
  let self := self <| rack := rk |> in
  let sacked_removed := sat_sub sacked_before (Rtx.sacked (rtx self)) in
  let reno_eaten := Z.min (sat_sub acked mss) (reno_sacked self) in
  let self := self <| reno_sacked := reno_sacked self - reno_eaten |> in
  let delivered :=
    sat_sub (sat_add32 delivered (sat_sub (sat_sub acked sacked_removed) reno_eaten)) (b2z syn_acked) in
  let data_acked := sat_sub (sat_sub acked (b2z fin_acked)) (b2z syn_acked) in
  let self := self <| send_ring := Ring.consume (send_ring self) data_acked |> in
  let self := self <| snd_una := ack |> in
  let self := self <| snd_acked := sat_add64 (snd_acked self) acked |> in
  let self := self <| syn_unacked := false |> in
  let self := self <| dup_acks := 0 |> in
  let self :=
    match rtt_sample now tsecr_ms oldest newest retrans with
    | Some r => if r <? 60000 then update_rtt self r else self
    | None => self
    end in
  (note_progress self (sat_add32 data_acked (b2z fin_acked)), delivered).

(** The ECN-Echo section. *)
Definition ack_ecn (self : t) (seg : Segment) (prior_flight mss : Z) : t :=
  if ecn_enabled self && Wire.has seg flags.ECE && ca_eqb (Reno.state (cc self)) CaOpen
     && negb (snd_una self =? snd_nxt self) then
    let self := self <| cc := Reno.enter_cwr (cc self) prior_flight (snd_nxt self) mss |> in
    self <| send_cwr_pending := true |>
  else self.

(** The loss detection section: the state, whether segments were newly marked
    lost, and the bytes delivered. *)
Definition ack_loss (self : t) (seg : Segment) (acked wnd_before mss prior_flight : Z)
    (sack_present : bool) (delivered : Z) : t * (bool * Z) :=
  let '(self, newly_lost) := if sack_enabled self then rack_detect self else (self, false) in
  let '(self, (newly_lost, delivered)) :=
    if negb sack_present then
      let '(self, (lost, dup)) := newreno_detect self seg acked wnd_before in
      let newly_lost := newly_lost || lost in
      let outstanding := wsub32 (snd_nxt self) (data_una self) in
      if dup && negb (sack_enabled self) && (sat_add32 (reno_sacked self) mss <=? outstanding) then
        (self <| reno_sacked := reno_sacked self + mss |>, (newly_lost, sat_add32 delivered mss))
      else (self, (newly_lost, delivered))
    else (self, (newly_lost, delivered)) in
  let outstanding := wsub32 (snd_nxt self) (data_una self) in
  let self := self <| reno_sacked := Z.min (reno_sacked self) outstanding |> in
  let self :=
    if (0 <? Rtx.lost (rtx self)) && negb (Reno.in_loss_recovery (cc self))
    then enter_fast_recovery self prior_flight else self in
  (self, (newly_lost, delivered)).

(** The congestion control section. *)
Definition ack_congestion (self : t) (delivered mss acked : Z) (newly_lost : bool) : t :=
  let '(cc', exited) := Reno.maybe_exit (cc self) (snd_una self) in
  let self := self <| cc := cc' |> in
  let self := if exited then self <| rack ::= Rack.on_recovery_exit |> else self in
  let '(self, limited) := take_cwnd_limited self in
  if Reno.in_reduction (cc self) then
    let pipe := pipe self in
    self <| cc := Reno.prr_update (cc self) delivered pipe mss ((0 <? acked) && negb newly_lost) |>
  else self <| cc := Reno.on_ack (cc self) delivered mss limited |>.

(** The timers section. *)
Definition ack_timers (self : t) (acked : Z) : t :=
  let self :=
    if snd_una self =? snd_nxt self then
      let self := self <| rto_deadline := Deadline.OFF |> in
      let self := self <| tlp_deadline := Deadline.OFF |> in
      self <| rack_deadline := Deadline.OFF |>
    else if 0 <? acked then arm_rto self else self in
  maybe_arm_tlp self.

(** The last section: the state machine when our FIN is acknowledged. *)
Definition ack_fin (self : t) : t :=
  if fin_sent self && (snd_una self =? snd_nxt self) then
    match state self with
    | FinWait1 =>
        let self := self <| state := FinWait2 |> in
        let self := self <| user_timeout_deadline := Deadline.OFF |> in
        if negb (fin_wait2_timeout_ms self =? 0) then
          self <| fin_wait2_deadline := Deadline.at_ (sat_add64 (now_ms self) (fin_wait2_timeout_ms self)) |>
        else self
    | Closing =>
        let self := enter_time_wait self in
        self <| state := TimeWait |>
    | LastAck => close_clean self
    | _ => self
    end
  else self.

(** The function always returns [Ok(())]. *)
Definition process_ack (self : t) (seg : Segment) : t :=
  let ack := seg_ack seg in
  let self := self <| rtx_count := 0 |> in
  if seq_lt ack (snd_una self) then self else
  let prior_una := snd_una self in
  let prior_flight := wsub32 (snd_nxt self) (data_una self) in
  let mss := mss_payload self in
  let tsecr_ms :=
    match ts_enabled self, ts (options seg) with
    | true, Some (_, e) => if negb (e =? 0) then Some (tsecr_to_ms self e) else None
    | _, _ => None
    end in
  let self := self <| rack ::= Rack.on_ack_start |> in
  let '(self, (dsack, sack_present, delivered)) := ack_sack self seg mss in
  let acked := wsub32 ack prior_una in
  let '(self, delivered) :=
    if 0 <? acked then ack_cumulative self ack acked mss tsecr_ms delivered else (self, delivered) in
  let self := pmtu_probe_on_ack self in
  let wnd_before := snd_wnd self in
  let self := update_send_window self seg prior_una in
  let self := ack_ecn self seg prior_flight mss in
  let '(self, (newly_lost, delivered)) :=
    ack_loss self seg acked wnd_before mss prior_flight sack_present delivered in
  let self := tlp_on_ack self ack dsack sack_present delivered in
  let self := ack_congestion self delivered mss acked newly_lost in
  let self := ack_timers self acked in
  ack_fin self.

End Ack.
