(* ===== verification/TcbOutput.v ===== *)
(** * Transmission (src/tcb/output.rs): new data, retransmissions, FIN, probes
    and control segments. *)
From S2P Require Import Prelude Error Seq State Effect Ring Sack Ooo TxRing Options Wire RtxQueue Rack Congestion Tcb TcbAck.
Import Tcb.

(** A segment's payload: [sl_len] bytes at [sl_off] past the start of the
    send ring. *)
Record RingSlice := mkSlice { sl_off : Z; sl_len : Z }.

Definition NO_PAYLOAD : RingSlice := mkSlice 0 0.

(** What the closure of [push_with] does to the lent slot.  On an error the
    slot may be left partly written; it is outside the queue and rewritten
    from its first byte before it can be read, so it is left unchanged here. *)
Definition into_slot (r : list Z -> Res (list Z * Z)) (b : list Z) : list Z * Res Z :=
  match r b with
  | Ok (b', n) => (b', Ok n)
  | Err e => (b, Err e)
  end.

(** [b << n] and [b >> n] of [u32]. *)
Definition shl32 (x n : Z) : Z := as_u32 (Z.shiftl x n).

Section Output.
Context `{C : Config}.

Definition fin_owed (self : t) : bool :=
  (match state self with FinWait1 | Closing | LastAck => true | _ => false end) && negb (fin_sent self).

Definition usable_window (self : t) : Z :=
  let edge := wadd32 (snd_una self) (snd_wnd self) in
  if seq_gt edge (snd_nxt self) then wsub32 edge (snd_nxt self) else 0.

Definition pmtu_probe_len (self : t) : option (Z * Z) :=
  if (pmtu_restore_mss self =? 0) || pmtu_probe_inflight self || (now_ms self <? pmtu_probe_at self)
     || negb (rtx_count self =? 0) || negb (ca_eqb (Reno.state (cc self)) CaOpen)
  then None else
  let next := if (pmtu_mss self <? BLACKHOLE_MSS1) && (BLACKHOLE_MSS1 <? pmtu_restore_mss self)
              then BLACKHOLE_MSS1 else pmtu_restore_mss self in
  let cap := Z.min (Z.min (local_mss self) (peer_mss self)) next in
  let ts := if ts_enabled self then 12 else 0 in
  let len := sat_sub cap ts in
  if mss_payload self <? len then Some (len, next) else None.

Definition pmtu_probe_failed (self : t) : t :=
  let self := self <| pmtu_probe_inflight := false |> in
  let self := self <| pmtu_probe_backoff_ms :=
    clamp (sat_mul32 (pmtu_probe_backoff_ms self) 2) PMTU_PROBE_MIN_MS PMTU_PROBE_MAX_MS |> in
  self <| pmtu_probe_at := sat_add64 (now_ms self) (pmtu_probe_backoff_ms self) |>.

(** ** The receive window offered *)

(** [rcv_adv_edge - rcv_nxt], or 0 when the edge has been reached. *)
Definition offered (self : t) : Z :=
  if seq_gt (rcv_adv_edge self) (rcv_nxt self) then wsub32 (rcv_adv_edge self) (rcv_nxt self) else 0.

Definition advertised_window (self : t) : Z :=
  let free := as_u32 (Ring.free BUF (recv_ring self)) in
  let cur := offered self in
  let thresh := Z.min (as_u32 BUF / 2) (local_mss self) in
  if sat_add32 cur thresh <=? free then free else cur.

Definition outbound_window (self : t) (is_syn : bool) : Z * Z :=
  let adv := advertised_window self in
  if is_syn then let w := Z.min adv 65535 in (w, w) else
  let shift := rcv_wscale self in
  let cur := offered self in
  let fits := Z.shiftr (as_u32 (Ring.free BUF (recv_ring self))) shift in
  let units := Z.min (Z.shiftr adv shift) fits in
  let units := if shl32 units shift <? cur then Z.min (div_ceil cur (shl32 1 shift)) fits else units in
  let units := Z.min units 65535 in
  (as_u16 units, shl32 units shift).

(** ** Segment construction *)

Definition segment_options (self : t) (payload_len : Z) : t * TcpOptions :=
  let opts := Options.NONE in
  let opts := if ts_enabled self then Options.set_ts opts (Some (ts_val self, ts_recent self)) else opts in
  let ts_len := if ts_enabled self then 12 else 0 in
  if sack_enabled self && (Options.is_some (dsack self) || negb (Ooo.is_empty (ooo self))) then
    let cap := Z.min (Z.min (local_mss self) (peer_mss self)) (pmtu_mss self) in
    let budget := Z.min (sat_sub cap payload_len) 40 in
    let fixed := if 0 <? ts_len then 12 else 4 in
    let n := Z.min (sat_sub budget fixed / 8) 4 in
    if 0 <? n then
      let '(self, sb) :=
        match dsack self with
        | Some (l, r) => (self <| dsack := None |>, SackBlocks.push SackBlocks.EMPTY l r)
        | None => (self, SackBlocks.EMPTY)
        end in
      let more := sat_sub n (SackBlocks.len sb) in
      (self, Options.set_sack opts (Ooo.fill_sack_blocks (ooo self) sb more))
    else (self, opts)
  else (self, opts).

(** The bookkeeping after a segment was staged. *)
Definition staged (self : t) (flag_bits ack wnd_bytes : Z) : t :=
  let self := self <| ip_id := wadd16 (ip_id self) 1 |> in
  let self := self <| stats ::= fun st => st <| Stats.segs_out ::= inc64 |> |> in
  if negb (Z.land flag_bits flags.ACK =? 0) && (Z.land flag_bits flags.RST =? 0) then
    let self := self <| last_ack_sent := ack |> in
    let edge := wadd32 ack wnd_bytes in
    let self := if seq_gt edge (rcv_adv_edge self) then self <| rcv_adv_edge := edge |> else self in
    self <| rcv_wnd := wnd_bytes |>
  else self.

(** The ECN bits of the header: the flags to send, with the pending CWR
    consumed. *)
Definition ecn_flags (self : t) (flag_bits : Z) (is_syn ect : bool) : t * Z :=
  if ecn_enabled self && negb is_syn && negb (Z.land flag_bits flags.ACK =? 0) then
    let fl := if ce_observed self then Z.lor flag_bits flags.ECE else flag_bits in
    if send_cwr_pending self && ect then (self <| send_cwr_pending := false |>, Z.lor fl flags.CWR)
    else (self, fl)
  else (self, flag_bits).

(** The payload comes straight from the send ring. *)
Definition ring_fill (ring : Ring.t) (sl : RingSlice) (dst : list Z) : list Z * bool :=
  let '(dst', n) := Ring.peek_at BUF ring (sl_off sl) dst in
  (dst', n =? zlen dst).

Definition emit_segment (self : t) (flag_bits seq ack : Z) (opts : TcpOptions) (sl : RingSlice)
    (ect : bool) : t * Res bool :=
  if TxRing.is_full TXQ (tx_ring self)
     || (egress_paused self && (Z.land flag_bits (Z.lor flags.SYN flags.RST) =? 0))
  then (self, Ok false) else
  let is_syn := negb (Z.land flag_bits flags.SYN =? 0) in
  let '(window, wnd_bytes) := outbound_window self is_syn in
  let '(self, fl) := ecn_flags self flag_bits is_syn ect in
  let ecn_cp := if ecn_enabled self && negb is_syn && ect then ecn.ECT_0 else ecn.NOT_ECT in
  let full_csum := negb (tx_csum_offload self) in
  let '(ring, res) :=
    TxRing.push_with TXQ MAX_PACKET (tx_ring self)
      (into_slot (fun buf =>
         Wire.emit_with en buf (ip (local self)) (ip (remote self)) (port (local self))
           (port (remote self)) seq ack fl window opts (sl_len sl)
           (ring_fill (send_ring self) sl) (ip_id self) ecn_cp full_csum)) in
  let self := self <| tx_ring := ring |> in
  try (self, queued) := (self, res) in
  (if queued then staged self flag_bits ack wnd_bytes else self, Ok queued).

(** The ACK rides on a segment that was just queued. *)
Definition ack_sent (self : t) : t :=
  let self := self <| pending_ack := false |> in
  let self := self <| delayed_ack_count := 0 |> in
  self <| ack_deadline := Deadline.OFF |>.

Definition emit_data_segment (self : t) (fl seq : Z) (sl : RingSlice) (ect : bool) : t * Res bool :=
  let '(self, opts) := segment_options self (as_u32 (sl_len sl)) in
  try (self, queued) := emit_segment self fl seq (rcv_nxt self) opts sl ect in
  (if queued then ack_sent self else self, Ok queued).

Definition send_pure_ack (self : t) : t * Res unit :=
  if egress_full self then
    let self := self <| pending_ack := true |> in
    (self <| ack_deadline := Deadline.at_ (now_ms self) |>, Ok tt)
  else
    let '(self, opts) := segment_options self 0 in
    try (self, queued) := emit_segment self flags.ACK (snd_nxt self) (rcv_nxt self) opts NO_PAYLOAD false in
    (if queued then ack_sent self else self, Ok tt).

(** [send_oow_ack] of src/tcb/mod.rs. *)
Definition send_oow_ack (self : t) : t * Res unit :=
  let '(self, allowed) := oow_allowed self in
  if allowed then send_pure_ack self else (self, Ok tt).

Definition emit_probe (self : t) (seq : Z) : t * Res bool :=
  let opts := if ts_enabled self
              then Options.set_ts Options.NONE (Some (ts_val self, ts_recent self)) else Options.NONE in
  emit_segment self flags.ACK seq (rcv_nxt self) opts NO_PAYLOAD false.

Definition emit_syn (self : t) : t * Res bool :=
  let opts := mkOptions (Some (local_mss self)) (Some WS) (Some (ts_val self, 0)) true SackBlocks.EMPTY in
  emit_segment self (Z.lor (Z.lor flags.SYN flags.ECE) flags.CWR) (iss self) 0 opts NO_PAYLOAD false.

Definition emit_synack (self : t) : t * Res bool :=
  let opts := mkOptions (Some (local_mss self))
                (if ws_ok self then Some (rcv_wscale self) else None)
                (if ts_enabled self then Some (ts_val self, ts_recent self) else None)
                (sack_enabled self) SackBlocks.EMPTY in
  let fl := Z.lor (Z.lor flags.SYN flags.ACK) (if ecn_enabled self then flags.ECE else 0) in
  emit_segment self fl (iss self) (rcv_nxt self) opts NO_PAYLOAD false.

Definition emit_ctl (self : t) (fl seq ack : Z) : t * Res bool :=
  emit_segment self fl seq ack Options.NONE NO_PAYLOAD false.

Definition emit_rst_to (self : t) (seg : Segment) (seq ack fl : Z) : t * Res unit :=
  let full_csum := negb (tx_csum_offload self) in
  let '(ring, res) :=
    TxRing.push_with TXQ MAX_PACKET (tx_ring self)
      (into_slot (fun buf =>
         Wire.emit_with en buf (ip (local self)) (src_ip seg) (port (local self)) (src_port seg)
           seq ack fl 0 Options.NONE 0 (fun dst => (dst, true)) (ip_id self) ecn.NOT_ECT full_csum)) in
  let self := self <| tx_ring := ring |> in
  try (self, queued) := (self, res) in
  (if queued then
     let self := self <| ip_id := wadd16 (ip_id self) 1 |> in
     self <| stats ::= fun st => st <| Stats.segs_out ::= inc64 |> |>
   else self, Ok tt).

(** ** Data *)

(** The header flags of a data segment. *)
Definition data_flags (len : Z) (fin : bool) : Z :=
  Z.lor (Z.lor flags.ACK (if 0 <? len then flags.PSH else 0)) (if fin then flags.FIN else 0).

(** The bookkeeping of [emit_new] once the segment is queued and recorded. *)
Definition new_sent (self : t) (seq len : Z) (fin : bool) : t :=
  let seq_len := len + b2z fin in
  let self :=
    if fin then
      let self := self <| fin_sent := true |> in
      self <| fin_seq := wadd32 seq len |>
    else self in
  let self := self <| snd_nxt := wadd32 seq seq_len |> in
  let self := self <| cc := Reno.on_send (cc self) seq_len |> in
  let self := self <| pipe_hiwat := Z.max (pipe_hiwat self) (pipe self) |> in
  let self :=
    if 0 <? len then
      let self := self <| last_data_send_ms := now_ms self |> in
      self <| stats ::= fun st => st <| Stats.bytes_sent := sat_add64 (Stats.bytes_sent st) len |> |>
    else self in
  let self := if negb (Deadline.is_armed (rto_deadline self)) then arm_rto self else self in
  maybe_arm_tlp self.

Definition emit_new (self : t) (len : Z) (fin : bool) : t * Res bool :=
  let seq := snd_nxt self in
  let sl := mkSlice (wsub32 seq (data_una self)) len in
  if MSS <? len then (self, Err Overflow) else
  try (self, queued) := emit_data_segment self (data_flags len fin) seq sl (0 <? len) in
  if negb queued then (self, Ok false) else
  let seq_len := len + b2z fin in
  let '(q, pushed) :=
    Rtx.push RTX (rtx self)
      (Seg.mk seq (wadd32 seq seq_len) (now_ms self) 0 (if fin then seg_flags.FIN else 0) 0) in
  let self := self <| rtx := q |> in
  if negb pushed then (self, Err Overflow) else
  (new_sent self seq len fin, Ok true).

(** The bookkeeping of [retransmit] once the segment is queued. *)
Definition retrans_sent (self : t) (i plen : Z) (s : Seg.t) (fin : bool) : t :=
  let self :=
    if plen <? Seg.payload_len s
    then self <| rtx := Rtx.on_partial_retransmit RTX (rtx self) i (now_ms self) (as_u16 plen) |>
    else self <| rtx := Rtx.on_retransmit RTX (rtx self) i (now_ms self) |> in
  let self := self <| cc := Reno.on_send (cc self) (plen + b2z fin) |> in
  let self := self <| cc ::= Reno.on_retransmit |> in
  let self := self <| stats ::= fun st => st <| Stats.segs_retrans ::= inc64 |> |> in
  let self := self <| stats ::= fun st => st <| Stats.bytes_retrans := sat_add64 (Stats.bytes_retrans st) plen |> |> in
  let self := self <| stats ::= fun st => st <| Stats.bytes_sent := sat_add64 (Stats.bytes_sent st) plen |> |> in
  if negb (Deadline.is_armed (rto_deadline self)) then arm_rto self else self.

(** The path-MTU bookkeeping and the split of [retransmit]: the segment to
    send from. *)
Definition retrans_prepare (self : t) (i : Z) (s : Seg.t) (mss : Z) : t * Seg.t :=
  let self :=
    if pmtu_probe_inflight self && seq_lt (Seg.start s) (pmtu_probe_end self)
       && seq_gt (Seg.end_ s) (pmtu_probe_start self)
    then pmtu_probe_failed self else self in
  if mss <? Seg.payload_len s then
    let '(q, ok) := Rtx.split RTX (rtx self) i (wadd32 (Seg.start s) mss) in
    let self := self <| rtx := q |> in
    if ok then (self, default s (Rtx.get_seg RTX (rtx self) i)) else (self, s)
  else (self, s).

Definition retransmit (self : t) (i : Z) : t * Res bool :=
  let mss := mss_payload self in
  match Rtx.get_seg RTX (rtx self) i with
  | None => (self, Ok false)
  | Some s =>
      let '(self, s) := retrans_prepare self i s mss in
      let plen := Z.min (Seg.payload_len s) mss in
      let sl := mkSlice (wsub32 (Seg.start s) (data_una self)) plen in
      if MSS <? plen then (self, Err Overflow) else
      let fin := Seg.has s seg_flags.FIN && (plen =? Seg.payload_len s) in
      try (self, queued) := emit_data_segment self (data_flags plen fin) (Seg.start s) sl false in
      if negb queued then (self, Ok false) else
      (retrans_sent self i plen s fin, Ok true)
  end.

(** How much new data [send_new] would send, and the path-MTU probe it is. *)
Definition new_len (self : t) (unsent mss : Z) : option (Z * option (Z * Z)) :=
  let avail := Z.min (usable_window self) unsent in
  let probe := match pmtu_probe_len self with
               | Some (len, cap) => if len <=? avail then Some (len, cap) else None
               | None => None
               end in
  match probe with
  | Some (plen, _) => Some (plen, probe)
  | None =>
      if mss <=? avail then Some (mss, None)
      else if (0 <? avail) && ((avail =? unsent) || (max_snd_wnd self / 2 <=? avail)) then Some (avail, None)
      else None
  end.

Definition send_new (self : t) : t * Res bool :=
  let unsent := unsent_bytes self in
  if unsent =? 0 then
    if fin_owed self && negb (Rtx.is_full RTX (rtx self)) then emit_new self 0 true else (self, Ok false)
  else if Rtx.is_full RTX (rtx self) then (self, Ok false)
  else if Reno.cwnd (cc self) <=? pipe self then (self <| cwnd_limited := true |>, Ok false)
  else
    let mss := mss_payload self in
    match new_len self unsent mss with
    | None => (self, Ok false)
    | Some (len, probe) =>
        let self :=
          if (snd_una self =? snd_nxt self)
             && (rto_ms self <? sat_sub (now_ms self) (last_data_send_ms self))
          then self <| cc := Reno.on_idle_restart (cc self) (initial_window mss) |> else self in
        let fin := fin_owed self && (len =? unsent) in
        let seq := snd_nxt self in
        try (self, sent) := emit_new self len fin in
        let self :=
          match sent, probe with
          | true, Some (plen, cap) =>
              let self := self <| pmtu_probe_inflight := true |> in
              let self := self <| pmtu_probe_mss := cap |> in
              let self := self <| pmtu_probe_start := seq |> in
              self <| pmtu_probe_end := wadd32 seq plen |>
          | _, _ => self
          end in
        (self, Ok sent)
    end.

Definition send_one (self : t) : t * Res bool :=
  let '(q, lost) := Rtx.next_lost RTX (rtx self) in
  let self := self <| rtx := q |> in
  match lost with
  | Some i =>
      if Reno.cwnd (cc self) <=? pipe self then (self <| cwnd_limited := true |>, Ok false)
      else retransmit self i
  | None => send_new self
  end.

Definition update_persist (self : t) : t :=
  let stuck := (0 <? unsent_bytes self) && (snd_una self =? snd_nxt self) && may_transmit (state self) in
  if negb stuck then self <| persist_deadline := Deadline.OFF |> else
  if negb (Deadline.is_armed (persist_deadline self)) then
    let self := if persist_backoff_ms self =? 0 then self <| persist_backoff_ms := rto_ms self |> else self in
    self <| persist_deadline := Deadline.at_ (sat_add64 (now_ms self) (persist_backoff_ms self)) |>
  else self.

(** The sending loop; [fuel] is its iteration budget. *)
Fixpoint send_loop (fuel : nat) (self : t) : t * Res unit :=
  if egress_full self then (self, Ok tt) else
  match fuel with
  | O => (self, Ok tt)
  | S fuel' =>
      try (self, more) := send_one self in
      if more then send_loop fuel' self else (self, Ok tt)
  end.

Definition maybe_send_data (self : t) : t * Res unit :=
  if negb (may_transmit (state self)) then (self, Ok tt) else
  try self := send_loop (Z.to_nat (TXQ + 2)) self in
  (update_persist self, Ok tt).

Definition maybe_send_window_update (self : t) : t * Res unit :=
  match state self with
  | Established | FinWait1 | FinWait2 =>
      let cur := offered self in
      let '(_, new) := outbound_window self false in
      if (sat_add32 cur (2 * local_mss self) <=? new) && (2 * cur <=? new) then send_pure_ack self
      else (self, Ok tt)
  | _ => (self, Ok tt)
  end.

End Output.
