(* ===== verification/Cookie.v ===== *)
(** * SYN cookies and keyed hashing (src/tcb/cookie.rs).

    SipHash-2-4, the cookie and its option bits, the stateless SYN-ACK and the
    validation of its answer.  The promotion of a validated cookie to a
    connection is in the input file, with the segment processing it ends in. *)
From Stdlib Require Import String Ascii.
From S2P Require Import Prelude Error Seq State Effect Ring Sack TxRing Bytes Options Wire RtxQueue Congestion Tcb TcbAck TcbOutput.
Import Tcb.

Definition COOKIE_MSS_TABLE : list Z := [536; 1300; 1440; 1452; 1460; 1480; 9000; 65495].
Definition TS_OPT_BITS : Z := 6.
Definition TS_OPT_MASK : Z := Z.shiftl 1 TS_OPT_BITS - 1.
Definition TS_OPT_WS_MASK : Z := 15.
Definition TS_OPT_SACK : Z := 16.
Definition TS_OPT_ECN : Z := 32.

Record CookieOpts := mkCookieOpts {
  ck_mss : Z;
  ck_wscale : option Z;
  ck_sack : bool;
  ck_ecn : bool;
  ck_prev_key : bool;
}.

(** ** SipHash-2-4 *)

Definition from_le (l : list Z) : Z := foldr (fun b acc => b + 256 * acc) 0 l.

(** [uN::to_le_bytes], [u64::to_be_bytes] *)
Fixpoint le_bytes (n : nat) (v : Z) : list Z :=
  match n with O => [] | S n' => v mod 256 :: le_bytes n' (v / 256) end.
Definition be64_bytes (v : Z) : list Z := be32_bytes (v / M32) ++ be32_bytes (v mod M32).

Definition rotl64 (x n : Z) : Z := Z.lor (shl64 x n) (Z.shiftr x (64 - n)).

Record sip := mkSip { v0 : Z; v1 : Z; v2 : Z; v3 : Z }.

Definition sipround '(mkSip a b c d : sip) : sip :=
  let a := wadd64 a b in
  let b := rotl64 b 13 in
  let b := Z.lxor b a in
  let a := rotl64 a 32 in
  let c := wadd64 c d in
  let d := rotl64 d 16 in
  let d := Z.lxor d c in
  let a := wadd64 a d in
  let d := rotl64 d 21 in
  let d := Z.lxor d a in
  let c := wadd64 c b in
  let b := rotl64 b 17 in
  let b := Z.lxor b c in
  let c := rotl64 c 32 in
  mkSip a b c d.

(** One 64-bit word of input. *)
Definition sip_word (s : sip) (m : Z) : sip :=
  let s := mkSip (v0 s) (v1 s) (v2 s) (Z.lxor (v3 s) m) in
  let s := sipround (sipround s) in
  mkSip (Z.lxor (v0 s) m) (v1 s) (v2 s) (v3 s).

(** [data.as_chunks::<8>()]: the whole chunks folded in, and the remainder. *)
Fixpoint sip_chunks (s : sip) (data : list Z) : sip * list Z :=
  match data with
  | b0 :: b1 :: b2 :: b3 :: b4 :: b5 :: b6 :: b7 :: rest =>
      sip_chunks (sip_word s (from_le [b0; b1; b2; b3; b4; b5; b6; b7])) rest
  | _ => (s, data)
  end.

Definition siphash24 (key data : list Z) : Z :=
  let k0 := from_le (take 8 key) in
  let k1 := from_le (drop 8 key) in
  let s := mkSip (Z.lxor 0x736f6d6570736575 k0) (Z.lxor 0x646f72616e646f6d k1)
                 (Z.lxor 0x6c7967656e657261 k0) (Z.lxor 0x7465646279746573 k1) in
  let '(s, rem) := sip_chunks s data in
  let tail := list_inserts 0 rem (replicate 8 0) in
  let tail := set_at tail 7 (Z.land (zlen data) 255) in
  let s := sip_word s (from_le tail) in
  let s := mkSip (v0 s) (v1 s) (Z.lxor (v2 s) 255) (v3 s) in
  let s := sipround (sipround (sipround (sipround s))) in
  Z.lxor (Z.lxor (Z.lxor (v0 s) (v1 s)) (v2 s)) (v3 s).

(** [b"..."] *)
Definition ascii_bytes (s : string) : list Z :=
  (fun a => Z.of_N (N_of_ascii a)) <$> list_ascii_of_string s.

Definition derive_cookie_key (secret : list Z) : list Z :=
  let lo := le_bytes 8 (siphash24 secret (ascii_bytes "tcp-sans-io syn-cookie key 0")) in
  let hi := le_bytes 8 (siphash24 secret (ascii_bytes "tcp-sans-io syn-cookie key 1")) in
  lo ++ hi.

(** The loop that lays fields out one after the other in a buffer: a field
    that does not fit is skipped, its length counted all the same. *)
Definition lay_out (buf : list Z) (parts : list (list Z)) : list Z * Z :=
  foldl (fun '(buf, at_) p =>
    (match get_range buf at_ (at_ + zlen p) with
     | Some _ => list_inserts (Z.to_nat at_) p buf
     | None => buf
     end, at_ + zlen p)) (buf, 0) parts.

Definition tuple_hash (key : list Z) (local remote : Endpoint) (domain extra : Z) : Z :=
  let '(buf, at_) :=
    lay_out (replicate 17 0)
      [ip local; be16_bytes (port local); ip remote; be16_bytes (port remote); [domain]; be32_bytes extra] in
  siphash24 key (default buf (get_range buf 0 at_)).

(** ** Cookie fields *)

(** The index of the largest table entry not exceeding [peer_mss]. *)
Definition cookie_mss_index (peer_mss : Z) : Z :=
  let best := foldl (fun best '(i, m) => if m <=? peer_mss then i else best) 0
                (zip (seqZ 0 8) COOKIE_MSS_TABLE) in
  Z.land best 7.

Definition cookie_mss_from_index (idx : Z) : Z :=
  default DEFAULT_PEER_MSS (get COOKIE_MSS_TABLE (Z.land idx 7)).

Definition decode_ts_opts (ts : option (Z * Z)) : option CookieOpts :=
  let base := mkCookieOpts DEFAULT_PEER_MSS None false false false in
  match ts with
  | Some (_, tsecr) =>
      if tsecr =? 0 then Some base else
      let bits := Z.land tsecr TS_OPT_MASK in
      let ws := Z.land bits TS_OPT_WS_MASK in
      let opts wscale :=
        mkCookieOpts DEFAULT_PEER_MSS wscale (negb (Z.land bits TS_OPT_SACK =? 0))
          (negb (Z.land bits TS_OPT_ECN =? 0)) false in
      if ws =? TS_OPT_WS_MASK then Some (opts None)
      else if (0 <=? ws) && (ws <=? 14) then Some (opts (Some ws))
      else None
  | None => Some base
  end.

(** The TSval of a cookie SYN-ACK: the clock with the options in its low
    bits, never later than the clock. *)
Definition cookie_bits (wscale : option Z) (sack ecn : bool) : Z :=
  let bits := match wscale with Some ws => Z.min ws 14 | None => TS_OPT_WS_MASK end in
  let bits := if sack then Z.lor bits TS_OPT_SACK else bits in
  if ecn then Z.lor bits TS_OPT_ECN else bits.

Definition cookie_tsval (now_ts bits : Z) : Z :=
  let tsval := Z.lor (Z.land now_ts (M32 - 1 - TS_OPT_MASK)) bits in
  if seq_gt tsval now_ts then wsub32 tsval (Z.shiftl 1 TS_OPT_BITS) else tsval.

Section Cookie.
Context `{C : Config}.

Definition host_key (self : t) : option (list Z) :=
  if secret_set self then Some (secret self)
  else if cookie_secret_set self then Some (cookie_secret self)
  else None.

Definition ts_offset_with (self : t) (key : list Z) (remote : Endpoint) : Z :=
  as_u32 (tuple_hash key (local self) remote 84 0).

Definition ts_offset_for (self : t) (remote : Endpoint) : Z :=
  match host_key self with Some k => ts_offset_with self k remote | None => 0 end.

Definition passive_iss (self : t) (remote : Endpoint) (peer_isn : Z) : Z :=
  match host_key self with
  | Some k =>
      let h := as_u32 (tuple_hash k (local self) remote 73 peer_isn) in
      wadd32 h (wmul32 (as_u32 (now_ms self)) 250)
  | None => cfg_iss self
  end.

Definition compute_cookie (self : t) (key : list Z) (bucket : Z) (remote : Endpoint)
    (mss_idx peer_seq : Z) : Z :=
  let '(buf, _) :=
    lay_out (replicate 25 0)
      [be64_bytes bucket; ip remote; be16_bytes (port remote); ip (local self);
       be16_bytes (port (local self)); be32_bytes peer_seq; [mss_idx]] in
  let mac := siphash24 key buf in
  let macbits := Z.land (as_u32 mac) 0x1FFFFFFF in
  Z.lor (shl32 (Z.land mss_idx 7) 29) macbits.

(** The SYN-ACK's options for a SYN [seg], and whether it confirms ECN. *)
Definition cookie_options (self : t) (seg : Segment) (remote : Endpoint) : TcpOptions * bool :=
  let ts_off := ts_offset_for self remote in
  let now_ts := wadd32 (as_u32 (now_ms self)) ts_off in
  let peer_ecn := Wire.has seg flags.ECE && Wire.has seg flags.CWR in
  let o := options seg in
  match ts o with
  | Some (peer_tsval, _) =>
      let bits := cookie_bits (wscale o) (sack_permitted o) peer_ecn in
      (mkOptions (Some (local_mss self)) (match wscale o with Some _ => Some WS | None => None end)
         (Some (cookie_tsval now_ts bits, peer_tsval)) (sack_permitted o) SackBlocks.EMPTY, peer_ecn)
  | None => (mkOptions (Some (local_mss self)) None None false SackBlocks.EMPTY, false)
  end.

(** The cookie for a SYN [seg]. *)
Definition cookie_for (self : t) (seg : Segment) : Z :=
  let remote := mkEndpoint (src_ip seg) (src_port seg) in
  let peer_mss := Z.max (default DEFAULT_PEER_MSS (mss (options seg))) MIN_PEER_MSS in
  let mss_idx := cookie_mss_index peer_mss in
  let bucket := now_ms self / COOKIE_TIME_BUCKET_MS in
  compute_cookie self (cookie_secret self) bucket remote mss_idx (seg_seq seg).

Definition emit_cookie_synack (self : t) (seg : Segment) : t * Res unit :=
  if TxRing.is_full TXQ (tx_ring self) then (self, Ok tt) else
  let remote := mkEndpoint (src_ip seg) (src_port seg) in
  let cookie := cookie_for self seg in
  let '(opts, ecn) := cookie_options self seg remote in
  let win := Z.min (Ring.free BUF (recv_ring self)) 65535 in
  let fl := Z.lor (Z.lor flags.SYN flags.ACK) (if ecn then flags.ECE else 0) in
  let ack := wadd32 (seg_seq seg) 1 in
  let full_csum := negb (tx_csum_offload self) in
  let '(ring, res) :=
    TxRing.push_with TXQ MAX_PACKET (tx_ring self)
      (into_slot (fun buf =>
         Wire.emit_with en buf (ip (local self)) (ip remote) (port (local self)) (port remote)
           cookie ack fl win opts 0 (fun dst => (dst, true)) (ip_id self) ecn.NOT_ECT full_csum)) in
  let self := self <| tx_ring := ring |> in
  try (self, queued) := (self, res) in
  (if queued then
     let self := self <| ip_id := wadd16 (ip_id self) 1 |> in
     let self := self <| stats ::= fun st => st <| Stats.segs_out ::= inc64 |> |> in
     self <| cookie_secret_used := true |>
   else self, Ok tt).

(** [issued_with]: the cookie [cookie] was computed with [key] in the current
    or the previous time bucket. *)
Definition issued_with (self : t) (remote : Endpoint) (cookie mss_idx peer_seq : Z) (key : list Z) : bool :=
  let now_bucket := now_ms self / COOKIE_TIME_BUCKET_MS in
  existsb (fun b => compute_cookie self key b remote mss_idx peer_seq =? cookie)
    [now_bucket; wsub64 now_bucket 1].

Definition validate_cookie (self : t) (seg : Segment) : option CookieOpts :=
  if negb (cookie_secret_set self) then None else
  let remote := mkEndpoint (src_ip seg) (src_port seg) in
  let cookie := wsub32 (seg_ack seg) 1 in
  let mss_idx := Z.land (Z.shiftr cookie 29) 7 in
  let peer_seq := wsub32 (seg_seq seg) 1 in
  let issued := issued_with self remote cookie mss_idx peer_seq in
  let prev_valid := prev_cookie_secret_set self && (now_ms self <? prev_cookie_until_ms self) in
  let prev_key :=
    if issued (cookie_secret self) then Some false
    else if prev_valid && issued (prev_cookie_secret self) then Some true
    else None in
  match prev_key with
  | None => None
  | Some prev_key =>
      match decode_ts_opts (ts (options seg)) with
      | None => None
      | Some o =>
          Some (mkCookieOpts (cookie_mss_from_index mss_idx) (ck_wscale o) (ck_sack o) (ck_ecn o) prev_key)
      end
  end.

(** ** Keys (src/tcb/mod.rs) *)

Definition install_cookie_key (self : t) (key : list Z) : t :=
  let self :=
    if cookie_secret_set self && negb (bool_decide (cookie_secret self = key)) && cookie_secret_used self then
      let self := self <| prev_cookie_secret := cookie_secret self |> in
      let self := self <| prev_cookie_secret_set := true |> in
      self <| prev_cookie_until_ms := sat_add64 (now_ms self) (2 * COOKIE_TIME_BUCKET_MS) |>
    else self in
  let self := if negb (bool_decide (cookie_secret self = key))
              then self <| cookie_secret_used := false |> else self in
  let self := self <| cookie_secret := key |> in
  self <| cookie_secret_set := true |>.

Definition set_secret (self : t) (key : list Z) : t :=
  let self := self <| secret := key |> in
  let self := self <| secret_set := true |> in
  if negb (cookie_secret_explicit self) then install_cookie_key self (derive_cookie_key key) else self.

Definition set_cookie_secret (self : t) (key : list Z) : t :=
  let self := install_cookie_key self key in
  self <| cookie_secret_explicit := true |>.

End Cookie.

(** The reference vectors of the SipHash paper. *)
Lemma siphash_reference_vectors :
  siphash24 (seqZ 0 16) (seqZ 0 15) = 0xa129ca6149be45e5
  /\ siphash24 (seqZ 0 16) [] = 0x726fdb47dd0e0e31.
Proof. split; vm_compute; reflexivity. Qed.
