(* ===== verification/TcbInput.v ===== *)
(** * Inbound segments (src/tcb/input.rs, and the promotion of src/tcb/cookie.rs).

    Segment acceptance, the handshake states, the synchronized states, the
    reassembly of the peer's byte stream and its FIN. *)
From S2P Require Import Prelude Error Seq State Effect Ring Sack Ooo TxRing Options Wire RtxQueue Rack.
From S2P Require Import Congestion Tcb TcbAck TcbOutput Cookie.
Import Tcb.

Section Input.
Context `{C : Config}.

(** ** Acceptance *)

Definition acceptable (self : t) (seq seg_len : Z) : bool :=
  let wnd := as_u32 (Ring.free BUF (recv_ring self)) in
  let nxt := rcv_nxt self in
  if seg_len =? 0 then seq_in_range seq nxt (wadd32 (wadd32 nxt wnd) 1) else
  if wnd =? 0 then false else
  let end_ := wadd32 nxt wnd in
  seq_in_range seq nxt end_ || seq_in_range (wadd32 seq (seg_len - 1)) nxt end_.

Definition may_answer_at_once (self : t) (seg : Segment) : bool :=
  (negb (zlen (payload seg) =? 0) || Wire.has seg flags.FIN)
  && Wire.has seg flags.ACK
  && negb (Wire.has seg flags.SYN)
  && negb (Wire.has seg flags.RST)
  && ack_acceptable self (seg_ack seg)
  && (negb (ts_enabled self) || Options.is_some (ts (options seg))).

Definition paws_reject (self : t) (seg : Segment) : bool :=
  if negb (ts_enabled self) || Wire.has seg flags.RST
     || ((zlen (payload seg) =? 0) && negb (Wire.has seg flags.FIN)) then false else
  match ts (options seg) with
  | None => false
  | Some (tsval, _) =>
      if PAWS_IDLE_MS <? sat_sub (now_ms self) (ts_recent_stamp self) then false
      else seq_lt tsval (ts_recent self)
  end.

Definition update_ts_recent (self : t) (seg : Segment) : t :=
  if negb (ts_enabled self) then self else
  match ts (options seg) with
  | Some (tsval, _) =>
      if seq_le (seg_seq seg) (last_ack_sent self) && seq_ge tsval (ts_recent self) then
        let self := self <| ts_recent := tsval |> in
        self <| ts_recent_stamp := now_ms self |>
      else self
  | None => self
  end.

(** ** Peer liveness and entering ESTABLISHED *)

Definition on_peer_alive (self : t) : t :=
  let self := self <| keepalive_probes := 0 |> in
  if negb (keepalive_idle_ms self =? 0) && keepalive_applies self then
    self <| keepalive_deadline := Deadline.at_ (sat_add64 (now_ms self) (keepalive_idle_ms self)) |>
  else self.

Definition on_established (self : t) : t :=
  let self := self <| cc := Reno.new (initial_window (mss_payload self)) |> in
  let self := self <| cwnd_limited := false |> in
  let self := self <| cwnd_limited_seq := snd_nxt self |> in
  let self := self <| pipe_hiwat := 0 |> in
  let self := self <| last_data_send_ms := now_ms self |> in
  let self := if negb (seq_gt (rcv_adv_edge self) (rcv_nxt self))
              then self <| rcv_adv_edge := rcv_nxt self |> else self in
  on_peer_alive self.

(** ** The peer's stream *)

Definition note_dsack (self : t) (l r : Z) : t :=
  if negb (sack_enabled self) then self else
  let span := if BUF <=? Stats.bytes_received (stats self) then as_u32 BUF
              else wsub32 (rcv_nxt self) (wadd32 (irs self) 1) in
  let floor := wsub32 (rcv_nxt self) span in
  let l := if seq_lt l floor then floor else l in
  if seq_lt l r then self <| dsack := Some (l, r) |> else self.

Definition advance_state_on_remote_fin (self : t) : t :=
  match state self with
  | Established => self <| state := CloseWait |>
  | FinWait1 =>
      if fin_sent self && (snd_una self =? snd_nxt self) then
        let self := enter_time_wait self in self <| state := TimeWait |>
      else self <| state := Closing |>
  | FinWait2 => let self := enter_time_wait self in self <| state := TimeWait |>
  | _ => self
  end.

Definition consume_fin (self : t) : t :=
  let self := self <| rcv_nxt := wadd32 (rcv_nxt self) 1 |> in
  let self := self <| ooo ::= Ooo.clear |> in
  let self := self <| ooo_fin := None |> in
  advance_state_on_remote_fin self.

Definition maybe_consume_ooo_fin (self : t) : t * bool :=
  if (match ooo_fin self with Some h => fin_at h =? rcv_nxt self | None => false end)
     && can_recv (state self)
  then (consume_fin self, true) else (self, false).

Definition parked_ahead_of (self : t) (start fin : Z) : bool :=
  match Ooo.containing (ooo self) fin with
  | Some (block, _) => seq_le block start
  | None => false
  end.

(** The result is always [true]: a FIN is ACKed at once. *)
Definition receive_fin (self : t) (start fin : Z) : t * bool :=
  (if fin =? rcv_nxt self then consume_fin self
   else if seq_gt fin (rcv_nxt self)
           && (wsub32 fin (rcv_nxt self) <=? Ring.free BUF (recv_ring self)) then
     let held := self <| ooo_fin := Some (mkHeldFin start fin) |> in
     match ooo_fin self with
     | Some h =>
         if seq_lt (fin_at h) fin then self
         else if (fin_at h =? fin) && seq_le (fin_start h) start then self
         else held
     | None => held
     end
   else self, true).

(** One FIN that bounds how far parked bytes are absorbed. *)
Definition stop_at (nxt : Z) (new : Z) (f : option Z) : Z :=
  match f with
  | Some f => if seq_ge f nxt && seq_gt new f then f else new
  | None => new
  end.

Definition absorb_ooo (self : t) (seg_fin : option Z) : t * bool :=
  let '(o, new) := Ooo.advance (ooo self) (rcv_nxt self) in
  let self := self <| ooo := o |> in
  let new := stop_at (rcv_nxt self) new seg_fin in
  let new := stop_at (rcv_nxt self) new (fin_at <$> ooo_fin self) in
  let n := wsub32 new (rcv_nxt self) in
  if n =? 0 then (self, false) else
  let '(ring, c) := Ring.commit BUF (recv_ring self) n in
  let self := self <| recv_ring := ring |> in
  let self := self <| rcv_nxt := wadd32 (rcv_nxt self) (as_u32 c) |> in
  (self <| stats ::= fun st => st <| Stats.bytes_received := sat_add64 (Stats.bytes_received st) c |> |>, true).

Definition dup_received (self : t) (n : Z) : t :=
  self <| stats ::= fun st => st <| Stats.dup_bytes_received := sat_add64 (Stats.dup_bytes_received st) n |> |>.

(** In-order text: append it, drop a held FIN it covers, absorb what was
    parked behind it. *)
Definition receive_in_order (self : t) (data : list Z) (seg_fin : option Z) : t * bool :=
  let '(ring, n) := Ring.write BUF (recv_ring self) data in
  let self := self <| recv_ring := ring |> in
  let self := self <| rcv_nxt := wadd32 (rcv_nxt self) (as_u32 n) |> in
  let self := self <| stats ::= fun st => st <| Stats.bytes_received := sat_add64 (Stats.bytes_received st) n |> |> in
  let self := match ooo_fin self with
              | Some h => if seq_gt (rcv_nxt self) (fin_at h) then self <| ooo_fin := None |> else self
              | None => self
              end in
  absorb_ooo self seg_fin.

(** Out-of-order text: park it at its final place. *)
Definition receive_parked (self : t) (seq off : Z) (data : list Z) : t :=
  let take := zlen data in
  let end_ := wadd32 seq (as_u32 take) in
  let '(o, ins) := Ooo.insert OOO_MAX (ooo self) seq end_ (rcv_nxt self) in
  let self := self <| ooo := o |> in
  match ins with
  | Ooo.Stored dup =>
      let self := self <| recv_ring := fst (Ring.write_at BUF (recv_ring self) off data) |> in
      let self := if dup then note_dsack (dup_received self take) seq end_ else self in
      match ooo_fin self with
      | Some h =>
          if seq_le seq (fin_start h) && seq_gt end_ (fin_at h) then self <| ooo_fin := None |> else self
      | None => self
      end
  | Ooo.Full => self <| stats ::= fun st => st <| Stats.ooo_drops ::= inc32 |> |>
  end.

Definition receive_payload (self : t) (seg : Segment) (seg_fin : option Z) : t * bool :=
  let trimmed :=
    if seq_lt (seg_seq seg) (rcv_nxt self) then
      let lead := wsub32 (rcv_nxt self) (seg_seq seg) in
      match get_range (payload seg) lead (zlen (payload seg)) with
      | Some (b :: rest) =>
          Some (note_dsack (dup_received self lead) (seg_seq seg) (rcv_nxt self), rcv_nxt self, b :: rest, true)
      | _ => None
      end
    else Some (self, seg_seq seg, payload seg, false) in
  match trimmed with
  | None => (self, true)
  | Some (self, seq, data, ack_now) =>
      let free := Ring.free BUF (recv_ring self) in
      let off := wsub32 seq (rcv_nxt self) in
      if free <=? off then (self, true) else
      let data := take (Z.to_nat (Z.min (zlen data) (free - off))) data in
      if off =? 0 then
        let '(self, filled) := receive_in_order self data seg_fin in (self, filled || ack_now)
      else (receive_parked self seq off data, true)
  end.

Definition schedule_delayed_ack (self : t) (payload_len : Z) : t :=
  let full := payload_len / Z.max (local_mss self) 1 in
  let units := clamp full 1 255 in
  let self := self <| delayed_ack_count := sat_add8 (delayed_ack_count self) units |> in
  let self := self <| pending_ack := true |> in
  if 2 <=? delayed_ack_count self then fst (send_pure_ack self)
  else if negb (Deadline.is_armed (ack_deadline self)) then
    self <| ack_deadline := Deadline.at_ (sat_add64 (now_ms self) DELAYED_ACK_MS) |>
  else self.

Definition on_reset_received (self : t) : t :=
  match state self with
  | Established | FinWait1 | FinWait2 | CloseWait => abort_local self
  | _ => close_clean self
  end.

(** ** Synchronized states *)

Definition on_unacceptable (self : t) (seg : Segment) (payload_len : Z) (fin : bool) : t * Res unit :=
  if Wire.has seg flags.RST then (self, Ok tt) else
  if Wire.has seg flags.SYN || negb (Wire.has seg flags.ACK) || negb (ack_acceptable self (seg_ack seg))
  then send_oow_ack self else
  let end_ := wadd32 (seg_seq seg) payload_len in
  let right_edge := wadd32 (rcv_nxt self) (as_u32 (Ring.free BUF (recv_ring self))) in
  let ack_live := seq_ge (wadd32 end_ (b2z fin)) (last_ack_sent self)
                  && seq_le (seg_seq seg) right_edge && negb (paws_reject self seg) in
  let self := if ack_live then process_ack (on_peer_alive (update_ts_recent self seg)) seg else self in
  if ack_live && state_eqb (state self) Closed then (self, Ok tt) else
  let at_once := may_answer_at_once self seg in
  if at_once && state_eqb (state self) TimeWait && fin && (wadd32 end_ 1 =? rcv_nxt self) then
    let restart := sat_add64 (now_ms self) TIME_WAIT_MS in
    let cap := sat_add64 (time_wait_since_ms self) TIME_WAIT_MAX_MS in
    let self := self <| time_wait_deadline := Deadline.at_ (Z.min restart cap) |> in
    send_pure_ack self
  else
    try self :=
      (if at_once && (0 <? payload_len) && seq_le end_ (rcv_nxt self) then
         send_pure_ack (note_dsack (dup_received self payload_len) (seg_seq seg) end_)
       else if at_once && seq_ge (seg_seq seg) (rcv_nxt self) && (Ring.free BUF (recv_ring self) =? 0) then
         send_pure_ack self
       else send_oow_ack self) in
    if ack_live then maybe_send_data self else (self, Ok tt).

(** CE and CWR of a data segment move the echo state. *)
Definition ecn_echo (self : t) (seg : Segment) (payload_len : Z) : t :=
  if ecn_enabled self && (0 <? payload_len) then
    let self := if Wire.has seg flags.CWR then self <| ce_observed := false |> else self in
    if seg_ecn seg =? ecn.CE then self <| ce_observed := true |> else self
  else self.

(** Steps 7 and 8: text, then FIN.  The boolean asks for an immediate ACK. *)
Definition receive_text (self : t) (seg : Segment) (payload_len : Z) (fin : bool) : t * bool :=
  if can_recv (state self) then
    let f := wadd32 (seg_seq seg) payload_len in
    let seg_fin := if fin && negb (parked_ahead_of self (seg_seq seg) f) then Some f else None in
    let '(self, ack1) := if 0 <? payload_len then receive_payload self seg seg_fin else (self, false) in
    let '(self, ack2) := match seg_fin with
                         | Some f => receive_fin self (seg_seq seg) f
                         | None => (self, fin)
                         end in
    let '(self, ack3) := maybe_consume_ooo_fin self in
    (self, ack1 || ack2 || ack3)
  else (self, false).

Definition on_synchronized (self : t) (seg : Segment) : t * Res unit :=
  if negb (Wire.has seg flags.ACK) && negb (Wire.has seg flags.SYN) && negb (Wire.has seg flags.RST)
  then (self, Ok tt) else
  let payload_len := as_u32 (zlen (payload seg)) in
  let fin := Wire.has seg flags.FIN in
  let seg_len := payload_len + b2z fin + b2z (Wire.has seg flags.SYN) in
  let bare_fin := fin && (payload_len =? 0) && (seg_seq seg =? rcv_nxt self) in
  let acc := acceptable self (seg_seq seg) seg_len || bare_fin in
  let zero_window_probe :=
    negb acc && (seg_seq seg =? rcv_nxt self) && (Ring.free BUF (recv_ring self) =? 0) in
  if negb acc && negb zero_window_probe then on_unacceptable self seg payload_len fin else
  if paws_reject self seg then
    if may_answer_at_once self seg then send_pure_ack self else send_oow_ack self else
  if Wire.has seg flags.RST then
    if seg_seq seg =? rcv_nxt self then (on_reset_received self, Ok tt) else send_oow_ack self else
  if Wire.has seg flags.SYN then send_oow_ack self else
  if negb (Wire.has seg flags.ACK) then (self, Ok tt) else
  if negb (ack_acceptable self (seg_ack seg)) then send_oow_ack self else
  let self := update_ts_recent self seg in
  let self := ecn_echo self seg payload_len in
  let self := on_peer_alive self in
  let self := process_ack self seg in
  if state_eqb (state self) Closed then (self, Ok tt) else
  if zero_window_probe then
    try self := send_pure_ack self in
    maybe_send_data self
  else
    let prev_rcv_nxt := rcv_nxt self in
    let '(self, ack_now) := receive_text self seg payload_len fin in
    let advanced := negb (rcv_nxt self =? prev_rcv_nxt) in
    try self :=
      (if ack_now then send_pure_ack self
       else if advanced then (schedule_delayed_ack self payload_len, Ok tt)
       else if (0 <? payload_len) || fin then send_oow_ack self
       else (self, Ok tt)) in
    maybe_send_data self.

(** ** The handshake *)

Definition absorb_syn_options (self : t) (seg : Segment) : t :=
  let o := options seg in
  let self := self <| irs := seg_seq seg |> in
  let self := self <| rcv_nxt := wadd32 (seg_seq seg) 1 |> in
  let self := self <| rcv_adv_edge := rcv_nxt self |> in
  let self := self <| last_ack_sent := rcv_nxt self |> in
  let self := self <| snd_wnd := window seg |> in
  let self := self <| max_snd_wnd := snd_wnd self |> in
  let self := self <| snd_wl1 := seg_seq seg |> in
  let self := self <| snd_wl2 := seg_ack seg |> in
  let self := match mss o with Some m => self <| peer_mss := Z.max m MIN_PEER_MSS |> | None => self end in
  let self :=
    match wscale o with
    | Some ws =>
        let self := self <| ws_ok := true |> in
        let self := self <| snd_wscale := Z.min ws 14 |> in
        self <| rcv_wscale := WS |>
    | None =>
        let self := self <| ws_ok := false |> in
        let self := self <| snd_wscale := 0 |> in
        self <| rcv_wscale := 0 |>
    end in
  let self :=
    match ts o with
    | Some (tsval, _) =>
        let self := self <| ts_enabled := true |> in
        let self := self <| ts_recent := tsval |> in
        self <| ts_recent_stamp := now_ms self |>
    | None => self
    end in
  self <| sack_enabled := sack_permitted o |>.

Definition handshake_sample (self : t) (seg : Segment) : option Z :=
  if negb (syn_retransmitted self) then
    let d := sat_sub (now_ms self) (syn_xmit_ms self) in if d <? M32 then Some d else None
  else
    match ts_enabled self, ts (options seg) with
    | true, Some (_, tsecr) =>
        if negb (tsecr =? 0) then
          let x := tsecr_to_ms self tsecr in
          let now := as_u32 (now_ms self) in
          if seq_ge x (as_u32 (syn_xmit_ms self)) && seq_le x now then Some (wsub32 now x) else None
        else None
    | _, _ => None
    end.

Definition handshake_rtt_sample (self : t) (seg : Segment) : t :=
  match handshake_sample self seg with
  | Some r => if r <? 60000 then update_rtt self r else self
  | None => self
  end.

(** The assignments of [promote_via_cookie] between the reset and the
    processing of the segment. *)
Definition cookie_assign (self : t) (seg : Segment) (opts : CookieOpts) : t :=
  let remote_ep := mkEndpoint (src_ip seg) (src_port seg) in
  let cookie := wsub32 (seg_ack seg) 1 in
  let peer_seq := wsub32 (seg_seq seg) 1 in
  let self := self <| remote := remote_ep |> in
  let self := self <| ts_offset :=
    if ck_prev_key opts && negb (secret_set self)
    then ts_offset_with self (prev_cookie_secret self) remote_ep
    else ts_offset_for self remote_ep |> in
  let self := self <| iss := cookie |> in
  let self := self <| irs := peer_seq |> in
  let self := self <| rcv_nxt := wadd32 peer_seq 1 |> in
  let self := self <| snd_una := seg_ack seg |> in
  let self := self <| snd_acked := wsub32 (seg_ack seg) cookie |> in
  let self := self <| snd_nxt := seg_ack seg |> in
  let self := self <| peer_mss := Z.max (ck_mss opts) MIN_PEER_MSS |> in
  let self :=
    match ck_wscale opts with
    | Some ws =>
        let self := self <| ws_ok := true |> in
        let self := self <| snd_wscale := ws |> in
        self <| rcv_wscale := WS |>
    | None => self
    end in
  let self :=
    match ts (options seg) with
    | Some (tsval, _) =>
        let self := self <| ts_enabled := true |> in
        let self := self <| ts_recent := tsval |> in
        let self := self <| ts_recent_stamp := now_ms self |> in
        let self := self <| sack_enabled := ck_sack opts |> in
        self <| ecn_enabled := ck_ecn opts |>
    | None => self
    end in
  let self := self <| snd_wnd := scale_peer_window self (window seg) |> in
  let self := self <| max_snd_wnd := snd_wnd self |> in
  let self := self <| snd_wl1 := seg_seq seg |> in
  let self := self <| snd_wl2 := seg_ack seg |> in
  let self := self <| rcv_adv_edge := rcv_nxt self |> in
  let self := self <| last_ack_sent := rcv_nxt self |> in
  let self := self <| cc := Reno.new (initial_window (mss_payload self)) |> in
  self <| state := Established |>.

Definition cookie_connection (self : t) (seg : Segment) (opts : CookieOpts) : t :=
  cookie_assign (reset_connection_state self) seg opts.

Definition promote_via_cookie (self : t) (seg : Segment) (opts : CookieOpts) : t * Res unit :=
  on_synchronized (on_established (cookie_connection self seg opts)) seg.

Definition try_promote_via_cookie (self : t) (seg : Segment) : t * Res bool :=
  match validate_cookie self seg with
  | Some opts => try self := promote_via_cookie self seg opts in (self, Ok true)
  | None => (self, Ok false)
  end.

(** The assignments of [accept_syn_stateful] between the reset and the
    SYN-ACK. *)
Definition half_open_assign (self : t) (seg : Segment) : t :=
  let self := self <| remote := mkEndpoint (src_ip seg) (src_port seg) |> in
  let self := self <| iss := passive_iss self (remote self) (seg_seq seg) |> in
  let self := self <| snd_una := iss self |> in
  let self := self <| snd_acked := 0 |> in
  let self := self <| snd_nxt := iss self |> in
  let self := self <| ts_offset := ts_offset_for self (remote self) |> in
  let self := absorb_syn_options self seg in
  let self := self <| ecn_enabled := Wire.has seg flags.ECE && Wire.has seg flags.CWR |> in
  let self := self <| state := SynRcvd |> in
  let self := self <| syn_rcvd_retries := 0 |> in
  self <| syn_xmit_ms := now_ms self |>.

Definition half_open (self : t) (seg : Segment) : t := half_open_assign (reset_connection_state self) seg.

Definition accept_syn_stateful (self : t) (seg : Segment) : t * Res unit :=
  try self := emit_synack (half_open self seg) in
  let self := self <| snd_nxt := wadd32 (iss self) 1 |> in
  let self := self <| syn_unacked := true |> in
  (arm_rto self, Ok tt).

(** [if self.oow_allowed() { self.emit_rst_to(seg, seg.ack, 0, RST)?; } Ok(())] *)
Definition reset_stray_ack (self : t) (seg : Segment) : t * Res unit :=
  let '(self, allowed) := oow_allowed self in
  if allowed then emit_rst_to self seg (seg_ack seg) 0 flags.RST else (self, Ok tt).

Definition on_listen (self : t) (seg : Segment) : t * Res unit :=
  if Wire.has seg flags.RST then (self, Ok tt) else
  if Wire.has seg flags.ACK then
    if negb (Wire.has seg flags.SYN) then
      if cookie_secret_set self then try self := try_promote_via_cookie self seg in (self, Ok tt)
      else (self, Ok tt)
    else reset_stray_ack self seg
  else if negb (Wire.has seg flags.SYN) || Wire.has seg flags.FIN then (self, Ok tt)
  else accept_syn_stateful self seg.

(** The assignments of [complete_active_open]. *)
Definition active_established (self : t) (seg : Segment) : t :=
  let self := absorb_syn_options self seg in
  let self := self <| ecn_enabled := Wire.has seg flags.ECE && negb (Wire.has seg flags.CWR) |> in
  let self := self <| snd_una := seg_ack seg |> in
  let self := self <| snd_acked := wsub32 (seg_ack seg) (iss self) |> in
  let self := self <| syn_unacked := false |> in
  let self := self <| rtx_count := 0 |> in
  let self := handshake_rtt_sample self seg in
  let self := self <| rto_deadline := Deadline.OFF |> in
  let self := self <| state := Established |> in
  on_established self.

Definition complete_active_open (self : t) (seg : Segment) : t * Res unit :=
  send_pure_ack (active_established self seg).

Definition simultaneous_open (self : t) (seg : Segment) : t * Res unit :=
  let self := absorb_syn_options self seg in
  let self := self <| ecn_enabled := false |> in
  let self := self <| state := SynRcvd |> in
  let self := self <| syn_rcvd_retries := 0 |> in
  let self := self <| syn_retransmitted := true |> in
  try self := emit_synack self in
  (arm_rto self, Ok tt).

Definition on_syn_sent (self : t) (seg : Segment) : t * Res unit :=
  let ack_ok := Wire.has seg flags.ACK && seq_gt (seg_ack seg) (iss self)
                && seq_le (seg_ack seg) (snd_nxt self) in
  if Wire.has seg flags.ACK && negb ack_ok then
    if negb (Wire.has seg flags.RST) then reset_stray_ack self seg else (self, Ok tt)
  else if Wire.has seg flags.RST then
    if ack_ok then (abort_local self, Ok tt) else (self, Ok tt)
  else if negb (Wire.has seg flags.SYN) then (self, Ok tt)
  else if ack_ok then complete_active_open self seg
  else simultaneous_open self seg.

(** The assignments of [complete_passive_open]. *)
Definition passive_established (self : t) (seg : Segment) : t :=
  let is_syn := Wire.has seg flags.SYN in
  let self := self <| snd_una := seg_ack seg |> in
  let self := self <| snd_acked := wsub32 (seg_ack seg) (iss self) |> in
  let self := self <| syn_unacked := false |> in
  let self := self <| snd_wnd := if is_syn then window seg else scale_peer_window self (window seg) |> in
  let self := self <| max_snd_wnd := Z.max (max_snd_wnd self) (snd_wnd self) |> in
  let self := self <| snd_wl1 := seg_seq seg |> in
  let self := self <| snd_wl2 := seg_ack seg |> in
  let self := if 0 <? syn_rcvd_retries self then self <| syn_retransmitted := true |> else self in
  let self := handshake_rtt_sample self seg in
  let self := self <| rto_deadline := Deadline.OFF |> in
  let self := self <| rtx_count := 0 |> in
  let self := self <| syn_rcvd_retries := 0 |> in
  let self := self <| state := Established |> in
  on_established self.

Definition complete_passive_open (self : t) (seg : Segment) : t * Res unit :=
  let self := passive_established self seg in
  if Wire.has seg flags.SYN then send_pure_ack self else on_synchronized self seg.

Definition on_syn_rcvd (self : t) (seg : Segment) : t * Res unit :=
  if Wire.has seg flags.RST then
    if negb (acceptable self (seg_seq seg) 0) then (self, Ok tt) else
    if negb (seg_seq seg =? rcv_nxt self) then send_oow_ack self else
    if is_listener self then (reset_to_listen_or_closed self, Ok tt) else (abort_local self, Ok tt)
  else if Wire.has seg flags.SYN then
    if Wire.has seg flags.ACK then
      if negb (is_listener self) && (seg_seq seg =? irs self) && (seg_ack seg =? wadd32 (iss self) 1)
      then complete_passive_open self seg
      else reset_stray_ack self seg
    else if seg_seq seg =? irs self then
      let '(self, allowed) := oow_allowed self in
      if allowed then try self := emit_synack self in (self, Ok tt) else (self, Ok tt)
    else (self, Ok tt)
  else if negb (Wire.has seg flags.ACK) then (self, Ok tt)
  else if negb (seg_ack seg =? wadd32 (iss self) 1) then reset_stray_ack self seg
  else
    let seg_len := as_u32 (zlen (payload seg)) + b2z (Wire.has seg flags.FIN) in
    if negb (acceptable self (seg_seq seg) seg_len) then send_oow_ack self
    else complete_passive_open self seg.

(** ** Dispatch *)

Definition may_replace_half_open (self : t) (seg : Segment) : bool :=
  state_eqb (state self) SynRcvd && is_listener self && Wire.has seg flags.SYN
  && negb (Wire.has seg flags.ACK) && negb (Wire.has seg flags.RST) && negb (Wire.has seg flags.FIN)
  && (1 <=? syn_rcvd_retries self).

Definition on_busy_listener (self : t) (seg : Segment) : t * Res unit :=
  if negb (state_eqb (state self) SynRcvd) || negb (is_listener self) || negb (cookie_secret_set self)
  then (self, Err NotForUs) else
  let ctl := Wire.has seg flags.RST || Wire.has seg flags.FIN in
  if Wire.has seg flags.SYN && negb (Wire.has seg flags.ACK) && negb ctl then emit_cookie_synack self seg else
  if Wire.has seg flags.ACK && negb (Wire.has seg flags.SYN) && negb (Wire.has seg flags.RST) then
    match validate_cookie self seg with
    | Some opts => promote_via_cookie (reset_to_listen_or_closed self) seg opts
    | None => (self, Err NotForUs)
    end
  else (self, Err NotForUs).

(** The [match] on the state, after the segment is counted. *)
Definition dispatch (self : t) (seg : Segment) : t * Res unit :=
  let self := self <| stats ::= fun st => st <| Stats.segs_in ::= inc64 |> |> in
  match state self with
  | Closed => (self, Err InvalidState)
  | Listen => on_listen self seg
  | SynSent => on_syn_sent self seg
  | SynRcvd => on_syn_rcvd self seg
  | _ => on_synchronized self seg
  end.

Definition inject_segment (self : t) (seg : Segment) : t * Res unit :=
  if negb (bool_decide (dst_ip seg = ip (local self))) || negb (dst_port seg =? port (local self))
  then (self, Err NotForUs) else
  let from_remote := bool_decide (src_ip seg = ip (remote self)) && (src_port seg =? port (remote self)) in
  if negb (state_eqb (state self) Listen) && negb from_remote then
    if may_replace_half_open self seg then dispatch (reset_to_listen_or_closed self) seg
    else on_busy_listener self seg
  else dispatch self seg.

(** [inject_packet] and [inject_packet_l4_csum_trusted] of src/tcb/mod.rs. *)
Definition inject_packet (self : t) (packet : list Z) : t * Res unit :=
  try (self, seg) := (self, Wire.parse en packet) in
  inject_segment self seg.

Definition inject_packet_l4_csum_trusted (self : t) (packet : list Z) : t * Res unit :=
  try (self, seg) := (self, Wire.parse_opts en packet false) in
  inject_segment self seg.

End Input.
