(* ===== verification/TcbTimers.v ===== *)
(** * Timers (src/tcb/timers.rs): everything [tick] does. *)
From S2P Require Import Prelude Error Seq State Effect Ring TxRing Options Wire RtxQueue Rack Congestion.
From S2P Require Import Tcb TcbAck TcbOutput TcbInput.
Import Tcb.

Section Timers.
Context `{C : Config}.

Definition backoff_rto (self : t) : t :=
  self <| rto_ms := Z.min (sat_mul32 (rto_ms self) 2) RTO_MAX_MS |>.

Definition syn_sent_timer (self : t) : t * Res unit :=
  if negb (Deadline.due (rto_deadline self) (now_ms self)) then (self, Ok tt) else
  let self := self <| rtx_count := sat_add8 (rtx_count self) 1 |> in
  if MAX_SYN_RETRIES <? rtx_count self then (abort_local self, Ok tt) else
  let self := self <| syn_retransmitted := true |> in
  let self := backoff_rto self in
  try self := emit_syn self in
  (arm_rto self, Ok tt).

Definition syn_rcvd_timer (self : t) : t * Res unit :=
  if negb (Deadline.due (rto_deadline self) (now_ms self)) then (self, Ok tt) else
  let self := self <| syn_rcvd_retries := sat_add8 (syn_rcvd_retries self) 1 |> in
  if MAX_SYN_RCVD_RETRIES <? syn_rcvd_retries self then
    (if is_listener self then reset_to_listen_or_closed self else abort_local self, Ok tt)
  else
    let self := self <| syn_retransmitted := true |> in
    let self := backoff_rto self in
    try self := emit_synack self in
    (arm_rto self, Ok tt).

Definition blackhole_check (self : t) : t :=
  let target :=
    if BLACKHOLE_RTO_STEP2 <=? rtx_count self then Some BLACKHOLE_MSS2
    else if BLACKHOLE_RTO_STEP1 <=? rtx_count self then Some BLACKHOLE_MSS1
    else None in
  match target with
  | None => self
  | Some target =>
      let head := match Rtx.get_seg RTX (rtx self) 0 with Some s => Seg.payload_len s | None => 0 end in
      if (target <? pmtu_mss self) && (sat_sub target 12 <? head) then
        let self :=
          if pmtu_restore_mss self =? 0 then
            let self := self <| pmtu_restore_mss := pmtu_mss self |> in
            self <| pmtu_probe_backoff_ms := PMTU_PROBE_MIN_MS |>
          else self in
        let self := self <| pmtu_mss := target |> in
        let self := self <| pmtu_probe_inflight := false |> in
        self <| pmtu_probe_at := sat_add64 (now_ms self) (pmtu_probe_backoff_ms self) |>
      else self
  end.

(** The collapse of [on_rto], once the timeout is counted. *)
Definition rto_collapse (self : t) : t :=
  let self := self <| stats ::= fun st => st <| Stats.rto_count ::= inc32 |> |> in
  let self := blackhole_check self in
  let self :=
    if (match Rtx.get_seg RTX (rtx self) 0 with Some s => Seg.has s seg_flags.SACKED | None => false end)
    then self <| rtx := Rtx.clear_sacked RTX (rtx self) |> else self in
  let flight := wsub32 (snd_nxt self) (data_una self) in
  let self := self <| cc := Reno.on_rto (cc self) flight (snd_una self) (snd_nxt self) (mss_payload self) |> in
  let self := self <| rtx := Rtx.mark_all_lost RTX (rtx self) |> in
  let self := self <| reno_sacked := 0 |> in
  let self := self <| tlp_end_seq := None |> in
  let self := self <| tlp_deadline := Deadline.OFF |> in
  let self := self <| rack_deadline := Deadline.OFF |> in
  let self := self <| dup_acks := 0 |> in
  let self := backoff_rto self in
  arm_rto self.

(** The function always returns [Ok(())]. *)
Definition on_rto (self : t) : t :=
  let self := self <| rto_deadline := Deadline.OFF |> in
  if snd_una self =? snd_nxt self then self else
  let self := self <| rtx_count := sat_add8 (rtx_count self) 1 |> in
  if MAX_RETRANSMITS <? rtx_count self then abort_local self else
  rto_collapse self.

(** The probe of [fire_tlp]: whether it was sent, and whether it is a
    retransmission. *)
Definition tlp_probe (self : t) : t * Res (bool * bool) :=
  let unsent := unsent_bytes self in
  let mss := mss_payload self in
  let usable := usable_window self in
  if (0 <? unsent) && (Z.min unsent mss <=? usable) && negb (Rtx.is_full RTX (rtx self)) then
    let len := Z.min unsent mss in
    let fin := fin_owed self && (len =? unsent) in
    try (self, sent) := emit_new self len fin in (self, Ok (sent, false))
  else
    if Rtx.len (rtx self) =? 0 then (self, Ok (false, false)) else
    let i := Rtx.len (rtx self) - 1 in
    match Rtx.get_seg RTX (rtx self) i with
    | Some s =>
        if negb (Seg.has s seg_flags.SACKED) then
          try (self, sent) := retransmit self i in (self, Ok (sent, true))
        else (self, Ok (false, false))
    | None => (self, Ok (false, false))
    end.

Definition fire_tlp (self : t) : t * Res unit :=
  let self := self <| tlp_deadline := Deadline.OFF |> in
  let eligible :=
    sack_enabled self && ca_eqb (Reno.state (cc self)) CaOpen
    && negb (Options.is_some (tlp_end_seq self)) && negb (snd_una self =? snd_nxt self) in
  if negb eligible then (self, Ok tt) else
  if egress_full self then (maybe_arm_tlp self, Ok tt) else
  try (self, res) := tlp_probe self in
  if fst res then
    let self := self <| stats ::= fun st => st <| Stats.tlp_count ::= inc32 |> |> in
    let self := self <| tlp_end_seq := Some (snd_nxt self) |> in
    let self := self <| tlp_is_retrans := snd res |> in
    let self := self <| tlp_deadline := Deadline.OFF |> in
    (arm_rto self, Ok tt)
  else (self, Ok tt).

(** The reorder timer of [run_timers]. *)
Definition rack_timer (self : t) : t :=
  let self := self <| rack_deadline := Deadline.OFF |> in
  let '(self, marked) := rack_detect self in
  if marked then
    let self :=
      if negb (Reno.in_loss_recovery (cc self))
      then enter_fast_recovery self (wsub32 (snd_nxt self) (data_una self)) else self in
    let pipe := pipe self in
    let mss := mss_payload self in
    self <| cc := Reno.prr_update (cc self) mss pipe mss false |>
  else self.

(** The tail of [on_persist_timer]: back off and re-arm. *)
Definition persist_backoff (self : t) : t :=
  let base := Z.max (persist_backoff_ms self) (rto_ms self) in
  let self := self <| persist_backoff_ms := Z.min (sat_mul32 base 2) RTO_MAX_MS |> in
  if (0 <? unsent_bytes self) && (snd_una self =? snd_nxt self) then
    self <| persist_deadline := Deadline.at_ (sat_add64 (now_ms self) (persist_backoff_ms self)) |>
  else self.

Definition on_persist_timer (self : t) : t * Res unit :=
  let self := self <| persist_deadline := Deadline.OFF |> in
  let unsent := unsent_bytes self in
  if (unsent =? 0) || negb (snd_una self =? snd_nxt self) then (self, Ok tt) else
  if egress_full self then
    (self <| persist_deadline := Deadline.at_ (sat_add64 (now_ms self) (rto_ms self)) |>, Ok tt)
  else
    let usable := usable_window self in
    if (0 <? usable) && negb (Rtx.is_full RTX (rtx self)) then
      let len := Z.min (Z.min usable unsent) (mss_payload self) in
      let fin := fin_owed self && (len =? unsent) in
      try self := emit_new self len fin in
      (persist_backoff self, Ok tt)
    else
      try self := emit_probe self (wsub32 (snd_una self) 1) in
      let self := self <| rtx_count := sat_add8 (rtx_count self) 1 |> in
      if MAX_RETRANSMITS <? rtx_count self then (abort_local self, Ok tt) else
      (persist_backoff self, Ok tt).

Definition check_keepalive (self : t) : t * Res unit :=
  if (keepalive_idle_ms self =? 0) || negb (Deadline.due (keepalive_deadline self) (now_ms self))
  then (self, Ok tt) else
  if negb (keepalive_applies self) then
    let self := self <| keepalive_probes := 0 |> in
    (self <| keepalive_deadline := Deadline.OFF |>, Ok tt)
  else if has_send_work self then
    let self := self <| keepalive_probes := 0 |> in
    (self <| keepalive_deadline := Deadline.at_ (sat_add64 (now_ms self) (keepalive_idle_ms self)) |>, Ok tt)
  else if keepalive_count self <=? keepalive_probes self then
    (if state_eqb (state self) CloseWait then close_clean self else abort_local self, Ok tt)
  else
    try (self, sent) := emit_probe self (wsub32 (snd_nxt self) 1) in
    if sent then
      let self := self <| keepalive_probes := sat_add8 (keepalive_probes self) 1 |> in
      (self <| keepalive_deadline := Deadline.at_ (sat_add64 (now_ms self) (keepalive_intvl_ms self)) |>, Ok tt)
    else (self, Ok tt).

Definition check_user_timeout (self : t) : t :=
  if (user_timeout_ms self =? 0) || negb (has_send_work self) || negb (may_transmit (state self)) then
    let self := self <| user_timeout_deadline := Deadline.OFF |> in
    self <| ut_progress := 0 |>
  else if negb (Deadline.is_armed (user_timeout_deadline self)) then
    self <| user_timeout_deadline := Deadline.at_ (sat_add64 (now_ms self) (user_timeout_ms self)) |>
  else if Deadline.due (user_timeout_deadline self) (now_ms self) then abort_local self
  else self.

(** ** [run_timers], in three parts *)

(** The handshake timers. *)
Definition handshake_timers (self : t) : t * Res unit :=
  match state self with
  | SynSent => syn_sent_timer self
  | SynRcvd => syn_rcvd_timer self
  | _ => (self, Ok tt)
  end.

(** The loss recovery timers; [false] when the connection gave up. *)
Definition recovery_timers (self : t) : t * Res bool :=
  let now := now_ms self in
  try self := (if Deadline.due (tlp_deadline self) now then fire_tlp self else (self, Ok tt)) in
  let fired := is_synchronized (state self) && Deadline.due (rto_deadline self) now in
  let self := if fired then on_rto self else self in
  if fired && state_eqb (state self) Closed then (self, Ok false) else
  (if Deadline.due (rack_deadline self) now then rack_timer self else self, Ok true).

(** Persist, keepalive and USER TIMEOUT; [false] when the connection closed. *)
Definition liveness_timers (self : t) : t * Res bool :=
  let now := now_ms self in
  let fired := Deadline.due (persist_deadline self) now in
  try self := (if fired then on_persist_timer self else (self, Ok tt)) in
  if fired && state_eqb (state self) Closed then (self, Ok false) else
  try self := check_keepalive self in
  let self := check_user_timeout self in
  (self, Ok (negb (state_eqb (state self) Closed))).

Definition run_timers (self : t) : t * Res unit :=
  let now := now_ms self in
  if Deadline.due (time_wait_deadline self) now then
    (disarm_timers (self <| state := Closed |>), Ok tt)
  else if state_eqb (state self) FinWait2 && Deadline.due (fin_wait2_deadline self) now then
    try self := emit_ctl self (Z.lor flags.RST flags.ACK) (snd_nxt self) (rcv_nxt self) in
    (abort_local self, Ok tt)
  else
    try self := handshake_timers self in
    try (self, go) := recovery_timers self in
    if negb go then (self, Ok tt) else
    try (self, go) := liveness_timers self in
    if negb go then (self, Ok tt) else
    try self := maybe_send_data self in
    if pending_ack self && Deadline.due (ack_deadline self) now then send_pure_ack self else (self, Ok tt).

Definition tick (self : t) : t * Res unit := run_timers self.

End Timers.
