(* ===== verification/TcbApi.v ===== *)
(** * The host's calls (src/tcb/mod.rs): configuration, opening, data, closing. *)
From S2P Require Import Prelude Error Seq State Effect Ring Ooo TxRing Wire RtxQueue Rack Congestion.
From S2P Require Import Tcb TcbAck TcbOutput Cookie TcbInput TcbTimers.
Import Tcb.

Section Api.
Context `{C : Config}.

(** ** Configuration *)

Definition set_now (self : t) (now : Z) : t := self <| now_ms := now |>.

Definition set_egress_paused (self : t) (paused : bool) : t :=
  let self := if egress_paused self && negb paused && Deadline.is_armed (tlp_deadline self)
              then maybe_arm_tlp self else self in
  self <| egress_paused := paused |>.

Definition set_tx_csum_offload (self : t) (on : bool) : t := self <| tx_csum_offload := on |>.

Definition set_keepalive (self : t) (idle_ms intvl_ms count : Z) : t :=
  let self := self <| keepalive_idle_ms := idle_ms |> in
  let self := self <| keepalive_intvl_ms := Z.max intvl_ms 1 |> in
  let self := self <| keepalive_count := count |> in
  let self := self <| keepalive_probes := 0 |> in
  self <| keepalive_deadline :=
    if (idle_ms =? 0) || negb (keepalive_applies self) then Deadline.OFF
    else Deadline.at_ (sat_add64 (now_ms self) idle_ms) |>.

Definition set_user_timeout (self : t) (ms : Z) : t :=
  let self := self <| user_timeout_ms := ms |> in
  let self := self <| ut_progress := 0 |> in
  self <| user_timeout_deadline :=
    if (ms =? 0) || negb (has_send_work self) then Deadline.OFF
    else Deadline.at_ (sat_add64 (now_ms self) ms) |>.

Definition set_fin_wait2_timeout (self : t) (ms : Z) : t :=
  let self := self <| fin_wait2_timeout_ms := ms |> in
  self <| fin_wait2_deadline :=
    if negb (ms =? 0) && state_eqb (state self) FinWait2
    then Deadline.at_ (sat_add64 (now_ms self) ms) else Deadline.OFF |>.

Definition set_mtu (self : t) (m : Z) : t * Res unit :=
  match state self with
  | Closed | Listen =>
      let self := self <| mtu := clamp m MIN_MTU MAX_MTU |> in
      let self := self <| local_mss := mtu self - HDR_LEN |> in
      let self := self <| pmtu_mss := local_mss self |> in
      (self <| cc := Reno.new (initial_window (local_mss self)) |>, Ok tt)
  | _ => (self, Err InvalidState)
  end.

(** The loop of [update_pmtu]: mark every segment larger than [limit] lost. *)
Definition mark_oversized (limit : Z) (q : Rtx.t) : Rtx.t :=
  foldl (fun q i =>
    match Rtx.get_seg RTX q i with
    | Some s => if limit <? Seg.payload_len s then Rtx.mark_lost RTX q i else q
    | None => q
    end) q (seqZ 0 (Rtx.len q)).

Definition update_pmtu (self : t) (m : Z) : t :=
  let mss := clamp m MIN_MTU MAX_MTU - HDR_LEN in
  let self := self <| pmtu_restore_mss := Z.min (pmtu_restore_mss self) mss |> in
  let self :=
    if pmtu_restore_mss self <=? Z.min (pmtu_mss self) mss then
      let self := self <| pmtu_restore_mss := 0 |> in
      self <| pmtu_probe_inflight := false |>
    else self in
  if pmtu_mss self <=? mss then self else
  let self := self <| pmtu_mss := mss |> in
  if is_synchronized (state self) then
    let self := self <| rtx := mark_oversized (mss_payload self) (rtx self) |> in
    fst (maybe_send_data self)
  else self.

(** ** Opening *)

Definition connect (self : t) : t * Res unit :=
  if negb (state_eqb (state self) Closed) then (self, Err InvalidState) else
  let self := self <| is_listener := false |> in
  let self := reset_connection_state self in
  let self := self <| ts_offset := ts_offset_for self (remote self) |> in
  let self := self <| state := SynSent |> in
  let self := self <| syn_xmit_ms := now_ms self |> in
  try (self, sent) := emit_syn self in
  if sent then
    let self := self <| snd_nxt := wadd32 (iss self) 1 |> in
    let self := self <| syn_unacked := true |> in
    (arm_rto self, Ok tt)
  else (self, Ok tt).

Definition listen (self : t) : t * Res unit :=
  match state self with
  | Closed | Listen | TimeWait =>
      if negb (secret_set self) && negb (cookie_secret_set self) then (self, Err InvalidState) else
      let self := self <| remote := no_endpoint |> in
      let self := self <| is_listener := true |> in
      let self := reset_connection_state self in
      (self <| state := Listen |>, Ok tt)
  | _ => (self, Err InvalidState)
  end.

(** ** Data *)

Definition send (self : t) (data : list Z) : t * Res Z :=
  if negb (can_send (state self)) then (self, Err InvalidState) else
  if negb (send_lent self =? 0) then (self, Err WouldBlock) else
  let '(ring, written) := Ring.write BUF (send_ring self) data in
  let self := self <| send_ring := ring |> in
  if (written =? 0) && negb (zlen data =? 0) then (self, Err WouldBlock) else (self, Ok written).

(** The two lent regions, as index ranges [(start, end)] of the ring's storage. *)
Definition send_reserve (self : t) (max : Z) : t * Res ((Z * Z) * (Z * Z)) :=
  if negb (send_lent self =? 0) || negb (can_send (state self)) then (self, Err InvalidState) else
  let '(a, b) := Ring.free_regions BUF (send_ring self) max in
  let n := (snd a - fst a) + (snd b - fst b) in
  if n =? 0 then (self, Err WouldBlock) else
  let self := self <| send_lent := n |> in
  (self <| send_lent_conn := conn_gen self |>, Ok (a, b)).

Definition send_commit (self : t) (n : Z) : t * Res Z :=
  let lent := send_lent self in
  let self := self <| send_lent := 0 |> in
  if (lent =? 0) || negb (send_lent_conn self =? conn_gen self) || negb (can_send (state self))
  then (self, Err InvalidState) else
  let '(ring, c) := Ring.commit BUF (send_ring self) (Z.min n lent) in
  (self <| send_ring := ring |>, Ok c).

(** The host's buffer is an argument and part of the result. *)
Definition recv (self : t) (dst : list Z) : t * Res Z * list Z :=
  match error self with
  | Some e => (self, Err e, dst)
  | None =>
      let '(ring, dst, n) := Ring.read BUF (recv_ring self) dst in
      let self := self <| recv_ring := ring |> in
      let '(self, res) :=
        if 0 <? n then
          let self :=
            if state_eqb (state self) FinWait2 && negb (fin_wait2_timeout_ms self =? 0) then
              self <| fin_wait2_deadline :=
                Deadline.at_ (sat_add64 (now_ms self) (fin_wait2_timeout_ms self)) |>
            else self in
          maybe_send_window_update self
        else (self, Ok tt) in
      let res := let? _ := res in
        if n =? 0 then
          match state self with
          | Closed | CloseWait | LastAck | Closing | TimeWait => Err ConnectionClosed
          | _ => Ok n
          end
        else Ok n in
      (self, res, dst)
  end.

(** ** Closing *)

Definition close (self : t) : t * Res unit :=
  match state self with
  | Established | SynRcvd => maybe_send_data (self <| state := FinWait1 |>)
  | CloseWait => maybe_send_data (self <| state := LastAck |>)
  | Closed | FinWait1 | FinWait2 | Closing | TimeWait | LastAck => (self, Ok tt)
  | SynSent | Listen =>
      let self := self <| is_listener := false |> in
      let self := reset_connection_state self in
      (self <| state := Closed |>, Ok tt)
  end.

Definition abort (self : t) : t * Res unit :=
  match state self with
  | Closed => (self, Ok tt)
  | Listen | SynSent => (abort_local (self <| is_listener := false |>), Ok tt)
  | _ =>
      try self := emit_ctl self (Z.lor flags.RST flags.ACK) (snd_nxt self) (rcv_nxt self) in
      (abort_local self, Ok tt)
  end.

(** ** Egress *)

Definition extract_packet (self : t) (out : list Z) : t * Res Z * list Z :=
  let '(ring, out, res) := TxRing.pop_into TXQ (tx_ring self) out in
  (self <| tx_ring := ring |>, res, out).

Definition extract_packet_with {R} (self : t) (f : list Z -> R) : t * option R :=
  let '(ring, res) := TxRing.pop_with TXQ (tx_ring self) f in
  (self <| tx_ring := ring |>, res).

End Api.
