(* ===== verification/TcbRx.v ===== *)
(** * The receive side: reassembly of the peer's stream.

    The invariant of [rcv_nxt], the receive ring, the out-of-order list and the
    held FIN, and what the text and FIN of one segment do to it. *)
From S2P Require Import Prelude Error Seq State Effect Ring RingStore Sack Ooo Options Wire Tcb TcbAck TcbOutput TcbInput.
Import Tcb.

(** The fields the receive side is about. *)
Record RxView := mkRxView {
  x_state : State;
  x_irs : Z;
  x_nxt : Z;
  x_ring : Ring.t;
  x_ooo : Ooo.t;
  x_fin : option HeldFin;
}.

Definition rx_view (s : t) : RxView :=
  mkRxView (state s) (irs s) (rcv_nxt s) (recv_ring s) (ooo s) (ooo_fin s).

Lemma OOO_MAX_bounds `{C : Config} : 32 <= OOO_MAX <= 512.
Proof. unfold OOO_MAX, Ooo.OOO_MAX_RANGES. repeat case_if; bool_facts; lia. Qed.

Lemma BUF_bounds `{C : Config} {Cok : ConfigOk C} : 1 <= BUF <= 2 ^ 30.
Proof.
  destruct buf_pow2 as (k & Hk & ->). split; [|apply Z.pow_le_mono_r; lia].
  assert (0 < 2 ^ k) by (apply Z.pow_pos_nonneg; lia). lia.
Qed.

Lemma BUF_pow2 `{C : Config} {Cok : ConfigOk C} : exists k, 0 <= k < 64 /\ BUF = 2 ^ k.
Proof. destruct buf_pow2 as (k & Hk & ->). exists k. split; [lia|done]. Qed.

(** ** Re-basing downwards *)

(** Ranges known from a sequence number [j] above [b] are ranges from [b] on. *)
Lemma chain_rebase_down b j p l :
  0 <= j -> Forall Ooo.u32_range l -> Ooo.chain p (Ooo.offs (wadd32 b j) <$> l) ->
  (forall s e, (s, e) ∈ Ooo.offs (wadd32 b j) <$> l -> e + j < M31) ->
  Ooo.offs b <$> l = (fun q => (q.1 + j, q.2 + j)) <$> (Ooo.offs (wadd32 b j) <$> l) /\
  Ooo.chain (p + j) (Ooo.offs b <$> l).
Proof.
  intros Hj. revert p. induction l as [|r l IH]; intros p Hu Hc Hb; [done|].
  apply Forall_cons in Hu as [[Hs He] Hu]. rewrite !fmap_cons in *. cbn [Ooo.chain] in Hc.
  unfold Ooo.offs at 1 in Hc. destruct Hc as (Hp & He31 & Hc).
  pose proof (Hb (off (Ooo.r_start r) (wadd32 b j)) (off (Ooo.r_end r) (wadd32 b j)) ltac:(left)) as Hend.
  destruct (IH _ Hu Hc) as [Heq Hc']; [intros; apply (Hb s); by right|].
  assert (Ho : Ooo.offs b r = (off (Ooo.r_start r) (wadd32 b j) + j, off (Ooo.r_end r) (wadd32 b j) + j)).
  { unfold Ooo.offs. clear -Hs He Hend Hp He31 Hj. f_equal; word_lia. }
  rewrite Ho, Heq. split; [done|]. cbn [Ooo.chain]. rewrite <- Heq. split; [lia|]. split; [lia|done].
Qed.

Lemma held_shift l j x :
  Ooo.held ((fun q : Z * Z => (q.1 + j, q.2 + j)) <$> l) x <-> Ooo.held l (x - j).
Proof.
  unfold Ooo.held. split.
  - intros (s & e & ([s' e'] & [= -> ->] & Hin)%list_elem_of_fmap & Hx). exists s', e'. split; [done|cbn in Hx; lia].
  - intros (s & e & Hin & Hx). exists (s + j), (e + j). split; [|lia].
    apply (list_elem_of_fmap_2 (fun q : Z * Z => (q.1 + j, q.2 + j)) l (s, e)). done.
Qed.

Lemma ooo_rebase_down MAX o b j :
  0 <= j -> Ooo.wf MAX o (wadd32 b j) ->
  (forall x, Ooo.held (Ooo.view o (wadd32 b j)) x -> x + j < M31 - 1) ->
  Ooo.wf MAX o b /\ (forall x, Ooo.held (Ooo.view o b) x <-> Ooo.held (Ooo.view o (wadd32 b j)) (x - j)).
Proof.
  intros Hj [Hcap Hlen Hu Hc] Hfit.
  destruct (chain_rebase_down b j 0 (Ooo.slice o) Hj Hu Hc) as [Heq Hc'].
  { intros s e Hin. pose proof (Ooo.chain_bounds _ _ _ _ Hc Hin) as Hb.
    assert (Ooo.held (Ooo.view o (wadd32 b j)) (e - 1)) as H%Hfit by (exists s, e; split; [done|lia]). lia. }
  split.
  - split; try done. unfold Ooo.view. destruct (Ooo.slice o) as [|r l]; [done|].
    rewrite fmap_cons in *. destruct (Ooo.offs b r). cbn [Ooo.chain] in *.
    destruct Hc' as (? & ? & ?). split; [lia|done].
  - intros x. unfold Ooo.view. by rewrite Heq, held_shift.
Qed.

Definition opening (s : State) : bool := match s with SynSent | SynRcvd => true | _ => false end.

Section Rx.
Context `{C : Config} {Cok : ConfigOk C}.
Variable Q : Z -> Z -> Prop.

Local Abbreviation held v := (Ooo.held (Ooo.view (x_ooo v) (x_nxt v))).

(** [m .. n) is the part of the stream that is readable, [n] the position of
    [rcv_nxt]; a held FIN lies ahead, within reach of the free space. *)
Record rx_inv (m n : Z) (v : RxView) : Prop := mk_rx_inv {
  rx_u32 : is_u32 (x_nxt v) /\ is_u32 (x_irs v);
  rx_ooo : Ooo.wf OOO_MAX (x_ooo v) (x_nxt v);
  rx_stores : stores BUF Q m n (held v) (x_ring v);
  rx_base : can_recv (x_state v) = true -> x_nxt v = wadd32 (x_irs v) (1 + n);
  rx_fin : forall h, x_fin v = Some h ->
    can_recv (x_state v) = true /\ 0 <= off (fin_at h) (x_nxt v) <= Ring.free BUF (x_ring v) /\
    is_u32 (fin_at h) /\ seq_gt (fin_start h) (fin_at h) = false;
}.

(** During the handshake the stream has not begun. *)
Definition rx_open (m n : Z) (v : RxView) : Prop :=
  opening (x_state v) = true ->
  m = 0 /\ n = 0 /\ Ooo.slice (x_ooo v) = [] /\ (x_state v = SynRcvd -> x_nxt v = wadd32 (x_irs v) 1).

(** No held FIN sits at [rcv_nxt]: it would have been consumed. *)
Definition fin_ahead (v : RxView) : Prop := forall h, x_fin v = Some h -> fin_at h <> x_nxt v.

Lemma rx_free m n v : rx_inv m n v -> 0 <= Ring.free BUF (x_ring v) <= BUF /\ BUF < M31.
Proof using Cok.
  intros [_ _ Hs _ _]. pose proof (Ring.wf_len _ _ (st_wf _ _ _ _ _ _ Hs)). pose proof BUF_bounds.
  change (2 ^ 30) with 1073741824 in *. unfold Ring.free. lia.
Qed.

Lemma rx_held m n v x : rx_inv m n v -> held v x -> 0 < x < Ring.free BUF (x_ring v).
Proof using.
  intros Hi Hx. pose proof (st_fit _ _ _ _ _ _ (rx_stores _ _ _ Hi) x Hx).
  apply (Ooo.chain_held_bounds 0) in Hx; [lia|apply (rx_ooo _ _ _ Hi)].
Qed.

(** [stop_at] keeps the lower of the two positions. *)
Lemma stop_at_min nxt k new f :
  0 <= k < M31 -> match f with Some d => 0 <= d < M31 | None => True end ->
  new = wadd32 nxt k ->
  exists k', stop_at nxt new (wadd32 nxt <$> f) = wadd32 nxt k' /\ 0 <= k' <= k /\
    match f with Some d => k' <= d | None => True end /\ (k' = k \/ f = Some k').
Proof using.
  intros Hk Hf ->. destruct f as [d|]; cbn [fmap option_fmap option_map stop_at]; [|exists k; split_and!; auto with lia].
  assert (seq_ge (wadd32 nxt d) nxt = true) as -> by (clear -Hf; word_lia).
  rewrite seq_gt_offset by lia. cbn [andb]. case_if; bool_facts; [exists d|exists k]; split_and!; auto with lia.
Qed.

(** The list after [advance] moved to [k1], seen from a position [L + k] at
    most there. *)
Lemma advanced_rebase o o' b L k1 k m n r :
  Ooo.wf OOO_MAX o' (wadd32 b k1) ->
  stores BUF Q m n (fun x => 0 <= x /\ Ooo.held (Ooo.view o b) (L + x)) r ->
  (forall x, 0 <= x -> Ooo.held (Ooo.view o' (wadd32 b k1)) x <-> Ooo.held (Ooo.view o b) (k1 + x)) ->
  0 <= k <= k1 - L ->
  Ooo.wf OOO_MAX o' (wadd32 b (L + k)) /\
  (forall x, Ooo.held (Ooo.view o' (wadd32 b (L + k))) x ->
     0 <= x /\ 0 <= k + x /\ Ooo.held (Ooo.view o b) (L + (k + x))).
Proof using Cok.
  intros Hwf' Hst Hrest Hk. pose proof BUF_bounds as HB. change (2 ^ 30) with 1073741824 in HB.
  pose proof (Ring.wf_len _ _ (st_wf _ _ _ _ _ _ Hst)) as Hlen.
  assert (Hbase : forall x, Ooo.held (Ooo.view o' (wadd32 b k1)) x -> 0 < x /\ x + (k1 - L) < Ring.free BUF r).
  { intros x Hx. pose proof (Ooo.chain_held_bounds _ _ _ (Ooo.wf_chain _ _ _ Hwf') Hx). split; [lia|].
    apply Hrest in Hx; [|lia]. assert (k1 + x - L < Ring.free BUF r); [|lia].
    apply (st_fit _ _ _ _ _ _ Hst). split; [lia|]. by replace (L + (k1 + x - L)) with (k1 + x) by lia. }
  assert (Hb' : wadd32 b k1 = wadd32 (wadd32 b (L + k)) (k1 - L - k)) by (rewrite wadd32_assoc; f_equal; lia).
  rewrite Hb' in Hwf', Hrest, Hbase.
  destruct (ooo_rebase_down OOO_MAX o' (wadd32 b (L + k)) (k1 - L - k)) as [Hwfk Hheld]; [lia|done| |].
  { intros x Hx%Hbase. unfold Ring.free in *. lia. }
  split; [done|]. intros x Hx%Hheld. pose proof (Hbase _ Hx). apply Hrest in Hx; [|lia].
  split; [lia|]. split; [lia|]. by replace (L + (k + x)) with (k1 + (x - (k1 - L - k))) by lia.
Qed.

(** Absorbing parked bytes: [rcv_nxt] is [L] past the base [b] of the list. *)
Lemma absorb_ooo_ok s b L m n df :
  Ooo.wf OOO_MAX (ooo s) b -> 0 <= L < M31 -> rcv_nxt s = wadd32 b L ->
  stores BUF Q m n (fun x => 0 <= x /\ Ooo.held (Ooo.view (ooo s) b) (L + x)) (recv_ring s) ->
  match df with Some d => 0 <= d < M31 | None => True end ->
  (forall h, ooo_fin s = Some h -> is_u32 (fin_at h) /\ off (fin_at h) (rcv_nxt s) < M31) ->
  let s' := fst (absorb_ooo s (wadd32 (rcv_nxt s) <$> df)) in
  exists k, 0 <= k <= Ring.free BUF (recv_ring s) /\ rcv_nxt s' = wadd32 (rcv_nxt s) k /\
    Ring.free BUF (recv_ring s') = Ring.free BUF (recv_ring s) - k /\
    match df with Some d => k <= d | None => True end /\
    (forall h, ooo_fin s = Some h -> k <= off (fin_at h) (rcv_nxt s)) /\
    Ooo.wf OOO_MAX (ooo s') (rcv_nxt s') /\
    stores BUF Q m (n + k) (Ooo.held (Ooo.view (ooo s') (rcv_nxt s'))) (recv_ring s').
Proof using Cok.
  intros Hwf HL Hnxt Hst Hdf Hfin s'. unfold s', absorb_ooo. clear s'.
  destruct (Ooo.advance_spec OOO_MAX (ooo s) b L Hwf HL) as (k1 & o' & Hadv & Hk1 & Hwf' & Hrun & _ & Hrest).
  rewrite <- Hnxt in Hadv. rewrite Hadv.
  pose proof (Ring.wf_len _ _ (st_wf _ _ _ _ _ _ Hst)) as Hlen. pose proof BUF_bounds as HB.
  change (2 ^ 30) with 1073741824 in HB.
  assert (Hk1f : k1 - L <= Ring.free BUF (recv_ring s)).
  { destruct (decide (k1 = L)); [unfold Ring.free; lia|].
    assert (k1 - 1 - L < Ring.free BUF (recv_ring s)); [|lia]. apply (st_fit _ _ _ _ _ _ Hst). split; [lia|].
    apply Hrun. lia. }
  change (rcv_nxt (s <| ooo := o' |>)) with (rcv_nxt s). change (ooo_fin (s <| ooo := o' |>)) with (ooo_fin s).
  assert (Hnew : wadd32 b k1 = wadd32 (rcv_nxt s) (k1 - L)) by (rewrite Hnxt, wadd32_assoc; f_equal; lia).
  destruct (stop_at_min (rcv_nxt s) (k1 - L) (wadd32 b k1) df ltac:(lia) Hdf Hnew) as (k2 & -> & Hk2 & Hd2 & _).
  assert (Hh : fin_at <$> ooo_fin s = wadd32 (rcv_nxt s) <$> ((fun h => off (fin_at h) (rcv_nxt s)) <$> ooo_fin s)).
  { destruct (ooo_fin s) as [h|]; [|done]. cbn. destruct (Hfin h eq_refl). by rewrite wadd32_off. }
  rewrite Hh. destruct (stop_at_min (rcv_nxt s) k2 (wadd32 (rcv_nxt s) k2)
    ((fun h => off (fin_at h) (rcv_nxt s)) <$> ooo_fin s) ltac:(lia)) as (k & -> & Hk & Hd3 & _); [|done|].
  { destruct (ooo_fin s) as [h|]; [|done]. cbn. destruct (Hfin h eq_refl). unfold off in *. word_lia. }
  assert (Hoff : wsub32 (wadd32 (rcv_nxt s) k) (rcv_nxt s) = k) by (clear -Hk Hk2 Hk1 HL; word_lia).
  rewrite Hoff.
  assert (Hfin' : forall h, ooo_fin s = Some h -> k <= off (fin_at h) (rcv_nxt s)) by (intros h E; by rewrite E in Hd3).
  destruct (advanced_rebase (ooo s) o' b L k1 k m n (recv_ring s) Hwf' Hst Hrest ltac:(lia)) as [Hwfk Himp].
  replace (wadd32 b (L + k)) with (wadd32 (rcv_nxt s) k) in Hwfk, Himp by (by rewrite Hnxt, wadd32_assoc).
  destruct (Z.eqb_spec k 0) as [->|Hne].
  - assert (H0 : wadd32 (rcv_nxt s) 0 = rcv_nxt s) by (rewrite Hnxt; clear; word_lia). rewrite H0 in *.
    exists 0. cbn [fst]. change (rcv_nxt (s <| ooo := o' |>)) with (rcv_nxt s).
    change (recv_ring (s <| ooo := o' |>)) with (recv_ring s). change (ooo (s <| ooo := o' |>)) with o'.
    rewrite H0, Z.add_0_r. unfold Ring.free. split_and!; try done; try lia; [by destruct df; [lia|]|].
    eapply stores_iff, Hst. intros x Hx%Himp. rewrite Z.add_0_l in Hx. tauto.
  - destruct (stores_commit BUF BUF_pow2 Q m n _ (recv_ring s) k Hst) as (r' & Hc & Hl' & Hst'); [lia| |].
    { intros x Hx. split; [lia|]. apply Hrun. lia. }
    change (recv_ring (s <| ooo := o' |>)) with (recv_ring s). rewrite Hc. exists k. cbn [fst].
    assert (as_u32 k = k) as -> by (clear -Hk Hk2 Hk1 HL; word_lia).
    set (s' := set_field stats _ _).
    change (rcv_nxt s') with (wadd32 (rcv_nxt s) k). change (recv_ring s') with r'. change (ooo s') with o'.
    unfold Ring.free in *. split_and!; try done; try lia; [by destruct df; [lia|]|].
    eapply stores_iff, Hst'. exact Himp.
Qed.

Lemma absorb_ooo_frame s f :
  let s' := fst (absorb_ooo s f) in state s' = state s /\ irs s' = irs s /\ ooo_fin s' = ooo_fin s.
Proof using. unfold absorb_ooo. repeat case_match; split_and!; reflexivity. Qed.

(** In-order text of [zlen data] bytes, with a FIN [d] past [rcv_nxt]. *)
Lemma receive_in_order_ok s data m n df :
  rx_inv m n (rx_view s) -> 0 < zlen data <= Ring.free BUF (recv_ring s) ->
  (forall i b, get data i = Some b -> Q (n + i) b) ->
  match df with Some d => zlen data <= d < M31 | None => True end ->
  let s' := fst (receive_in_order s data (wadd32 (rcv_nxt s) <$> df)) in
  exists k, zlen data <= k /\ rcv_nxt s' = wadd32 (rcv_nxt s) k /\ rx_inv m (n + k) (rx_view s') /\
    match df with Some d => k <= d | None => True end.
Proof using Cok.
  intros Hinv Hdata HQ Hdf. pose proof (rx_free _ _ _ Hinv) as [Hfree HB]. cbn in Hfree.
  destruct Hinv as [[Hu Hirs] Hwf Hst Hbase Hfin]. cbn in *.
  destruct (stores_write BUF BUF_pow2 Q m n _ (recv_ring s) data Hst ltac:(lia) HQ) as (r' & Hw & Hl & Hst').
  unfold receive_in_order. rewrite Hw. set (L := zlen data) in *.
  assert (as_u32 L = L) as -> by (clear -Hdata Hfree HB; word_lia).
  set (s1 := set_field stats _ _). set (s2 := match ooo_fin s1 with Some h => _ | None => s1 end).
  assert (Hs2 : ooo s2 = ooo s /\ rcv_nxt s2 = wadd32 (rcv_nxt s) L /\ recv_ring s2 = r' /\
     state s2 = state s /\ irs s2 = irs s) by (unfold s2; change (ooo_fin s1) with (ooo_fin s); destruct (ooo_fin s); [case_if|]; done).
  destruct Hs2 as (E1 & E2 & E3 & E4 & E5).
  assert (Hh : forall h, ooo_fin s2 = Some h -> ooo_fin s = Some h /\ L <= off (fin_at h) (rcv_nxt s)).
  { unfold s2. change (ooo_fin s1) with (ooo_fin s). destruct (ooo_fin s) as [h0|] eqn:E; [|intros h Hx; change (ooo_fin s = Some h) in Hx; congruence].
    destruct (Hfin h0 eq_refl) as (_ & Ho & Hu0 & _).
    assert (seq_gt (rcv_nxt s1) (fin_at h0) = (off (fin_at h0) (rcv_nxt s) <? L)) as ->.
    { change (rcv_nxt s1) with (wadd32 (rcv_nxt s) L). clear -Ho Hu0 Hdata Hfree HB. unfold off in *. word_lia. }
    case_if; [done|]. bool_facts. intros h. change (ooo_fin s1) with (ooo_fin s).
    rewrite E. intros [= ->]. split; [done|lia]. }
  assert (Hdf2 : wadd32 (rcv_nxt s) <$> df = wadd32 (rcv_nxt s2) <$> ((fun d => d - L) <$> df)).
  { destruct df as [d|]; [|done]. cbn. rewrite E2, wadd32_assoc. do 2 f_equal. lia. }
  rewrite Hdf2. cbn zeta.
  destruct (absorb_ooo_ok s2 (rcv_nxt s) L m (n + L) ((fun d => d - L) <$> df)) as
    (k & Hk & Hn & Hf & Hd & Hfk & Hwf' & Hst2).
  - by rewrite E1.
  - lia.
  - by rewrite E2.
  - by rewrite E1, E3.
  - destruct df as [d|]; [cbn; lia|done].
  - intros h Hs%Hh. destruct Hs as [Hs Ho]. destruct (Hfin h Hs) as (_ & Hb & Hu0 & _). split; [done|].
    rewrite E2. unfold off in *. clear -Hb Hu0 Ho Hdata Hfree HB. word_lia.
  - exists (L + k). split; [lia|]. split; [by rewrite Hn, E2, wadd32_assoc|].
    split; [|destruct df as [d|]; [cbn in Hd; lia|done]].
    destruct (absorb_ooo_frame s2 (wadd32 (rcv_nxt s2) <$> ((fun d => d - L) <$> df))) as (F1 & F2 & F3).
    split; cbn; rewrite ?F1, ?F2, ?F3, ?E4, ?E5.
    + split; [rewrite Hn; apply wadd32_range|done].
    + done.
    + by rewrite Z.add_assoc.
    + intros Hc. rewrite Hn, E2, (Hbase Hc), !wadd32_assoc. f_equal. lia.
    + intros h Hs. rewrite Hf, E3. pose proof (Hfk h Hs) as Hkh. rewrite E2 in Hkh.
      destruct (Hh h Hs) as [Hs0 Ho]. destruct (Hfin h Hs0) as (Hc & Hb & Hu0 & Hstart). split_and!; try done.
      all: rewrite Hn, E2; unfold Ring.free, off in *; clear -Hb Hu0 Ho Hdata Hfree HB Hkh Hk Hl; word_lia.
Qed.

Lemma rx_inv_no_fin m n v :
  rx_inv m n v -> rx_inv m n (mkRxView (x_state v) (x_irs v) (x_nxt v) (x_ring v) (x_ooo v) None).
Proof using. by intros []; split. Qed.

Lemma note_dsack_rx s l r : rx_view (note_dsack s l r) = rx_view s.
Proof using. unfold note_dsack. repeat case_match; reflexivity. Qed.

(** Text parked [o] bytes past [rcv_nxt], inside the free space. *)
Lemma receive_parked_ok s data m n o :
  rx_inv m n (rx_view s) -> 0 < o -> 0 < zlen data -> o + zlen data <= Ring.free BUF (recv_ring s) ->
  (forall i b, get data i = Some b -> Q (n + o + i) b) ->
  let s' := receive_parked s (wadd32 (rcv_nxt s) o) o data in
  rcv_nxt s' = rcv_nxt s /\ rx_inv m n (rx_view s').
Proof using Cok.
  intros Hinv Ho Hz Hroom HQ. pose proof (rx_free _ _ _ Hinv) as [Hfree HB]. cbn in Hfree.
  destruct Hinv as [[Hu Hirs] Hwf Hst Hbase Hfin]. cbn in *.
  destruct (stores_write_at BUF BUF_pow2 Q m n _ _ o data Hst ltac:(lia) Hroom HQ) as [Hl Hst'].
  set (L := zlen data) in *. set (nxt := rcv_nxt s) in *. unfold receive_parked.
  fold nxt. fold L. set (r' := fst (Ring.write_at _ _ _ _)) in *.
  assert (as_u32 L = L) as -> by (clear -Hz Hroom Hfree HB Ho; word_lia). rewrite wadd32_assoc.
  assert (Hoff : forall x, 0 <= x < M31 -> off (wadd32 nxt x) nxt = x)
    by (clear; intros; unfold off; word_lia).
  pose proof (Ooo.insert_spec OOO_MAX (ooo s) (wadd32 nxt o) (wadd32 nxt (o + L)) nxt Hwf) as Hins.
  rewrite !Hoff in Hins by lia. specialize (Hins (wadd32_range _ _) (wadd32_range _ _) ltac:(lia) ltac:(lia)).
  destruct (Ooo.insert _ _ _ _ _) as [o' [dup|]].
  - destruct Hins as (Hwf' & Hheld & _).
    set (s1 := set_field recv_ring _ _). set (s2 := if dup then _ else s1).
    assert (E : rx_view s2 = mkRxView (state s) (irs s) nxt r' o' (ooo_fin s))
      by (unfold s2; destruct dup; [by rewrite note_dsack_rx|done]).
    assert (Hi : rx_inv m n (rx_view s2)).
    { rewrite E. split; cbn; try done; [|intros h Hh; unfold Ring.free; rewrite Hl; by apply Hfin].
      eapply stores_iff, Hst'. intros x. apply Hheld. }
    assert (En : rcv_nxt s2 = nxt) by apply (f_equal x_nxt E).
    cbn zeta. case_match; [case_if|]; split; try done. by apply rx_inv_no_fin in Hi.
  - destruct Hins as (_ & Hsl & Hwf' & _). split; [done|]. split; cbn; try done.
    eapply stores_iff, Hst. intros x. unfold Ooo.view. by rewrite Hsl.
Qed.

(** The signed distance of [seq] from [rcv_nxt]: where a segment's text lies
    in the peer's stream, relative to [n]. *)
Definition ahead (s : t) (seq : Z) : Z := as_i32 (wsub32 seq (rcv_nxt s)).

(** The segment's text is what the peer's stream has at its position. *)
Definition genuine (n : Z) (s : t) (seg : Segment) : Prop :=
  forall i b, get (payload seg) i = Some b -> Q (n + ahead s (seg_seq seg) + i) b.

Definition seg_text_wf (seg : Segment) : Prop := is_u32 (seg_seq seg) /\ zlen (payload seg) < M16.

Lemma receive_untrimmed_ok s seq data f m n o :
  rx_inv m n (rx_view s) -> seq = wadd32 (rcv_nxt s) o -> 0 <= o < Ring.free BUF (recv_ring s) ->
  0 < zlen data < M16 -> (forall i b, get data i = Some b -> Q (n + o + i) b) ->
  f = None \/ f = Some (wadd32 seq (zlen data)) ->
  let d := take (Z.to_nat (Z.min (zlen data) (Ring.free BUF (recv_ring s) - o))) data in
  exists k, 0 <= k /\
    (o = 0 -> rx_inv m (n + k) (rx_view (fst (receive_in_order s d f)))) /\
    (0 < o -> rx_inv m (n + k) (rx_view (receive_parked s seq o d))).
Proof using Cok.
  intros Hinv -> Ho Hz HQ Hf d. pose proof (rx_free _ _ _ Hinv) as [Hfree HB]. cbn in Hfree.
  set (fr := Ring.free BUF (recv_ring s)) in *.
  assert (Hd : zlen d = Z.min (zlen data) (fr - o)) by (unfold d; rewrite zlen_take; lia).
  assert (HQd : forall i b, get d i = Some b -> Q (n + o + i) b) by (intros i b; unfold d; rewrite get_take; case_if; [apply HQ|done]).
  destruct (Z.eq_dec o 0) as [->|Hne].
  - destruct (receive_in_order_ok s d m n (match f with Some _ => Some (zlen data) | None => None end)) as (k & Hk & _ & Hi & _).
    + done.
    + fold fr. lia.
    + intros i b Hi%HQd. by rewrite Z.add_0_r in Hi.
    + destruct f; [lia|done].
    + exists k. split; [lia|]. split; [intros _|lia]. destruct Hf as [->| ->]; [done|].
      by rewrite wadd32_assoc in *.
  - exists 0. split; [lia|]. split; [lia|]. intros _. rewrite Z.add_0_r. apply receive_parked_ok; try done; lia.
Qed.

Lemma receive_payload_ok s seg f m n :
  rx_inv m n (rx_view s) -> seg_text_wf seg -> 0 < zlen (payload seg) -> genuine n s seg ->
  f = None \/ f = Some (wadd32 (seg_seq seg) (zlen (payload seg))) ->
  exists k, 0 <= k /\ rx_inv m (n + k) (rx_view (fst (receive_payload s seg f))).
Proof using Cok.
  intros Hinv [Hseq Hmax] Hz HQ Hf. pose proof (rx_u32 _ _ _ Hinv) as [Hu _]. cbn in Hu.
  assert (Hsame : exists k, 0 <= k /\ rx_inv m (n + k) (rx_view s)) by (exists 0; by rewrite Z.add_0_r).
  unfold receive_payload, genuine, ahead in *. destruct (seq_lt (seg_seq seg) (rcv_nxt s)) eqn:Hlt.
  - set (lead := wsub32 (rcv_nxt s) (seg_seq seg)).
    destruct (get_range _ _ _) as [[|b0 rest]|] eqn:Hr; [done| |done].
    apply get_range_Some in Hr as (Hlead & _ & Hlen & Hr). set (data := b0 :: rest) in *.
    set (s1 := note_dsack _ _ _).
    assert (E : rx_view s1 = rx_view s) by (unfold s1; by rewrite note_dsack_rx).
    pose proof (f_equal x_nxt E) as En. pose proof (f_equal x_ring E) as Er. cbn in En, Er.
    rewrite <- En. replace (wsub32 (rcv_nxt s1) (rcv_nxt s1)) with 0 by (clear; word_lia).
    rewrite Z.eqb_refl, Z.sub_0_r.
    destruct (Z.leb_spec (Ring.free BUF (recv_ring s1)) 0) as [Hf0|Hf0]; [cbn [fst]; by rewrite E|].
    destruct (receive_untrimmed_ok s1 (rcv_nxt s1) data f m n 0) as (k & Hk & Hi & _).
    + by rewrite E.
    + rewrite En. clear -Hu. word_lia.
    + lia.
    + pose proof (zlen_nonneg rest). pose proof (zlen_cons b0 rest : zlen data = _). lia.
    + intros i b Hi. rewrite Hr in Hi. rewrite get_take, get_drop in Hi by lia. repeat case_if in Hi; try done.
      apply HQ in Hi. replace (n + 0 + i) with (n + as_i32 (wsub32 (seg_seq seg) (rcv_nxt s)) + (lead + i)); [done|].
      subst lead. clear -Hlt Hseq Hu. word_lia.
    + destruct Hf as [->| ->]; [by left|right]. f_equal. rewrite En. rewrite Hlen.
      subst lead. clear -Hlt Hseq Hu. word_lia.
    + exists k. split; [done|]. specialize (Hi eq_refl). rewrite Z.sub_0_r in Hi.
      by destruct (receive_in_order _ _ _).
  - set (o := wsub32 (seg_seq seg) (rcv_nxt s)) in *.
    destruct (Z.leb_spec (Ring.free BUF (recv_ring s)) o) as [Hf0|Hf0]; [done|].
    destruct (receive_untrimmed_ok s (seg_seq seg) (payload seg) f m n o) as (k & Hk & Hi & Hp).
    + done.
    + subst o. clear -Hu Hseq. word_lia.
    + subst o. clear -Hf0. word_lia.
    + lia.
    + intros i b Hi%HQ. replace (as_i32 o) with o in Hi; [done|]. subst o. clear -Hlt. word_lia.
    + done.
    + exists k. split; [done|]. destruct (Z.eqb_spec o 0) as [E|E].
      * specialize (Hi E). by destruct (receive_in_order _ _ _).
      * apply Hp. subst o. clear -E. word_lia.
Qed.

Lemma consume_fin_view s :
  can_recv (state s) = true ->
  exists st, can_recv st = false /\ opening st = false /\
    rx_view (consume_fin s) = mkRxView st (irs s) (wadd32 (rcv_nxt s) 1) (recv_ring s) (Ooo.clear (ooo s)) None.
Proof using.
  intros Hc. unfold consume_fin. set (s1 := set_field ooo_fin _ _).
  unfold advance_state_on_remote_fin. change (state s1) with (state s).
  destruct (state s); try done; [exists CloseWait|case_if; [exists TimeWait|exists Closing]|exists TimeWait].
  all: split_and!; reflexivity.
Qed.

(** Consuming the peer's FIN, in order, ends its stream. *)
Lemma consume_fin_ok s m n :
  rx_inv m n (rx_view s) -> can_recv (state s) = true ->
  rx_inv m n (rx_view (consume_fin s)) /\ can_recv (state (consume_fin s)) = false /\ ooo_fin (consume_fin s) = None.
Proof using Cok.
  intros [[Hu Hirs] Hwf Hst _ _] Hc. cbn in *.
  assert (Hr : forall st, can_recv st = false ->
    rx_inv m n (mkRxView st (irs s) (wadd32 (rcv_nxt s) 1) (recv_ring s) (Ooo.clear (ooo s)) None)).
  { intros st Hcl. split; cbn; try done.
    - split; [apply wadd32_range|done].
    - by apply (Ooo.clear_wf _ _ (rcv_nxt s)).
    - eapply stores_iff, Hst. intros x Hx. by apply Ooo.held_clear in Hx.
    - by rewrite Hcl. }
  destruct (consume_fin_view s Hc) as (st & Hst0 & _ & E). rewrite E. split; [by apply Hr|].
  split; [apply (f_equal x_state) in E; cbn in E; by rewrite E|by apply (f_equal x_fin) in E].
Qed.

(** A FIN at the right edge of a segment's text: consumed, held or dropped. *)
Lemma receive_fin_ok s start fin m n :
  rx_inv m n (rx_view s) -> can_recv (state s) = true -> is_u32 fin -> seq_gt start fin = false ->
  rx_inv m n (rx_view (fst (receive_fin s start fin))).
Proof using Cok.
  intros Hinv Hc Hu Hgt. pose proof (rx_u32 _ _ _ Hinv) as [Hn _]. cbn in Hn.
  unfold receive_fin. cbn [fst].
  case_if; [by apply consume_fin_ok|]. case_if; [|done]. bool_facts.
  assert (Hh : rx_inv m n (rx_view (s <| ooo_fin := Some (mkHeldFin start fin) |>))).
  { destruct Hinv as [? ? ? ? _]. split; cbn in *; try done. intros h [= <-]. split_and!; try done.
    unfold off. clear. word_lia. }
  repeat case_match; done.
Qed.

Lemma maybe_consume_ooo_fin_ok s m n :
  rx_inv m n (rx_view s) ->
  let s' := fst (maybe_consume_ooo_fin s) in rx_inv m n (rx_view s') /\ fin_ahead (rx_view s').
Proof using Cok.
  intros Hinv. unfold maybe_consume_ooo_fin. destruct (can_recv (state s)) eqn:Hc; [rewrite andb_true_r|rewrite andb_false_r].
  - case_if.
    + destruct (consume_fin_ok s m n Hinv Hc) as (? & _ & E). split; [done|]. intros h. cbn. by rewrite E.
    + split; [done|]. intros h Hh. cbn in *. rewrite Hh in *. bool_facts. lia.
  - split; [done|]. intros h Hh. apply (rx_fin _ _ _ Hinv) in Hh. cbn in Hh. destruct Hh as [Hh _]. congruence.
Qed.

(** What receiving text may change. *)
Definition r_mask (s : t) : t :=
  s <| rcv_nxt := 0 |> <| recv_ring := Ring.mk [] 0 0 0 |> <| ooo := Ooo.mk [] 0 0 |> <| ooo_fin := None |>
    <| dsack := None |> <| stats := Stats.default |>.

Lemma r_mask_state s s' : r_mask s' = r_mask s -> state s' = state s.
Proof using. intros E. exact (f_equal state E). Qed.

Lemma absorb_ooo_mask s f : r_mask (fst (absorb_ooo s f)) = r_mask s.
Proof using. unfold absorb_ooo. repeat case_match; reflexivity. Qed.

Lemma receive_in_order_mask s d f : r_mask (fst (receive_in_order s d f)) = r_mask s.
Proof using.
  unfold receive_in_order. destruct (Ring.write _ _ _) as [r' k].
  set (s1 := set_field stats _ _). set (s2 := match ooo_fin s1 with Some h => _ | None => s1 end).
  assert (E : r_mask s2 = r_mask s) by (unfold s2; destruct (ooo_fin s1); [case_if|]; reflexivity).
  clearbody s2. rewrite absorb_ooo_mask. exact E.
Qed.

Lemma note_dsack_mask s l r : r_mask (note_dsack s l r) = r_mask s.
Proof using. unfold note_dsack. repeat case_match; reflexivity. Qed.

Lemma receive_parked_mask s q o d : r_mask (receive_parked s q o d) = r_mask s.
Proof using.
  unfold receive_parked. destruct (Ooo.insert _ _ _ _ _) as [o' [dup|]]; [|reflexivity].
  set (s1 := set_field recv_ring _ _). set (s2 := if dup then _ else s1).
  assert (E : r_mask s2 = r_mask s) by (unfold s2; destruct dup; [rewrite note_dsack_mask|]; reflexivity).
  clearbody s2. destruct (ooo_fin s2); [case_if|]; exact E.
Qed.

Lemma receive_payload_mask s seg f : r_mask (fst (receive_payload s seg f)) = r_mask s.
Proof using.
  assert (Hr : forall s1 q d, r_mask (fst (let free := Ring.free BUF (recv_ring s1) in
    let off := wsub32 q (rcv_nxt s1) in
    if free <=? off then (s1, true) else
    let data := take (Z.to_nat (Z.min (zlen d) (free - off))) d in
    if off =? 0 then let '(s2, filled) := receive_in_order s1 data f in (s2, filled || seq_lt (seg_seq seg) (rcv_nxt s))
    else (receive_parked s1 q off data, true))) = r_mask s1).
  { intros s1 q d. cbn zeta. case_if; [reflexivity|]. case_if; [|cbn [fst]; apply receive_parked_mask].
    set (data := take _ _). pose proof (receive_in_order_mask s1 data f). by destruct (receive_in_order _ _ _). }
  unfold receive_payload. destruct (seq_lt (seg_seq seg) (rcv_nxt s)); [|apply Hr].
  destruct (get_range _ _ _) as [[|b rest]|]; [reflexivity| |reflexivity].
  set (s1 := note_dsack _ _ _). assert (E : r_mask s1 = r_mask s) by (unfold s1; rewrite note_dsack_mask; reflexivity).
  clearbody s1. rewrite <- E. apply Hr.
Qed.

Lemma receive_payload_state s seg f : state (fst (receive_payload s seg f)) = state s.
Proof using. apply r_mask_state, receive_payload_mask. Qed.

(** The text and the FIN of an acceptable segment.  Afterwards no held FIN
    sits at [rcv_nxt]. *)
Lemma receive_text_ok s seg fin m n :
  rx_inv m n (rx_view s) -> fin_ahead (rx_view s) -> seg_text_wf seg ->
  (can_recv (state s) = true -> genuine n s seg) ->
  let s' := fst (receive_text s seg (as_u32 (zlen (payload seg))) fin) in
  exists k, 0 <= k /\ rx_inv m (n + k) (rx_view s') /\ fin_ahead (rx_view s').
Proof using Cok.
  intros Hinv Hah Hwf HQ. destruct Hwf as [Hseq Hmax] eqn:Ewf. pose proof (zlen_nonneg (payload seg)) as Hz.
  assert (as_u32 (zlen (payload seg)) = zlen (payload seg)) as -> by (clear -Hmax Hz; word_lia).
  unfold receive_text. destruct (can_recv (state s)) eqn:Hc; [|exists 0; by rewrite Z.add_0_r].
  specialize (HQ eq_refl). set (L := zlen (payload seg)) in *. set (fs := wadd32 (seg_seq seg) L).
  set (sf := if fin && _ then Some fs else None).
  assert (Hsf : sf = None \/ sf = Some fs) by (unfold sf; case_if; auto).
  set (p := if 0 <? L then _ else _).
  assert (Hp : exists k, 0 <= k /\ rx_inv m (n + k) (rx_view (fst p)) /\ can_recv (state (fst p)) = true).
  { unfold p. case_if; bool_facts; [|exists 0; by rewrite Z.add_0_r].
    destruct (receive_payload_ok s seg sf m n) as (k & ? & ?); try done. exists k. split_and!; try done.
    by rewrite receive_payload_state. }
  destruct p as [s1 a1]. cbn [fst] in Hp. destruct Hp as (k & Hk & Hi1 & Hc1).
  set (p2 := match sf with Some f => _ | None => _ end).
  assert (Hi2 : rx_inv m (n + k) (rx_view (fst p2))).
  { unfold p2. destruct Hsf as [->| ->]; [done|]. apply receive_fin_ok; try done; [apply wadd32_range|].
    unfold fs. clear -Hmax Hz. word_lia. }
  destruct p2 as [s2 a2]. cbn [fst] in Hi2. pose proof (maybe_consume_ooo_fin_ok s2 m (n + k) Hi2) as [? ?].
  destruct (maybe_consume_ooo_fin s2). exists k. done.
Qed.

(** [receive_text] moves the receive side and may then consume the FIN. *)
Lemma receive_text_mask s seg l fin :
  let s' := fst (receive_text s seg l fin) in
  r_mask s' = r_mask s \/ exists s1, r_mask s1 = r_mask s /\ can_recv (state s) = true /\ s' = consume_fin s1.
Proof using.
  unfold receive_text. destruct (can_recv (state s)) eqn:Hc; [|by left].
  set (f := if fin && _ then Some _ else None). set (p := if 0 <? l then _ else _).
  assert (Hp : r_mask (fst p) = r_mask s) by (unfold p; case_if; [apply receive_payload_mask|reflexivity]).
  destruct p as [s1 a1]. cbn [fst] in Hp. set (p2 := match f with Some x => _ | None => _ end).
  assert (Hp2 : r_mask (fst p2) = r_mask s1 \/ fst p2 = consume_fin s1).
  { unfold p2. destruct f as [x|]; [|by left]. unfold receive_fin. cbn [fst]. case_if; [by right|left].
    case_if; [|reflexivity]. repeat case_match; reflexivity. }
  destruct p2 as [s2 a2]. cbn [fst] in Hp2. unfold maybe_consume_ooo_fin. destruct Hp2 as [Hp2| ->].
  - case_if; cbn [fst]; [right; exists s2; split; [|done]|left]; rewrite Hp2; exact Hp.
  - right. exists s1. split; [exact Hp|]. split; [done|].
    case_if; [|done]. bool_facts.
    destruct (consume_fin_view s1) as (st & Hst & _ & E); [rewrite (r_mask_state _ _ Hp); exact Hc|].
    pose proof (f_equal x_state E) as E'. cbn in E'. congruence.
Qed.

End Rx.
