(* ===== verification/TcbFrame.v ===== *)
(** * What the methods leave alone

    A mask blanks the fields a group of methods may assign; a method of the
    group keeps the mask of the connection, so that every other field is
    unchanged: [f_equal field] of the mask equality is the frame condition of
    that field, by conversion. *)
From S2P Require Import Prelude Error Seq State Effect Ring Sack Ooo TxRing Options Wire RtxQueue Rack.
From S2P Require Import Congestion Tcb TcbAck TcbOutput Cookie TcbInput TcbTimers TcbApi.
Import Tcb.

(** Emission: the egress ring and what an emitted segment acknowledges. *)
Definition e_mask (s : t) : t :=
  s <| tx_ring := TxRing.mk [] 0 0 |> <| ip_id := 0 |> <| stats := Stats.default |>
    <| send_cwr_pending := false |> <| last_ack_sent := 0 |> <| rcv_adv_edge := 0 |> <| rcv_wnd := 0 |>
    <| dsack := None |> <| pending_ack := false |> <| delayed_ack_count := 0 |> <| ack_deadline := Deadline.OFF |>
    <| last_oow_ms := Deadline.OFF |>.

(** Sending: new data, retransmissions and their timers. *)
Definition s_part (s : t) : t :=
  s <| snd_nxt := 0 |> <| rtx := Rtx.new 0 |> <| cc := Reno.new 0 |> <| fin_sent := false |>
    <| fin_seq := 0 |> <| pipe_hiwat := 0 |> <| last_data_send_ms := 0 |> <| rto_deadline := Deadline.OFF |>
    <| tlp_deadline := Deadline.OFF |> <| cwnd_limited := false |> <| pmtu_probe_inflight := false |>
    <| pmtu_probe_mss := 0 |> <| pmtu_probe_start := 0 |> <| pmtu_probe_end := 0 |> <| pmtu_probe_at := 0 |>
    <| pmtu_probe_backoff_ms := 0 |> <| persist_deadline := Deadline.OFF |> <| persist_backoff_ms := 0 |>.

Definition s_mask (s : t) : t := s_part (e_mask s).

Lemma e_s_mask s s' : e_mask s' = e_mask s -> s_mask s' = s_mask s.
Proof. intros H. exact (f_equal s_part H). Qed.

Section Frame.
Context `{C : Config}.

Lemma segment_options_mask s n : e_mask (fst (segment_options s n)) = e_mask s.
Proof using. unfold segment_options. repeat case_match; simplify_eq; reflexivity. Qed.

Lemma staged_mask s f a w : e_mask (staged s f a w) = e_mask s.
Proof using. unfold staged. repeat case_match; reflexivity. Qed.

Lemma emit_segment_mask s f q a o sl e : e_mask (fst (emit_segment s f q a o sl e)) = e_mask s.
Proof using.
  unfold emit_segment. case_if; [done|]. destruct (outbound_window _ _) as [w wb].
  destruct (ecn_flags _ _ _ _) as [s1 fl] eqn:E.
  assert (H : e_mask s1 = e_mask s) by (unfold ecn_flags in E; repeat case_match; simplify_eq; reflexivity).
  clear E. destruct (TxRing.push_with _ _ _ _) as [r [[|]|]]; cbn [st_bind fst]; rewrite ?staged_mask; exact H.
Qed.

Lemma ack_sent_mask s : e_mask (ack_sent s) = e_mask s.
Proof using. reflexivity. Qed.

Lemma emit_data_segment_mask s f q sl e : e_mask (fst (emit_data_segment s f q sl e)) = e_mask s.
Proof using.
  unfold emit_data_segment. pose proof (segment_options_mask s (as_u32 (sl_len sl))) as H.
  destruct (segment_options _ _) as [s1 o]. cbn [fst] in H.
  pose proof (emit_segment_mask s1 f q (rcv_nxt s1) o sl e) as H1.
  destruct (emit_segment _ _ _ _ _ _ _) as [s2 [[|]|]]; cbn [st_bind fst] in *; rewrite ?ack_sent_mask; congruence.
Qed.

Lemma send_pure_ack_mask s : e_mask (fst (send_pure_ack s)) = e_mask s.
Proof using.
  unfold send_pure_ack. case_if; [reflexivity|]. pose proof (segment_options_mask s 0) as H.
  destruct (segment_options _ _) as [s1 o]. cbn [fst] in H.
  pose proof (emit_segment_mask s1 flags.ACK (snd_nxt s1) (rcv_nxt s1) o NO_PAYLOAD false) as H1.
  destruct (emit_segment _ _ _ _ _ _ _) as [s2 [[|]|]]; cbn [st_bind fst] in *; rewrite ?ack_sent_mask; congruence.
Qed.

Lemma oow_allowed_mask s : e_mask (fst (oow_allowed s)) = e_mask s.
Proof using. unfold oow_allowed. repeat case_match; reflexivity. Qed.

Lemma send_oow_ack_mask s : e_mask (fst (send_oow_ack s)) = e_mask s.
Proof using.
  unfold send_oow_ack. pose proof (oow_allowed_mask s) as H. destruct (oow_allowed s) as [s1 [|]]; cbn [fst] in *.
  - by rewrite send_pure_ack_mask.
  - exact H.
Qed.

Lemma emit_rst_to_mask s seg q a f : e_mask (fst (emit_rst_to s seg q a f)) = e_mask s.
Proof using.
  unfold emit_rst_to. destruct (TxRing.push_with _ _ _ _) as [r [[|]|]]; reflexivity.
Qed.

Lemma reset_stray_ack_mask s seg : e_mask (fst (reset_stray_ack s seg)) = e_mask s.
Proof using.
  unfold reset_stray_ack. pose proof (oow_allowed_mask s) as H. destruct (oow_allowed s) as [s1 [|]]; cbn [fst] in *.
  - by rewrite emit_rst_to_mask.
  - exact H.
Qed.

(** ** Sending *)

Lemma maybe_arm_tlp_mask s : s_mask (maybe_arm_tlp s) = s_mask s.
Proof using. unfold maybe_arm_tlp. case_if; reflexivity. Qed.

Lemma new_sent_mask s q n f : s_mask (new_sent s q n f) = s_mask s.
Proof using.
  unfold new_sent. rewrite maybe_arm_tlp_mask. destruct f; repeat case_if; reflexivity.
Qed.

Lemma emit_new_mask s n f : s_mask (fst (emit_new s n f)) = s_mask s.
Proof using.
  unfold emit_new. case_if; [reflexivity|].
  match goal with |- context [emit_data_segment ?a ?b ?c ?d ?e] => pose proof (emit_data_segment_mask a b c d e) as H end.
  apply e_s_mask in H. destruct (emit_data_segment _ _ _ _ _) as [s1 [[|]|]]; cbn [st_bind fst negb] in *; try exact H.
  destruct (Rtx.push _ _ _) as [q' [|]]; cbn [fst negb]; [rewrite new_sent_mask|]; exact H.
Qed.

Lemma retrans_sent_mask s i n sg f : s_mask (retrans_sent s i n sg f) = s_mask s.
Proof using. unfold retrans_sent. repeat case_if; reflexivity. Qed.

Lemma retrans_prepare_mask s i sg m : s_mask (fst (retrans_prepare s i sg m)) = s_mask s.
Proof using.
  unfold retrans_prepare. case_if; case_if; try reflexivity; destruct (Rtx.split _ _ _ _) as [q [|]]; reflexivity.
Qed.

Lemma retransmit_mask s i : s_mask (fst (retransmit s i)) = s_mask s.
Proof using.
  unfold retransmit. destruct (Rtx.get_seg _ _ _) as [sg0|]; [|reflexivity].
  match goal with |- context [retrans_prepare ?a ?b ?c ?d] => pose proof (retrans_prepare_mask a b c d) as H end.
  destruct (retrans_prepare _ _ _ _) as [s1 sg]. cbn [fst] in H. case_if; [exact H|].
  match goal with |- context [emit_data_segment ?a ?b ?c ?d ?e] => pose proof (emit_data_segment_mask a b c d e) as H1 end.
  apply e_s_mask in H1. destruct (emit_data_segment _ _ _ _ _) as [s2 [[|]|]]; cbn [st_bind fst negb] in *;
    rewrite ?retrans_sent_mask; congruence.
Qed.

Lemma send_new_mask s : s_mask (fst (send_new s)) = s_mask s.
Proof using.
  unfold send_new. case_if; [case_if; [apply emit_new_mask|reflexivity]|]. case_if; [reflexivity|].
  case_if; [reflexivity|]. destruct (new_len _ _ _) as [[n p]|]; [|reflexivity].
  set (s1 := if _ && _ then _ else s). assert (H : s_mask s1 = s_mask s) by (unfold s1; case_if; reflexivity).
  clearbody s1. match goal with |- context [emit_new ?a ?b ?c] => pose proof (emit_new_mask a b c) as H1 end.
  destruct (emit_new _ _ _) as [s2 [[|]|]]; cbn [st_bind fst] in *; try congruence.
  destruct p as [[? ?]|]; [|congruence]. transitivity (s_mask s2); [reflexivity|congruence].
Qed.

Lemma send_one_mask s : s_mask (fst (send_one s)) = s_mask s.
Proof using.
  unfold send_one. destruct (Rtx.next_lost _ _) as [q [i|]].
  - case_if; [reflexivity|]. rewrite retransmit_mask. reflexivity.
  - rewrite send_new_mask. reflexivity.
Qed.

Lemma send_loop_mask n : forall s, s_mask (fst (send_loop n s)) = s_mask s.
Proof using.
  induction n as [|n IH]; intros s; cbn [send_loop]; case_if; try reflexivity.
  pose proof (send_one_mask s) as H. destruct (send_one s) as [s1 [[|]|]]; cbn [st_bind fst] in *; try exact H.
  by rewrite IH.
Qed.

Lemma update_persist_mask s : s_mask (update_persist s) = s_mask s.
Proof using. unfold update_persist. repeat case_if; reflexivity. Qed.

Lemma maybe_send_data_mask s : s_mask (fst (maybe_send_data s)) = s_mask s.
Proof using.
  unfold maybe_send_data. case_if; [reflexivity|]. pose proof (send_loop_mask (Z.to_nat (TXQ + 2)) s) as H.
  destruct (send_loop _ s) as [s1 [|]]; cbn [st_bind fst] in *; [by rewrite update_persist_mask|exact H].
Qed.

Lemma maybe_send_window_update_mask s : e_mask (fst (maybe_send_window_update s)) = e_mask s.
Proof using.
  unfold maybe_send_window_update. destruct (outbound_window s false) as [? new].
  destruct (state s); try reflexivity; case_if; try reflexivity; apply send_pure_ack_mask.
Qed.

Lemma schedule_delayed_ack_mask s n : e_mask (schedule_delayed_ack s n) = e_mask s.
Proof using.
  unfold schedule_delayed_ack. set (s1 := set_field pending_ack _ _).
  assert (H : e_mask s1 = e_mask s) by reflexivity. clearbody s1.
  case_if; [by rewrite send_pure_ack_mask|]. case_if; exact H.
Qed.

End Frame.
