(* ===== verification/TcbTx.v ===== *)
(** * The send side: what is queued, what is outstanding, what is staged

    [tx_inv] ties the send ring, the retransmission queue and the send
    sequence variables together; [eg_inv] holds of the egress ring and of what
    a segment is built from.  Acknowledgments keep both, whatever the peer
    puts into them. *)
From S2P Require Import Prelude Error Seq State Effect Ring RingStore Sack Ooo TxRing Options Wire WireWf RtxQueue Rack RtxCover.
From S2P Require Import Congestion Tcb TcbAck TcbOutput Cookie TcbInput TcbRx.
Import Tcb RtxCover.

(** ** Views *)

Record TxView := mkTxView {
  v_state : State;
  v_iss : Z;
  v_una : Z;
  v_nxt : Z;
  v_syn : bool;
  v_fin : bool;
  v_fseq : Z;
  v_rtx : Rtx.t;
  v_ring : Ring.t;
  v_rto : Deadline.t;
}.

Definition tx_view (s : t) : TxView :=
  mkTxView (state s) (iss s) (snd_una s) (snd_nxt s) (syn_unacked s) (fin_sent s) (fin_seq s) (rtx s)
    (send_ring s) (rto_deadline s).

Definition set_rtx (v : TxView) (q : Rtx.t) : TxView :=
  mkTxView (v_state v) (v_iss v) (v_una v) (v_nxt v) (v_syn v) (v_fin v) (v_fseq v) q (v_ring v) (v_rto v).

Definition set_rto (v : TxView) (d : Deadline.t) : TxView :=
  mkTxView (v_state v) (v_iss v) (v_una v) (v_nxt v) (v_syn v) (v_fin v) (v_fseq v) (v_rtx v) (v_ring v) d.

Record EgView := mkEgView {
  g_tx : TxRing.t;
  g_local : Endpoint;
  g_remote : Endpoint;
  g_mtu : Z;
  g_mss : Z;
  g_iss : Z;
  g_cfg_iss : Z;
  g_gen : Z;
  g_lent : Z;
  g_state : State;
  g_tw : Deadline.t;
}.

Definition eg_view (s : t) : EgView :=
  mkEgView (tx_ring s) (local s) (remote s) (mtu s) (local_mss s) (iss s) (cfg_iss s) (conn_gen s)
    (send_lent s) (state s) (time_wait_deadline s).

Definition set_tx (v : EgView) (r : TxRing.t) : EgView :=
  mkEgView r (g_local v) (g_remote v) (g_mtu v) (g_mss v) (g_iss v) (g_cfg_iss v) (g_gen v) (g_lent v) (g_state v) (g_tw v).

Definition set_eg (v : EgView) (st : State) (tw : Deadline.t) : EgView :=
  mkEgView (g_tx v) (g_local v) (g_remote v) (g_mtu v) (g_mss v) (g_iss v) (g_cfg_iss v) (g_gen v) (g_lent v) st tw.

(** The connection and the loan of send space a state belongs to. *)
Definition bond (s : t) : Z * Z * Ring.t := (conn_gen s, send_lent s, send_ring s).
Definition link (s : t) : Z * (Z * Z * Ring.t) := (iss s, bond s).

Definition views (s : t) : RxView * TxView * EgView := (rx_view s, tx_view s, eg_view s).

(** The same without the retransmission queue. *)
Definition noq (v : TxView) : TxView := set_rtx v (Rtx.new 0).
Definition views_noq (s : t) : RxView * TxView * EgView := (rx_view s, noq (tx_view s), eg_view s).

(** ** Invariants *)

(** Where the first byte not yet acknowledged sits, how much sequence space
    is outstanding, and whether a FIN is part of it. *)
Definition v_base (v : TxView) : Z := wadd32 (v_una v) (b2z (v_syn v)).
Definition v_out (v : TxView) : Z := off (v_nxt v) (v_base v).
Definition v_finout (v : TxView) : bool := v_fin v && negb (v_una v =? v_nxt v).
Definition v_text (v : TxView) : Z := v_out v - b2z (v_finout v).

Definition fin_state (s : State) : bool :=
  match s with FinWait1 | FinWait2 | Closing | TimeWait | LastAck | Closed => true | _ => false end.

Definition fin_acked_state (s : State) : bool :=
  match s with FinWait2 | TimeWait => true | _ => false end.

Section Tx.
Context `{C : Config} {Cok : ConfigOk C}.

Lemma rtx_words : exists W, 1 <= W <= SACK_WORDS /\ RTX = 64 * W.
Proof using Cok.
  pose proof rtx_valid as H. unfold Rtx.VALID in H. bool_facts. exists (RTX / 64).
  change SACK_WORDS with 16. change RTX_QUEUE_CAP with 1024 in *. Z.div_mod_to_equations. lia.
Qed.

Variable Q : Z -> Z -> Prop.

(** [m .. n) is the part of the application's stream in the send ring, [H]
    what the host has put into the space lent to it. *)
Record tx_inv (m n : Z) (H : Z -> Prop) (v : TxView) : Prop := mk_tx_inv {
  tx_u32 : is_u32 (v_una v) /\ is_u32 (v_nxt v) /\ is_u32 (v_iss v) /\ is_u32 (v_fseq v);
  tx_stores : stores BUF Q m n H (v_ring v);
  tx_covers : covers RTX (v_base v) (v_out v) (v_finout v) (v_rtx v);
  tx_text : v_text v <= Ring.len (v_ring v);
  tx_fin : v_fin v = true ->
    v_text v = Ring.len (v_ring v) /\ wadd32 (v_fseq v) 1 = v_nxt v /\ fin_state (v_state v) = true;
  tx_acked : fin_acked_state (v_state v) = true -> v_fin v = true /\ v_una v = v_nxt v;
  tx_quiet : may_transmit (v_state v) = false -> v_out v = 0 /\ Ring.len (v_ring v) = 0;
  tx_syn : v_syn v = true -> v_una v = v_iss v;
  tx_open : opening (v_state v) = true -> v_syn v = true;
  tx_base : v_state v <> Closed -> v_state v <> Listen -> 
    v_base v = wadd32 (v_iss v) (1 + m + b2z (v_fin v && (v_una v =? v_nxt v)));
  tx_rto : Deadline.is_armed (v_rto v) = true -> v_una v <> v_nxt v;
}.

Lemma tx_bounds m n H v :
  tx_inv m n H v ->
  0 <= v_text v <= BUF /\ 0 <= v_out v <= BUF + 1 /\ BUF <= 1073741824 /\
  v_nxt v = wadd32 (v_base v) (v_out v) /\ is_u32 (v_base v) /\ 0 <= Ring.len (v_ring v) <= BUF.
Proof using Cok.
  intros [Hu Hst Hc Ht _ _ _ _ _ _ _]. pose proof (covers_bounds _ _ _ _ _ Hc) as (Hb & Ho & _).
  pose proof (Ring.wf_len _ _ (st_wf _ _ _ _ _ _ Hst)). pose proof BUF_bounds as HB. change (2 ^ 30) with 1073741824 in HB.
  unfold v_text in *. assert (0 <= b2z (v_finout v) <= 1) by (destruct (v_finout v); simpl; lia).
  split_and!; try lia; try done. unfold v_out. symmetry. apply wadd32_off, Hu.
Qed.

(** A FIN or a SYN is outstanding, or a byte is, exactly when the edges differ. *)
Lemma tx_edges m n H v : tx_inv m n H v -> (v_una v = v_nxt v <-> v_syn v = false /\ v_out v = 0).
Proof using Cok.
  intros Hi. pose proof (tx_bounds _ _ _ _ Hi) as (_ & Ho & HB & Hn & _ & _). destruct Hi as [(Hu & Hu2 & _) _ _ _ _ _ _ _ _ _ _].
  unfold v_out, v_base, off in *. destruct (v_syn v); simpl in *; clear -Hu Hu2 Ho HB; word_lia.
Qed.

(** Retransmission-queue marks do not matter to the rest. *)
Lemma tx_inv_rtx m n H v v' :
  tx_inv m n H v -> noq v' = noq v -> covers RTX (v_base v) (v_out v) (v_finout v) (v_rtx v') -> tx_inv m n H v'.
Proof using.
  intros Hi E Hc. destruct v as [s0 i0 u0 n0 y0 f0 g0 q0 r0 d0], v' as [s1 i1 u1 n1 y1 f1 g1 q1 r1 d1].
  unfold noq, set_rtx in E. cbn in E, Hc. injection E as -> -> -> -> -> -> -> -> ->. destruct Hi. by split.
Qed.

Lemma tx_inv_rto m n H v d :
  tx_inv m n H v -> (Deadline.is_armed d = true -> v_una v <> v_nxt v) -> tx_inv m n H (set_rto v d).
Proof using. intros [] Hd. by split. Qed.

Lemma tx_inv_unset m n H v :
  tx_inv m n H (set_rto v Deadline.OFF) -> v_una v <> v_nxt v -> tx_inv m n H v.
Proof using. intros Hi Hne. destruct v as [s i u nx y f g q r d]. by apply (tx_inv_rto _ _ _ _ d Hi). Qed.

End Tx.

(** ** Acknowledgments *)

Section Ack.
Context `{C : Config} {Cok : ConfigOk C}.

(** Only marks of the retransmission queue change, of all the views see. *)
Definition loss_step (s s' : t) : Prop :=
  views_noq s' = views_noq s /\ forall a n f, covers RTX a n f (rtx s) -> covers RTX a n f (rtx s').

Lemma loss_same s s' : views s' = views s -> loss_step s s'.
Proof using.
  intros E. assert (Hq : rtx s' = rtx s) by exact (f_equal (fun v => v_rtx (snd (fst v))) E). split; [|by rewrite Hq].
  exact (f_equal (fun v => (fst (fst v), noq (snd (fst v)), snd v)) E).
Qed.

Lemma loss_trans s1 s2 s3 : loss_step s1 s2 -> loss_step s2 s3 -> loss_step s1 s3.
Proof using. intros [E1 H1] [E2 H2]. split; [congruence|auto]. Qed.

Lemma believe_dsack_step s l r mss : loss_step s (believe_dsack s l r mss).
Proof using Cok.
  unfold believe_dsack. destruct (Reno.on_dsack _ _ _ _) as [cc' [|]]; [|apply loss_same; reflexivity].
  split; [reflexivity|]. intros a n f Hc. destruct rtx_words as (W & HW & HC). by apply (covers_unmark_lost RTX W).
Qed.

Lemma sack_one_step now s d l r :
  is_u32 l -> is_u32 r -> loss_step s (fst (sack_one now (s, d) (l, r))).
Proof using Cok.
  intros Hl Hr. unfold sack_one.
  assert (Hk : forall a n f, covers RTX a n f (rtx s) -> covers RTX a n f (fst (fst (Rtx.sack RTX (rtx s) l r)))).
  { intros a n f Hc. destruct rtx_words as (W & HW & HC). by apply (covers_sack RTX W). }
  destruct (Rtx.sack _ _ _ _) as [[q n] calls]. cbn [fst] in *. split; [reflexivity|exact Hk].
Qed.

Lemma sack_fold_step now bs : forall s d,
  Forall Options.u32_block bs -> loss_step s (fst (foldl (sack_one now) (s, d) bs)).
Proof using Cok.
  induction bs as [|[l r] bs IH]; intros s d Hb; cbn [foldl]; [apply loss_same; reflexivity|].
  apply Forall_cons in Hb as [[Hl Hr] Hb]. pose proof (sack_one_step now s d l r Hl Hr) as H1.
  destruct (sack_one now (s, d) (l, r)) as [s1 d1]. cbn [fst] in H1. eapply loss_trans; [exact H1|]. by apply IH.
Qed.

Lemma ack_sack_step s seg mss : seg_wf seg -> loss_step s (fst (ack_sack s seg mss)).
Proof using Cok.
  intros Hw. unfold ack_sack. case_if; [apply loss_same; reflexivity|].
  pose proof (Options.wf_blocks _ (sw_opts _ Hw)) as Hb. destruct (SackBlocks.as_slice _) as [|[l0 r0] bs]; [apply loss_same; reflexivity|].
  set (isd := seq_le r0 _ || _). clearbody isd.
  set (p1 := if isd then dsack_valid s l0 r0 mss else (s, false)).
  assert (H1 : loss_step s (fst p1)).
  { apply loss_same. unfold p1, dsack_valid. destruct isd; [repeat case_if|]; reflexivity. }
  destruct p1 as [s1 valid]. cbn [fst] in H1.
  set (p2 := if valid then _ else _).
  assert (H2 : loss_step s1 (fst p2)).
  { unfold p2. destruct valid; [apply believe_dsack_step|apply loss_same; reflexivity]. }
  destruct p2 as [s2 ds]. cbn [fst] in H2.
  pose proof (sack_fold_step (now_ms s2) (drop (if isd then 1 else 0) ((l0, r0) :: bs)) s2 0 ltac:(by apply Forall_drop)) as H3.
  destruct (foldl _ _ _) as [s3 d]. cbn [fst] in *. eapply loss_trans; [exact H1|]. eapply loss_trans; [exact H2|]. exact H3.
Qed.

Lemma rack_detect_step s : loss_step s (fst (rack_detect s)).
Proof using Cok.
  unfold rack_detect. set (reo := Rack.reo_wnd _ _ _ _ _). clearbody reo.
  assert (Hk : forall a n f, covers RTX a n f (rtx s) ->
    covers RTX a n f (fst (Rack.detect_loss RTX (rack s) (rtx s) (now_ms s) reo))).
  { intros a n f Hc. destruct rtx_words as (W & HW & HC). by apply (covers_detect_loss RTX W). }
  destruct (Rack.detect_loss _ _ _ _ _) as [q [mk to]]. cbn [fst] in *. split; [reflexivity|exact Hk].
Qed.

Lemma mark_first_step s : loss_step s (s <| rtx := Rtx.mark_lost RTX (rtx s) 0 |>).
Proof using Cok.
  split; [reflexivity|]. intros a n f Hc. destruct rtx_words as (W & HW & HC). by apply (covers_mark_lost RTX W).
Qed.

Lemma newreno_detect_step s seg acked wnd : loss_step s (fst (newreno_detect s seg acked wnd)).
Proof using Cok.
  unfold newreno_detect. case_if.
  - case_if; [|apply loss_same; reflexivity]. set (s1 := set_field dup_acks _ _).
    assert (H1 : loss_step s s1) by (apply loss_same; reflexivity). clearbody s1.
    case_if; [|exact H1]. eapply loss_trans; [exact H1|]. apply mark_first_step.
  - case_if; [apply mark_first_step|apply loss_same; reflexivity].
Qed.

Lemma enter_fast_recovery_views s fl : views (enter_fast_recovery s fl) = views s.
Proof using. unfold enter_fast_recovery. case_if; reflexivity. Qed.

Lemma ack_loss_step s seg acked wnd mss pf sp d : loss_step s (fst (ack_loss s seg acked wnd mss pf sp d)).
Proof using Cok.
  unfold ack_loss. set (p1 := if sack_enabled s then _ else _).
  assert (H1 : loss_step s (fst p1)) by (unfold p1; case_if; [apply rack_detect_step|apply loss_same; reflexivity]).
  destruct p1 as [s1 l1]. cbn [fst] in H1. set (p2 := if negb sp then _ else _).
  assert (H2 : loss_step s1 (fst p2)).
  { unfold p2. case_if; [|apply loss_same; reflexivity]. pose proof (newreno_detect_step s1 seg acked wnd) as H.
    destruct (newreno_detect _ _ _ _) as [s2 [lost dup]]. cbn [fst] in H.
    case_if; [|exact H]. eapply loss_trans; [exact H|]. apply loss_same. reflexivity. }
  destruct p2 as [s2 [l2 d2]]. cbn [fst] in *. eapply loss_trans; [exact H1|]. eapply loss_trans; [exact H2|].
  apply loss_same. case_if; [rewrite enter_fast_recovery_views|]; reflexivity.
Qed.

(** Sections of [process_ack] that touch none of the views. *)
Lemma pmtu_probe_on_ack_views s : views (pmtu_probe_on_ack s) = views s.
Proof using. unfold pmtu_probe_on_ack. repeat case_if; reflexivity. Qed.

Lemma update_send_window_views s seg u : views (update_send_window s seg u) = views s.
Proof using. unfold update_send_window. repeat case_if; reflexivity. Qed.

Lemma ack_ecn_views s seg pf mss : views (ack_ecn s seg pf mss) = views s.
Proof using. unfold ack_ecn. repeat case_if; reflexivity. Qed.

Lemma tlp_on_ack_views s a d sk n : views (tlp_on_ack s a d sk n) = views s.
Proof using. unfold tlp_on_ack. destruct (tlp_end_seq s); [|reflexivity]. repeat case_if; reflexivity. Qed.

Lemma ack_congestion_views s d mss a nl : views (ack_congestion s d mss a nl) = views s.
Proof using.
  unfold ack_congestion, take_cwnd_limited. destruct (Reno.maybe_exit _ _) as [cc' ex].
  set (s1 := if ex then _ else _). assert (H1 : views s1 = views s) by (unfold s1; destruct ex; reflexivity). clearbody s1.
  set (s2 := if seq_ge _ _ then _ else s1). assert (H2 : views s2 = views s1) by (unfold s2; case_if; reflexivity). clearbody s2.
  case_if; (transitivity (views s2); [reflexivity|congruence]).
Qed.

Lemma update_rtt_views s r : views (update_rtt s r) = views s.
Proof using. unfold update_rtt. case_if; reflexivity. Qed.

Lemma note_progress_views s a : views (note_progress s a) = views s.
Proof using. unfold note_progress. repeat case_if; reflexivity. Qed.

Section Cumulative.
Variables (Q : Z -> Z -> Prop) (m n : Z) (H : Z -> Prop).

(** The view after everything below [ack] is acknowledged. *)
Definition acked_view (v : TxView) (ack : Z) (q : Rtx.t) (k : Z) : TxView :=
  mkTxView (v_state v) (v_iss v) ack (v_nxt v) false (v_fin v) (v_fseq v) q (Ring.consume (v_ring v) k) Deadline.OFF.

Lemma acked_view_inv v ack acked q :
  tx_inv Q m n H v -> is_u32 ack -> acked = wsub32 ack (v_una v) -> 0 < acked <= off (v_nxt v) (v_una v) ->
  opening (v_state v) = false ->
  (forall a o f d, covers RTX a o f (v_rtx v) -> 0 <= d <= o -> wadd32 a d = ack ->
     covers RTX ack (o - d) (f && (d <? o)) q) ->
  let fin_acked := v_fin v && seq_le (v_una v) (v_fseq v) && seq_gt ack (v_fseq v) in
  let k := sat_sub (sat_sub acked (b2z fin_acked)) (b2z (v_syn v)) in
  0 <= k /\ tx_inv Q (m + k) n H (acked_view v ack q k).
Proof using Cok.
  intros Hi Hu Hacked Hr Hop Hq. pose proof (tx_bounds _ _ _ _ _ Hi) as (Ht & Ho & HB & Hn & Hb & Hlen).
  destruct Hi as [(U1 & U2 & U3 & U4) Hst Hc Htx Hfin Hfa Hqt Hsyn _ Hbase _].
  set (d := acked - b2z (v_syn v)).
  assert (Hd : 0 <= d <= v_out v /\ wadd32 (v_base v) d = ack /\ (ack =? v_nxt v) = (d =? v_out v) /\ v_una v <> v_nxt v /\
     off (v_nxt v) ack = v_out v - d).
  { unfold d, v_out, v_base, off in *. destruct (v_syn v); simpl in *; clear -Hu U1 U2 Hacked Hr Ho HB; word_lia. }
  destruct Hd as (Hd1 & Hd2 & Hd3 & Hd4 & Hd5). specialize (Hq _ _ _ d Hc Hd1 Hd2).
  assert (Hfo : v_finout v = v_fin v) by (unfold v_finout; replace (v_una v =? v_nxt v) with false by lia; by rewrite andb_true_r).
  intros fin_acked k.
  assert (Hfk : fin_acked = v_fin v && (d =? v_out v)).
  { unfold fin_acked. destruct (v_fin v) eqn:EF; [|done]. destruct (Hfin eq_refl) as (_ & Hfs & _). cbn [andb].
    rewrite <- Hd3. unfold v_out, v_base, off in *. destruct (v_syn v); simpl in *; clear -Hu U1 U2 U4 Hacked Hr Ho HB Hfs Hd4; word_lia. }
  assert (Hk : k = d - b2z (v_fin v && (d =? v_out v)) /\ 0 <= k).
  { unfold k. rewrite Hfk. pose proof (covers_bounds _ _ _ _ _ Hc) as (_ & [Hf _] & _). rewrite Hfo in Hf.
    unfold sat_sub. destruct (Z.eqb_spec d (v_out v)) as [E|E]; unfold d in *; clear -Hf Hd1 E Hr Hacked;
      destruct (v_fin v), (v_syn v); simpl in *; lia. }
  clearbody k. destruct Hk as [Hk Hk0]. assert (Hvt : v_text v = v_out v - b2z (v_fin v)) by (unfold v_text; by rewrite Hfo).
  assert (Hkl : k <= v_text v) by (rewrite Hvt, Hk; destruct (v_fin v), (Z.eqb_spec d (v_out v)); simpl; lia).
  split; [done|]. destruct (stores_consume BUF BUF_pow2 Q m n H (v_ring v) k Hst ltac:(lia)) as [Hl' Hst'].
  assert (Hbase' : v_base (acked_view v ack q k) = ack) by (unfold v_base; simpl; clear -Hu; word_lia).
  assert (Hout' : v_out (acked_view v ack q k) = v_out v - d) by (unfold v_out at 1; by rewrite Hbase').
  assert (Hfin' : v_finout (acked_view v ack q k) = v_finout v && (d <? v_out v)).
  { unfold v_finout at 1. cbn [v_fin v_una v_nxt acked_view]. rewrite Hd3, Hfo. f_equal. lia. }
  assert (Htext' : v_text (acked_view v ack q k) = v_text v - k).
  { unfold v_text at 1. rewrite Hout', Hfin', Hvt, Hk, Hfo. clear -Hd1.
    destruct (v_fin v), (Z.eqb_spec d (v_out v)), (Z.ltb_spec d (v_out v)); simpl; lia. }
  split; try done; rewrite ?Hbase', ?Hout', ?Hfin', ?Htext'; cbn [v_ring v_fin v_state v_nxt v_fseq v_iss v_una v_syn acked_view]; try done.
  - lia.
  - intros HF. destruct (Hfin HF) as (? & ? & ?). split_and!; try done. lia.
  - intros HF. destruct (Hfa HF). done.
  - intros HF. destruct (Hqt HF). lia.
  - by rewrite Hop.
  - intros S1 S2. rewrite Hd3, Hk. rewrite <- Hd2, Hbase, wadd32_assoc by done.
    replace (v_una v =? v_nxt v) with false by lia. rewrite andb_false_r. f_equal.
    destruct (v_fin v), (Z.eqb_spec d (v_out v)); simpl; lia.
Qed.

Definition unarmed (s : t) : TxView := set_rto (tx_view s) Deadline.OFF.

Lemma ack_cumulative_ok s ack acked mss ts d :
  tx_inv Q m n H (tx_view s) -> is_u32 ack -> acked = wsub32 ack (snd_una s) -> 0 < acked <= off (snd_nxt s) (snd_una s) ->
  opening (state s) = false ->
  let s' := fst (ack_cumulative s ack acked mss ts d) in
  rx_view s' = rx_view s /\ eg_view s' = eg_view s /\ ring_step (send_ring s) (send_ring s') /\
  exists k, 0 <= k /\ tx_inv Q (m + k) n H (unarmed s').
Proof using Cok.
  intros Hi Hu Hacked Hr Hop. pose proof (acked_view_inv (tx_view s) ack acked (fst (fst (Rtx.ack_to RTX (rtx s) ack)))
    Hi Hu Hacked Hr Hop) as Hv. cbn [v_fin v_una v_fseq v_syn tx_view] in Hv.
  unfold ack_cumulative, syn_outstanding. set (fa := fin_sent s && _ && _) in *.
  destruct Hv as [Hk Hv].
  { intros a o f dd Hc Hd <-. destruct rtx_words as (W & HW & HC). by apply (covers_ack RTX W). }
  destruct (Rtx.ack_to _ _ _) as [[q rm] calls]. cbn [fst] in Hv.
  destruct (foldl _ _ calls) as [[[rk old] new] re].
  set (k := sat_sub (sat_sub acked _) _) in *. clearbody k.
  match goal with |- context [update_rtt ?x] => set (s1 := x) end.
  set (s2 := match rtt_sample _ _ _ _ _ with Some r => _ | None => s1 end).
  assert (E : views s2 = views s1).
  { unfold s2. destruct (rtt_sample _ _ _ _ _); [case_if; [apply update_rtt_views|]|]; reflexivity. }
  clearbody s2. cbn [fst]. pose proof (note_progress_views s2 (sat_add32 k (b2z fa))) as E'. rewrite E in E'.
  set (s3 := note_progress _ _) in *. clearbody s3.
  pose proof (f_equal (fun v => fst (fst v)) E') as Er. pose proof (f_equal (fun v => set_rto (snd (fst v)) Deadline.OFF) E') as Et.
  pose proof (f_equal (fun v => snd v) E') as Eg. cbn [fst snd views] in Er, Et, Eg.
  split; [rewrite Er; reflexivity|]. split; [rewrite Eg; reflexivity|].
  split; [|exists k; split; [done|]].
  { pose proof (f_equal v_ring Et) as Eb. cbn in Eb. rewrite Eb. apply ring_step_consume; [exact Hk|].
    apply (Ring.wf_len BUF), (tx_stores _ _ _ _ _ Hi). }
  unfold unarmed. rewrite Et. exact Hv.
Qed.

Lemma unarmed_inv s : tx_inv Q m n H (tx_view s) -> tx_inv Q m n H (unarmed s).
Proof using. intros Hi. by apply tx_inv_rto. Qed.

Lemma unarmed_loss s s' : tx_inv Q m n H (unarmed s) -> loss_step s s' -> tx_inv Q m n H (unarmed s').
Proof using.
  intros Hi [E Hk]. eapply tx_inv_rtx; [exact Hi| |].
  - exact (f_equal (fun v => set_rto (snd (fst v)) Deadline.OFF) E).
  - apply Hk. apply (tx_covers _ _ _ _ _ Hi).
Qed.

Lemma maybe_arm_tlp_views s : views (maybe_arm_tlp s) = views s.
Proof using. unfold maybe_arm_tlp. case_if; reflexivity. Qed.

Lemma ack_timers_ok s acked :
  tx_inv Q m n H (unarmed s) ->
  let s' := ack_timers s acked in
  rx_view s' = rx_view s /\ eg_view s' = eg_view s /\ tx_inv Q m n H (tx_view s').
Proof using.
  intros Hi. cbn zeta. unfold ack_timers. set (s1 := if snd_una s =? snd_nxt s then _ else _).
  pose proof (maybe_arm_tlp_views s1) as E. set (s2 := maybe_arm_tlp s1) in *. clearbody s2.
  pose proof (f_equal (fun v => fst (fst v)) E) as Er. pose proof (f_equal (fun v => snd (fst v)) E) as Et.
  pose proof (f_equal (fun v => snd v) E) as Eg. cbn [fst snd views] in Er, Et, Eg. rewrite Er, Et, Eg. clear E Er Et Eg s2.
  unfold s1. clear s1. destruct (Z.eqb_spec (snd_una s) (snd_nxt s)) as [E|E]; [|case_if]; (split; [reflexivity|]);
    (split; [reflexivity|]).
  - exact Hi.
  - apply (tx_inv_rto _ _ _ _ (unarmed s)); [exact Hi|done].
  - apply (tx_inv_rto _ _ _ _ (unarmed s) (rto_deadline s)); [exact Hi|done].
Qed.

End Cumulative.

(** From the cumulative section to the timers, only queue marks change. *)
Lemma ack_tail_step s seg u pf mss acked ds sp d :
  let s1 := ack_ecn (update_send_window (pmtu_probe_on_ack s) seg u) seg pf mss in
  let '(s2, (lost, d2)) := ack_loss s1 seg acked (snd_wnd (pmtu_probe_on_ack s)) mss pf sp d in
  loss_step s (ack_congestion (tlp_on_ack s2 (seg_ack seg) ds sp d2) d2 mss acked lost).
Proof using Cok.
  intros s1. assert (E1 : views s1 = views s).
  { unfold s1. by rewrite ack_ecn_views, update_send_window_views, pmtu_probe_on_ack_views. }
  set (w := snd_wnd _). clearbody s1 w. pose proof (ack_loss_step s1 seg acked w mss pf sp d) as L.
  destruct (ack_loss _ _ _ _ _ _ _ _) as [s2 [lost d2]]. cbn [fst] in L.
  eapply loss_trans; [by apply loss_same|]. eapply loss_trans; [exact L|]. apply loss_same.
  by rewrite ack_congestion_views, tlp_on_ack_views.
Qed.

Lemma loss_views s s' : loss_step s s' -> rx_view s' = rx_view s /\ noq (tx_view s') = noq (tx_view s) /\ eg_view s' = eg_view s.
Proof using.
  intros [E _]. split; [exact (f_equal (fun v => fst (fst v)) E)|].
  split; [exact (f_equal (fun v => snd (fst v)) E)|exact (f_equal (fun v => snd v) E)].
Qed.

Lemma loss_ring s s' : loss_step s s' -> send_ring s' = send_ring s.
Proof using. intros [E _]. exact (f_equal (fun v => v_ring (snd (fst v))) E). Qed.

Lemma ack_timers_ring s acked : send_ring (ack_timers s acked) = send_ring s.
Proof using.
  unfold ack_timers. set (s1 := if snd_una s =? snd_nxt s then _ else _).
  assert (E : send_ring s1 = send_ring s) by (unfold s1; repeat case_if; reflexivity). clearbody s1.
  rewrite <- E. exact (f_equal (fun v => v_ring (snd (fst v))) (maybe_arm_tlp_views s1)).
Qed.

Lemma tx_inv_loss Q m n H s s' : tx_inv Q m n H (tx_view s) -> loss_step s s' -> tx_inv Q m n H (tx_view s').
Proof using.
  intros Hi L. pose proof (loss_views _ _ L) as (_ & E & _). eapply tx_inv_rtx; [exact Hi|exact E|].
  apply L, (tx_covers _ _ _ _ _ Hi).
Qed.

(** Everything [process_ack] does before the state machine looks at our FIN. *)
Lemma process_ack_ok Q m n H s seg :
  tx_inv Q m n H (tx_view s) -> seg_wf seg -> seq_gt (seg_ack seg) (snd_nxt s) = false -> opening (state s) = false ->
  exists s1, (process_ack s seg = ack_fin s1 \/ process_ack s seg = s1) /\
    rx_view s1 = rx_view s /\ eg_view s1 = eg_view s /\ ring_step (send_ring s) (send_ring s1) /\
    exists k, 0 <= k /\ tx_inv Q (m + k) n H (tx_view s1).
Proof using Cok.
  intros Hi Hw Hle Hop. unfold process_ack. set (s0 := s <| rtx_count := 0 |>).
  destruct (seq_lt (seg_ack seg) (snd_una s0)) eqn:Hlt.
  { exists s0. split; [by right|]. split; [reflexivity|]. split; [reflexivity|]. split; [apply ring_step_refl|]. exists 0. rewrite Z.add_0_r. split; [lia|exact Hi]. }
  change (snd_una s0) with (snd_una s) in *. set (mss := mss_payload s0). set (pf := wsub32 (snd_nxt s0) _).
  set (ts := match ts_enabled s0 with true => _ | false => _ end). clearbody mss pf ts.
  set (s1 := set_field rack s0 _). assert (L1 : loss_step s s1) by (apply loss_same; reflexivity). clearbody s1. clear s0.
  pose proof (ack_sack_step s1 seg mss Hw) as L2. destruct (ack_sack s1 seg mss) as [s2 [[ds sp] dl]]. cbn [fst] in L2.
  pose proof (loss_trans _ _ _ L1 L2) as L. clear L1 L2 s1. pose proof (tx_inv_loss _ _ _ _ _ _ Hi L) as I2.
  pose proof (loss_views _ _ L) as (Er & Et & Eg). pose proof (loss_ring _ _ L) as Es2. clear L.
  set (acked := wsub32 _ _). set (p := if 0 <? acked then _ else _).
  assert (Hp : rx_view (fst p) = rx_view s /\ eg_view (fst p) = eg_view s /\ ring_step (send_ring s) (send_ring (fst p)) /\ exists k, 0 <= k /\ tx_inv Q (m + k) n H (unarmed (fst p))).
  { unfold p. destruct (Z.ltb_spec 0 acked) as [Ha|Ha]; cycle 1.
    { split; [done|]. split; [done|]. split; [cbn [fst]; rewrite Es2; apply ring_step_refl|].
      exists 0. rewrite Z.add_0_r. split; [lia|by apply unarmed_inv]. }
    pose proof (f_equal v_una Et) as Eu. pose proof (f_equal v_nxt Et) as En. pose proof (f_equal v_state Et) as Es. cbn in Eu, En, Es.
    destruct (ack_cumulative_ok Q m n H s2 (seg_ack seg) acked mss ts dl) as (R1 & R2 & R4 & R3); try done.
    - apply Hw.
    - by rewrite Eu.
    - pose proof (tx_bounds _ _ _ _ _ Hi) as (_ & Ho & HB & _). destruct Hi as [(U1 & U2 & _) _ _ _ _ _ _ _ _ _ _].
      pose proof (sw_ack _ Hw) as U. rewrite Eu, En. subst acked. unfold v_out, v_base, off in *. cbn in *.
      destruct (syn_unacked s); simpl in *; clear -U U1 U2 Ho HB Hle Hlt Ha; word_lia.
    - by rewrite Es.
    - split; [congruence|]. split; [congruence|]. rewrite <- Es2. split; [exact R4|exact R3]. }
  destruct p as [s3 d3]. cbn [fst] in Hp. destruct Hp as (Hp1 & Hp2 & Hp3 & k & Hk & I3).
  pose proof (ack_tail_step s3 seg (snd_una s) pf mss acked ds sp d3) as L. cbn zeta in L.
  destruct (ack_loss _ _ _ _ _ _ _ _) as [s4 [lost d4]].
  pose proof (unarmed_loss _ _ _ _ _ _ I3 L) as I4. pose proof (loss_views _ _ L) as (Er4 & _ & Eg4). pose proof (loss_ring _ _ L) as Es4. clear L.
  set (s5 := ack_congestion _ _ _ _ _) in *. clearbody s5.
  destruct (ack_timers_ok _ _ _ _ s5 acked I4) as (Er5 & Eg5 & I5). pose proof (ack_timers_ring s5 acked) as Es5.
  exists (ack_timers s5 acked). split; [by left|]. split; [congruence|]. split; [congruence|].
  split; [rewrite Es5, Es4; exact Hp3|by exists k].
Qed.

End Ack.
