(* ===== verification/TcbEmit.v ===== *)
(** * Emission never fails

    Every segment the connection builds fits its slot of the egress ring and
    finds its text in the send ring, so the errors of the emitter are never
    seen; what is staged carries the application's bytes at the sequence
    number it claims. *)
From S2P Require Import Prelude Error Seq State Effect Ring RingStore Sack Ooo TxRing Bytes Checksum Options Wire WireWf RtxQueue Rack RtxCover.
From S2P Require Import Congestion Tcb TcbAck TcbOutput Cookie TcbInput TcbRx TcbFrame TcbTx.
Import Tcb RtxCover.

Definition opts_fit (o : TcpOptions) (n : Z) : Prop :=
  SackBlocks.wf (sack o) /\ Options.encoded_len o <= 40 /\ Options.encoded_len o + n <= MSS.

(** The packet is the layout of a segment that fits; its text, if it has any,
    is what [Q] allows at the stream position its sequence number stands for.
    A SYN for the peer announces the initial sequence number. *)
Definition carries `{C : Config} (Q : Z -> Z -> Prop) (iss : Z) (peer : Endpoint) (p : list Z) : Prop :=
  exists sip dip sport dport sq ak fl wnd opts text ip_id ecnv full,
    p = Wire.emitted en sip dip sport dport sq ak fl wnd opts (zlen text) text ip_id ecnv full /\
    length sip = 4%nat /\ length dip = 4%nat /\ opts_fit opts (zlen text) /\
    (text = [] \/ exists pos, sq = wadd32 iss (1 + pos) /\ forall i b, get text i = Some b -> Q (pos + i) b) /\
    (Z.land fl flags.SYN = 0 \/ sq = iss \/ dip <> ip peer \/ from_be (be16_bytes dport) <> port peer).

Section Emit.
Context `{C : Config} {Cok : ConfigOk C}.

(** ** The pieces of a segment *)

Lemma opts_fit_raw o n :
  SackBlocks.wf (sack o) -> Options.raw_len o <= 40 -> Options.align4 (Options.raw_len o) + n <= MSS -> opts_fit o n.
Proof using.
  intros Hs Hr Hn. split; [done|]. pose proof (Options.align4_spec _ (Options.raw_len_nonneg o Hs)) as [Ha Hm].
  unfold Options.encoded_len. split; [|done]. Z.div_mod_to_equations. lia.
Qed.

(** The text of a segment, read in place. *)
Lemma ring_fill_ok r sl :
  Ring.wf BUF r -> 0 <= sl_off sl -> 0 <= sl_len sl -> sl_off sl + sl_len sl <= Ring.len r ->
  exists p, zlen p = sl_len sl /\ (forall dst, zlen dst = sl_len sl -> ring_fill r sl dst = (p, true)) /\
    forall i b, get p i = Some b -> get (RingSpec.readable (Ring.abs BUF r)) (sl_off sl + i) = Some b.
Proof using Cok.
  intros Hwf Ho Hl Hr. set (R := RingSpec.readable (Ring.abs BUF r)).
  pose proof (Ring.readable_zlen BUF r Hwf) as Hz. fold R in Hz.
  pose proof (Ring.wf_len _ _ Hwf) as Hlen. pose proof BUF_bounds as HB. change (2 ^ 30) with 1073741824 in HB.
  exists (take (Z.to_nat (sl_len sl)) (drop (Z.to_nat (sl_off sl)) R)).
  assert (Hzp : zlen (take (Z.to_nat (sl_len sl)) (drop (Z.to_nat (sl_off sl)) R)) = sl_len sl)
    by (rewrite zlen_take, zlen_drop, Hz; unfold sat_sub; lia).
  split; [done|]. split.
  - intros dst Hd. unfold ring_fill. rewrite (Ring.peek_at_refines BUF BUF_pow2) by (done || lia).
    unfold RingSpec.peek_at. fold R. rewrite Hd. set (p := take _ _) in *. rewrite Hzp, Z.eqb_refl.
    rewrite drop_ge, app_nil_r by (unfold zlen in *; lia). done.
  - intros i b. rewrite get_take, get_drop by lia. by repeat case_if.
Qed.

(** As many SACK blocks as the segment has room for. *)
Lemma fill_sack_len o sb k :
  SackBlocks.wf sb -> SackBlocks.len sb <= 1 <= k -> k <= 4 ->
  let s := Ooo.fill_sack_blocks o sb (sat_sub k (SackBlocks.len sb)) in SackBlocks.wf s /\ SackBlocks.len s <= k.
Proof using.
  intros Hs Hl Hk. assert (0 <= SackBlocks.len sb) by apply Hs.
  destruct (Ooo.fill_sack_blocks_spec o sb (sat_sub k (SackBlocks.len sb)) Hs ltac:(unfold sat_sub; lia)) as [Hw Hsl].
  split; [done|]. set (s := Ooo.fill_sack_blocks _ _ _) in *. clearbody s.
  pose proof (SackBlocks.as_slice_length s Hw) as Hz. pose proof (SackBlocks.as_slice_length sb Hs) as Hz'.
  unfold SackBlocks.len in *. rewrite <- Hz, Hsl. unfold zlen in *. rewrite length_take, length_app, length_fmap, length_take.
  unfold sat_sub. lia.
Qed.

Definition ts_len (s : t) : Z := if ts_enabled s then 12 else 0.

Lemma segment_options_ok s n :
  0 <= local_mss s <= MSS -> 0 <= n -> n + ts_len s <= MSS -> opts_fit (snd (segment_options s n)) n.
Proof using.
  intros Hmss Hn Hfit. unfold segment_options, ts_len in *.
  set (o0 := if ts_enabled s then Options.set_ts _ _ else Options.NONE).
  assert (Hsk : sack o0 = SackBlocks.EMPTY) by (unfold o0; by case_if).
  assert (Hraw : forall k, SackBlocks.wf k -> Options.raw_len (Options.set_sack o0 k) =
      (if ts_enabled s then 10 else 0) + (if SackBlocks.len k =? 0 then 0 else 2 + 8 * SackBlocks.len k)).
  { intros k Hk. unfold o0, Options.raw_len, SackBlocks.is_empty, SackBlocks.len. destruct (ts_enabled s); cbn;
      destruct (SackBlocks.n k =? 0); cbn; lia. }
  change MSS with 1460 in *.
  assert (H0 : opts_fit o0 n).
  { assert (Hr0 : Options.raw_len o0 = if ts_enabled s then 10 else 0) by (unfold o0; destruct (ts_enabled s); reflexivity).
    apply opts_fit_raw; rewrite ?Hsk, ?Hr0; [done|..]; destruct (ts_enabled s);
      change MSS with 1460; try change (Options.align4 10) with 12; try change (Options.align4 0) with 0; lia. }
  case_if; [|done]. set (cap := Z.min _ (pmtu_mss s)). assert (Hcap : cap <= 1460) by (unfold cap; lia). clearbody cap.
  set (fx := if 0 <? (if ts_enabled s then 12 else 0) then 12 else 4).
  set (bud := Z.min (sat_sub cap n) 40). set (k := Z.min (sat_sub bud fx / 8) 4).
  destruct (Z.ltb_spec 0 k) as [Hk|Hk]; [|done].
  assert (Hbud : fx + 8 * k <= bud /\ bud <= 1460 - n /\ bud <= 40 /\ k <= 4).
  { unfold k, bud, sat_sub, fx in *. destruct (ts_enabled s); cbn in *; Z.div_mod_to_equations; lia. }
  clearbody k bud. set (p := match dsack s with Some _ => _ | None => _ end).
  assert (Hp : SackBlocks.wf (snd p) /\ SackBlocks.len (snd p) <= 1).
  { unfold p. destruct (dsack s) as [[l r]|]; cbn [snd]; [|by split]. split; [by apply SackBlocks.push_wf|].
    by change (SackBlocks.len (SackBlocks.push SackBlocks.EMPTY l r)) with 1. }
  destruct p as [s1 sb]. cbn [snd] in *. destruct Hp as [Hw Hl1].
  destruct (fill_sack_len (ooo s1) sb k Hw ltac:(lia) ltac:(lia)) as [Hw' Hl'].
  set (b := Ooo.fill_sack_blocks _ _ _) in *. clearbody b. assert (0 <= SackBlocks.len b) by apply Hw'.
  assert (Hr : Options.raw_len (Options.set_sack o0 b) <= fx + 8 * k - (if ts_enabled s then 0 else 2)).
  { rewrite (Hraw b Hw'). unfold fx. destruct (ts_enabled s); cbn; destruct (Z.eqb_spec (SackBlocks.len b) 0); lia. }
  pose proof (Options.align4_spec _ (Options.raw_len_nonneg (Options.set_sack o0 b) Hw')) as [Ha Hm].
  apply opts_fit_raw; [done|destruct (ts_enabled s); lia|]. change MSS with 1460.
  assert (Options.align4 (Options.raw_len (Options.set_sack o0 b)) <= fx + 8 * k); [|lia].
  clear -Hr Ha Hm. unfold fx in *. destruct (ts_enabled s); cbn in *; Z.div_mod_to_equations; lia.
Qed.

(** ** Staging *)

Lemma push_emit_ok r sip dip sport dport sq ak fl wnd opts n fill p ipid ecnv full :
  TxRing.wf TXQ MAX_PACKET r -> length sip = 4%nat -> length dip = 4%nat -> opts_fit opts n -> zlen p = n ->
  (forall dst, zlen dst = n -> fill dst = (p, true)) ->
  let '(r', res) := TxRing.push_with TXQ MAX_PACKET r (into_slot (fun buf =>
    Wire.emit_with en buf sip dip sport dport sq ak fl wnd opts n fill ipid ecnv full)) in
  TxRing.wf TXQ MAX_PACKET r' /\ exists b, res = Ok b /\ (TxRing.is_full TXQ r = false -> b = true) /\
  TxRing.packets TXQ r' = TxRing.packets TXQ r ++
    (if b then [Wire.emitted en sip dip sport dport sq ak fl wnd opts n p ipid ecnv full] else []).
Proof using Cok.
  intros Hwf Hs Hd (Ho1 & Ho2 & Ho3) Hp Hfill. set (f := into_slot _).
  pose proof (zlen_nonneg p) as Hn. rewrite Hp in Hn. change MSS with 1460 in *.
  pose proof (Options.raw_len_nonneg opts Ho1) as Hraw. pose proof (Options.align4_spec _ Hraw) as [Hal _].
  fold (Options.encoded_len opts) in Hal.
  assert (Hf : forall b, zlen b = MAX_PACKET -> f b = (Wire.emitted en sip dip sport dport sq ak fl wnd opts n p ipid ecnv full ++
      drop (Z.to_nat (40 + Options.encoded_len opts + n)) b, Ok (40 + Options.encoded_len opts + n))).
  { intros b Hb. unfold f, into_slot. change MAX_PACKET with 1500 in Hb.
    by rewrite (Wire.emit_with_layout en b sip dip sport dport sq ak fl wnd opts n fill p) by (done || lia). }
  assert (Hz : zlen (Wire.emitted en sip dip sport dport sq ak fl wnd opts n p ipid ecnv full) = 40 + Options.encoded_len opts + n)
    by (by apply Wire.zlen_emitted).
  set (E := Wire.emitted _ _ _ _ _ _ _ _ _ _ _ _ _ _ _) in *. clearbody E.
  pose proof (TxRing.push_with_spec TXQ MAX_PACKET) as Hpush. pose proof txq_valid as Htq.
  specialize (Hpush ltac:(lia) ltac:(done) r f Hwf).
  destruct (TxRing.push_with TXQ MAX_PACKET r f) as [r' res]. destruct Hpush as [Hwf' Hres].
  { intros b Hb. rewrite (Hf b Hb). cbn [fst snd]. rewrite zlen_app, zlen_drop, Hz, Hb. change MAX_PACKET with 1500 in *.
    unfold sat_sub. split; lia. }
  split; [done|]. unfold TxRing.is_full.
  pose proof (TxRing.packets_zlen TXQ r ltac:(apply Hwf)) as Hql.
  inversion Hres as [Hfull Hq Hr|b e ? Hb Hbad|b k ? Hb Hk Hbad|b k ? Hb Hk Hbnd].
  - exists false. rewrite app_nil_r. split_and!; try done. lia.
  - rewrite (Hf b Hb) in Hbad. done.
  - rewrite (Hf b Hb) in Hk. injection Hk as <-. change MAX_PACKET with 1500 in *. lia.
  - exists true. split_and!; try done. rewrite (Hf b Hb) in *. cbn [fst snd] in *. injection Hk as <-.
    rewrite <- Hz. unfold zlen. rewrite Nat2Z.id, take_app_length. done.
Qed.

(** ** The egress invariant *)

Section Stream.
Variable Q : Z -> Z -> Prop.

Record eg_inv (v : EgView) : Prop := mk_eg_inv {
  eg_ring : TxRing.wf TXQ MAX_PACKET (g_tx v);
  eg_ips : length (ip (g_local v)) = 4%nat /\ length (ip (g_remote v)) = 4%nat;
  eg_mtu : HDR_LEN <= g_mtu v <= MAX_PACKET;
  eg_mss : 0 <= g_mss v <= MSS;
  eg_isn : is_u32 (g_cfg_iss v) /\ 0 <= g_lent v;
  eg_sent : Forall (carries Q (g_iss v) (g_remote v)) (TxRing.packets TXQ (g_tx v));
  eg_tw : Deadline.is_armed (g_tw v) = true -> g_state v = TimeWait;
}.

(** The text of a segment is where its sequence number says. *)
Definition text_at (r : Ring.t) (iss seq : Z) (sl : RingSlice) : Prop :=
  0 <= sl_off sl /\ 0 <= sl_len sl /\ sl_off sl + sl_len sl <= Ring.len r /\
  (0 < sl_len sl -> exists pos, seq = wadd32 iss (1 + pos) /\
     forall i b, get (RingSpec.readable (Ring.abs BUF r)) (sl_off sl + i) = Some b -> Q (pos + i) b).

Lemma no_text_at r iss seq : Ring.wf BUF r -> text_at r iss seq NO_PAYLOAD.
Proof using. intros Hwf. pose proof (Ring.wf_len _ _ Hwf). unfold text_at. cbn. lia. Qed.

(** One more packet is staged when [b] says so. *)
Definition counted (s s' : t) (b : bool) : Prop := TxRing.len (tx_ring s') = TxRing.len (tx_ring s) + b2z b.

Lemma counted_view s1 s2 s3 b : eg_view s3 = eg_view s2 -> counted s1 s2 b -> counted s1 s3 b.
Proof using. intros E Hc. unfold counted. by rewrite (f_equal g_tx E : tx_ring s3 = tx_ring s2). Qed.

(** A segment was staged, or nothing happened to the egress ring. *)
Definition emitted_ok {A} (s : t) (m : t * Res A) : Prop :=
  runs m (fun s' _ => e_mask s' = e_mask s /\ eg_inv (eg_view s')).

(** The egress ring has no room, or takes handshake and reset segments only. *)
Definition blocked (s : t) (fl : Z) : bool :=
  TxRing.is_full TXQ (tx_ring s) || (egress_paused s && (Z.land fl (Z.lor flags.SYN flags.RST) =? 0)).

Lemma full_blocked s fl : egress_full s = false -> blocked s fl = false.
Proof using. unfold egress_full, blocked. by intros [-> ->]%orb_false_iff. Qed.

Lemma ecn_flags_syn s fl b ect : Z.land (snd (ecn_flags s fl b ect)) flags.SYN = Z.land fl flags.SYN.
Proof using.
  unfold ecn_flags. repeat case_match; cbn [snd]; simplify_eq; rewrite ?Z.land_lor_distr_l; by rewrite ?Z.lor_0_r.
Qed.

Lemma emit_segment_ok s fl seq ack opts sl ect :
  eg_inv (eg_view s) -> Ring.wf BUF (send_ring s) -> opts_fit opts (sl_len sl) -> text_at (send_ring s) (iss s) seq sl ->
  Z.land fl flags.SYN = 0 \/ seq = iss s ->
  runs (emit_segment s fl seq ack opts sl ect) (fun s' b => e_mask s' = e_mask s /\ eg_inv (eg_view s') /\
    (blocked s fl = false -> b = true) /\ counted s s' b).
Proof using Cok.
  intros [Hr [Hi1 Hi2] Hmtu Hmss Hisn Hsent Htw] Hwf Hfit (Ho & Hl & Hlen & Htext) Hsyn.
  pose proof (emit_segment_mask s fl seq ack opts sl ect) as Hm. revert Hm. unfold emit_segment.
  fold (blocked s fl). destruct (blocked s fl) eqn:Eb.
  { intros Hm. apply runs_ret. split; [exact Hm|]. split; [by split|]. split; [done|]. unfold counted. simpl. lia. }
  apply orb_false_iff in Eb as [Hnf _]. destruct (outbound_window _ _) as [w wb].
  pose proof (ecn_flags_syn s fl (negb (Z.land fl flags.SYN =? 0)) ect) as Hfl.
  destruct (ecn_flags _ _ _ _) as [s1 fl'] eqn:E. cbn [snd] in Hfl.
  assert (H1 : eg_view s1 = eg_view s /\ send_ring s1 = send_ring s).
  { unfold ecn_flags in E. repeat case_match; simplify_eq; split; reflexivity. }
  clear E. destruct H1 as [Eg Er].
  pose proof (f_equal g_tx Eg) as E1. pose proof (f_equal g_local Eg) as E2. pose proof (f_equal g_remote Eg) as E3.
  cbn in Hr, Hi1, Hi2, Hsent, E1, E2, E3. rewrite E1, E2, E3, Er.
  destruct (ring_fill_ok (send_ring s) sl Hwf Ho Hl Hlen) as (p & Hp & Hfill & Hget).
  set (ecnc := if ecn_enabled s1 && _ && ect then _ else _). clearbody ecnc.
  pose proof (push_emit_ok (tx_ring s) (ip (local s)) (ip (remote s)) (port (local s)) (port (remote s)) seq ack fl' w opts
    (sl_len sl) (ring_fill (send_ring s) sl) p (ip_id s1) ecnc (negb (tx_csum_offload s1)) Hr Hi1 Hi2 Hfit Hp Hfill) as Hpush.
  destruct (TxRing.push_with _ _ _ _) as [r' res]. destruct Hpush as (Hwf' & b & -> & Hb & Hq). cbn [st_bind].
  intros Hm. apply runs_ret. cbn [fst] in Hm. split; [exact Hm|].
  set (s2 := s1 <| tx_ring := r' |>). set (s3 := if b then _ else s2).
  assert (Ev : eg_view s3 = set_tx (eg_view s) r').
  { assert (Ev2 : eg_view s3 = eg_view s2) by (unfold s3; destruct b; [unfold staged; repeat case_if|]; reflexivity).
    rewrite Ev2. clearbody s3. unfold s2. change (eg_view (s1 <| tx_ring := r' |>)) with
      (set_tx (eg_view s1) r'). by rewrite Eg. }
  split; [|split; [intros _; by apply Hb|]]; cycle 1.
  { unfold counted. rewrite (f_equal g_tx Ev : tx_ring s3 = r'). apply (f_equal zlen) in Hq.
    rewrite zlen_app, !TxRing.packets_zlen in Hq by (apply Hr || apply Hwf'). rewrite Hq. by destruct b. }
  rewrite Ev. split; cbn; try done. rewrite Hq. apply Forall_app. split; [done|]. destruct b; [|constructor].
  apply Forall_singleton. do 13 eexists. split; [by rewrite Hp|]. split; [done|]. split; [done|]. split; [by rewrite Hp|].
  split; [|rewrite Hfl; destruct Hsyn; auto].
  destruct (decide (sl_len sl = 0)) as [Hz|Hnz]; [left; apply zlen_0; by rewrite Hp|right].
  destruct Htext as (pos & Hs & HQ); [lia|]. exists pos. split; [done|]. intros i x Hx%Hget. by apply HQ.
Qed.

Section Calls.
Variable s : t.
Hypothesis Hinv : eg_inv (eg_view s).
Hypothesis Hring : Ring.wf BUF (send_ring s).

(** A segment without text, with options [o]. *)
Lemma emit_empty_ok fl seq ack o :
  opts_fit o 0 -> Z.land fl flags.SYN = 0 \/ seq = iss s ->
  runs (emit_segment s fl seq ack o NO_PAYLOAD false) (fun s' b => e_mask s' = e_mask s /\ eg_inv (eg_view s') /\
    (blocked s fl = false -> b = true) /\ counted s s' b).
Proof using Cok Hinv Hring. intros Ho Hsyn. apply emit_segment_ok; try done. by apply no_text_at. Qed.

Lemma emit_data_segment_ok fl seq sl ect :
  Z.land fl flags.SYN = 0 -> 0 <= sl_len sl -> sl_len sl + ts_len s <= MSS -> text_at (send_ring s) (iss s) seq sl ->
  runs (emit_data_segment s fl seq sl ect) (fun s' b => e_mask s' = e_mask s /\ eg_inv (eg_view s') /\
    (egress_full s = false -> b = true) /\ counted s s' b).
Proof using Cok Hinv Hring.
  intros Hsyn Hl Hfit Htext. unfold emit_data_segment. change MSS with 1460 in Hfit.
  assert (as_u32 (sl_len sl) = sl_len sl) as -> by (unfold ts_len in *; clear -Hl Hfit; case_if in Hfit; word_lia).
  pose proof (segment_options_mask s (sl_len sl)) as Hm.
  pose proof (segment_options_ok s (sl_len sl) (eg_mss _ Hinv) Hl Hfit) as Ho.
  assert (Ev : eg_view (fst (segment_options s (sl_len sl))) = eg_view s).
  { unfold segment_options. repeat case_match; simplify_eq; reflexivity. }
  destruct (segment_options s (sl_len sl)) as [s1 o]. cbn [fst snd] in *.
  pose proof (f_equal send_ring Hm : send_ring s1 = send_ring s) as Er. pose proof (f_equal iss Hm : iss s1 = iss s) as Ei.
  pose proof (f_equal egress_paused Hm : egress_paused s1 = egress_paused s) as Ep. pose proof (f_equal g_tx Ev : tx_ring s1 = tx_ring s) as Et.
  eapply runs_bind.
  - apply (emit_segment_ok s1 fl seq (rcv_nxt s1) o sl ect); rewrite ?Ev, ?Er, ?Ei; try done. by left.
  - intros s2 b (Hm2 & Hi2 & Hb & Hc). apply runs_ret. unfold blocked in *. rewrite Ep, Et in Hb.
    split; [destruct b; rewrite ?ack_sent_mask; congruence|]. split; [by destruct b|].
    split; [intros Hf; by apply Hb, (full_blocked s fl)|].
    unfold counted in *. rewrite Et in Hc. by destruct b.
Qed.

Lemma send_pure_ack_ok : emitted_ok s (send_pure_ack s).
Proof using Cok Hinv Hring.
  pose proof (send_pure_ack_mask s) as Hmask. unfold send_pure_ack in *.
  destruct (egress_full s); [by apply runs_ret|].
  pose proof (segment_options_mask s 0) as Hm. pose proof (segment_options_ok s 0 (eg_mss _ Hinv) ltac:(lia)) as Ho.
  assert (Ev : eg_view (fst (segment_options s 0)) = eg_view s).
  { unfold segment_options. repeat case_match; simplify_eq; reflexivity. }
  destruct (segment_options s 0) as [s1 o]. cbn [fst snd] in *.
  specialize (Ho ltac:(unfold ts_len; case_if; change MSS with 1460; lia)).
  pose proof (f_equal send_ring Hm : send_ring s1 = send_ring s) as Er.
  destruct (emit_segment_ok s1 flags.ACK (snd_nxt s1) (rcv_nxt s1) o NO_PAYLOAD false) as (s2 & b & E & _ & Hi2 & _);
    rewrite ?Ev, ?Er; try done; [by apply no_text_at|by left|]. rewrite E in *. cbn [st_bind fst] in *.
  apply runs_ret. split; [done|by destruct b].
Qed.

Lemma emit_probe_ok seq : emitted_ok s (emit_probe s seq).
Proof using Cok Hinv Hring.
  unfold emit_probe. eapply runs_mono; [apply emit_empty_ok; [|by left]|intros ? ? (? & ? & _); done].
  case_if; (split; [done|]); (split; [by vm_compute|]); by vm_compute.
Qed.

Lemma opts_fit_handshake m w tsv perm : opts_fit (mkOptions m w tsv perm SackBlocks.EMPTY) 0.
Proof using.
  split; [done|]. unfold Options.encoded_len, Options.raw_len. cbn [mss wscale ts sack_permitted sack].
  destruct m, w, tsv, perm; cbn [Options.is_some]; split; by vm_compute.
Qed.

Lemma emit_syn_ok :
  runs (emit_syn s) (fun s' b => e_mask s' = e_mask s /\ eg_inv (eg_view s') /\
    (TxRing.is_full TXQ (tx_ring s) = false -> b = true)).
Proof using Cok Hinv Hring.
  eapply runs_mono; [apply emit_empty_ok; [apply opts_fit_handshake|by right]|]. intros s' b (Hm & Hi & Hb & _). split_and!; try done.
  intros Hf. apply Hb. unfold blocked. by rewrite Hf, andb_false_r.
Qed.

Lemma emit_synack_ok : emitted_ok s (emit_synack s).
Proof using Cok Hinv Hring.
  eapply runs_mono; [apply emit_empty_ok; [apply opts_fit_handshake|by right]|intros ? ? (? & ? & _); done].
Qed.

Lemma emit_ctl_ok fl seq ack : Z.land fl flags.SYN = 0 -> emitted_ok s (emit_ctl s fl seq ack).
Proof using Cok Hinv Hring.
  intros Hsyn. eapply runs_mono; [apply emit_empty_ok; [|by left]|intros ? ? (? & ? & _); done]. split; [done|]. split; by vm_compute.
Qed.

(** Segments to an endpoint that is not the peer. *)
Lemma stray_push_ok dip sport dport sq ak fl wnd o ipid ecnv full :
  length dip = 4%nat -> opts_fit o 0 -> Z.land fl flags.SYN = 0 \/ dip <> ip (remote s) \/ from_be (be16_bytes dport) <> port (remote s) ->
  let '(r', res) := TxRing.push_with TXQ MAX_PACKET (tx_ring s) (into_slot (fun buf =>
    Wire.emit_with en buf (ip (local s)) dip sport dport sq ak fl wnd o 0 (fun dst => (dst, true)) ipid ecnv full)) in
  (exists b, res = Ok b) /\ eg_inv (set_tx (eg_view s) r').
Proof using Cok Hinv.
  intros Hd Ho Hsyn. destruct Hinv as [Hr [Hi1 Hi2] Hmtu Hmss Hisn Hsent Htw]. cbn in *.
  assert (Hfill : forall dst : list Z, zlen dst = 0 -> (dst, true) = ([], true)) by (intros dst ->%zlen_0; done).
  pose proof (push_emit_ok (tx_ring s) (ip (local s)) dip sport dport sq ak fl wnd o 0 (fun dst => (dst, true)) [] ipid ecnv full
    Hr Hi1 Hd Ho eq_refl Hfill) as Hp.
  destruct (TxRing.push_with _ _ _ _) as [r' res]. destruct Hp as (Hwf & b & -> & _ & Hq). split; [by exists b|].
  split; try done. cbn. rewrite Hq. apply Forall_app. split; [done|]. destruct b; [|constructor].
  apply Forall_singleton. exists (ip (local s)), dip, sport, dport, sq, ak, fl, wnd, o, [], ipid, ecnv, full. split_and!; try done; [by left|tauto].
Qed.

Lemma emit_rst_to_ok seg seq ack fl :
  length (src_ip seg) = 4%nat -> Z.land fl flags.SYN = 0 -> emitted_ok s (emit_rst_to s seg seq ack fl).
Proof using Cok Hinv.
  intros Hs Hsyn. pose proof (emit_rst_to_mask s seg seq ack fl) as Hm. unfold emit_rst_to in *.
  pose proof (stray_push_ok (src_ip seg) (port (local s)) (src_port seg) seq ack fl 0 Options.NONE (ip_id s) ecn.NOT_ECT
    (negb (tx_csum_offload s)) Hs ltac:(by split) (or_introl Hsyn)) as Hp.
  destruct (TxRing.push_with _ _ _ _) as [r' res]. destruct Hp as [[b ->] Hp]. cbn [st_bind fst] in *.
  apply runs_ret. split; [exact Hm|]. destruct b; exact Hp.
Qed.

Lemma emit_cookie_synack_ok seg :
  length (src_ip seg) = 4%nat -> src_ip seg <> ip (remote s) \/ from_be (be16_bytes (src_port seg)) <> port (remote s) ->
  runs (emit_cookie_synack s seg) (fun s' _ => rx_view s' = rx_view s /\ tx_view s' = tx_view s /\
    link s' = link s /\ eg_inv (eg_view s')).
Proof using Cok Hinv.
  intros Hs Hpeer. unfold emit_cookie_synack. case_if; [by apply runs_ret|].
  assert (Ho : opts_fit (fst (cookie_options s seg (mkEndpoint (src_ip seg) (src_port seg)))) 0).
  { unfold cookie_options. destruct (ts (options seg)) as [[? ?]|]; apply opts_fit_handshake. }
  destruct (cookie_options s seg _) as [o ecnf]. cbn [fst ip port] in *.
  match goal with |- context [TxRing.push_with _ _ _ (into_slot (fun buf => Wire.emit_with _ buf _ _ ?a ?b ?c ?d ?e ?f _ _ _ ?g ?h ?i))] =>
    pose proof (stray_push_ok (src_ip seg) a b c d e f o g h i Hs Ho (or_intror Hpeer)) as Hp end.
  destruct (TxRing.push_with _ _ _ _) as [r' res]. destruct Hp as [[b ->] Hp]. cbn [st_bind].
  apply runs_ret. destruct b; do 3 (split; [reflexivity|]); exact Hp.
Qed.

End Calls.

Lemma send_oow_ack_ok s : eg_inv (eg_view s) -> Ring.wf BUF (send_ring s) -> emitted_ok s (send_oow_ack s).
Proof using Cok.
  intros Hi Hr. unfold send_oow_ack. pose proof (oow_allowed_mask s) as Hm.
  assert (Ev : eg_view (fst (oow_allowed s)) = eg_view s) by (unfold oow_allowed; repeat case_match; reflexivity).
  destruct (oow_allowed s) as [s1 [|]]; cbn [fst] in *; [|apply runs_ret; split; [done|by rewrite Ev]].
  pose proof (f_equal send_ring Hm : send_ring s1 = send_ring s) as Er.
  eapply runs_mono; [apply send_pure_ack_ok; by rewrite ?Ev, ?Er|]. intros s2 u (? & ?). split; [congruence|done].
Qed.

Lemma reset_stray_ack_ok s seg :
  eg_inv (eg_view s) -> length (src_ip seg) = 4%nat -> emitted_ok s (reset_stray_ack s seg).
Proof using Cok.
  intros Hi Hs. unfold reset_stray_ack. pose proof (oow_allowed_mask s) as Hm.
  assert (Ev : eg_view (fst (oow_allowed s)) = eg_view s) by (unfold oow_allowed; repeat case_match; reflexivity).
  destruct (oow_allowed s) as [s1 [|]]; cbn [fst] in *; [|apply runs_ret; split; [done|by rewrite Ev]].
  eapply runs_mono; [apply emit_rst_to_ok; by rewrite ?Ev|]. intros s2 u (? & ?). split; [congruence|done].
Qed.

Lemma schedule_delayed_ack_ok s k :
  eg_inv (eg_view s) -> Ring.wf BUF (send_ring s) -> eg_inv (eg_view (schedule_delayed_ack s k)).
Proof using Cok.
  intros Hi Hr. unfold schedule_delayed_ack. set (s1 := set_field pending_ack _ _).
  assert (Ev : eg_view s1 = eg_view s) by reflexivity. assert (Er : send_ring s1 = send_ring s) by reflexivity. clearbody s1.
  rewrite <- Ev in Hi. rewrite <- Er in Hr. case_if; [|case_if; exact Hi].
  destruct (send_pure_ack_ok s1 Hi Hr) as (s2 & u & -> & _ & H2). exact H2.
Qed.

Lemma maybe_send_window_update_ok s :
  eg_inv (eg_view s) -> Ring.wf BUF (send_ring s) -> emitted_ok s (maybe_send_window_update s).
Proof using Cok.
  intros Hi Hr. unfold maybe_send_window_update. destruct (outbound_window s false) as [? new].
  destruct (state s); try (by apply runs_ret); case_if; try (by apply runs_ret); by apply send_pure_ack_ok.
Qed.

End Stream.
End Emit.
