(* ===== verification/TcbSend.v ===== *)
(** * Sending keeps the send side's invariant

    New data, retransmissions, probes and the FIN: each leaves the send ring,
    the retransmission queue and the sequence variables consistent, and none
    fails. *)
From S2P Require Import Prelude Error Seq State Effect Ring RingStore Sack Ooo TxRing Options Wire WireWf RtxQueue Rack RtxCover.
From S2P Require Import Congestion Tcb TcbAck TcbOutput Cookie TcbInput TcbTimers TcbRx TcbFrame TcbTx TcbEmit.
Import Tcb RtxCover.

Section Send.
Context `{C : Config} {Cok : ConfigOk C}.
Variables (Q : Z -> Z -> Prop) (m n : Z) (H : Z -> Prop).

Definition snd_inv (s : t) : Prop := tx_inv Q m n H (tx_view s) /\ eg_inv Q (eg_view s).

Lemma snd_ring s : snd_inv s -> Ring.wf BUF (send_ring s).
Proof using. intros [Ht _]. apply (st_wf _ _ _ _ _ _ (tx_stores _ _ _ _ _ Ht)). Qed.

(** An emission keeps it. *)
Lemma snd_emitted s s' : snd_inv s -> e_mask s' = e_mask s -> eg_inv Q (eg_view s') -> snd_inv s'.
Proof using. intros [Ht _] Hm He. split; [|done]. by rewrite (f_equal tx_view Hm : tx_view s' = tx_view s). Qed.

Lemma unsent_eq s : tx_inv Q m n H (tx_view s) -> unsent_bytes s = Ring.len (send_ring s) - v_text (tx_view s).
Proof using Cok.
  intros Hi. pose proof (tx_bounds _ _ _ _ _ Hi) as (Ht & Ho & HB & _ & _ & Hl). pose proof (tx_text _ _ _ _ _ Hi) as Htx.
  pose proof (tx_edges _ _ _ _ _ Hi) as He. cbn in Hl, Htx, He. unfold unsent_bytes.
  change (wsub32 (snd_nxt s) (data_una s)) with (v_out (tx_view s)).
  assert (as_u32 (Ring.len (send_ring s)) = Ring.len (send_ring s)) as -> by (clear -Hl HB; word_lia).
  unfold v_text, v_finout, sat_sub in *. cbn in *. destruct (fin_sent s); cbn in *; [|lia].
  destruct (Z.eqb_spec (snd_una s) (snd_nxt s)) as [E|E]; cbn in *; [|lia]. apply He in E as [_ E]. lia.
Qed.

Lemma mss_payload_fit s :
  0 <= local_mss s <= MSS -> 1 <= mss_payload s /\ mss_payload s + ts_len s <= MSS.
Proof using.
  intros Hm. unfold mss_payload, ts_len, sat_sub. change MSS with 1460 in *. case_if; lia.
Qed.

(** ** New data *)

(** The view after [len] bytes and perhaps a FIN were sent for the first time. *)
Definition sent_view (v : TxView) (len : Z) (fin : bool) (q : Rtx.t) : TxView :=
  mkTxView (v_state v) (v_iss v) (v_una v) (wadd32 (v_nxt v) (len + b2z fin)) (v_syn v) (fin || v_fin v)
    (if fin then wadd32 (v_nxt v) len else v_fseq v) q (v_ring v) Deadline.OFF.

(** What may be sent: unsent bytes, and the FIN once they are all sent. *)
Record sendable_now (v : TxView) (len : Z) (fin : bool) : Prop := mk_sendable_now {
  sn_len : 0 <= len <= Ring.len (v_ring v) - v_text v;
  sn_some : 0 < len + b2z fin;
  sn_fin : fin = true -> v_fin v = false /\ len = Ring.len (v_ring v) - v_text v /\ fin_state (v_state v) = true;
  sn_state : may_transmit (v_state v) = true;
}.

Lemma sendable_nofin v len fin : tx_inv Q m n H v -> sendable_now v len fin -> v_fin v = false /\ v_text v = v_out v.
Proof using.
  intros Hi [Hl Hs Hf _]. assert (Hn : v_fin v = false).
  { destruct fin; [by apply Hf|]. destruct (v_fin v) eqn:E; [|done].
    destruct (tx_fin _ _ _ _ _ Hi E) as [Ht _]. simpl in Hs. lia. }
  split; [done|]. unfold v_text, v_finout. rewrite Hn. simpl. lia.
Qed.

Lemma sent_view_inv v len fin q :
  tx_inv Q m n H v -> sendable_now v len fin -> covers RTX (v_base v) (v_out v + len + b2z fin) fin q ->
  tx_inv Q m n H (sent_view v len fin q) /\ v_una v <> v_nxt (sent_view v len fin q).
Proof using Cok.
  intros Hi Hs Hq. pose proof (sendable_nofin _ _ _ Hi Hs) as [Hnf Htx]. destruct Hs as [Hl Hpos Hfin Hst].
  pose proof (tx_bounds _ _ _ _ _ Hi) as (Ht & Ho & HB & Hn & Hb & Hlen). destruct Hi as [(U1 & U2 & U3 & U4) Hs Hc Htl Hf Hfa Hqt Hsy Hop Hba _].
  assert (Hf01 : 0 <= b2z fin <= 1) by (destruct fin; simpl; lia).
  assert (Hout : v_out (sent_view v len fin q) = v_out v + len + b2z fin).
  { unfold v_out at 1. change (v_base (sent_view v len fin q)) with (v_base v). cbn [v_nxt sent_view]. rewrite Hn, wadd32_assoc.
    rewrite off_wadd32 by lia. lia. }
  assert (Hne : v_una v <> v_nxt (sent_view v len fin q)).
  { intros E. unfold v_out at 1 in Hout. rewrite <- E in Hout. change (v_base (sent_view v len fin q)) with (v_base v) in Hout.
    unfold v_base, off in Hout. destruct (v_syn v); simpl in Hout; clear -Hout Hpos Ho HB Hl Hlen Ht U1 Hf01; word_lia. }
  split; [|done].
  assert (Hfo : v_finout (sent_view v len fin q) = fin).
  { unfold v_finout. cbn [v_fin v_una sent_view]. apply Z.eqb_neq in Hne. cbn [v_nxt sent_view] in *. rewrite Hne, Hnf.
    by rewrite orb_false_r, andb_true_r. }
  assert (Htext : v_text (sent_view v len fin q) = v_text v + len) by (unfold v_text at 1; rewrite Hout, Hfo; lia).
  split; rewrite ?Hout, ?Hfo, ?Htext; change (v_base (sent_view v len fin q)) with (v_base v);
    cbn [v_ring v_fin v_state v_fseq v_iss v_una v_syn v_rtx v_rto sent_view]; try done.
  - split_and!; try done; [apply wadd32_range|]. case_if; [apply wadd32_range|done].
  - lia.
  - rewrite Hnf, orb_false_r. intros ->. destruct (Hfin eq_refl) as (_ & -> & Hfs). split; [lia|]. split; [|done].
    cbn [v_nxt sent_view]. by rewrite wadd32_assoc.
  - intros E. by destruct (v_state v).
  - by rewrite Hst.
  - intros S1 S2. apply Z.eqb_neq in Hne. rewrite Hne, andb_false_r, Hba, Hnf by done. done.
Qed.

(** The text of new data, in the ring right behind what is outstanding. *)
Lemma new_text_at s len fin :
  tx_inv Q m n H (tx_view s) -> sendable_now (tx_view s) len fin ->
  text_at Q (send_ring s) (iss s) (snd_nxt s) (mkSlice (wsub32 (snd_nxt s) (data_una s)) len).
Proof using Cok.
  intros Hi Hs. pose proof (sendable_nofin _ _ _ Hi Hs) as [Hnf Htx]. destruct Hs as [Hl _ _ Hst].
  pose proof (tx_bounds _ _ _ _ _ Hi) as (Ht & Ho & HB & Hn & Hb & Hlen).
  change (wsub32 (snd_nxt s) (data_una s)) with (v_out (tx_view s)). unfold text_at. cbn [sl_off sl_len]. cbn in Hl.
  split; [lia|]. split; [lia|]. split; [lia|]. intros _. exists (m + v_out (tx_view s)).
  pose proof (tx_base _ _ _ _ _ Hi) as Hba. cbn in Hnf, Hst, Hba, Hn. rewrite Hnf in Hba. cbn in Hba. split.
  - rewrite Hn, Hba by (by destruct (state s)). rewrite wadd32_assoc. f_equal. lia.
  - intros i b Hg. apply (st_read _ _ _ _ _ _ (tx_stores _ _ _ _ _ Hi)) in Hg. by rewrite Z.add_assoc in Hg.
Qed.

Definition sends (s : t) (r : t * Res bool) : Prop :=
  runs r (fun s' b => snd_inv s' /\ s_mask s' = s_mask s /\ (egress_full s = false -> b = true) /\ counted s s' b /\
    (b = true -> snd_una s' <> snd_nxt s')).

Lemma new_sent_views s seq len fin :
  rx_view (new_sent s seq len fin) = rx_view s /\ eg_view (new_sent s seq len fin) = eg_view s /\
  set_rto (tx_view (new_sent s seq len fin)) Deadline.OFF =
  mkTxView (state s) (iss s) (snd_una s) (wadd32 seq (len + b2z fin)) (syn_unacked s) (fin || fin_sent s)
    (if fin then wadd32 seq len else fin_seq s) (rtx s) (send_ring s) Deadline.OFF.
Proof using.
  unfold new_sent. match goal with |- context [maybe_arm_tlp ?x] => set (s1 := x) end.
  pose proof (maybe_arm_tlp_views s1) as E. set (s2 := maybe_arm_tlp s1) in *. clearbody s2.
  rewrite (f_equal (fun v => fst (fst v)) E : rx_view s2 = rx_view s1).
  rewrite (f_equal (fun v => snd v) E : eg_view s2 = eg_view s1), (f_equal (fun v => snd (fst v)) E : tx_view s2 = tx_view s1).
  unfold s1. clear. destruct fin; repeat case_if; (split; [reflexivity|]); (split; reflexivity).
Qed.

Lemma data_flags_syn len fin : Z.land (data_flags len fin) flags.SYN = 0.
Proof using. unfold data_flags. by destruct (0 <? len), fin. Qed.

Lemma emit_new_ok s len fin :
  snd_inv s -> sendable_now (tx_view s) len fin -> len + ts_len s <= MSS -> Rtx.is_full RTX (rtx s) = false ->
  sends s (emit_new s len fin).
Proof using Cok.
  intros [Ht He] Hs Hfit Hroom. unfold sends, emit_new.
  pose proof (new_text_at s len fin Ht Hs) as Htext. pose proof (sn_len _ _ _ Hs) as Hlen.
  assert (0 <= ts_len s) by (unfold ts_len; case_if; lia). replace (MSS <? len) with false in * by lia.
  destruct (emit_data_segment_ok Q s He (snd_ring s (conj Ht He)) (data_flags len fin) (snd_nxt s)
    (mkSlice (wsub32 (snd_nxt s) (data_una s)) len) (0 <? len)) as (s1 & b & -> & Hm & He1 & Hfull & Hcnt); try done; [apply data_flags_syn|cbn; lia|].
  cbn [st_bind] in *. destruct b; cbn [negb] in *; cycle 1.
  { apply runs_ret. split; [by apply (snd_emitted s)|]. split; [by apply e_s_mask|done]. }
  pose proof (f_equal tx_view Hm : tx_view s1 = tx_view s) as Ev. rewrite (f_equal v_rtx Ev : rtx s1 = rtx s) in *.
  pose proof (sendable_nofin _ _ _ Ht Hs) as [Hnf Htx]. destruct rtx_words as (W & HW & HC).
  pose proof (tx_covers _ _ _ _ _ Ht) as Hc. unfold v_finout in Hc. rewrite Hnf in Hc. cbn [andb] in Hc.
  pose proof (tx_bounds _ _ _ _ _ Ht) as (_ & Ho & HB & Hn & _ & Hlr).
  assert (Hf01 : 0 <= b2z fin <= 1) by (destruct fin; simpl; lia).
  destruct (covers_push RTX W HW HC _ _ (rtx s) len fin (now_ms s1) Hc) as (q' & Hp & Hq).
  { unfold Rtx.is_full in Hroom. lia. }
  { lia. } { apply Hs. } { cbn in Hlen, Hlr. lia. }
  cbn in Hn. rewrite <- Hn in Hp. rewrite Hp in *. cbn [negb] in *. apply runs_ret.
  set (s2 := s1 <| rtx := q' |>) in *.
  destruct (new_sent_views s2 (snd_nxt s) len fin) as (E1 & E2 & E3).
  destruct (sent_view_inv _ _ _ q' Ht Hs Hq) as [Hinv Hne].
  assert (E4 : set_rto (tx_view (new_sent s2 (snd_nxt s) len fin)) Deadline.OFF = sent_view (tx_view s) len fin q').
  { rewrite E3. change (mkTxView (v_state (tx_view s1)) (v_iss (tx_view s1)) (v_una (tx_view s1)) (wadd32 (snd_nxt s) (len + b2z fin))
      (v_syn (tx_view s1)) (fin || v_fin (tx_view s1)) (if fin then wadd32 (snd_nxt s) len else v_fseq (tx_view s1)) q'
      (v_ring (tx_view s1)) Deadline.OFF = sent_view (tx_view s) len fin q'). by rewrite Ev. }
  assert (Hmask : s_mask (new_sent s2 (snd_nxt s) len fin) = s_mask s) by (rewrite new_sent_mask; exact (e_s_mask _ _ Hm)).
  set (s3 := new_sent s2 (snd_nxt s) len fin) in *. clearbody s3.
  assert (Hne3 : snd_una s3 <> snd_nxt s3).
  { intros E. apply Hne. rewrite <- E4. transitivity (snd_una s3); [exact (eq_sym (f_equal v_una E4))|exact E]. }
  split; [split; [|by rewrite E2]|].
  - apply tx_inv_unset; [by rewrite E4|exact Hne3].
  - split; [exact Hmask|]. split; [done|]. split; [exact (counted_view s s2 s3 true E2 Hcnt)|done].
Qed.

(** ** Retransmission *)

Lemma snd_inv_rtx s s' :
  snd_inv s -> views_noq s' = views_noq s ->
  covers RTX (v_base (tx_view s)) (v_out (tx_view s)) (v_finout (tx_view s)) (rtx s') -> snd_inv s'.
Proof using.
  intros [Ht He] E Hc. split; [|by rewrite (f_equal (fun v => snd v) E : eg_view s' = eg_view s)].
  by apply (tx_inv_rtx _ _ _ _ (tx_view s)); [|exact (f_equal (fun v => snd (fst v)) E)|].
Qed.

Lemma retrans_prepare_ok s i s0 mss :
  snd_inv s -> 0 <= i -> Rtx.get_seg RTX (rtx s) i = Some s0 -> Seg.has s0 seg_flags.SACKED = false -> 0 < mss ->
  let '(s1, sg) := retrans_prepare s i s0 mss in
  snd_inv s1 /\ eg_view s1 = eg_view s /\ Rtx.get_seg RTX (rtx s1) i = Some sg /\ Seg.has sg seg_flags.SACKED = false.
Proof using Cok.
  intros Hi H0 Hg Hs Hm. unfold retrans_prepare. set (s1 := if pmtu_probe_inflight s && _ && _ then _ else s).
  assert (E : views s1 = views s) by (unfold s1; case_if; reflexivity). clearbody s1.
  pose proof (f_equal (fun v => v_rtx (snd (fst v))) E : rtx s1 = rtx s) as Eq.
  pose proof (f_equal (fun v => snd v) E : eg_view s1 = eg_view s) as Eg.
  assert (Hi1 : snd_inv s1) by (unfold snd_inv; by rewrite Eg, (f_equal (fun v => snd (fst v)) E : tx_view s1 = tx_view s)).
  destruct (Z.ltb_spec mss (Seg.payload_len s0)); [|by rewrite Eq].
  destruct rtx_words as (W & HW & HC). rewrite <- Eq in Hg.
  pose proof (covers_split RTX W HW HC _ _ _ (rtx s1) i s0 mss (tx_covers _ _ _ _ _ (proj1 Hi1)) H0 Hg ltac:(lia)) as Hsp.
  destruct (Rtx.split _ _ _ _) as [q ok]. destruct Hsp as [Hc Hok].
  assert (Hi2 : snd_inv (s1 <| rtx := q |>)) by (apply (snd_inv_rtx s1); [done|reflexivity|exact Hc]).
  destruct ok.
  - destruct Hok as (s' & Hg' & _ & _ & _ & Hs'). change (rtx (s1 <| rtx := q |>)) with q. rewrite Hg'. cbn [default].
    split; [done|]. split; [exact Eg|]. split; [reflexivity|]. cbn [id]. congruence.
  - subst q. split; [done|]. split; [exact Eg|]. done.
Qed.

(** The text of an outstanding segment. *)
Lemma old_text_at s i sg plen :
  tx_inv Q m n H (tx_view s) -> 0 <= i -> Rtx.get_seg RTX (rtx s) i = Some sg -> 0 <= plen <= Seg.payload_len sg ->
  text_at Q (send_ring s) (iss s) (Seg.start sg) (mkSlice (wsub32 (Seg.start sg) (data_una s)) plen) /\ snd_una s <> snd_nxt s.
Proof using Cok.
  intros Hi H0 Hg Hp. pose proof (tx_covers _ _ _ _ _ Hi) as Hc.
  destruct (covers_entry RTX _ _ _ _ i sg Hc H0 Hg) as (o & [Hst Ho Htx _ [Hl Hsq]]).
  pose proof (tx_bounds _ _ _ _ _ Hi) as (Ht & Hout & HB & Hn & Hb & Hlen). cbn in Hlen.
  fold (v_text (tx_view s)) in Htx. pose proof (tx_text _ _ _ _ _ Hi) as Htl. cbn in Htl.
  assert (Hpos : 0 < v_out (tx_view s)).
  { destruct (covers_head _ _ _ _ _ Hc) as [[_ Hz] _]. destruct (decide (v_out (tx_view s) = 0)) as [E|]; [|lia].
    apply Hz in E. unfold Rtx.get_seg in Hg. cbn in E. rewrite E in Hg. replace (0 <=? i) with true in Hg by lia. done. }
  assert (Hne : snd_una s <> snd_nxt s) by (intros [_ E]%(tx_edges _ _ _ _ _ Hi); lia). split; [|done].
  change (data_una s) with (v_base (tx_view s)). rewrite Hst. change (wsub32 (wadd32 ?a o) ?a) with (off (wadd32 a o) a).
  rewrite off_wadd32 by lia. unfold text_at. cbn [sl_off sl_len]. split; [lia|]. split; [lia|]. split; [lia|]. intros _.
  exists (m + o). split.
  - pose proof (tx_quiet _ _ _ _ _ Hi) as Hqt. pose proof (tx_base _ _ _ _ _ Hi) as Hba. cbn in Hba, Hqt. apply Z.eqb_neq in Hne.
    rewrite Hne, andb_false_r in Hba. cbn [b2z] in Hba.
    rewrite Hba, wadd32_assoc; [f_equal; lia|..]; intros E; rewrite E in Hqt; destruct (Hqt eq_refl); lia.
  - intros j b Hj. apply (st_read _ _ _ _ _ _ (tx_stores _ _ _ _ _ Hi)) in Hj. by rewrite Z.add_assoc in Hj.
Qed.

Lemma retrans_sent_views s i plen sg fin :
  eg_view (retrans_sent s i plen sg fin) = eg_view s /\
  set_rto (noq (tx_view (retrans_sent s i plen sg fin))) Deadline.OFF = set_rto (noq (tx_view s)) Deadline.OFF /\
  rtx (retrans_sent s i plen sg fin) = Rtx.retransmitted RTX (rtx s) i (now_ms s) (if plen <? Seg.payload_len sg then as_u16 plen else 0).
Proof using. unfold retrans_sent. repeat case_if; (split; [reflexivity|]); split; reflexivity. Qed.

Lemma retrans_marked_ok s s' i plen sg :
  snd_inv s -> 0 <= i -> Rtx.get_seg RTX (rtx s) i = Some sg -> Seg.has sg seg_flags.SACKED = false ->
  0 <= plen <= MSS -> (plen < Seg.payload_len sg -> 0 < plen) -> snd_una s <> snd_nxt s ->
  eg_view s' = eg_view s -> set_rto (noq (tx_view s')) Deadline.OFF = set_rto (noq (tx_view s)) Deadline.OFF ->
  rtx s' = Rtx.retransmitted RTX (rtx s) i (now_ms s) (if plen <? Seg.payload_len sg then as_u16 plen else 0) ->
  snd_inv s'.
Proof using Cok.
  intros [Ht He] H0 Hg Hns Hp Hpos Hne E1 E2 E3. split; [|by rewrite E1]. change MSS with 1460 in Hp.
  assert (as_u16 plen = plen) as Hu by (clear -Hp; word_lia). rewrite Hu in E3. destruct rtx_words as (W & HW & HC).
  apply tx_inv_unset; cycle 1.
  { rewrite (f_equal v_una E2 : v_una (tx_view s') = snd_una s), (f_equal v_nxt E2 : v_nxt (tx_view s') = snd_nxt s). exact Hne. }
  apply (tx_inv_rtx _ _ _ _ (set_rto (tx_view s) Deadline.OFF)); [by apply tx_inv_rto|exact E2|].
  change (v_rtx (set_rto (tx_view s') Deadline.OFF)) with (rtx s'). rewrite E3.
  apply (covers_retransmitted RTX W HW HC _ _ _ _ _ sg); try done; [exact (tx_covers _ _ _ _ _ Ht)|case_if; lia|].
  destruct (Z.ltb_spec plen (Seg.payload_len sg)); lia.
Qed.

Lemma edges_noq s s' :
  set_rto (noq (tx_view s')) Deadline.OFF = set_rto (noq (tx_view s)) Deadline.OFF ->
  snd_una s' = snd_una s /\ snd_nxt s' = snd_nxt s.
Proof using. intros E. split; [exact (f_equal v_una E)|exact (f_equal v_nxt E)]. Qed.

Lemma retransmit_ok s i :
  snd_inv s -> 0 <= i -> (forall s0, Rtx.get_seg RTX (rtx s) i = Some s0 -> Seg.has s0 seg_flags.SACKED = false) ->
  runs (retransmit s i) (fun s' b => snd_inv s' /\ s_mask s' = s_mask s /\ counted s s' b /\
    (egress_full s = false -> b = negb (bool_decide (Rtx.get_seg RTX (rtx s) i = None))) /\
    (b = true -> snd_una s' <> snd_nxt s')).
Proof using Cok.
  intros Hi H0 Hns. unfold retransmit. destruct (mss_payload_fit s (eg_mss _ _ (proj2 Hi))) as [Hm1 Hm2].
  set (mss := mss_payload s) in *. destruct (Rtx.get_seg RTX (rtx s) i) as [s0|] eqn:Hg; cycle 1.
  { apply runs_ret. split; [done|]. split; [reflexivity|]. unfold counted. simpl. split; [lia|done]. }
  pose proof (retrans_prepare_ok s i s0 mss Hi H0 Hg (Hns _ eq_refl) ltac:(lia)) as Hp. pose proof (retrans_prepare_mask s i s0 mss) as Hmk.
  destruct (retrans_prepare s i s0 mss) as [s1 sg]. destruct Hp as (Hi1 & Eg & Hg1 & Hns1). cbn [fst] in Hmk.
  assert (Hpl : 0 <= Seg.payload_len sg < M31).
  { destruct (covers_entry RTX _ _ _ _ i sg (tx_covers _ _ _ _ _ (proj1 Hi1)) H0 Hg1) as (o & [_ Ho Ht _ [? ?]]).
    pose proof (tx_bounds _ _ _ _ _ (proj1 Hi1)) as (Htt & _ & HB & _). fold (v_text (tx_view s1)) in Ht. lia. }
  set (plen := Z.min (Seg.payload_len sg) mss). pose proof (f_equal ts_enabled Hmk : ts_enabled s1 = ts_enabled s) as Ets.
  assert (Hts : ts_len s1 = ts_len s) by (unfold ts_len; by rewrite Ets). assert (0 <= ts_len s) by (unfold ts_len; case_if; lia).
  replace (MSS <? plen) with false by lia. set (fin := Seg.has sg _ && _). clearbody fin.
  destruct (old_text_at s1 i sg plen (proj1 Hi1) H0 Hg1 ltac:(lia)) as [Htext Hne].
  destruct (emit_data_segment_ok Q s1 (proj2 Hi1) (snd_ring s1 Hi1) (data_flags plen fin) (Seg.start sg)
    (mkSlice (wsub32 (Seg.start sg) (data_una s1)) plen) false) as (s2 & b & -> & Hm & He2 & Hfull & Hcnt); try done; try apply data_flags_syn; try (cbn; lia).
  assert (Hcnt' : counted s s2 b) by (unfold counted in *; by rewrite (f_equal g_tx Eg : tx_ring s1 = tx_ring s) in Hcnt).
  assert (Hfull' : egress_full s = false -> b = true).
  { unfold egress_full in *. by rewrite (f_equal g_tx Eg : tx_ring s1 = tx_ring s), (f_equal egress_paused Hmk : egress_paused s1 = egress_paused s) in Hfull. }
  pose proof (snd_emitted s1 s2 Hi1 Hm He2) as Hi2. cbn [st_bind]. destruct b; cbn [negb]; cycle 1.
  { apply runs_ret. split; [done|]. split; [rewrite (e_s_mask _ _ Hm); exact Hmk|]. split; [done|]. split; [|done]. intros Hf. by specialize (Hfull' Hf). }
  pose proof (f_equal tx_view Hm : tx_view s2 = tx_view s1) as Ev. pose proof (f_equal v_rtx Ev : rtx s2 = rtx s1) as Eq.
  apply runs_ret. destruct (retrans_sent_views s2 i plen sg fin) as (E1 & E2 & E3).
  pose proof (retrans_sent_mask s2 i plen sg fin) as Hm3. set (s3 := retrans_sent s2 i plen sg fin) in *. clearbody s3.
  rewrite <- (f_equal v_una Ev : snd_una s2 = snd_una s1), <- (f_equal v_nxt Ev : snd_nxt s2 = snd_nxt s1) in Hne.
  rewrite <- Eq in Hg1. split; [|split; [rewrite Hm3, (e_s_mask _ _ Hm); exact Hmk|]].
  - apply (retrans_marked_ok s2 s3 i plen sg Hi2 H0 Hg1 Hns1 ltac:(unfold plen; lia) ltac:(unfold plen; lia) Hne E1 E2 E3).
  - split; [exact (counted_view s s2 s3 true E1 Hcnt')|]. split; [done|]. intros _.
    destruct (edges_noq s2 s3 E2) as [-> ->]. exact Hne.
Qed.

(** ** The sending loop *)

Definition stages (s : t) (r : t * Res bool) : Prop :=
  runs r (fun s' b => snd_inv s' /\ s_mask s' = s_mask s /\ counted s s' b).

Lemma snd_inv_views s s' : snd_inv s -> views s' = views s -> snd_inv s'.
Proof using.
  intros [Ht He] E.
  split; [by rewrite (f_equal (fun v => snd (fst v)) E : tx_view s' = tx_view s)|by rewrite (f_equal snd E : eg_view s' = eg_view s)].
Qed.

Lemma stages_none s s' : snd_inv s -> views s' = views s -> s_mask s' = s_mask s -> stages s (s', Ok false).
Proof using.
  intros Hi E Hm. apply runs_ret. split; [by apply (snd_inv_views s)|].
  split; [done|]. apply (counted_view s s); [exact (f_equal snd E)|]. unfold counted. simpl. lia.
Qed.

Lemma stages_from s s1 r : views s1 = views s -> s_mask s1 = s_mask s -> stages s1 r -> stages s r.
Proof using.
  intros E Hm Hr. eapply runs_mono; [exact Hr|]. intros s' b (Hi & Hm' & Hc). split; [done|]. split; [congruence|].
  unfold counted in *. by rewrite (f_equal (fun v => g_tx (snd v)) E : tx_ring s1 = tx_ring s) in Hc.
Qed.

Lemma sendable_views s s' len fin :
  views s' = views s -> sendable_now (tx_view s) len fin -> sendable_now (tx_view s') len fin.
Proof using. intros E. by rewrite (f_equal (fun v => snd (fst v)) E : tx_view s' = tx_view s). Qed.

Lemma ts_len_mask s s' : s_mask s' = s_mask s -> ts_len s' = ts_len s.
Proof using. intros E. unfold ts_len. by rewrite (f_equal ts_enabled E : ts_enabled s' = ts_enabled s). Qed.

Lemma rtx_views s s' : views s' = views s -> rtx s' = rtx s.
Proof using. intros E. exact (f_equal (fun v => v_rtx (snd (fst v))) E). Qed.

Lemma fin_owed_views s s' : views s' = views s -> fin_owed s' = fin_owed s.
Proof using.
  intros E. unfold fin_owed. by rewrite (f_equal (fun v => v_state (snd (fst v))) E : state s' = state s),
    (f_equal (fun v => v_fin (snd (fst v))) E : fin_sent s' = fin_sent s).
Qed.

(** New data, and the bookkeeping of the path-MTU probe it may be. *)
Definition with_probe (seq : Z) (sent : bool) (probe : option (Z * Z)) (self : t) : t :=
  match sent, probe with
  | true, Some (plen, cap) =>
      let self := self <| pmtu_probe_inflight := true |> in
      let self := self <| pmtu_probe_mss := cap |> in
      let self := self <| pmtu_probe_start := seq |> in
      self <| pmtu_probe_end := wadd32 seq plen |>
  | _, _ => self
  end.

Lemma send_len_ok s len fin seq probe :
  snd_inv s -> sendable_now (tx_view s) len fin -> len + ts_len s <= MSS -> Rtx.is_full RTX (rtx s) = false ->
  stages s (try (self, sent) := emit_new s len fin in (with_probe seq sent probe self, Ok sent)).
Proof using Cok.
  intros Hi Hs Hfit Hr. eapply runs_bind; [by apply emit_new_ok|]. intros s1 b (Hi1 & Hm1 & _ & Hc1 & _). apply runs_ret.
  assert (E : views (with_probe seq b probe s1) = views s1 /\ s_mask (with_probe seq b probe s1) = s_mask s1)
    by (unfold with_probe; destruct b, probe as [[? ?]|]; split; reflexivity).
  destruct E as [E Em]. split; [by apply (snd_inv_views s1)|]. split; [congruence|].
  by apply (counted_view s s1); [exact (f_equal snd E)|].
Qed.

Lemma new_len_ok s len probe :
  0 <= local_mss s <= MSS -> new_len s (unsent_bytes s) (mss_payload s) = Some (len, probe) ->
  1 <= len <= unsent_bytes s /\ len + ts_len s <= MSS.
Proof using.
  intros Hm. pose proof (mss_payload_fit s Hm) as [H1 H2]. unfold new_len. set (mss := mss_payload s) in *.
  set (avail := Z.min _ _). assert (avail <= unsent_bytes s) by (unfold avail; lia). clearbody avail.
  destruct (match pmtu_probe_len s with Some _ => _ | None => _ end) as [[pl cap]|] eqn:Ep.
  - intros [= <- <-]. destruct (pmtu_probe_len s) as [[pl' cap']|] eqn:El; [|done]. case_if in Ep; [|done]. injection Ep as -> ->.
    bool_facts. unfold pmtu_probe_len in El. case_if in El; [done|]. fold mss in El. case_if in El; [|done]. injection El as <- <-. bool_facts.
    unfold ts_len, sat_sub in *. destruct (ts_enabled s); lia.
  - clear Ep. case_if; bool_facts; [intros [= <- <-]; lia|]. case_if; [|done]. bool_facts. intros [= <- <-]. lia.
Qed.

Lemma sendable_len s len :
  tx_inv Q m n H (tx_view s) -> may_transmit (state s) = true -> 1 <= len <= unsent_bytes s ->
  sendable_now (tx_view s) len (fin_owed s && (len =? unsent_bytes s)).
Proof using Cok.
  intros Hi Hst Hl. rewrite (unsent_eq s Hi) in *. cbn. set (f := fin_owed s && _).
  assert (Hf : 0 <= b2z f) by (destruct f; simpl; lia).
  split; cbn; try lia; try done. unfold f. intros Hfo. bool_facts. unfold fin_owed in *. bool_facts.
  split; [done|]. split; [done|]. by destruct (state s).
Qed.

Lemma send_new_ok s : snd_inv s -> may_transmit (state s) = true -> stages s (send_new s).
Proof using Cok.
  intros Hi Hst. unfold send_new. destruct (Z.eqb_spec (unsent_bytes s) 0) as [Hz|Hz].
  { destruct (fin_owed s && negb (Rtx.is_full RTX (rtx s))) eqn:E; [|by apply stages_none]. bool_facts.
    eapply runs_mono; [apply emit_new_ok; try done|intros s' b (? & ? & _ & ? & _); done].
    - rewrite (unsent_eq s (proj1 Hi)) in Hz. unfold fin_owed in *. bool_facts.
      split; cbn; try lia; try done. intros _. split; [done|]. split; [lia|]. by destruct (state s).
    - unfold ts_len. case_if; change MSS with 1460; lia. }
  destruct (Rtx.is_full RTX (rtx s)) eqn:Ef; [by apply stages_none|].
  case_if; [apply stages_none; [done|reflexivity|reflexivity]|].
  destruct (new_len s (unsent_bytes s) (mss_payload s)) as [[len probe]|] eqn:En; [|by apply stages_none].
  apply new_len_ok in En as [Hl Hfit]; [|apply Hi].
  pose proof (sendable_len s len (proj1 Hi) Hst Hl) as Hs.
  set (s1 := if _ && _ then _ else s).
  assert (Hs1 : views s1 = views s /\ s_mask s1 = s_mask s /\ ts_enabled s1 = ts_enabled s /\ egress_full s1 = egress_full s)
    by (unfold s1; case_if; split_and!; reflexivity).
  clearbody s1. destruct Hs1 as (E & Hm1 & _). apply (stages_from s s1); [done..|].
  apply send_len_ok; [by apply (snd_inv_views s)|rewrite (fin_owed_views s s1 E); by apply (sendable_views s)|by rewrite (ts_len_mask s)|].
  by rewrite (rtx_views s s1 E).
Qed.

Lemma send_one_ok s : snd_inv s -> may_transmit (state s) = true -> stages s (send_one s).
Proof using Cok.
  intros Hi Hst. unfold send_one. pose proof (covers_next_lost RTX _ _ _ _ (tx_covers _ _ _ _ _ (proj1 Hi))) as Hn.
  change (v_rtx (tx_view s)) with (rtx s) in Hn. destruct (Rtx.next_lost RTX (rtx s)) as [q lost]. destruct Hn as [Hc Hl].
  assert (Hi1 : snd_inv (s <| rtx := q |>)) by (apply (snd_inv_rtx s); [done|reflexivity|exact Hc]).
  set (s1 := s <| rtx := q |>) in *. assert (Hm1 : s_mask s1 = s_mask s) by reflexivity.
  assert (Ht1 : tx_ring s1 = tx_ring s) by reflexivity. assert (Hs1 : state s1 = state s) by reflexivity.
  assert (Hq1 : rtx s1 = q) by reflexivity. clearbody s1.
  assert (Hst1 : stages s1 (match lost with
    | Some i => if Reno.cwnd (cc s1) <=? pipe s1 then (s1 <| cwnd_limited := true |>, Ok false) else retransmit s1 i
    | None => send_new s1
    end)).
  { destruct lost as [i|]; [|apply send_new_ok; [done|congruence]]. case_if; [apply stages_none; [done|reflexivity|reflexivity]|].
    destruct Hl as (H0 & s0 & Hg & Hns). eapply runs_mono; [apply retransmit_ok; [done|done|]|intros s' b (? & ? & ? & _); done].
    rewrite Hq1, Hg. by intros ? [= <-]. }
  eapply runs_mono; [exact Hst1|]. intros s' b (? & ? & Hc'). split; [done|]. split; [congruence|].
  unfold counted in *. by rewrite <- Ht1.
Qed.

Lemma state_mask s s' : s_mask s' = s_mask s -> state s' = state s.
Proof using. intros E. exact (f_equal state E). Qed.

(** A call that leaves the invariant and, of the views, at most the send side. *)
Definition keeps {A} (s : t) (r : t * Res A) : Prop := runs r (fun s' _ => snd_inv s' /\ s_mask s' = s_mask s).

Lemma send_loop_ok fuel : forall s, snd_inv s -> may_transmit (state s) = true -> keeps s (send_loop fuel s).
Proof using Cok.
  induction fuel as [|fuel IH]; intros s Hi Hst; cbn [send_loop]; case_if; try by apply runs_ret.
  eapply runs_bind; [by apply send_one_ok|]. intros s1 [|] (Hi1 & Hm1 & _); [|by apply runs_ret].
  eapply runs_mono; [apply IH; [done|by rewrite (state_mask s s1 Hm1)]|]. intros s2 [] [Hi2 Hm2]. split; [done|congruence].
Qed.

(** The iteration budget of the loop is never what ends it. *)
Lemma send_loop_fuel f1 : forall f2 s,
  snd_inv s -> may_transmit (state s) = true ->
  TXQ - TxRing.len (tx_ring s) <= Z.of_nat f1 -> TXQ - TxRing.len (tx_ring s) <= Z.of_nat f2 ->
  send_loop f1 s = send_loop f2 s.
Proof using Cok.
  induction f1 as [|f1 IH]; intros f2 s Hi Hst H1 H2.
  all: pose proof (TxRing.wf_len _ _ _ (eg_ring _ _ (proj2 Hi))) as Hl; cbn in Hl.
  all: assert (Hfull : TXQ - TxRing.len (tx_ring s) <= 0 -> egress_full s = true)
    by (intros; unfold egress_full, TxRing.is_full; replace (TxRing.len (tx_ring s) =? TXQ) with true by lia; by rewrite orb_true_r).
  - destruct f2; cbn [send_loop]; by rewrite Hfull.
  - destruct f2 as [|f2]; [cbn [send_loop]; by rewrite Hfull|]. cbn [send_loop]. case_if; [done|].
    destruct (send_one_ok s Hi Hst) as (s1 & [|] & -> & Hi1 & Hm1 & Hc1); cbn [st_bind]; [|done]. unfold counted in Hc1. cbn in Hc1.
    apply IH; [done|by rewrite (state_mask s s1 Hm1)|lia..].
Qed.

Lemma update_persist_views s : views (update_persist s) = views s.
Proof using. unfold update_persist. repeat case_if; reflexivity. Qed.

Lemma maybe_send_data_ok s : snd_inv s -> keeps s (maybe_send_data s).
Proof using Cok.
  intros Hi. unfold maybe_send_data. destruct (may_transmit (state s)) eqn:Hst; [|by apply runs_ret]. cbn [negb].
  eapply runs_bind; [by apply send_loop_ok|]. intros s1 [] [Hi1 Hm1]. apply runs_ret.
  split; [apply (snd_inv_views s1); [done|apply update_persist_views]|]. by rewrite update_persist_mask.
Qed.

(** ** Probes *)

Lemma keeps_emitted {A} s (r : t * Res A) : snd_inv s -> emitted_ok Q s r -> keeps s r.
Proof using.
  intros Hi Hr. eapply runs_mono; [exact Hr|]. intros s' a [Hm He]. split; [by apply (snd_emitted s)|by apply e_s_mask].
Qed.

Lemma keeps_bind {A B} s (r : t * Res A) (k : t -> A -> t * Res B) :
  keeps s r -> (forall s1 a, snd_inv s1 -> s_mask s1 = s_mask s -> keeps s1 (k s1 a)) -> keeps s (st_bind r k).
Proof using.
  intros Hr Hk. eapply runs_bind; [exact Hr|]. intros s1 a [Hi1 Hm1]. eapply runs_mono; [by apply Hk|].
  intros s2 b [Hi2 Hm2]. split; [done|congruence].
Qed.

Lemma keeps_ret {A} s s' (a : A) : snd_inv s' -> s_mask s' = s_mask s -> keeps s (s', Ok a).
Proof using. intros. by apply runs_ret. Qed.

End Send.
