(* ===== verification/TcbInv.v ===== *)
(** * The connection's invariant, and that it survives everything but a reset

    [inv] joins the receive side, the send side and the egress ring.  Here:
    teardown, acknowledgments, every timer, and the segments of a connection
    that is past the handshake. *)
From S2P Require Import Prelude Error Seq State Effect Ring RingStore Sack Ooo TxRing Options Wire WireWf RtxQueue Rack RtxCover.
From S2P Require Import Congestion Tcb TcbAck TcbOutput Cookie TcbInput TcbTimers TcbRx TcbFrame TcbTx TcbEmit TcbSend.
Import Tcb RtxCover.

Section Inv.
Context `{C : Config} {Cok : ConfigOk C}.

(** [Qr] is the peer's stream and [m] how much of it was delivered; [Qs] is
    the application's stream and [w] how much of it was accepted. *)
Variables (Qr : Z -> Z -> Prop) (m : Z) (Qs : Z -> Z -> Prop) (w : Z).

Definition rx_ok (v : RxView) : Prop := exists n, rx_inv Qr m n v /\ fin_ahead v /\ rx_open m n v.

Definition none_lent : Z -> Prop := fun _ => False.

Definition tx_ok (s : t) : Prop := exists k, snd_inv Qs k w none_lent s.

Definition inv (s : t) : Prop := rx_ok (rx_view s) /\ tx_ok s.

(** [s'] is a later state of the same connection; what was lent is untouched. *)
Definition loan_kept (s s' : t) : Prop := send_lent s' = send_lent s /\ ring_step (send_ring s) (send_ring s').
Definition follows (s s' : t) : Prop := (conn_gen s', iss s') = (conn_gen s, iss s) /\ loan_kept s s'.

#[global] Instance follows_refl : Reflexive follows.
Proof using. intros s. split; [done|split; [done|apply ring_step_refl]]. Qed.

Lemma loan_trans s1 s2 s3 : loan_kept s1 s2 -> loan_kept s2 s3 -> loan_kept s1 s3.
Proof using. intros [? ?] [? ?]. split; [congruence|by eapply ring_step_trans]. Qed.

#[global] Instance follows_trans : Transitive follows.
Proof using. intros s1 s2 s3 [? ?] [? ?]. split; [congruence|by eapply loan_trans]. Qed.

Lemma link_parts s s' st tw : eg_view s' = set_eg (eg_view s) st tw -> send_ring s' = send_ring s -> link s' = link s.
Proof using.
  intros E1 E2. exact (f_equal2 (fun a b => (g_iss a, (g_gen a, g_lent a, b))) E1 E2).
Qed.

Lemma link_follows s s' : link s' = link s -> follows s s'.
Proof using. intros [= E0 E1 E2 E3]. split; [by rewrite E0, E1|]. split; [done|]. rewrite E3. apply ring_step_refl. Qed.

Lemma follows_gen s s' : follows s s' -> conn_gen s' = conn_gen s /\ iss s' = iss s /\ loan_kept s s'.
Proof using. by intros [[= ? ?] ?]. Qed.

(** A call that does not fail, keeps the connection and its invariant. *)
Definition holds {A} (s : t) (r : t * Res A) : Prop :=
  runs r (fun s' _ => inv s' /\ follows s s').

Lemma holds_ret {A} s s' (a : A) : inv s' -> follows s s' -> holds s (s', Ok a).
Proof using. intros. by apply runs_ret. Qed.

Lemma holds_bind {A B} s (r : t * Res A) (k : t -> A -> t * Res B) :
  holds s r -> (forall s1 a, inv s1 -> follows s s1 -> holds s1 (k s1 a)) -> holds s (st_bind r k).
Proof using.
  intros Hr Hk. eapply runs_bind; [exact Hr|]. intros s1 a [Hi Hg]. eapply runs_mono; [by apply Hk|].
  intros s2 b [? ?]. split; [done|by eapply follows_trans].
Qed.

Lemma holds_from {A} s s1 (r : t * Res A) : follows s s1 -> holds s1 r -> holds s r.
Proof using. intros Hg H. eapply runs_mono; [exact H|]. intros s2 a [? ?]. split; [done|by eapply follows_trans]. Qed.

Lemma views_rx s s' : views s' = views s -> rx_view s' = rx_view s.
Proof using. intros E. exact (f_equal (fun v => fst (fst v)) E). Qed.

Lemma views_follows s s' : views s' = views s -> follows s s'.
Proof using.
  intros E. apply link_follows. exact (f_equal (fun v => (g_iss (snd v), (g_gen (snd v), g_lent (snd v), v_ring (snd (fst v))))) E).
Qed.

Lemma views_state s s' : views s' = views s -> state s' = state s.
Proof using. intros E. exact (f_equal (fun v => x_state (fst (fst v))) E). Qed.

Lemma inv_views s s' : views s' = views s -> inv s -> inv s'.
Proof using.
  intros E [Hr (k & Hk)]. split; [|exists k; exact (snd_inv_views _ _ _ _ s s' Hk E)].
  rewrite (views_rx _ _ E). exact Hr.
Qed.

Lemma holds_views {A} s s1 (r : t * Res A) : views s1 = views s -> holds s1 r -> holds s r.
Proof using. intros E. apply holds_from, views_follows, E. Qed.

Lemma mask_rx s s' : s_mask s' = s_mask s -> rx_view s' = rx_view s.
Proof using. intros E. exact (f_equal rx_view E). Qed.

Lemma mask_follows s s' : s_mask s' = s_mask s -> follows s s'.
Proof using. intros E. apply link_follows. exact (f_equal link E). Qed.

(** What keeps the send side and touches nothing else. *)
Lemma holds_keeps {A} s k (r : t * Res A) :
  rx_ok (rx_view s) -> keeps Qs k w none_lent s r -> holds s r.
Proof using.
  intros Hr Hk. eapply runs_mono; [exact Hk|]. intros s' a [Hs Hm]. split; [|by apply mask_follows].
  split; [rewrite (mask_rx _ _ Hm); exact Hr|by exists k].
Qed.

Lemma holds_emitted {A} s (r : t * Res A) :
  inv s -> (eg_inv Qs (eg_view s) -> Ring.wf BUF (send_ring s) -> emitted_ok Qs s r) -> holds s r.
Proof using.
  intros [Hr (k & Hk)] He. apply (holds_keeps s k); [exact Hr|]. apply keeps_emitted; [exact Hk|].
  apply He; [apply Hk|by eapply snd_ring].
Qed.

Lemma holds_loss s s' : loss_step s s' -> inv s -> inv s'.
Proof using.
  intros Hl [Hr (k & Ht & He)]. destruct (loss_views _ _ Hl) as (E1 & _ & E3).
  split; [rewrite E1; exact Hr|exists k; split; [by eapply tx_inv_loss|rewrite E3; exact He]].
Qed.

Lemma loss_follows s s' : loss_step s s' -> follows s s'.
Proof using.
  intros [E _]. apply link_follows. exact (f_equal (fun v => (g_iss (snd v), (g_gen (snd v), g_lent (snd v), v_ring (snd (fst v))))) E).
Qed.

Lemma maybe_send_data_inv s : inv s -> holds s (maybe_send_data s).
Proof using Cok. intros [Hr (k & Hk)]. eapply holds_keeps; [exact Hr|]. apply maybe_send_data_ok. exact Hk. Qed.

Lemma send_pure_ack_inv s : inv s -> holds s (send_pure_ack s).
Proof using Cok. intros Hi. apply (holds_emitted s); [exact Hi|]. apply send_pure_ack_ok. Qed.

Lemma send_oow_ack_inv s : inv s -> holds s (send_oow_ack s).
Proof using Cok. intros Hi. apply (holds_emitted s); [exact Hi|]. apply send_oow_ack_ok. Qed.

Lemma reset_stray_ack_inv s seg : inv s -> seg_wf seg -> holds s (reset_stray_ack s seg).
Proof using Cok.
  intros Hi Hw. apply (holds_emitted s); [exact Hi|]. intros He _. apply reset_stray_ack_ok; [exact He|apply Hw].
Qed.

Lemma emit_synack_inv s : inv s -> holds s (emit_synack s).
Proof using Cok. intros Hi. apply (holds_emitted s); [exact Hi|]. apply emit_synack_ok. Qed.

Lemma emit_ctl_inv s f q a : Z.land f flags.SYN = 0 -> inv s -> holds s (emit_ctl s f q a).
Proof using Cok. intros Hf Hi. apply (holds_emitted s); [exact Hi|]. intros He Hr. by apply emit_ctl_ok. Qed.

Lemma emit_probe_inv s q : inv s -> holds s (emit_probe s q).
Proof using Cok. intros Hi. apply (holds_emitted s); [exact Hi|]. intros He Hr. by apply emit_probe_ok. Qed.

(** ** Teardown *)

Definition released (v : TxView) : TxView :=
  mkTxView Closed (v_iss v) (v_una v) (v_una v) false false (v_fseq v) (Rtx.clear (v_rtx v)) (Ring.clear (v_ring v))
    Deadline.OFF.

Lemma released_inv k v : tx_inv Qs k w none_lent v -> tx_inv Qs w w none_lent (released v).
Proof using Cok.
  intros [(Hu & Hn & Hi & Hf) Hst Hc _ _ _ _ _ _ _ _].
  destruct (stores_clear BUF BUF_pow2 Qs (v_ring v) w (st_wf _ _ _ _ _ _ Hst)) as [Hst' Hl].
  assert (Hb : v_base (released v) = v_una v) by (unfold v_base; cbn -[Z.add]; clear -Hu; word_lia).
  assert (Ho : v_out (released v) = 0) by (unfold v_out; rewrite Hb; cbn; unfold off; clear; word_lia).
  assert (Hx : v_finout (released v) = false) by done.
  split; rewrite ?Hb, ?Ho, ?Hx; try done.
  - destruct rtx_words as (W & HW & HC). by eapply (covers_clear RTX W).
  - unfold v_text. rewrite Ho, Hx. cbn. lia.
Qed.

Lemma eg_inv_at v st tw :
  eg_inv Qs v -> (Deadline.is_armed tw = true -> st = TimeWait) -> eg_inv Qs (set_eg v st tw).
Proof using. intros [] H. by split. Qed.

Lemma released_ok s s' :
  tx_ok s -> tx_view s' = released (tx_view s) -> eg_view s' = set_eg (eg_view s) Closed Deadline.OFF -> tx_ok s'.
Proof using Cok.
  intros (k & Ht & He) Et Ee. exists w. split; [rewrite Et; by eapply released_inv|]. rewrite Ee. by apply eg_inv_at.
Qed.

(** The receive side of a closed connection: nothing parked, no FIN held. *)
Lemma rx_closed v v' :
  rx_ok v -> x_state v' = Closed -> x_irs v' = x_irs v -> x_nxt v' = x_nxt v -> x_ooo v' = Ooo.clear (x_ooo v) ->
  x_fin v' = None -> x_ring v' = x_ring v \/ x_ring v' = Ring.clear (x_ring v) -> rx_ok v'.
Proof using Cok.
  intros (n & [Hu Hwf Hst _ _] & _ & _) E1 E2 E3 E4 E5 E6.
  assert (Hr : exists n', stores BUF Qr m n' none_lent (x_ring v')).
  { destruct E6 as [->| ->]; [exists n; eapply stores_iff, Hst; done|exists m].
    apply (stores_clear BUF BUF_pow2 Qr). apply Hst. }
  destruct Hr as [n' Hr]. exists n'. split; [|split].
  - split; rewrite ?E1, ?E2, ?E3, ?E4, ?E5; try done; [by eapply Ooo.clear_wf|].
    eapply stores_iff, Hr. intros x Hx. by apply Ooo.held_clear in Hx.
  - intros h. by rewrite E5.
  - intros Ho. by rewrite E1 in Ho.
Qed.

Lemma close_clean_inv s : inv s -> inv (close_clean s).
Proof using Cok.
  intros [Hr Ht]. split; [|apply (released_ok s); [exact Ht|reflexivity|reflexivity]].
  apply (rx_closed (rx_view s)); try reflexivity; [exact Hr|left; reflexivity].
Qed.

Lemma abort_local_inv s : inv s -> inv (abort_local s).
Proof using Cok.
  intros [Hr Ht]. split; [|apply (released_ok s); [exact Ht|reflexivity|reflexivity]].
  apply (rx_closed (rx_view s)); try reflexivity; [exact Hr|right; reflexivity].
Qed.

Lemma close_clean_follows s : follows s (close_clean s).
Proof using. split; [reflexivity|]. split; [reflexivity|]. exact (ring_step_clear (send_ring s)). Qed.

Lemma abort_local_follows s : follows s (abort_local s).
Proof using. split; [reflexivity|]. split; [reflexivity|]. exact (ring_step_clear (send_ring s)). Qed.

Lemma on_reset_received_inv s : inv s -> inv (on_reset_received s) /\ follows s (on_reset_received s).
Proof using Cok.
  intros Hi. unfold on_reset_received.
  split; [|destruct (state s); first [exact (abort_local_follows s)|exact (close_clean_follows s)]].
  destruct (state s); match goal with
  | |- inv (abort_local _) => exact (abort_local_inv s Hi)
  | _ => exact (close_clean_inv s Hi)
  end.
Qed.

(** ** Moves of the state machine *)

Definition set_state (v : TxView) (st : State) : TxView :=
  mkTxView st (v_iss v) (v_una v) (v_nxt v) (v_syn v) (v_fin v) (v_fseq v) (v_rtx v) (v_ring v) (v_rto v).

Definition rx_state (v : RxView) (st : State) : RxView :=
  mkRxView st (x_irs v) (x_nxt v) (x_ring v) (x_ooo v) (x_fin v).

(** A move that neither opens nor reopens the receive side. *)
Lemma rx_move v st :
  rx_ok v -> opening st = false -> opening (x_state v) = false -> 
  (can_recv (x_state v) = can_recv st \/ x_fin v = None /\ can_recv st = false) -> rx_ok (rx_state v st).
Proof using.
  intros (n & [Hu Hwf Hst Hb Hf] & Ha & _) Ho Ho' Hc. exists n. split; [|split].
  - split; cbn; try done.
    + intros Hs. apply Hb. destruct Hc as [->|[_ ?]]; congruence.
    + intros h Hh. destruct Hc as [<-|[? _]]; [by apply Hf|congruence].
  - exact Ha.
  - intros Hs. cbn in Hs. congruence.
Qed.

(** When the FIN is acknowledged nothing is outstanding and nothing is queued. *)
Lemma tx_fin_acked k v :
  tx_inv Qs k w none_lent v -> v_fin v = true -> v_una v = v_nxt v -> v_out v = 0 /\ Ring.len (v_ring v) = 0.
Proof using Cok.
  intros Hi Hf He. pose proof (proj1 (tx_edges _ _ _ _ _ Hi) He) as [_ Ho]. split; [done|].
  destruct (tx_fin _ _ _ _ _ Hi Hf) as (Ht & _). unfold v_text, v_finout in Ht. rewrite Ho, He, Z.eqb_refl, andb_false_r in Ht.
  cbn in Ht. lia.
Qed.

Lemma tx_move k v st :
  tx_inv Qs k w none_lent v -> fin_state st = true \/ fin_state st = fin_state (v_state v) ->
  (fin_acked_state st = true -> v_fin v = true /\ v_una v = v_nxt v) ->
  (may_transmit st = false -> v_out v = 0 /\ Ring.len (v_ring v) = 0) -> opening st = false ->
  v_state v <> Closed -> v_state v <> Listen -> tx_inv Qs k w none_lent (set_state v st).
Proof using.
  intros [Hu Hst Hc Ht Hfn Hak Hqt Hsy Hop Hba Hrt] Hf Ha Hq Ho H1 H2. split; try done; cbn.
  - intros Hx. destruct (Hfn Hx) as (? & ? & Hs). split_and!; try done. destruct Hf as [?|Hf]; [done|by rewrite Hf].
  - by rewrite Ho.
  - intros _ _. by apply Hba.
Qed.

(** [s'] is [s] in state [st]. *)
Definition moved (s s' : t) (st : State) : Prop :=
  rx_view s' = rx_state (rx_view s) st /\ tx_view s' = set_state (tx_view s) st /\
  exists tw, eg_view s' = set_eg (eg_view s) st tw /\ (Deadline.is_armed tw = true -> st = TimeWait).

Lemma moved_inv s s' st :
  inv s -> moved s s' st -> opening st = false -> opening (state s) = false ->
  (can_recv (state s) = can_recv st \/ ooo_fin s = None /\ can_recv st = false) ->
  fin_state st = true \/ fin_state st = fin_state (state s) ->
  (fin_acked_state st = true -> fin_sent s = true /\ snd_una s = snd_nxt s) ->
  (may_transmit st = false -> fin_sent s = true /\ snd_una s = snd_nxt s) ->
  state s <> Closed -> state s <> Listen -> inv s'.
Proof using Cok.
  intros [Hr (k & Ht & He)] (Er & Et & tw & Eg & Htw) H1 H2 H3 H4 H5 H6 H7 H8. split.
  - rewrite Er. by apply rx_move.
  - exists k. split; [|rewrite Eg; by apply eg_inv_at]. rewrite Et. apply tx_move; try done.
    intros Hm. destruct (H6 Hm). by eapply tx_fin_acked.
Qed.

(** Outside TIME-WAIT its timer is off. *)
Lemma tw_state s st : inv s -> state s <> TimeWait -> Deadline.is_armed (time_wait_deadline s) = true -> st = TimeWait.
Proof using. intros [_ (k & _ & He)] Hs Ha. by apply (eg_tw _ _ He) in Ha. Qed.

(** What acknowledging the FIN does to the receive side. *)
Record rx_kept (s s' : t) : Prop := mk_rx_kept {
  rk_follows : follows s s';
  rk_nxt : rcv_nxt s' = rcv_nxt s;
  rk_ring : recv_ring s' = recv_ring s;
  rk_recv : can_recv (state s') = true -> can_recv (state s) = true;
  rk_open : opening (state s') = opening (state s);
}.

Lemma rx_kept_views s s' : rx_view s' = rx_view s -> follows s s' -> rx_kept s s'.
Proof using.
  intros E Hg. pose proof (f_equal x_state E) as Es. cbn in Es.
  split; [exact Hg|exact (f_equal x_nxt E)|exact (f_equal x_ring E)|by rewrite Es|by rewrite Es].
Qed.

Lemma rx_kept_trans s1 s2 s3 : rx_kept s1 s2 -> rx_kept s2 s3 -> rx_kept s1 s3.
Proof using. intros [] []. split; [by eapply follows_trans|congruence|congruence|auto|congruence]. Qed.

Lemma ack_fin_inv s : inv s -> inv (ack_fin s) /\ rx_kept s (ack_fin s).
Proof using Cok.
  intros Hi. unfold ack_fin. destruct (fin_sent s && (snd_una s =? snd_nxt s)) eqn:Hf; [|split; [exact Hi|by apply rx_kept_views, follows_refl]].
  apply andb_true_iff in Hf as [Hf Hu%Z.eqb_eq].
  assert (Hm : forall s' st, moved s s' st -> opening st = false -> opening (state s) = false ->
    can_recv (state s) = can_recv st -> fin_state st = true -> state s <> Closed -> state s <> Listen -> inv s')
    by (intros; eapply moved_inv; eauto).
  destruct (state s) eqn:Hs; try (split; [exact Hi|by apply rx_kept_views, follows_refl]).
  - split; [|case_if; split; cbn; rewrite ?Hs; try done; apply (follows_refl s)]. apply (Hm _ FinWait2); try done.
    case_if; (split; [reflexivity|]); (split; [reflexivity|]); exists (time_wait_deadline s); (split; [reflexivity|]);
      apply (tw_state s FinWait2 Hi); congruence.
  - split; [|split; cbn; rewrite ?Hs; try done; apply (follows_refl s)]. apply (Hm _ TimeWait); try done.
    split; [reflexivity|]. split; [reflexivity|]. eexists. split; [reflexivity|done].
  - split; [exact (close_clean_inv s Hi)|split; cbn; rewrite ?Hs; try done; exact (close_clean_follows s)].
Qed.

Lemma process_ack_inv s seg :
  inv s -> seg_wf seg -> seq_gt (seg_ack seg) (snd_nxt s) = false -> opening (state s) = false ->
  inv (process_ack s seg) /\ rx_kept s (process_ack s seg).
Proof using Cok.
  intros [Hr (k & Ht & He)] Hw Ha Ho.
  destruct (process_ack_ok Qs k w none_lent s seg Ht Hw Ha Ho) as (s1 & Hp & E1 & E2 & E3 & k' & _ & Ht1).
  assert (Hi1 : inv s1) by (split; [rewrite E1; exact Hr|exists (k + k'); split; [exact Ht1|rewrite E2; exact He]]).
  assert (Hk1 : rx_kept s s1) by (apply rx_kept_views; [exact E1|split; [exact (f_equal (fun v => (g_gen v, g_iss v)) E2)|split; [exact (f_equal g_lent E2)|exact E3]]]).
  destruct Hp as [->| ->]; [|done]. destruct (ack_fin_inv s1 Hi1) as [Hi2 Hk2]. split; [done|]. by eapply rx_kept_trans.
Qed.

(** ** Timers *)

Lemma arm_rto_inv s : inv s -> snd_una s <> snd_nxt s -> inv (arm_rto s).
Proof using.
  intros [Hr (k & Ht & He)] Hne. split; [exact Hr|]. exists k. split; [|exact He].
  apply (tx_inv_rto _ _ _ _ _ (Deadline.at_ (sat_add64 (now_ms s) (rto_ms s))) Ht). intros _. exact Hne.
Qed.

Lemma arm_rto_follows s s' : follows s s' -> follows s (arm_rto s').
Proof using. intros H. exact H. Qed.

Lemma rto_off_inv s : inv s -> inv (s <| rto_deadline := Deadline.OFF |>).
Proof using.
  intros [Hr (k & Ht & He)]. split; [exact Hr|]. exists k. split; [|exact He].
  apply (tx_inv_rto _ _ _ _ _ Deadline.OFF Ht). done.
Qed.

(** The handshake's SYN is outstanding. *)
Lemma opening_edges s : inv s -> opening (state s) = true -> snd_una s <> snd_nxt s.
Proof using Cok.
  intros [_ (k & Ht & _)] Ho. pose proof (tx_open _ _ _ _ _ Ht Ho) as Hy. intros E.
  apply (tx_edges _ _ _ _ _ Ht) in E as [E _]. congruence.
Qed.

Lemma mask_edges s s' : e_mask s' = e_mask s -> snd_una s' = snd_una s /\ snd_nxt s' = snd_nxt s.
Proof using. intros E. split; [exact (f_equal snd_una E)|exact (f_equal snd_nxt E)]. Qed.

(** Send a handshake segment again and back the timer off. *)
Lemma resend_inv {A} s (f : t -> t * Res A) :
  inv s -> snd_una s <> snd_nxt s -> emitted_ok Qs s (f s) -> holds s (try self := f s in (arm_rto self, Ok tt)).
Proof using.
  intros [Hr (k & Hk)] Hne He. eapply runs_bind; [exact He|]. intros s1 a [Hm Hg]. apply runs_ret.
  pose proof (snd_emitted _ _ _ _ s s1 Hk Hm Hg) as Hk1. destruct (mask_edges _ _ Hm) as [E1 E2].
  apply e_s_mask in Hm. split; [|apply arm_rto_follows; by apply mask_follows].
  apply arm_rto_inv; [|congruence]. split; [rewrite (mask_rx _ _ Hm); exact Hr|by exists k].
Qed.

Lemma emit_syn_emitted s : eg_inv Qs (eg_view s) -> Ring.wf BUF (send_ring s) -> emitted_ok Qs s (emit_syn s).
Proof using Cok. intros He Hr. eapply runs_mono; [by apply (emit_syn_ok Qs)|]. intros s' b (? & ? & _). done. Qed.

Lemma inv_parts s : inv s -> eg_inv Qs (eg_view s) /\ Ring.wf BUF (send_ring s).
Proof using. intros [_ (k & Hk)]. split; [apply Hk|by eapply snd_ring]. Qed.

Lemma syn_sent_timer_inv s : inv s -> state s = SynSent -> holds s (syn_sent_timer s).
Proof using Cok.
  intros Hi Hs. unfold syn_sent_timer. case_if; [by apply holds_ret|].
  set (s1 := set_field rtx_count _ _). assert (E1 : views s1 = views s) by reflexivity.
  assert (Hi1 : inv s1) by exact (inv_views _ _ E1 Hi). clearbody s1. case_if.
  - apply holds_ret; [by apply abort_local_inv|]. eapply follows_trans; [by apply views_follows|apply abort_local_follows].
  - set (s2 := backoff_rto _). assert (E2 : views s2 = views s) by exact E1.
    assert (Hi2 : inv s2) by exact (inv_views _ _ E2 Hi). apply (holds_views _ s2 _ E2).
    assert (Hne : snd_una s2 <> snd_nxt s2).
    { apply opening_edges; [exact Hi2|]. by rewrite (views_state _ _ E2), Hs. }
    destruct (inv_parts s2 Hi2). apply (resend_inv s2 emit_syn); [done|done|by apply emit_syn_emitted].
Qed.

Lemma blackhole_check_views s : views (blackhole_check s) = views s.
Proof using. unfold blackhole_check. repeat case_match; reflexivity. Qed.

Lemma loss_rtx s q :
  (forall a n f, covers RTX a n f (rtx s) -> covers RTX a n f q) -> loss_step s (s <| rtx := q |>).
Proof using. intros Hq. split; [reflexivity|exact Hq]. Qed.

(** All but the last step of [rto_collapse]. *)
Lemma rto_collapse_step s : exists s1, rto_collapse s = arm_rto s1 /\ loss_step s s1.
Proof using Cok.
  destruct rtx_words as (W & HW & HC). unfold rto_collapse. eexists; split; [reflexivity|].
  set (s1 := blackhole_check _).
  assert (L1 : loss_step s s1) by (apply loss_same; unfold s1; rewrite blackhole_check_views; reflexivity). clearbody s1.
  set (s2 := if (_ : bool) then _ else s1).
  assert (L2 : loss_step s1 s2).
  { unfold s2. case_if; [|by apply loss_same]. apply loss_rtx. intros. by apply (covers_clear_sacked RTX W). }
  clearbody s2. apply (loss_trans _ _ _ L1), (loss_trans _ _ _ L2).
  set (s3 := set_field cc s2 _). assert (L3 : loss_step s2 s3) by (apply loss_same; reflexivity). clearbody s3.
  set (s4 := set_field rtx s3 _).
  assert (L4 : loss_step s3 s4) by (apply loss_rtx; intros; by apply (covers_mark_all_lost RTX W)). clearbody s4.
  apply (loss_trans _ _ _ L3), (loss_trans _ _ _ L4), loss_same. reflexivity.
Qed.

Lemma loss_edges s s' : loss_step s s' -> snd_una s' = snd_una s /\ snd_nxt s' = snd_nxt s.
Proof using.
  intros [E _]. split; [exact (f_equal (fun v => v_una (snd (fst v))) E)|exact (f_equal (fun v => v_nxt (snd (fst v))) E)].
Qed.

Lemma rto_collapse_inv s :
  inv s -> snd_una s <> snd_nxt s -> inv (rto_collapse s) /\ follows s (rto_collapse s).
Proof using Cok.
  intros Hi Hne. destruct (rto_collapse_step s) as (s1 & -> & L).
  destruct (loss_edges _ _ L) as [E1 E2]. split; [|by apply arm_rto_follows, loss_follows].
  apply arm_rto_inv; [exact (holds_loss _ _ L Hi)|congruence].
Qed.

Lemma on_rto_inv s : inv s -> inv (on_rto s) /\ follows s (on_rto s).
Proof using Cok.
  intros Hi. apply rto_off_inv in Hi. unfold on_rto. set (s1 := set_field rto_deadline _ _) in *.
  assert (Hg : follows s s1) by apply (follows_refl s). clearbody s1.
  destruct (Z.eqb_spec (snd_una s1) (snd_nxt s1)) as [|Hne]; [done|].
  set (s2 := set_field rtx_count s1 _). assert (Hi2 : inv s2) by (apply (inv_views s1); [reflexivity|exact Hi]).
  assert (Hg2 : follows s1 s2) by apply (follows_refl s1). assert (Hne2 : snd_una s2 <> snd_nxt s2) by exact Hne.
  clearbody s2. pose proof (follows_trans _ _ _ Hg Hg2) as Hf.
  case_if; [split; [by apply abort_local_inv|eapply follows_trans; [exact Hf|apply abort_local_follows]]|].
  destruct (rto_collapse_inv s2 Hi2 Hne2). split; [done|by eapply follows_trans].
Qed.

Lemma unsent_transmit k s : tx_inv Qs k w none_lent (tx_view s) -> 0 < unsent_bytes s -> may_transmit (state s) = true.
Proof using Cok.
  intros Ht Hu. rewrite (unsent_eq _ _ _ _ s Ht) in Hu. pose proof (tx_bounds _ _ _ _ _ Ht) as (Hx & _).
  destruct (may_transmit (state s)) eqn:Hm; [done|]. destruct (tx_quiet _ _ _ _ _ Ht Hm) as [_ Hz]. cbn in Hz. lia.
Qed.

(** Both ways of [tlp_probe] stage one segment or none. *)
Lemma tlp_probe_inv s :
  inv s ->
  runs (tlp_probe s) (fun s' r => inv s' /\ s_mask s' = s_mask s /\ (fst r = true -> snd_una s' <> snd_nxt s')).
Proof using Cok.
  intros [Hr (k & Hk)]. unfold tlp_probe. destruct (mss_payload_fit s (eg_mss _ _ (proj2 Hk))) as [Hm1 Hm2].
  assert (Hd : forall s', snd_inv Qs k w none_lent s' -> s_mask s' = s_mask s -> inv s')
    by (intros s' H1 H2; split; [rewrite (mask_rx _ _ H2); exact Hr|by exists k]).
  case_if.
  - bool_facts. assert (Hst : may_transmit (state s) = true) by (eapply unsent_transmit; [apply Hk|lia]). eapply runs_bind; [apply (emit_new_ok Qs k w none_lent s); [done|apply (sendable_len Qs k w none_lent); [apply Hk|done|lia]|lia|done]|].
    intros s1 b (Hi1 & Hm & _ & _ & Hne). apply runs_ret. split; [by apply Hd|]. split; [exact Hm|exact Hne].
  - assert (Hs : runs (s, Ok (false, false)) (fun s' r => inv s' /\ s_mask s' = s_mask s /\ (fst r = true -> snd_una s' <> snd_nxt s')))
      by (apply runs_ret; split; [by apply Hd|split; [reflexivity|done]]).
    destruct (Z.eqb_spec (Rtx.len (rtx s)) 0) as [|Hl]; [exact Hs|].
    destruct (Rtx.get_seg RTX (rtx s) (Rtx.len (rtx s) - 1)) as [sg|] eqn:Hg; [|exact Hs].
    destruct (Seg.has sg seg_flags.SACKED) eqn:Hsk; [exact Hs|]. cbn [negb].
    pose proof (covers_bounds _ _ _ _ _ (tx_covers _ _ _ _ _ (proj1 Hk))) as (_ & _ & Hlen & _).
    change (v_rtx (tx_view s)) with (rtx s) in Hlen.
    eapply runs_bind; [apply (retransmit_ok Qs k w none_lent s); [done|lia|rewrite Hg; by intros ? [= <-]]|].
    intros s1 b (Hi1 & Hm & _ & _ & Hne). apply runs_ret. split; [by apply Hd|]. split; [exact Hm|exact Hne].
Qed.

Lemma fire_tlp_inv s : inv s -> holds s (fire_tlp s).
Proof using Cok.
  intros Hi. unfold fire_tlp. set (s1 := set_field tlp_deadline s _). assert (E1 : views s1 = views s) by reflexivity.
  assert (Hi1 : inv s1) by exact (inv_views _ _ E1 Hi). clearbody s1. apply (holds_views _ s1 _ E1).
  destruct (negb _); [by apply holds_ret|]. destruct (egress_full s1).
  { pose proof (maybe_arm_tlp_views s1) as E. apply holds_ret; [exact (inv_views _ _ E Hi1)|exact (views_follows _ _ E)]. }
  eapply runs_bind; [exact (tlp_probe_inv s1 Hi1)|]. intros s2 [sent re] (Hi2 & Hm2 & Hne). cbn [fst snd] in *.
  apply mask_follows in Hm2. destruct sent; [|by apply runs_ret]. specialize (Hne eq_refl).
  set (s3 := set_field tlp_deadline _ _). assert (E3 : views s3 = views s2) by reflexivity.
  assert (Hne3 : snd_una s3 <> snd_nxt s3) by exact Hne. clearbody s3. apply runs_ret.
  split; [apply arm_rto_inv; [exact (inv_views _ _ E3 Hi2)|exact Hne3]|]. apply arm_rto_follows.
  eapply follows_trans; [exact Hm2|by apply views_follows].
Qed.

Lemma rack_timer_step s : loss_step s (rack_timer s).
Proof using Cok.
  unfold rack_timer. set (s1 := set_field rack_deadline s _). assert (L1 : loss_step s s1) by (apply loss_same; reflexivity).
  clearbody s1. apply (loss_trans _ _ _ L1). pose proof (rack_detect_step s1) as L2.
  destruct (rack_detect s1) as [s2 [|]]; [|exact L2]. cbn [fst] in L2. apply (loss_trans _ _ _ L2). apply loss_same.
  set (s3 := if negb _ then _ else s2).
  assert (E3 : views s3 = views s2) by (unfold s3; case_if; [apply enter_fast_recovery_views|reflexivity]).
  clearbody s3. exact E3.
Qed.

Lemma persist_backoff_views s : views (persist_backoff s) = views s.
Proof using. unfold persist_backoff. case_if; reflexivity. Qed.

Lemma persist_backoff_inv s s' : inv s' -> follows s s' -> holds s (persist_backoff s', Ok tt).
Proof using.
  intros Hi Hg. pose proof (persist_backoff_views s') as E.
  apply holds_ret; [exact (inv_views _ _ E Hi)|eapply follows_trans; [exact Hg|by apply views_follows]].
Qed.

Lemma on_persist_timer_inv s : inv s -> holds s (on_persist_timer s).
Proof using Cok.
  intros Hi. unfold on_persist_timer. set (s1 := set_field persist_deadline s _).
  assert (E1 : views s1 = views s) by reflexivity.
  assert (Hi1 : inv s1) by exact (inv_views _ _ E1 Hi). clearbody s1. apply (holds_views _ s1 _ E1).
  destruct ((unsent_bytes s1 =? 0) || negb (snd_una s1 =? snd_nxt s1)) eqn:Hq; [by apply holds_ret|]. bool_facts.
  destruct (egress_full s1); [apply holds_ret; [apply (inv_views s1); [reflexivity|done]|exact (follows_refl s1)]|].
  destruct ((0 <? usable_window s1) && negb (Rtx.is_full RTX (rtx s1))) eqn:Hus.
  - bool_facts. destruct Hi1 as [Hr (k & Hk)]. destruct (mss_payload_fit s1 (eg_mss _ _ (proj2 Hk))) as [Hm1 Hm2].
    assert (Hu : 0 < unsent_bytes s1) by (unfold unsent_bytes, sat_sub in *; lia).
    pose proof (unsent_transmit k s1 (proj1 Hk) Hu) as Hst.
    eapply runs_bind; [apply (emit_new_ok Qs k w none_lent s1); [done|apply (sendable_len Qs k w none_lent); [apply Hk|done|lia]|lia|done]|].
    intros s2 b (Hi2 & Hm & _). apply (persist_backoff_inv s1); [|by apply mask_follows].
    split; [rewrite (mask_rx _ _ Hm); exact Hr|by exists k].
  - apply holds_bind; [by apply emit_probe_inv|]. intros s2 b Hi2 Hg2.
    set (s3 := set_field rtx_count s2 _). assert (E3 : views s3 = views s2) by reflexivity. clearbody s3.
    pose proof (inv_views _ _ E3 Hi2) as Hi3. pose proof (views_follows _ _ E3) as Hg3.
    case_if; [|by apply persist_backoff_inv]. apply holds_ret; [by apply abort_local_inv|eapply follows_trans; [exact Hg3|apply abort_local_follows]].
Qed.

Lemma holds_same {A} s s' (a : A) : views s' = views s -> inv s -> holds s (s', Ok a).
Proof using. intros E Hi. apply holds_ret; [exact (inv_views _ _ E Hi)|exact (views_follows _ _ E)]. Qed.

Lemma check_keepalive_inv s : inv s -> holds s (check_keepalive s).
Proof using Cok.
  intros Hi. unfold check_keepalive. destruct (_ || _); [by apply holds_ret|].
  destruct (negb _); [apply holds_same; [reflexivity|exact Hi]|].
  destruct (has_send_work s); [apply holds_same; [reflexivity|exact Hi]|].
  destruct (_ <=? _).
  - case_if; apply holds_ret;
      [exact (close_clean_inv s Hi)|exact (close_clean_follows s)|exact (abort_local_inv s Hi)|exact (abort_local_follows s)].
  - apply holds_bind; [by apply emit_probe_inv|]. intros s1 b Hi1 Hg1.
    destruct b; apply holds_same; [reflexivity|exact Hi1|reflexivity|exact Hi1].
Qed.

Lemma check_user_timeout_inv s : inv s -> inv (check_user_timeout s) /\ follows s (check_user_timeout s).
Proof using Cok.
  intros Hi. unfold check_user_timeout. repeat case_if; (split; [first [exact Hi|exact (abort_local_inv s Hi)]|
    first [exact (follows_refl s)|exact (abort_local_follows s)]]).
Qed.

Lemma recovery_timers_inv s : inv s -> holds s (recovery_timers s).
Proof using Cok.
  intros Hi. unfold recovery_timers. apply holds_bind; [case_if; [by apply fire_tlp_inv|by apply holds_ret]|].
  intros s1 _ Hi1 Hg1. set (f := is_synchronized (state s1) && _). clearbody f.
  set (s2 := if f then on_rto s1 else s1).
  assert (H2 : inv s2 /\ follows s1 s2) by (unfold s2; destruct f; [by apply on_rto_inv|done]).
  clearbody s2. destruct H2 as [Hi2 Hg2]. case_if; [by apply holds_ret|]. case_if; [|by apply holds_ret].
  pose proof (rack_timer_step s2) as L. apply holds_ret; [exact (holds_loss _ _ L Hi2)|]. eapply follows_trans; [exact Hg2|by apply loss_follows].
Qed.

Lemma liveness_timers_inv s : inv s -> holds s (liveness_timers s).
Proof using Cok.
  intros Hi. unfold liveness_timers. apply holds_bind; [case_if; [by apply on_persist_timer_inv|by apply holds_ret]|].
  intros s1 _ Hi1 Hg1. case_if; [by apply holds_ret|]. apply holds_bind; [by apply check_keepalive_inv|].
  intros s2 _ Hi2 Hg2. destruct (check_user_timeout_inv s2 Hi2). by apply holds_ret.
Qed.

(** ** Segments of a synchronized connection *)

Lemma consume_fin_tx s :
  tx_ok s -> can_recv (state s) = true -> tx_ok (consume_fin s) /\ link (consume_fin s) = link s.
Proof using Cok.
  intros (k & Ht & He) Hc.
  assert (Hm : forall s' st tw, tx_view s' = set_state (tx_view s) st -> eg_view s' = set_eg (eg_view s) st tw ->
    (Deadline.is_armed tw = true -> st = TimeWait) ->
    fin_state st = true \/ fin_state st = fin_state (state s) ->
    (fin_acked_state st = true -> fin_sent s = true /\ snd_una s = snd_nxt s) ->
    (may_transmit st = false -> fin_sent s = true /\ snd_una s = snd_nxt s) -> opening st = false -> tx_ok s').
  { intros s' st tw Et Eg Htw H1 H2 H3 H4. exists k. split; [|rewrite Eg; by apply eg_inv_at]. rewrite Et. apply tx_move; try done.
    - intros Hq. destruct (H3 Hq). by eapply tx_fin_acked.
    - intros E. cbn in E. by rewrite E in Hc.
    - intros E. cbn in E. by rewrite E in Hc. }
  assert (Hoff : forall st, Deadline.is_armed (time_wait_deadline s) = true -> st = TimeWait)
    by (intros st Ha; apply (eg_tw _ _ He) in Ha; cbn in Ha; rewrite Ha in Hc; done).
  unfold consume_fin. set (s1 := set_field ooo_fin _ _). unfold advance_state_on_remote_fin.
  change (state s1) with (state s). destruct (state s) eqn:Hs; try done.
  - split; [|reflexivity]. apply (Hm _ CloseWait (time_wait_deadline s)); try done; [by apply Hoff|by right].
  - destruct (fin_sent s1 && (snd_una s1 =? snd_nxt s1)) eqn:Hf; (split; [|reflexivity]).
    + eapply (Hm _ TimeWait); try done; [by left| |]; intros _; bool_facts; done.
    + apply (Hm _ Closing (time_wait_deadline s)); try done; [by apply Hoff|by left].
  - split; [|reflexivity]. pose proof (tx_acked _ _ _ _ _ Ht) as Ha. cbn in Ha. rewrite Hs in Ha. specialize (Ha eq_refl).
    eapply (Hm _ TimeWait); try done. by left.
Qed.

Lemma r_mask_tx s s' : r_mask s' = r_mask s -> tx_view s' = tx_view s /\ eg_view s' = eg_view s.
Proof using. intros E. split; [exact (f_equal tx_view E)|exact (f_equal eg_view E)]. Qed.

Lemma tx_ok_views s s' : tx_view s' = tx_view s -> eg_view s' = eg_view s -> tx_ok s -> tx_ok s'.
Proof using. intros E1 E2 (k & H1 & H2). exists k. split; [rewrite E1; exact H1|rewrite E2; exact H2]. Qed.

(** The peer's bytes of a segment are those of its stream. *)
Definition honest (s : t) (seg : Segment) : Prop :=
  can_recv (state s) = true -> genuine Qr (m + Ring.len (recv_ring s)) s seg.

Lemma receive_text_inv s seg fin :
  inv s -> seg_wf seg -> opening (state s) = false -> honest s seg ->
  let s' := fst (receive_text s seg (as_u32 (zlen (payload seg))) fin) in
  inv s' /\ follows s s'.
Proof using Cok.
  intros [(n & Hr & Ha & _) Ht] Hw Ho HQ.
  assert (Hn : n = m + Ring.len (recv_ring s)) by exact (st_len _ _ _ _ _ _ (rx_stores _ _ _ _ Hr)).
  unfold honest in HQ. rewrite <- Hn in HQ.
  destruct (receive_text_ok Qr s seg fin m n Hr Ha) as (k & _ & Hr' & Ha'); [by split; apply Hw|exact HQ|].
  pose proof (receive_text_mask s seg (as_u32 (zlen (payload seg))) fin) as Hm.
  set (s' := fst _) in *. clearbody s'. cbn zeta in *.
  assert (Hx : tx_ok s' /\ link s' = link s /\ opening (state s') = false).
  { destruct Hm as [Hm|(s1 & Hm & Hc & ->)].
    - destruct (r_mask_tx _ _ Hm) as [E1 E2]. split; [by apply (tx_ok_views s)|].
      split; [exact (f_equal link Hm)|]. by rewrite (r_mask_state _ _ Hm).
    - destruct (r_mask_tx _ _ Hm) as [E1 E2]. rewrite <- (r_mask_state _ _ Hm) in Hc.
      destruct (consume_fin_tx s1) as [H1 H2]; [by apply (tx_ok_views s)|done|]. split; [done|].
      split; [rewrite H2; exact (f_equal link Hm)|].
      destruct (consume_fin_view s1 Hc) as (st & _ & Hst & E). apply (f_equal x_state) in E. cbn in E. by rewrite E. }
  destruct Hx as (H1 & H2%link_follows & H3). split; [split; [|done]|done]. exists (n + k). split; [done|]. split; [done|].
  intros Hop. cbn in Hop. congruence.
Qed.

Lemma update_ts_recent_views s seg : views (update_ts_recent s seg) = views s.
Proof using. unfold update_ts_recent. repeat case_match; reflexivity. Qed.

Lemma ecn_echo_views s seg l : views (ecn_echo s seg l) = views s.
Proof using. unfold ecn_echo. repeat case_match; reflexivity. Qed.

Lemma on_peer_alive_views s : views (on_peer_alive s) = views s.
Proof using. unfold on_peer_alive. case_if; reflexivity. Qed.

Lemma note_dsack_views s l r : views (note_dsack s l r) = views s.
Proof using. unfold note_dsack. repeat case_match; reflexivity. Qed.

Lemma ack_acceptable_nxt s a : ack_acceptable s a = true -> seq_gt a (snd_nxt s) = false.
Proof using. unfold ack_acceptable. intros H. bool_facts. done. Qed.

Lemma views_nxt s s' : views s' = views s -> snd_nxt s' = snd_nxt s.
Proof using. intros E. exact (f_equal (fun v => v_nxt (snd (fst v))) E). Qed.

Lemma views_kept s s' : views s' = views s -> rx_kept s s'.
Proof using. intros E. apply rx_kept_views; [by apply views_rx|by apply views_follows]. Qed.

(** The acknowledgment of a segment, with the bookkeeping before it. *)
Lemma ack_inv s s1 seg :
  inv s -> views s1 = views s -> seg_wf seg -> ack_acceptable s (seg_ack seg) = true -> opening (state s) = false ->
  inv (process_ack s1 seg) /\ rx_kept s (process_ack s1 seg).
Proof using Cok.
  intros Hi E Hw Ha Ho. destruct (process_ack_inv s1 seg) as [H1 Hk].
  - exact (inv_views _ _ E Hi).
  - exact Hw.
  - rewrite (views_nxt _ _ E). by apply ack_acceptable_nxt.
  - by rewrite (views_state _ _ E).
  - split; [exact H1|]. eapply rx_kept_trans; [by apply views_kept|exact Hk].
Qed.

Lemma tw_restart_inv s d : inv s -> state s = TimeWait -> inv (s <| time_wait_deadline := d |>).
Proof using.
  intros [Hr (k & Ht & He)] Hs. split; [exact Hr|]. exists k. split; [exact Ht|].
  exact (eg_inv_at _ (state s) d He (fun _ => Hs)).
Qed.

Lemma on_unacceptable_inv s seg l fin :
  inv s -> seg_wf seg -> opening (state s) = false -> holds s (on_unacceptable s seg l fin).
Proof using Cok.
  intros Hi Hw Ho. unfold on_unacceptable. case_if; [by apply holds_ret|].
  destruct (Wire.has seg flags.SYN || negb (Wire.has seg flags.ACK) || negb (ack_acceptable s (seg_ack seg))) eqn:Hc;
    [by apply send_oow_ack_inv|]. bool_facts.
  set (live := _ && _ && negb (paws_reject s seg)). clearbody live.
  set (s1 := if live then process_ack _ seg else s).
  assert (Hs1 : inv s1 /\ follows s s1).
  { unfold s1. destruct live; [|done].
    destruct (ack_inv s (on_peer_alive (update_ts_recent s seg)) seg) as [? [? _ _ _ _]]; try done.
    rewrite on_peer_alive_views. apply update_ts_recent_views. }
  clearbody s1. destruct Hs1 as [Hi1 Hg1]. apply (holds_from _ s1 _ Hg1). case_if; [by apply holds_ret|].
  case_if.
  { assert (Hst : state s1 = TimeWait) by (bool_facts; by destruct (state s1)).
    set (s2 := set_field time_wait_deadline s1 _). assert (Hi2 : inv s2) by exact (tw_restart_inv s1 _ Hi1 Hst).
    assert (Hg2 : follows s1 s2) by exact (follows_refl s1). clearbody s2. apply (holds_from _ s2 _ Hg2). by apply send_pure_ack_inv. }
  apply holds_bind; [|intros s2 _ Hi2 _; case_if; [by apply maybe_send_data_inv|by apply holds_ret]].
  case_if; [|case_if; [by apply send_pure_ack_inv|by apply send_oow_ack_inv]].
  set (s2 := note_dsack _ _ _). assert (E2 : views s2 = views s1) by (unfold s2; rewrite note_dsack_views; reflexivity).
  clearbody s2. apply (holds_views _ s2 _ E2), send_pure_ack_inv. exact (inv_views _ _ E2 Hi1).
Qed.

Lemma schedule_delayed_ack_inv s l : inv s -> holds s (schedule_delayed_ack s l, Ok tt).
Proof using Cok.
  intros Hi. destruct (inv_parts s Hi) as [He Hr]. pose proof (schedule_delayed_ack_ok Qs s l He Hr) as He'.
  pose proof (schedule_delayed_ack_mask s l) as Hm. destruct Hi as [Hrx (k & Hk)].
  pose proof (snd_emitted _ _ _ _ s _ Hk Hm He') as Hk'. apply e_s_mask in Hm.
  apply holds_ret; [|by apply mask_follows]. split; [rewrite (mask_rx _ _ Hm); exact Hrx|by exists k].
Qed.

Lemma honest_kept s s' seg : rx_kept s s' -> honest s seg -> honest s' seg.
Proof using.
  intros [_ E1 E2 Hc _] Hh Hs. unfold honest, genuine, ahead in *. rewrite E1, E2. apply Hh, Hc, Hs.
Qed.

(** A segment for a connection past the handshake. *)
Lemma on_synchronized_inv s seg :
  inv s -> seg_wf seg -> opening (state s) = false -> honest s seg -> holds s (on_synchronized s seg).
Proof using Cok.
  intros Hi Hw Ho Hh. unfold on_synchronized. case_if; [by apply holds_ret|]. cbn zeta.
  set (acc := acceptable _ _ _ || _). set (zwp := negb acc && _ && _). clearbody acc zwp.
  case_if; [by apply on_unacceptable_inv|].
  case_if; [case_if; [by apply send_pure_ack_inv|by apply send_oow_ack_inv]|].
  case_if; [case_if; [destruct (on_reset_received_inv s Hi); by apply holds_ret|by apply send_oow_ack_inv]|].
  case_if; [by apply send_oow_ack_inv|]. case_if; [by apply holds_ret|].
  destruct (ack_acceptable s (seg_ack seg)) eqn:Ha; cbn [negb]; [|by apply send_oow_ack_inv].
  set (s1 := on_peer_alive _).
  assert (E1 : views s1 = views s) by (unfold s1; rewrite on_peer_alive_views, ecn_echo_views; apply update_ts_recent_views).
  clearbody s1. destruct (ack_inv s s1 seg Hi E1 Hw Ha Ho) as [Hi2 Hk2].
  set (s2 := process_ack s1 seg) in *. clearbody s2.
  apply (holds_from _ s2); [apply Hk2|]. case_if; [by apply holds_ret|].
  destruct zwp; [apply holds_bind; [by apply send_pure_ack_inv|intros s3 _ Hi3 _; by apply maybe_send_data_inv]|].
  destruct (receive_text_inv s2 seg (Wire.has seg flags.FIN) Hi2 Hw) as [Hi3 Hg3];
    [rewrite (rk_open _ _ Hk2); exact Ho|by apply (honest_kept s)|].
  destruct (receive_text s2 seg _ _) as [s3 ack]. cbn [fst] in Hi3, Hg3. apply (holds_from _ s3 _ Hg3).
  apply holds_bind; [|intros s4 _ Hi4 _; by apply maybe_send_data_inv].
  repeat case_if; [by apply send_pure_ack_inv|by apply schedule_delayed_ack_inv|by apply send_oow_ack_inv|by apply holds_ret].
Qed.

End Inv.
