(* ===== verification/TcbOpen.v ===== *)
(** * Resets and the handshake

    What a reset leaves, that every way to open a connection establishes the
    invariant, and that every inbound segment keeps it. *)
From S2P Require Import Prelude Error Seq State Effect Ring RingStore Sack Ooo TxRing Bytes Options Wire WireWf RtxQueue Rack RtxCover.
From S2P Require Import Congestion Tcb TcbAck TcbOutput Cookie TcbInput TcbTimers TcbRx TcbFrame TcbTx TcbEmit TcbSend TcbInv.
Import Tcb RtxCover.

Section Open.
Context `{C : Config} {Cok : ConfigOk C}.

(** ** Resets *)

(** What a reset empties, and what it keeps. *)
Record Store := mkStore {
  o_recv : Ring.t;
  o_ooo : Ooo.t;
  o_held : option HeldFin;
  o_send : Ring.t;
  o_rtx : Rtx.t;
  o_syn : bool;
  o_fin : bool;
  o_fseq : Z;
  o_rto : Deadline.t;
  o_tx : TxRing.t;
  o_local : Endpoint;
  o_mtu : Z;
  o_mss : Z;
  o_isn : Z;
  o_tw : Deadline.t;
  o_lent : Z;
}.

Definition store (s : t) : Store :=
  mkStore (recv_ring s) (ooo s) (ooo_fin s) (send_ring s) (rtx s) (syn_unacked s) (fin_sent s) (fin_seq s)
    (rto_deadline s) (tx_ring s) (local s) (mtu s) (local_mss s) (cfg_iss s)
    (time_wait_deadline s) (send_lent s).

(** The storage of a connection that was emptied. *)
Record blank (o : Store) : Prop := mk_blank {
  bl_recv : Ring.wf BUF (o_recv o) /\ Ring.len (o_recv o) = 0;
  bl_ooo : (exists nxt, Ooo.wf OOO_MAX (o_ooo o) nxt) /\ Ooo.slice (o_ooo o) = [];
  bl_held : o_held o = None;
  bl_send : Ring.wf BUF (o_send o) /\ Ring.len (o_send o) = 0;
  bl_rtx : forall b, is_u32 b -> covers RTX b 0 false (o_rtx o);
  bl_flags : o_syn o = false /\ o_fin o = false /\ is_u32 (o_fseq o);
  bl_rto : o_rto o = Deadline.OFF /\ o_tw o = Deadline.OFF;
  bl_tx : TxRing.wf TXQ MAX_PACKET (o_tx o) /\ TxRing.packets TXQ (o_tx o) = [];
  bl_cfg : length (ip (o_local o)) = 4%nat /\ HDR_LEN <= o_mtu o <= MAX_PACKET /\ 0 <= o_mss o <= MSS /\ is_u32 (o_isn o) /\ 0 <= o_lent o;
}.

(** What a reset relies on. *)
Record storage (s : t) : Prop := mk_storage {
  so_recv : Ring.wf BUF (recv_ring s);
  so_ooo : exists nxt, Ooo.wf OOO_MAX (ooo s) nxt;
  so_send : Ring.wf BUF (send_ring s);
  so_rtx : exists a n f, covers RTX a n f (rtx s);
  so_tx : TxRing.wf TXQ MAX_PACKET (tx_ring s);
  so_cfg : length (ip (local s)) = 4%nat /\ HDR_LEN <= mtu s <= MAX_PACKET /\ is_u32 (cfg_iss s) /\ 0 <= send_lent s;
}.

Lemma inv_storage Qr m Qs w s : inv Qr m Qs w s -> storage s /\ length (ip (remote s)) = 4%nat.
Proof using.
  intros [(n & Hr & _) (k & Ht & [? [? ?] ? ? ? _])]. split; [|done]. split; try done.
  - apply (rx_stores _ _ _ _ Hr).
  - exists (rcv_nxt s). apply (rx_ooo _ _ _ _ Hr).
  - apply (tx_stores _ _ _ _ _ Ht).
  - do 3 eexists. apply (tx_covers _ _ _ _ _ Ht).
Qed.

Lemma txq_pos : 0 < TXQ.
Proof using Cok. pose proof txq_valid. lia. Qed.

Lemma reset_blank s : storage s -> blank (store (reset_connection_state s)).
Proof using Cok.
  intros [Hr [nxt Ho] Hs (a & n & f & Hq) Ht (Hi & Hm & Hc)].
  split.
  - destruct (stores_clear BUF BUF_pow2 (fun _ _ => True) (recv_ring s) 0 Hr) as [[? _ _ _ _] ?]. done.
  - split; [exists nxt; by apply (Ooo.clear_wf _ _ nxt)|apply Ooo.slice_clear].
  - reflexivity.
  - destruct (stores_clear BUF BUF_pow2 (fun _ _ => True) (send_ring s) 0 Hs) as [[? _ _ _ _] ?]. done.
  - intros b Hb. destruct rtx_words as (W & HW & HC). by apply (covers_clear RTX W HW HC a n f).
  - split_and!; [reflexivity|reflexivity|]. change (is_u32 0). done.
  - split; reflexivity.
  - apply (TxRing.tx_clear_wf TXQ MAX_PACKET txq_pos _ Ht).
  - split; [exact Hi|]. split; [exact Hm|]. split; [|exact Hc].
    change (0 <= sat_sub (mtu s) HDR_LEN <= MSS). change MAX_PACKET with 1500 in Hm. change HDR_LEN with 40 in *.
    change MSS with 1460. unfold sat_sub. lia.
Qed.

(** ** From an emptied connection to the invariant *)

Section Fresh.
Variables (Qr Qs : Z -> Z -> Prop).

Lemma blank_rx s :
  blank (store s) -> is_u32 (rcv_nxt s) -> is_u32 (irs s) ->
  (can_recv (state s) = true \/ state s = SynRcvd -> rcv_nxt s = wadd32 (irs s) 1) -> rx_ok Qr 0 (rx_view s).
Proof using.
  intros [[Hw Hl] [[nxt Ho] He] Hf _ _ _ _ _ _] Hn Hi Hb. cbn in *. exists 0. split; [|split].
  - split; cbn; try done.
    + by apply (Ooo.empty_wf _ _ nxt).
    + split; [done|lia| | |].
      * intros x Hx. by apply Ooo.held_empty in Hx.
      * intros i b Hg%get_lt_Some. rewrite Ring.readable_zlen in Hg by done. lia.
      * intros x b Hx. by apply Ooo.held_empty in Hx.
    + intros Hc. rewrite Hb by auto. by rewrite Z.add_0_r.
    + rewrite Hf. done.
  - intros h. cbn. by rewrite Hf.
  - intros _. cbn. split_and!; auto.
Qed.

Lemma blank_stores s : blank (store s) -> stores BUF Qs 0 0 none_lent (send_ring s).
Proof using.
  intros [_ _ _ [Hw Hl] _ _ _ _ _]. cbn in *. split; try done; try lia.
  intros i b Hg%get_lt_Some. rewrite Ring.readable_zlen in Hg by done. lia.
Qed.

(** The send side with nothing outstanding but, during the handshake, the SYN. *)
Lemma blank_tx v s :
  blank (store s) -> v_rtx v = rtx s -> v_ring v = send_ring s -> v_fin v = false -> is_u32 (v_fseq v) ->
  is_u32 (v_iss v) -> is_u32 (v_una v) -> v_nxt v = wadd32 (v_una v) (b2z (v_syn v)) ->
  (v_syn v = true -> v_una v = v_iss v) -> (opening (v_state v) = true -> v_syn v = true) ->
  fin_acked_state (v_state v) = false ->
  (v_state v <> Closed -> v_state v <> Listen -> v_nxt v = wadd32 (v_iss v) 1) ->
  (Deadline.is_armed (v_rto v) = true -> v_syn v = true) -> tx_inv Qs 0 0 none_lent v.
Proof using.
  intros Hb Eq Er Hf Hfs Hi Hu Hn Hy Hop Hak Hba Hrt.
  assert (Ho : v_out v = 0) by (unfold v_out, v_base; rewrite Hn; unfold off; clear; word_lia).
  assert (Hx : v_finout v = false) by (unfold v_finout; by rewrite Hf).
  assert (Hb2 : v_base v = v_nxt v) by (unfold v_base; by rewrite Hn).
  pose proof (bl_send _ Hb) as [_ Hl]. cbn in Hl. split; rewrite ?Ho, ?Hx, ?Er; try done.
  - split_and!; try done. rewrite Hn. apply wadd32_range.
  - by apply blank_stores.
  - rewrite Eq. apply (bl_rtx _ Hb). rewrite Hb2, Hn. apply wadd32_range.
  - unfold v_text. rewrite Ho, Hx. cbn. lia.
  - by rewrite Hf.
  - by rewrite Hak.
  - intros H1 H2. rewrite Hb2, Hf. cbn [andb b2z]. rewrite !Z.add_0_r. by apply Hba.
  - intros Ha%Hrt E. rewrite Ha in Hn. rewrite E in Hn. revert Hn. clear. cbn. intros. word_lia.
Qed.

Lemma blank_eg s : blank (store s) -> length (ip (remote s)) = 4%nat -> eg_inv Qs (eg_view s).
Proof using.
  intros [_ _ _ _ _ _ [_ Htw] [Hw Hp] (? & ? & ? & ? & ?)] Hr. cbn in Hp, Htw. split; try done; cbn; [by rewrite Hp|by rewrite Htw].
Qed.

(** Closed, listening, or established with nothing sent. *)
Lemma blank_inv s :
  blank (store s) -> length (ip (remote s)) = 4%nat ->
  is_u32 (rcv_nxt s) -> is_u32 (irs s) -> is_u32 (iss s) -> is_u32 (snd_una s) -> snd_nxt s = snd_una s ->
  state s = Closed \/ state s = Listen \/
    state s = Established /\ rcv_nxt s = wadd32 (irs s) 1 /\ snd_una s = wadd32 (iss s) 1 ->
  inv Qr 0 Qs 0 s.
Proof using.
  intros Hb Hr Hn Hi Hs Hu E Hst. pose proof (bl_flags _ Hb) as (Hy & Hf & Hq). cbn in Hy, Hf, Hq. split.
  - apply blank_rx; try done. intros Hc. destruct Hst as [Hst|[Hst|(Hst & ? & ?)]]; [| |done]; rewrite Hst in Hc; destruct Hc; done.
  - exists 0. split; [|by apply blank_eg]. apply (blank_tx _ s); cbn; try done.
    + rewrite E, Hy. cbn. revert Hu. clear. intros. word_lia.
    + by rewrite Hy.
    + intros Ho. destruct Hst as [Hst|[Hst|(Hst & ? & ?)]]; rewrite Hst in Ho; done.
    + by destruct Hst as [->|[->|(-> & ? & ?)]].
    + intros H1 H2. destruct Hst as [?|[?|(_ & _ & ?)]]; [done|done|congruence].
    + pose proof (bl_rto _ Hb) as [Hrt _]. cbn in Hrt. by rewrite Hrt.
Qed.

(** The handshake's first segment is out. *)
Lemma opened_inv s s1 st :
  blank (store s) -> state s = st -> opening st = true -> is_u32 (rcv_nxt s) -> is_u32 (irs s) -> is_u32 (iss s) ->
  snd_una s = iss s -> (st = SynRcvd -> rcv_nxt s = wadd32 (irs s) 1) ->
  e_mask s1 = e_mask s -> eg_inv Qs (eg_view s1) ->
  inv Qr 0 Qs 0 (arm_rto (s1 <| snd_nxt := wadd32 (iss s1) 1 |> <| syn_unacked := true |>)).
Proof using.
  intros Hb Hst Ho Hn Hi Hs Hu Hsr Hm He. pose proof (bl_flags _ Hb) as (_ & Hf & Hq). cbn in Hf, Hq.
  pose proof (f_equal rx_view Hm : rx_view s1 = rx_view s) as Er. pose proof (f_equal tx_view Hm : tx_view s1 = tx_view s) as Et.
  split.
  - change (rx_ok Qr 0 (rx_view s1)). rewrite Er. apply blank_rx; try done. intros [Hc|Hc]; [|apply Hsr; congruence].
    rewrite Hst in Hc. destruct st; done.
  - exists 0. split; [|exact He].
    change (tx_inv Qs 0 0 none_lent (mkTxView (v_state (tx_view s1)) (v_iss (tx_view s1)) (v_una (tx_view s1))
      (wadd32 (v_iss (tx_view s1)) 1) true (v_fin (tx_view s1)) (v_fseq (tx_view s1)) (v_rtx (tx_view s1)) (v_ring (tx_view s1))
      (Deadline.at_ (sat_add64 (now_ms s1) (rto_ms s1))))).
    rewrite Et. apply (blank_tx _ s); cbn; try done; try congruence.
    rewrite Hst. by destruct st.
Qed.

End Fresh.

(** ** The calls that open a connection *)

Definition Any : Z -> Z -> Prop := fun _ _ => True.
Definition sane (s : t) : Prop := exists m w, inv Any m Any w s.

(** Nothing of either stream has moved yet: any streams may follow. *)
Definition fresh (s : t) : Prop := forall Qr Qs, inv Qr 0 Qs 0 s.

Lemma runs_fresh {A} (m : t * Res A) (R : t -> Prop) :
  (forall Qr Qs, runs m (fun s' _ => inv Qr 0 Qs 0 s' /\ R s')) -> runs m (fun s' _ => fresh s' /\ R s').
Proof using.
  intros H. eapply runs_mono; [apply (runs_forall (Any, Any) m (fun q s' _ => inv (fst q) 0 (snd q) 0 s' /\ R s')); intros [q1 q2]; apply H|].
  intros s' a Hq. split; [|exact (proj2 (Hq (Any, Any)))]. intros Qr Qs. exact (proj1 (Hq (Qr, Qs))).
Qed.

Lemma fresh_sane s : fresh s -> sane s.
Proof using. intros Hf. by exists 0, 0. Qed.

Lemma gen_succ g k : 0 < k <= 2 -> wadd32 g k <> g.
Proof using. intros Hk. word_lia. Qed.

(** [s'] is [k] connections after [s]; what was lent is untouched. *)
Definition renewed (k : Z) (s s' : t) : Prop := conn_gen s' = wadd32 (conn_gen s) k /\ loan_kept s s'.

Lemma renewed_follows k s s1 s2 : renewed k s s1 -> follows s1 s2 -> renewed k s s2.
Proof using. intros [? ?] (? & _ & ?)%follows_gen. split; [congruence|by eapply loan_trans]. Qed.

Lemma renewed_bond k s s1 s2 : renewed k s s1 -> bond s2 = bond s1 -> renewed k s s2.
Proof using. intros [? [? ?]] [= E1 E2 E3]. split; [congruence|]. split; [congruence|by rewrite E3]. Qed.

Lemma renewed_trans k l s s1 s2 : renewed k s s1 -> renewed l s1 s2 -> renewed (k + l) s s2.
Proof using. intros [E1 ?] [E2 ?]. split; [rewrite E2, E1; apply wadd32_assoc|by eapply loan_trans]. Qed.

Lemma follows_renewed k s s1 s2 : follows s s1 -> renewed k s1 s2 -> renewed k s s2.
Proof using. intros (? & _ & ?)%follows_gen [? ?]. split; [congruence|by eapply loan_trans]. Qed.

Lemma reset_renewed s : renewed 1 s (reset_connection_state s).
Proof using. split; [reflexivity|]. split; [reflexivity|]. exact (ring_step_clear (send_ring s)). Qed.

Lemma storage_cfg s : storage s -> is_u32 (cfg_iss s).
Proof using. intros [_ _ _ _ _ (_ & _ & H & _)]. exact H. Qed.

(** What [reset_connection_state] leaves. *)
Record emptied (s : t) : Prop := mk_emptied {
  em_blank : blank (store s);
  em_rcv : is_u32 (rcv_nxt s) /\ is_u32 (irs s);
  em_snd : is_u32 (iss s) /\ snd_una s = iss s /\ snd_nxt s = iss s /\ iss s = cfg_iss s;
}.

Lemma reset_emptied s : storage s -> emptied (reset_connection_state s).
Proof using Cok.
  intros Hs. split; [by apply reset_blank|split; change (is_u32 0); done|].
  split; [exact (storage_cfg s Hs)|split_and!; reflexivity].
Qed.

(** A reset that ends in CLOSED or LISTEN. *)
Lemma emptied_inv Qr Qs s ep st :
  emptied s -> length (ip ep) = 4%nat -> st = Closed \/ st = Listen ->
  inv Qr 0 Qs 0 (s <| remote := ep |> <| state := st |>).
Proof using.
  intros [Hb [H1 H2] (H3 & H4 & H5 & _)] Hr Hst. apply blank_inv.
  - exact Hb.
  - exact Hr.
  - exact H1.
  - exact H2.
  - exact H3.
  - change (is_u32 (snd_una s)). by rewrite H4.
  - change (snd_nxt s = snd_una s). congruence.
  - destruct Hst as [->| ->]; [left|right; left]; reflexivity.
Qed.

Lemma reset_to_listen_inv Qr Qs s : storage s -> inv Qr 0 Qs 0 (reset_to_listen_or_closed s).
Proof using Cok.
  intros Hs%reset_emptied. unfold reset_to_listen_or_closed. set (s1 := reset_connection_state s) in *. clearbody s1.
  apply emptied_inv; [done|done|]. destruct (is_listener s); auto.
Qed.

Lemma reset_to_listen_renewed s : renewed 1 s (reset_to_listen_or_closed s).
Proof using. split; [reflexivity|]. split; [reflexivity|]. exact (ring_step_clear (send_ring s)). Qed.

Lemma absorb_syn_options_views s seg :
  let s' := absorb_syn_options s seg in
  rx_view s' = mkRxView (state s) (seg_seq seg) (wadd32 (seg_seq seg) 1) (recv_ring s) (ooo s) (ooo_fin s) /\
  tx_view s' = tx_view s /\ eg_view s' = eg_view s.
Proof using.
  unfold absorb_syn_options. destruct (mss (options seg)), (wscale (options seg)), (ts (options seg)) as [[? ?]|];
  split_and!; reflexivity.
Qed.

Lemma absorb_syn_options_store s seg : store (absorb_syn_options s seg) = store s.
Proof using.
  unfold absorb_syn_options. destruct (mss (options seg)), (wscale (options seg)), (ts (options seg)) as [[? ?]|]; reflexivity.
Qed.

Lemma handshake_rtt_sample_views s seg : views (handshake_rtt_sample s seg) = views s.
Proof using. unfold handshake_rtt_sample. case_match; [case_if; [apply update_rtt_views|]|]; reflexivity. Qed.

Lemma on_established_views s : views (on_established s) = views s.
Proof using.
  unfold on_established. set (s1 := if negb _ then _ else _).
  assert (E : views s1 = views s) by (unfold s1; case_if; reflexivity). clearbody s1.
  rewrite on_peer_alive_views. exact E.
Qed.

Lemma passive_iss_range s ep q : storage s -> is_u32 (passive_iss s ep q).
Proof using. intros Hs. unfold passive_iss. case_match; [apply wadd32_range|by apply storage_cfg]. Qed.

(** A segment's outcome: the connection goes on, or another one begins. *)
Definition outcome (Qr : Z -> Z -> Prop) (m : Z) (Qs : Z -> Z -> Prop) (w : Z) (s s' : t) : Prop :=
  inv Qr m Qs w s' /\ follows s s' \/ conn_gen s' <> conn_gen s /\ loan_kept s s' /\ sane s'.

(** The edges after a peer's SYN. *)
Lemma absorbed s seg :
  let s' := absorb_syn_options s seg in
  irs s' = seg_seq seg /\ rcv_nxt s' = wadd32 (seg_seq seg) 1 /\ iss s' = iss s /\ snd_una s' = snd_una s /\
  remote s' = remote s /\ link s' = link s.
Proof using.
  destruct (absorb_syn_options_views s seg) as (Fr & Ft & Fe). cbn zeta.
  split; [exact (f_equal x_irs Fr)|]. split; [exact (f_equal x_nxt Fr)|]. split; [exact (f_equal v_iss Ft)|].
  split; [exact (f_equal v_una Ft)|]. split; [exact (f_equal g_remote Fe)|].
  exact (link_parts s _ (state s) (time_wait_deadline s) Fe (f_equal v_ring Ft)).
Qed.

(** A half-open connection: the SYN-ACK is not out yet. *)
Record half_opened (g : Z * Z * Ring.t) (s : t) : Prop := mk_half_opened {
  ho_blank : blank (store s);
  ho_state : state s = SynRcvd;
  ho_rcv : is_u32 (rcv_nxt s) /\ is_u32 (irs s) /\ rcv_nxt s = wadd32 (irs s) 1;
  ho_snd : is_u32 (iss s) /\ snd_una s = iss s;
  ho_peer : length (ip (remote s)) = 4%nat;
  ho_link : bond s = g;
}.

Lemma half_opened_tail g s e n :
  half_opened g (s <| state := SynRcvd |>) ->
  half_opened g (s <| ecn_enabled := e |> <| state := SynRcvd |> <| syn_rcvd_retries := 0 |> <| syn_xmit_ms := n |>).
Proof using. intros [H1 H2 H3 H4 H5 H6]. split; [exact H1|exact H2|exact H3|exact H4|exact H5|exact H6]. Qed.

Lemma absorbed_half_open g s seg :
  bond s = g -> blank (store s) -> seg_wf seg -> is_u32 (iss s) -> snd_una s = iss s -> length (ip (remote s)) = 4%nat ->
  half_opened g ((absorb_syn_options s seg) <| state := SynRcvd |>).
Proof using.
  intros <- Hb Hw Hi Hu Hr. destruct (absorbed s seg) as (G1 & G2 & G3 & G4 & G5 & G6).
  pose proof (absorb_syn_options_store s seg) as Fs. set (s4 := absorb_syn_options s seg) in *. clearbody s4. cbn zeta in *.
  split; [change (blank (store s4)); by rewrite Fs|reflexivity|change (is_u32 (rcv_nxt s4) /\ is_u32 (irs s4) /\ rcv_nxt s4 = wadd32 (irs s4) 1)|
    change (is_u32 (iss s4) /\ snd_una s4 = iss s4)|change (length (ip (remote s4)) = 4%nat)|change (bond s4 = bond s)].
  - rewrite G2, G1. split; [apply wadd32_range|]. split; [apply Hw|done].
  - rewrite G3, G4. done.
  - by rewrite G5.
  - exact (f_equal snd G6).
Qed.

Lemma half_open_assign_ok s seg : emptied s -> seg_wf seg -> half_opened (bond s) (half_open_assign s seg).
Proof using.
  intros [Hb _ (_ & _ & _ & Hi)] Hw. unfold half_open_assign. apply half_opened_tail.
  apply absorbed_half_open; [reflexivity|exact Hb|exact Hw| |reflexivity|exact (sw_src _ Hw)].
  cbn -[passive_iss]. unfold passive_iss. case_match; [apply wadd32_range|]. apply (bl_cfg _ Hb).
Qed.

Lemma accept_syn_inv Qr Qs s seg :
  storage s -> seg_wf seg ->
  runs (accept_syn_stateful s seg) (fun s' _ => inv Qr 0 Qs 0 s' /\ renewed 1 s s').
Proof using Cok.
  intros Hs Hw. pose proof (half_open_assign_ok _ seg (reset_emptied s Hs) Hw) as Ho.
  unfold accept_syn_stateful, half_open. set (s1 := half_open_assign _ seg) in *. clearbody s1.
  destruct Ho as [Hb Hst (H1 & H2 & H5) [H3 H4] H6 Hg].
  eapply runs_bind; [apply (emit_synack_ok Qs); [by apply blank_eg|apply (bl_send _ Hb)]|].
  intros s2 _ [Hm He]. apply runs_ret. pose proof (f_equal bond Hm : bond s2 = bond s1) as Hg2.
  split; [|change (renewed 1 s s2); eapply renewed_bond; [apply reset_renewed|congruence]].
  by apply (opened_inv Qr Qs s1 s2 SynRcvd).
Qed.

(** The connection a cookie brings up, before its first segment is processed. *)
Record cookie_opened (g : Z * Z * Ring.t) (s : t) : Prop := mk_cookie_opened {
  co_blank : blank (store s);
  co_state : state s = Established;
  co_peer : length (ip (remote s)) = 4%nat;
  co_rcv : is_u32 (rcv_nxt s) /\ is_u32 (irs s) /\ rcv_nxt s = wadd32 (irs s) 1;
  co_snd : is_u32 (iss s) /\ is_u32 (snd_una s) /\ snd_nxt s = snd_una s /\ snd_una s = wadd32 (iss s) 1;
  co_link : bond s = g;
}.

Definition cookie_edges (seg : Segment) (s : t) : Prop :=
  (ip (remote s), iss s, irs s, rcv_nxt s, snd_una s, snd_nxt s, state s) =
  (src_ip seg, wsub32 (seg_ack seg) 1, wsub32 (seg_seq seg) 1, wadd32 (wsub32 (seg_seq seg) 1) 1,
   seg_ack seg, seg_ack seg, Established).

Lemma cookie_edges_opened g seg s :
  blank (store s) -> seg_wf seg -> cookie_edges seg s -> bond s = g -> cookie_opened g s.
Proof using.
  intros Hb Hw [= E1 E2 E3 E4 E5 E6 E7] Hg. split; rewrite ?E1, ?E2, ?E3, ?E4, ?E5, ?E6, ?E7; try done.
  - apply Hw.
  - split; [apply wadd32_range|]. split; [apply wsub32_range|done].
  - split; [apply wsub32_range|]. split; [apply Hw|]. split; [done|].
    pose proof (sw_ack _ Hw) as Ha. revert Ha. clear. intros. word_lia.
Qed.

Lemma cookie_assign_ok s seg opts :
  blank (store s) -> seg_wf seg -> cookie_opened (bond s) (cookie_assign s seg opts).
Proof using.
  intros Hb Hw. apply (cookie_edges_opened _ seg); [|exact Hw| |].
  all: unfold cookie_assign; destruct (ck_wscale opts), (ts (options seg)) as [[? ?]|]; (exact Hb || reflexivity).
Qed.

(** The connection a valid cookie brings up is a new one. *)
Lemma promote_via_cookie_inv s seg opts :
  storage s -> seg_wf seg ->
  runs (promote_via_cookie s seg opts) (fun s' _ => sane s' /\ renewed 1 s s').
Proof using Cok.
  intros Hs Hw. pose proof (cookie_assign_ok _ seg opts (em_blank _ (reset_emptied s Hs)) Hw) as Ho.
  unfold promote_via_cookie, cookie_connection. set (s1 := cookie_assign _ seg opts) in *. clearbody s1.
  destruct Ho as [Hb Hst Hr (H1 & H2 & H6) (H3 & H4 & H5 & H7) Hg].
  assert (Hi : inv Any 0 Any 0 s1) by (apply blank_inv; auto 7).
  pose proof (on_established_views s1) as E. set (s2 := on_established s1) in *. clearbody s2.
  eapply runs_mono; [apply (on_synchronized_inv Any 0 Any 0); [exact (inv_views _ _ _ _ _ _ E Hi)|done| |]|].
  - by rewrite (views_state _ _ E), Hst.
  - intros _ i b _. done.
  - intros s3 a [Hi3 Hg3]. split; [by exists 0, 0|]. eapply renewed_follows; [eapply renewed_bond; [apply reset_renewed|exact Hg]|].
    etransitivity; [by apply views_follows|exact Hg3].
Qed.

(** ** Completing the handshake *)

Lemma views_eq s r v e : views s = (r, v, e) -> rx_view s = r /\ tx_view s = v /\ eg_view s = e.
Proof using.
  intros E. split; [exact (f_equal (fun x => fst (fst x)) E)|].
  split; [exact (f_equal (fun x => snd (fst x)) E)|exact (f_equal snd E)].
Qed.

Section Handshake.
Variables (Qr : Z -> Z -> Prop) (m : Z) (Qs : Z -> Z -> Prop) (w : Z).

Local Abbreviation inv := (inv Qr m Qs w).
Local Abbreviation holds := (holds Qr m Qs w).

(** The peer's sequence space is known: its stream begins after its SYN. *)
Lemma rx_started v st i :
  rx_ok Qr m v -> opening (x_state v) = true -> is_u32 i ->
  rx_ok Qr m (mkRxView st i (wadd32 i 1) (x_ring v) (x_ooo v) (x_fin v)).
Proof using.
  intros (n & [Hu Hwf Hst _ Hf] & _ & Ho) Hop Hi. destruct (Ho Hop) as (-> & -> & He & _).
  assert (Hn : x_fin v = None).
  { destruct (x_fin v) as [h|] eqn:E; [|done]. destruct (Hf h eq_refl) as [Hc _]. by destruct (x_state v). }
  exists 0. split; [|split].
  - split; cbn; try done.
    + split; [apply wadd32_range|done].
    + by apply (Ooo.empty_wf _ _ (x_nxt v)).
    + eapply stores_iff, Hst. intros x Hx. by apply Ooo.held_empty in Hx.
    + by rewrite Hn.
  - intros h. cbn. by rewrite Hn.
  - intros _. done.
Qed.

Lemma opening_tx k v :
  tx_inv Qs k w none_lent v -> opening (v_state v) = true ->
  v_fin v = false /\ v_una v = v_iss v /\ v_nxt v = wadd32 (v_iss v) 1 /\ v_out v = 0 /\ Ring.len (v_ring v) = 0 /\ v_syn v = true.
Proof using Cok.
  intros Hi Ho. pose proof (tx_bounds _ _ _ _ _ Hi) as (_ & _ & _ & Hn & _). pose proof (tx_open _ _ _ _ _ Hi Ho) as Hy.
  assert (Hm : may_transmit (v_state v) = false) by by destruct (v_state v).
  destruct (tx_quiet _ _ _ _ _ Hi Hm) as [Hz Hl]. pose proof (tx_syn _ _ _ _ _ Hi Hy) as Hu.
  assert (Hf : v_fin v = false).
  { destruct (v_fin v) eqn:E; [|done]. destruct (tx_fin _ _ _ _ _ Hi E) as (_ & _ & Hs). by destruct (v_state v). }
  split_and!; try done. rewrite Hz in Hn. unfold v_base in Hn. rewrite Hy, Hu in Hn. rewrite Hn. clear. cbn. word_lia.
Qed.

(** Our SYN is acknowledged: nothing is outstanding, nothing is queued. *)
Lemma tx_started k v :
  tx_inv Qs k w none_lent v -> opening (v_state v) = true ->
  tx_inv Qs k w none_lent
    (mkTxView Established (v_iss v) (v_nxt v) (v_nxt v) false (v_fin v) (v_fseq v) (v_rtx v) (v_ring v) Deadline.OFF).
Proof using Cok.
  intros Hi Hop. destruct (opening_tx k v Hi Hop) as (Hf & Hu & Hn & Hz & Hl & Hy).
  destruct Hi as [(? & ? & ? & ?) Hst Hc Ht Hfi Ha Hq Hsy Ho Hb Hr].
  set (v' := mkTxView _ _ _ _ _ _ _ _ _ _).
  assert (Eb : v_base v = v_nxt v) by (unfold v_base; rewrite Hy, Hu, Hn; done).
  assert (Eb' : v_base v' = v_base v) by (rewrite Eb; unfold v_base, v'; cbn; clear -H0; word_lia).
  assert (Eo' : v_out v' = 0) by (unfold v_out; rewrite Eb', Eb; unfold v', off; cbn; clear; word_lia).
  assert (Ef' : v_finout v' = false) by (unfold v_finout, v'; cbn; by rewrite Hf).
  assert (Ef : v_finout v = false) by (unfold v_finout; by rewrite Hf).
  rewrite Hz, Ef in Hc. split; rewrite ?Eo', ?Ef', ?Eb'; try done.
  - unfold v_text. rewrite Eo', Ef'. cbn. lia.
  - cbn. by rewrite Hf.
  - intros _ _. rewrite Hb; [|by destruct (v_state v)..]. cbn [v_fin v']. rewrite Hf. done.
Qed.

Definition started (s : t) (i : Z) (v : RxView * TxView * EgView) : Prop :=
  v = (mkRxView Established i (wadd32 i 1) (recv_ring s) (ooo s) (ooo_fin s),
       mkTxView Established (iss s) (snd_nxt s) (snd_nxt s) false (fin_sent s) (fin_seq s) (rtx s) (send_ring s) Deadline.OFF,
       set_eg (eg_view s) Established (time_wait_deadline s)).

Lemma started_inv s s' i :
  inv s -> opening (state s) = true -> is_u32 i -> started s i (views s') -> inv s' /\ follows s s'.
Proof using Cok.
  intros [Hr (k & Ht & He)] Ho Hi E. apply views_eq in E as (Er & Et & Ee). split; [split|].
  - rewrite Er. apply (rx_started (rx_view s)); done.
  - exists k. split; [rewrite Et; by apply (tx_started k (tx_view s))|]. rewrite Ee. apply eg_inv_at; [exact He|].
    intros Ha. apply (eg_tw _ _ He) in Ha. cbn in Ha. by rewrite Ha in Ho.
  - apply link_follows. exact (link_parts _ _ _ _ Ee (f_equal v_ring Et)).
Qed.

Lemma started_rx s s' i :
  started s i (views s') -> state s' = Established /\ rcv_nxt s' = wadd32 i 1 /\ recv_ring s' = recv_ring s.
Proof using.
  intros E. apply views_eq in E as (Er & _ & _).
  split; [exact (f_equal x_state Er)|]. split; [exact (f_equal x_nxt Er)|exact (f_equal x_ring Er)].
Qed.

(** Both completions end the same way. *)
Definition settled (v : RxView * TxView * EgView) : RxView * TxView * EgView :=
  (rx_state (fst (fst v)) Established, set_rto (set_state (snd (fst v)) Established) Deadline.OFF,
   set_eg (snd v) Established (g_tw (snd v))).

Lemma settled_active s : views (s <| rto_deadline := Deadline.OFF |> <| state := Established |>) = settled (views s).
Proof using. reflexivity. Qed.

Lemma settled_passive s :
  views (s <| rto_deadline := Deadline.OFF |> <| rtx_count := 0 |> <| syn_rcvd_retries := 0 |> <| state := Established |>) =
  settled (views s).
Proof using. reflexivity. Qed.

Definition syn_acked (ack : Z) (v : RxView * TxView * EgView) : RxView * TxView * EgView :=
  let '(r, t, e) := v in
  (r, mkTxView (v_state t) (v_iss t) ack (v_nxt t) false (v_fin t) (v_fseq t) (v_rtx t) (v_ring t) (v_rto t), e).

Lemma active_established_views s seg :
  seg_ack seg = snd_nxt s -> started s (seg_seq seg) (views (active_established s seg)).
Proof using.
  intros Ha. unfold active_established. rewrite on_established_views, settled_active, handshake_rtt_sample_views.
  destruct (absorb_syn_options_views s seg) as (Er & Et & Ee). set (s1 := absorb_syn_options s seg) in *. clearbody s1.
  change (started s (seg_seq seg) (settled (syn_acked (seg_ack seg) (rx_view s1, tx_view s1, eg_view s1)))).
  cbn zeta in Er, Et, Ee. rewrite Er, Et, Ee, Ha. reflexivity.
Qed.

Lemma passive_established_views s seg :
  seg_ack seg = snd_nxt s -> rcv_nxt s = wadd32 (irs s) 1 -> started s (irs s) (views (passive_established s seg)).
Proof using.
  intros Ha Hr. unfold passive_established. rewrite on_established_views, settled_passive, handshake_rtt_sample_views.
  set (s1 := if 0 <? _ then _ else _).
  assert (E1 : views s1 = syn_acked (seg_ack seg) (views s)) by (unfold s1; case_if; reflexivity). clearbody s1.
  rewrite E1, Ha. unfold started, settled, syn_acked, views, rx_view, rx_state. cbn. rewrite Hr. reflexivity.
Qed.

Lemma complete_active_open_inv s seg :
  inv s -> opening (state s) = true -> seg_wf seg -> seg_ack seg = snd_nxt s -> holds s (complete_active_open s seg).
Proof using Cok.
  intros Hi Ho Hw Ha. destruct (started_inv s _ _ Hi Ho (sw_seq _ Hw) (active_established_views s seg Ha)) as [Hi1 Hg1].
  unfold complete_active_open. apply (holds_from _ _ _ _ _ _ _ Hg1). by apply send_pure_ack_inv.
Qed.

Lemma simultaneous_open_inv s seg :
  inv s -> opening (state s) = true -> seg_wf seg -> holds s (simultaneous_open s seg).
Proof using Cok.
  intros Hi Ho Hw. unfold simultaneous_open. destruct (absorb_syn_options_views s seg) as (Er & Et & Ee).
  set (s1 := absorb_syn_options s seg) in *. clearbody s1. cbn zeta in *.
  set (s2 := s1 <| ecn_enabled := _ |> <| state := _ |> <| syn_rcvd_retries := _ |> <| syn_retransmitted := _ |>).
  assert (E2 : views s2 = (rx_state (rx_view s1) SynRcvd, set_state (tx_view s1) SynRcvd,
    set_eg (eg_view s1) SynRcvd (g_tw (eg_view s1)))) by reflexivity.
  rewrite Er, Et, Ee in E2. clearbody s2. apply views_eq in E2 as (Fr & Ft & Fe).
  assert (Hne : snd_una s2 <> snd_nxt s2).
  { pose proof (opening_edges _ _ _ _ s Hi Ho). pose proof (f_equal v_una Ft : snd_una s2 = snd_una s).
    pose proof (f_equal v_nxt Ft : snd_nxt s2 = snd_nxt s). congruence. }
  assert (Hi2 : inv s2).
  { destruct Hi as [Hr (k & Ht & He)]. split.
    - rewrite Fr. apply (rx_started (rx_view s)); [done|done|apply Hw].
    - exists k. split; [|rewrite Fe; apply eg_inv_at; [exact He|]; intros Ha; apply (eg_tw _ _ He) in Ha; cbn in Ha; by rewrite Ha in Ho].
      rewrite Ft.
      destruct (opening_tx k _ Ht Ho) as (Hf & Hu & Hn & Hz & Hl & Hy).
      destruct Ht as [? ? ? ? Hfi ? ? ? ? Hb ?]. split; try done.
      + cbn. intros E. cbn in Hf. congruence.
      + intros _ _. apply Hb; intros E; cbn in E; rewrite E in Ho; done. }
  apply (holds_from _ _ _ _ _ s2); [apply link_follows; exact (link_parts _ _ _ _ Fe (f_equal v_ring Ft))|].
  destruct (inv_parts _ _ _ _ s2 Hi2). by apply (resend_inv _ _ _ _ s2 emit_synack); [| |apply emit_synack_ok].
Qed.

Lemma abort_local_holds s : inv s -> holds s (abort_local s, Ok tt).
Proof using Cok. intros Hi. apply holds_ret; [by apply abort_local_inv|apply abort_local_follows]. Qed.

Lemma on_syn_sent_inv s seg : inv s -> state s = SynSent -> seg_wf seg -> holds s (on_syn_sent s seg).
Proof using Cok.
  intros Hi Hs Hw. assert (Ho : opening (state s) = true) by by rewrite Hs. unfold on_syn_sent.
  destruct (Wire.has seg flags.ACK && seq_gt (seg_ack seg) (iss s) && seq_le (seg_ack seg) (snd_nxt s)) eqn:Ha.
  - rewrite andb_false_r. case_if; [by apply abort_local_holds|]. case_if; [by apply holds_ret|].
    apply complete_active_open_inv; try done. destruct Hi as [_ (k & Ht & _)].
    destruct (opening_tx k _ Ht Ho) as (_ & _ & Hn & _). cbn in Hn. rewrite Hn in *.
    apply andb_true_iff in Ha as [[_ H1]%andb_true_iff H2]. pose proof (sw_ack _ Hw) as Hu.
    pose proof (tx_u32 _ _ _ _ _ Ht) as (_ & _ & Hu2 & _). cbn in Hu2. revert H1 H2 Hu Hu2. clear. intros. word_lia.
  - rewrite andb_true_r. repeat case_if; try by apply holds_ret; [|].
    + by apply reset_stray_ack_inv.
    + by apply simultaneous_open_inv.
Qed.

(** Where a segment leaves the connection, and the errors it may return. *)
Definition lands {A} (s : t) (r : t * Res A) : Prop :=
  outcome Qr m Qs w s (fst r) /\ match snd r with Ok _ => True | Err e => e = NotForUs \/ e = InvalidState end.

Lemma lands_holds {A} s (r : t * Res A) : holds s r -> lands s r.
Proof using. intros (s' & a & -> & Hi & Hg). split; [left|]; done. Qed.

Lemma lands_from {A} s s1 (r : t * Res A) : follows s s1 -> lands s1 r -> lands s r.
Proof using.
  intros Hg [[[Hi Hf]|(Hn & Hl & Hs)] He]; split; try done; [left|right].
  - split; [done|by etransitivity].
  - destruct Hg as [Hg Hl1]. split; [congruence|]. split; [by eapply loan_trans|done].
Qed.

Lemma lands_fresh {A} s (r : t * Res A) k :
  0 < k <= 2 -> runs r (fun s' _ => sane s' /\ renewed k s s') -> lands s r.
Proof using.
  intros Hk (s' & a & -> & Hi & Hg & Hl). split; [|done]. right. split; [|done]. cbn. rewrite Hg. by apply gen_succ.
Qed.

Lemma complete_passive_open_inv s seg :
  inv s -> state s = SynRcvd -> seg_wf seg -> seg_ack seg = wadd32 (iss s) 1 ->
  (genuine Qr 0 s seg) -> holds s (complete_passive_open s seg).
Proof using Cok.
  intros Hi Hs Hw Ha Hh. assert (Ho : opening (state s) = true) by by rewrite Hs.
  pose proof (proj1 Hi) as (n & Hr & _ & Hop). destruct (Hop Ho) as (Hm0 & Hn0 & _ & Hirs). specialize (Hirs Hs).
  pose proof (st_len _ _ _ _ _ _ (rx_stores _ _ _ _ Hr)) as Hlen.
  assert (Hn : seg_ack seg = snd_nxt s).
  { destruct Hi as [_ (k & Ht & _)]. destruct (opening_tx k _ Ht Ho) as (_ & _ & Hn & _). cbn in Hn. congruence. }
  pose proof (passive_established_views s seg Hn Hirs) as E.
  destruct (started_inv s _ _ Hi Ho (proj2 (rx_u32 _ _ _ _ Hr)) E) as [Hi1 Hg1].
  unfold complete_passive_open. set (s1 := passive_established s seg) in *. clearbody s1.
  apply (holds_from _ _ _ _ _ _ _ Hg1). case_if; [by apply send_pure_ack_inv|].
  destruct (started_rx _ _ _ E) as (E1 & E3 & E4).
  apply on_synchronized_inv; try done; [by rewrite E1|]. intros _. unfold genuine, ahead in *.
  rewrite E3, E4. cbn in Hirs, Hlen. rewrite <- Hirs, <- Hlen, Hn0. exact Hh.
Qed.

(** The text of a segment is the peer's, wherever the connection takes it. *)
Definition truthful (s : t) (seg : Segment) : Prop :=
  can_recv (state s) = true \/ state s = SynRcvd -> genuine Qr (m + Ring.len (recv_ring s)) s seg.

Lemma truthful_syn_rcvd s seg : inv s -> state s = SynRcvd -> truthful s seg -> genuine Qr 0 s seg.
Proof using.
  intros [(n & Hr & _ & Hop) _] Hs Ht. pose proof (st_len _ _ _ _ _ _ (rx_stores _ _ _ _ Hr)) as Hlen. cbn in Hlen.
  destruct Hop as (_ & Hn & _); [cbn; by rewrite Hs|]. unfold truthful in Ht. rewrite <- Hlen, Hn in Ht. auto.
Qed.

Lemma oow_allowed_views s : views (fst (oow_allowed s)) = views s.
Proof using. unfold oow_allowed. repeat case_match; reflexivity. Qed.

Lemma reset_to_listen_lands s : inv s -> lands s (reset_to_listen_or_closed s, Ok tt).
Proof using Cok.
  intros Hi. apply (lands_fresh _ _ 1), runs_ret; [lia|]. split; [|apply reset_to_listen_renewed].
  exists 0, 0. apply reset_to_listen_inv. by apply inv_storage in Hi as [? _].
Qed.

Lemma on_syn_rcvd_lands s seg :
  inv s -> state s = SynRcvd -> seg_wf seg -> truthful s seg -> lands s (on_syn_rcvd s seg).
Proof using Cok.
  intros Hi Hs Hw Ht. pose proof (truthful_syn_rcvd s seg Hi Hs Ht) as Hg. unfold on_syn_rcvd.
  case_if.
  { case_if; [apply lands_holds; by apply holds_ret|]. case_if; [apply lands_holds; by apply send_oow_ack_inv|].
    destruct (is_listener s); [by apply reset_to_listen_lands|apply lands_holds; by apply abort_local_holds]. }
  apply lands_holds. case_if.
  { case_if.
    - case_if; [|by apply reset_stray_ack_inv]. bool_facts. by apply complete_passive_open_inv.
    - case_if; [|by apply holds_ret]. pose proof (oow_allowed_views s) as E. destruct (oow_allowed s) as [s1 ok]. cbn [fst] in E.
      pose proof (inv_views _ _ _ _ _ _ E Hi) as Hi1. apply (holds_views _ _ _ _ _ _ _ E).
      case_if; [|by apply holds_ret]. apply holds_bind; [by apply emit_synack_inv|]. intros s2 _ Hi2 _. by apply holds_ret. }
  case_if; [by apply holds_ret|]. case_if; [by apply reset_stray_ack_inv|]. bool_facts.
  case_if; [by apply send_oow_ack_inv|]. by apply complete_passive_open_inv.
Qed.

Lemma try_promote_lands s seg : inv s -> seg_wf seg -> lands s (try_promote_via_cookie s seg).
Proof using Cok.
  intros Hi Hw. unfold try_promote_via_cookie. destruct (validate_cookie s seg) as [opts|]; [|apply lands_holds; by apply holds_ret].
  apply (lands_fresh _ _ 1); [lia|]. apply inv_storage in Hi as [Hs _]. eapply runs_bind; [by apply promote_via_cookie_inv|].
  intros s1 u H. by apply runs_ret.
Qed.

Lemma lands_then {A B} s (r : t * Res A) (b : B) : lands s r -> lands s (try s' := r in (s', Ok b)).
Proof using. destruct r as [s' [a|e]]; intros [Ho He]; done. Qed.

Lemma on_listen_lands s seg : inv s -> state s = Listen -> seg_wf seg -> lands s (on_listen s seg).
Proof using Cok.
  intros Hi Hs Hw. unfold on_listen. repeat case_if; try (apply lands_holds; by apply holds_ret).
  - by apply lands_then, try_promote_lands.
  - apply lands_holds. by apply reset_stray_ack_inv.
  - apply (lands_fresh _ _ 1); [lia|]. apply inv_storage in Hi as [Hst _]. eapply runs_mono; [by apply (accept_syn_inv Any Any)|].
    intros s1 _ [H1 H2]. split; [by exists 0, 0|done].
Qed.

Lemma dispatch_lands s seg :
  inv s -> seg_wf seg -> truthful s seg -> lands s (dispatch s seg).
Proof using Cok.
  intros Hi Hw Ht. unfold dispatch. set (s1 := set_field stats s _).
  assert (Hi1 : inv s1) by exact Hi. assert (Ht1 : truthful s1 seg) by exact Ht.
  assert (Hg1 : follows s s1) by exact (follows_refl s). clearbody s1. apply (lands_from _ s1 _ Hg1).
  assert (Hy : opening (state s1) = false -> lands s1 (on_synchronized s1 seg)).
  { intros Ho. apply lands_holds, on_synchronized_inv; try done. intros Hc. by apply Ht1; left. }
  destruct (state s1) eqn:Hs; try (by apply Hy).
  - split; [left; done|by right].
  - apply lands_holds. by apply on_syn_sent_inv.
  - by apply on_listen_lands.
  - by apply on_syn_rcvd_lands.
Qed.

(** The segment is not from the peer. *)
Definition stranger (s : t) (seg : Segment) : Prop := src_ip seg <> ip (remote s) \/ src_port seg <> port (remote s).

Lemma emit_cookie_synack_inv s seg : inv s -> seg_wf seg -> stranger s seg -> holds s (emit_cookie_synack s seg).
Proof using Cok.
  intros Hi Hw Hp. destruct (inv_parts _ _ _ _ s Hi) as [He _]. destruct Hi as [Hr (k & Ht & _)].
  unfold stranger in Hp. rewrite <- (be16_roundtrip _ (sw_port _ Hw)) in Hp.
  eapply runs_mono; [apply (emit_cookie_synack_ok Qs s He seg); [apply Hw|exact Hp]|]. intros s1 _ (E1 & E2 & Hg%link_follows & He1). split; [|done].
  split; [rewrite E1; exact Hr|exists k; split; [rewrite E2; exact Ht|exact He1]].
Qed.

Lemma on_busy_listener_lands s seg : inv s -> seg_wf seg -> stranger s seg -> lands s (on_busy_listener s seg).
Proof using Cok.
  intros Hi Hw Hp. assert (Hno : forall A, lands s (s, @Err A NotForUs)) by (intros; split; [left; done|by left]).
  unfold on_busy_listener. case_if; [apply Hno|]. case_if; [apply lands_holds; by apply emit_cookie_synack_inv|].
  case_if; [|apply Hno]. destruct (validate_cookie s seg) as [opts|]; [|apply Hno].
  apply inv_storage in Hi as [Hs _]. pose proof (reset_to_listen_inv Any Any s Hs) as [Hs1 _]%inv_storage.
  apply (lands_fresh s _ 2); [lia|].
  eapply runs_mono; [by apply promote_via_cookie_inv|]. intros s2 u [H1 H2]. split; [done|].
  exact (renewed_trans 1 1 _ _ _ (reset_to_listen_renewed s) H2).
Qed.

(** A SYN for a listener. *)
Lemma listen_syn s seg :
  TcbInv.inv Any 0 Any 0 s -> state s = Listen -> seg_wf seg ->
  Wire.has seg flags.SYN = true -> Wire.has seg flags.ACK = false -> Wire.has seg flags.RST = false -> Wire.has seg flags.FIN = false ->
  runs (dispatch s seg) (fun s' _ => sane s' /\ renewed 1 s s').
Proof using Cok.
  intros Hi Hst Hw F1 F2 F3 F4. unfold dispatch. set (s2 := set_field stats s _).
  assert (Hs2 : state s2 = Listen /\ follows s s2 /\ TcbInv.inv Any 0 Any 0 s2)
    by (split; [exact Hst|split; [exact (follows_refl s)|exact Hi]]).
  clearbody s2. destruct Hs2 as (-> & Hg2 & [Hs2 _]%inv_storage). unfold on_listen. rewrite F1, F2, F3, F4. cbn [negb orb].
  eapply runs_mono; [by apply (accept_syn_inv Any Any)|]. intros s3 u [Hi3 Hg3]. split; [by exists 0, 0|].
  by eapply follows_renewed.
Qed.

Lemma reset_to_listen_state s : is_listener s = true -> state (reset_to_listen_or_closed s) = Listen.
Proof using. intros E. unfold reset_to_listen_or_closed. rewrite E. reflexivity. Qed.

(** A half-open connection that gives way to another client's SYN. *)
Lemma replace_half_open_lands s seg :
  inv s -> seg_wf seg -> may_replace_half_open s seg = true -> lands s (dispatch (reset_to_listen_or_closed s) seg).
Proof using Cok.
  intros Hi Hw Hm. unfold may_replace_half_open in Hm. bool_facts. apply (lands_fresh s _ 2); [lia|].
  apply inv_storage in Hi as [Hs _]. eapply runs_mono; [apply listen_syn; try done|].
  - by apply reset_to_listen_inv.
  - by apply reset_to_listen_state.
  - intros s3 u [Hi3 Hg3]. split; [done|]. exact (renewed_trans 1 1 _ _ _ (reset_to_listen_renewed s) Hg3).
Qed.

(** Every inbound segment. *)
Lemma inject_segment_lands s seg : inv s -> seg_wf seg -> truthful s seg -> lands s (inject_segment s seg).
Proof using Cok.
  intros Hi Hw Ht. unfold inject_segment. case_if; [split; [left; done|by left]|].
  destruct (negb (state_eqb _ _) && _) eqn:Hp; [|by apply dispatch_lands].
  destruct (may_replace_half_open s seg) eqn:Hm; [by apply replace_half_open_lands|apply on_busy_listener_lands; try done].
  unfold stranger. rewrite andb_true_iff, !negb_true_iff, andb_false_iff, bool_decide_eq_false, Z.eqb_neq in Hp. apply Hp.
Qed.

End Handshake.

End Open.
