(* ===== verification/TcbSys.v ===== *)
(** * The connection under any host and any wire

    Every host call and every event keeps the invariant, so it holds of every
    reachable state; what that means for the library's own checks and for the
    errors its calls return. *)
From S2P Require Import Prelude Error Seq State Effect Ring RingStore Sack Ooo TxRing Options Wire WireWf RtxQueue Rack RtxCover.
From S2P Require Import Congestion Tcb TcbAck TcbOutput Cookie TcbInput TcbTimers TcbApi TcbRx TcbFrame TcbTx TcbEmit TcbSend TcbInv TcbOpen.
Import Tcb RtxCover.

Section Calls.
Context `{C : Config} {Cok : ConfigOk C}.

(** ** Timers *)

Lemma due_armed d now : Deadline.due d now = true -> Deadline.is_armed d = true.
Proof using. unfold Deadline.due, Deadline.get, Deadline.is_armed. by case_if. Qed.

(** What [run_timers] does after the handshake timers. *)
Definition later_timers (now : Z) (self : t) : t * Res unit :=
  try (self, go) := recovery_timers self in
  if negb go then (self, Ok tt) else
  try (self, go) := liveness_timers self in
  if negb go then (self, Ok tt) else
  try self := maybe_send_data self in
  if pending_ack self && Deadline.due (ack_deadline self) now then send_pure_ack self else (self, Ok tt).

Lemma later_timers_inv Qr m Qs w now s : TcbInv.inv Qr m Qs w s -> TcbInv.holds Qr m Qs w s (later_timers now s).
Proof using Cok.
  intros Hi. unfold later_timers. apply holds_bind; [by apply recovery_timers_inv|]. intros s1 go Hi1 _.
  case_if; [by apply holds_ret|]. apply holds_bind; [by apply liveness_timers_inv|]. intros s2 go2 Hi2 _.
  case_if; [by apply holds_ret|]. apply holds_bind; [by apply maybe_send_data_inv|]. intros s3 u Hi3 _.
  case_if; [by apply send_pure_ack_inv|by apply holds_ret].
Qed.

Section Ticks.
Variables (Qr : Z -> Z -> Prop) (m : Z) (Qs : Z -> Z -> Prop) (w : Z).

Local Abbreviation inv := (inv Qr m Qs w).
Local Abbreviation holds := (holds Qr m Qs w).

(** A call that may also replace the connection, and does not fail. *)
Definition settles {A} (s : t) (r : t * Res A) : Prop := runs r (fun s' _ => outcome Qr m Qs w s s').

Lemma settles_holds {A} s (r : t * Res A) : holds s r -> settles s r.
Proof using. intros H. eapply runs_mono; [exact H|]. intros s' a H'. by left. Qed.

Lemma settles_fresh {A} s (r : t * Res A) k :
  0 < k <= 2 -> runs r (fun s' _ => sane s' /\ renewed k s s') -> settles s r.
Proof using.
  intros Hk H. eapply runs_mono; [exact H|]. intros s' a (Hi & Hg & Hl). right. split; [|done]. rewrite Hg. by apply gen_succ.
Qed.

Lemma syn_rcvd_timer_inv s :
  inv s -> state s = SynRcvd ->
  holds s (syn_rcvd_timer s) \/ runs (syn_rcvd_timer s) (fun s' _ => TcbInv.inv Any 0 Any 0 s' /\ renewed 1 s s').
Proof using Cok.
  intros Hi Hs. unfold syn_rcvd_timer. case_if; [left; by apply holds_ret|].
  set (s1 := set_field syn_rcvd_retries s _). assert (E1 : views s1 = views s) by reflexivity.
  assert (Hi1 : inv s1) by exact (inv_views _ _ _ _ _ _ E1 Hi). pose proof (views_follows _ _ E1) as Hf1. clearbody s1. case_if.
  - destruct (is_listener s1).
    + right. apply runs_ret. apply inv_storage in Hi1 as [Hst _]. split; [by apply reset_to_listen_inv|].
      eapply follows_renewed; [exact Hf1|apply reset_to_listen_renewed].
    + left. apply (holds_from _ _ _ _ _ _ _ Hf1). by apply abort_local_holds.
  - left. set (s2 := backoff_rto _). assert (E2 : views s2 = views s1) by reflexivity.
    assert (Hi2 : inv s2) by exact (inv_views _ _ _ _ _ _ E2 Hi1).
    assert (Hne : snd_una s2 <> snd_nxt s2).
    { apply (opening_edges Qr m Qs w); [exact Hi2|]. by rewrite (views_state _ _ E2), (views_state _ _ E1), Hs. }
    apply (holds_from _ _ _ _ _ s2); [etransitivity; [exact Hf1|exact (views_follows _ _ E2)]|]. clearbody s2.
    destruct (inv_parts _ _ _ _ s2 Hi2). by apply (resend_inv _ _ _ _ s2 emit_synack); [| |apply emit_synack_ok].
Qed.

Lemma time_wait_expires s :
  inv s -> Deadline.due (time_wait_deadline s) (now_ms s) = true -> inv (disarm_timers (s <| state := Closed |>)).
Proof using Cok.
  intros Hi Ha%due_armed.
  pose proof Hi as [_ (k & _ & He)]. pose proof (eg_tw _ _ He Ha) as Hst. cbn in Hst.
  assert (Hfa : fin_sent s = true /\ snd_una s = snd_nxt s)
    by (destruct Hi as [_ (k' & Ht & _)]; apply (tx_acked _ _ _ _ _ Ht); cbn; by rewrite Hst).
  apply rto_off_inv in Hi. set (s1 := s <| rto_deadline := Deadline.OFF |>) in *.
  eapply (moved_inv _ _ _ _ s1 _ Closed); try done.
  - split; [reflexivity|]. split; [reflexivity|]. exists Deadline.OFF. split; [reflexivity|done].
  - change (opening (state s) = false). by rewrite Hst.
  - left. change (can_recv (state s) = false). by rewrite Hst.
  - by left.
  - change (state s <> Closed). by rewrite Hst.
  - change (state s <> Listen). by rewrite Hst.
Qed.

Lemma tick_settles s : inv s -> settles s (tick s).
Proof using Cok.
  intros Hi. unfold tick, run_timers. destruct (Deadline.due (time_wait_deadline s) (now_ms s)) eqn:Htw.
  { apply settles_holds, holds_ret; [by apply time_wait_expires|exact (follows_refl s)]. }
  case_if.
  { apply settles_holds, holds_bind; [by apply emit_ctl_inv|]. intros s1 _ Hi1 _. by apply abort_local_holds. }
  change (settles s (try s1 := handshake_timers s in later_timers (now_ms s) s1)).
  unfold handshake_timers. destruct (state s) eqn:Hs;
    try (apply settles_holds, holds_bind; [by apply holds_ret|intros; by apply later_timers_inv]).
  - apply settles_holds, holds_bind; [by apply syn_sent_timer_inv|intros; by apply later_timers_inv].
  - destruct (syn_rcvd_timer_inv s Hi Hs) as [H|H]; [apply settles_holds, holds_bind; [exact H|intros; by apply later_timers_inv]|].
    apply (settles_fresh s _ 1); [lia|]. eapply runs_bind; [exact H|]. intros s1 u [Hi1 Hr1].
    eapply runs_mono; [apply (later_timers_inv Any 0 Any 0 (now_ms s) s1 Hi1)|]. intros s2 u2 [Hi2 Hf2].
    split; [by exists 0, 0|by eapply renewed_follows].
Qed.

End Ticks.

(** ** Configuration *)

Section Config.
Variables (Qr : Z -> Z -> Prop) (m : Z) (Qs : Z -> Z -> Prop) (w : Z).

Local Abbreviation inv := (inv Qr m Qs w).
Local Abbreviation holds := (holds Qr m Qs w).

Lemma set_egress_paused_views s p : views (set_egress_paused s p) = views s.
Proof using.
  unfold set_egress_paused. set (s1 := if _ && _ && _ then _ else s).
  assert (E : views s1 = views s) by (unfold s1; case_if; [apply maybe_arm_tlp_views|reflexivity]). clearbody s1. exact E.
Qed.

Lemma set_keepalive_views s i n c : views (set_keepalive s i n c) = views s.
Proof using. reflexivity. Qed.

Lemma set_user_timeout_views s ms : views (set_user_timeout s ms) = views s.
Proof using. reflexivity. Qed.

Lemma set_fin_wait2_timeout_views s ms : views (set_fin_wait2_timeout s ms) = views s.
Proof using. reflexivity. Qed.

Lemma install_cookie_key_views s k : views (install_cookie_key s k) = views s.
Proof using.
  unfold install_cookie_key. set (s1 := if cookie_secret_set s && _ && _ then _ else s).
  assert (E : views s1 = views s) by (unfold s1; case_if; reflexivity). clearbody s1.
  case_if; exact E.
Qed.

Lemma set_secret_views s k : views (set_secret s k) = views s.
Proof using. unfold set_secret. case_if; [rewrite install_cookie_key_views|]; reflexivity. Qed.

Lemma explicit_views s : views (s <| cookie_secret_explicit := true |>) = views s.
Proof using. reflexivity. Qed.

Lemma set_cookie_secret_views s k : views (set_cookie_secret s k) = views s.
Proof using. unfold set_cookie_secret. rewrite explicit_views. apply install_cookie_key_views. Qed.

Lemma clamp_mtu x : HDR_LEN <= clamp x MIN_MTU MAX_MTU <= MAX_PACKET /\ 0 <= clamp x MIN_MTU MAX_MTU - HDR_LEN <= MSS.
Proof using. change HDR_LEN with 40. change MIN_MTU with 576. change MAX_MTU with 1500. change MAX_PACKET with 1500. change MSS with 1460. unfold clamp. lia. Qed.

Lemma set_mtu_inv s x :
  inv s -> inv (fst (set_mtu s x)) /\ follows s (fst (set_mtu s x)) /\
  match snd (set_mtu s x) with Ok _ => True | Err e => e = InvalidState end.
Proof using.
  intros Hi. unfold set_mtu.
  assert (Hc : forall c, inv (s <| mtu := clamp x MIN_MTU MAX_MTU |> <| local_mss := clamp x MIN_MTU MAX_MTU - HDR_LEN |>
      <| pmtu_mss := clamp x MIN_MTU MAX_MTU - HDR_LEN |> <| cc := c |>)).
  { intros c. destruct Hi as [Hr (k & Ht & [? ? ? ? ? Hq ?])]. destruct (clamp_mtu x). split; [exact Hr|]. exists k.
    split; [exact Ht|]. by split. }
  destruct (state s) eqn:Hs; (split; [first [exact Hi|apply Hc]|split; [exact (follows_refl s)|done]]).
Qed.

Lemma mark_oversized_step s limit : loss_step s (s <| rtx := mark_oversized limit (rtx s) |>).
Proof using Cok.
  apply loss_rtx. intros a n f Hc. unfold mark_oversized. destruct rtx_words as (W & HW & HC).
  assert (Hf : Forall (fun i => 0 <= i) (seqZ 0 (Rtx.len (rtx s)))) by (apply Forall_forall; intros i Hi%elem_of_seqZ; lia).
  revert Hc Hf. generalize (rtx s) at 1 3. generalize (seqZ 0 (Rtx.len (rtx s))). intros l. induction l as [|i l IH]; intros q Hc Hf; [done|].
  apply Forall_cons in Hf as [Hi Hf]. cbn. apply IH; [|done]. case_match; [|done]. case_if; [|done]. by apply (covers_mark_lost RTX W).
Qed.

Lemma update_pmtu_inv s x : inv s -> inv (update_pmtu s x) /\ follows s (update_pmtu s x).
Proof using Cok.
  intros Hi. unfold update_pmtu. cbn zeta. set (s0 := set_field pmtu_restore_mss s _).
  set (s1 := if pmtu_restore_mss s0 <=? _ then _ else s0).
  assert (E1 : views s1 = views s) by (unfold s1; case_if; reflexivity). clearbody s1. clear s0.
  pose proof (inv_views _ _ _ _ _ _ E1 Hi) as Hi1. pose proof (views_follows _ _ E1) as Hf1. case_if; [done|].
  set (s2 := set_field pmtu_mss s1 _). assert (E2 : views s2 = views s1) by reflexivity. clearbody s2.
  pose proof (inv_views _ _ _ _ _ _ E2 Hi1) as Hi2. pose proof (follows_trans _ _ _ Hf1 (views_follows _ _ E2)) as Hf2.
  case_if; [|done]. pose proof (mark_oversized_step s2 (mss_payload s2)) as L. set (s3 := set_field rtx s2 _) in *. clearbody s3.
  pose proof (holds_loss _ _ _ _ _ _ L Hi2) as Hi3. pose proof (loss_follows _ _ L) as Hf3.
  destruct (maybe_send_data_inv _ _ _ _ s3 Hi3) as (s4 & u & -> & Hi4 & Hf4). split; [done|].
  etransitivity; [exact Hf2|]. by etransitivity.
Qed.

End Config.

(** ** Opening *)

Lemma blank_not_full s : blank (store s) -> TxRing.is_full TXQ (tx_ring s) = false.
Proof using Cok.
  intros [_ _ _ _ _ _ _ [Hw Hp] _]. cbn in Hp. apply (TxRing.packets_nil TXQ MAX_PACKET _ Hw) in Hp.
  cbn in Hp. unfold TxRing.is_full. rewrite Hp. pose proof txq_valid. lia.
Qed.

(** [connect] after the reset. *)
Definition connect_tail (self : t) : t * Res unit :=
  let self := self <| ts_offset := ts_offset_for self (remote self) |> in
  let self := self <| state := SynSent |> in
  let self := self <| syn_xmit_ms := now_ms self |> in
  try (self, sent) := emit_syn self in
  if sent then
    let self := self <| snd_nxt := wadd32 (iss self) 1 |> in
    let self := self <| syn_unacked := true |> in
    (arm_rto self, Ok tt)
  else (self, Ok tt).

Lemma connect_tail_ok s :
  emptied s -> length (ip (remote s)) = 4%nat -> runs (connect_tail s) (fun s' _ => fresh s' /\ follows s s').
Proof using Cok.
  intros Hem Hr. apply runs_fresh. intros Qr Qs. revert Hem Hr. intros [Hb [H1 H2] (H3 & H4 & H5 & _)] Hr. pose proof (blank_not_full s Hb) as Hnf. unfold connect_tail.
  set (s1 := set_field syn_xmit_ms _ _).
  assert (Hs1 : blank (store s1) /\ state s1 = SynSent /\ is_u32 (rcv_nxt s1) /\ is_u32 (irs s1) /\ is_u32 (iss s1) /\
    snd_una s1 = iss s1 /\ length (ip (remote s1)) = 4%nat /\ TxRing.is_full TXQ (tx_ring s1) = false /\ link s1 = link s)
    by (split_and!; (exact Hb || reflexivity || assumption)).
  clearbody s1. destruct Hs1 as (Hb1 & Hst & F1 & F2 & F3 & F4 & F5 & F6 & F7).
  destruct (emit_syn_ok Qs s1 (blank_eg Qs s1 Hb1 F5) (proj1 (bl_send _ Hb1))) as (s2 & b & -> & Hm & He & Hbf).
  rewrite (Hbf F6) in *. cbn [st_bind]. apply runs_ret. split.
  - by apply (opened_inv Qr Qs s1 s2 SynSent).
  - apply arm_rto_follows. apply link_follows in F7. etransitivity; [exact F7|].
    exact (link_follows s1 s2 (f_equal link Hm)).
Qed.

Lemma connect_unfold s :
  connect s = if negb (state_eqb (state s) Closed) then (s, Err InvalidState)
              else connect_tail (reset_connection_state (s <| is_listener := false |>)).
Proof using. unfold connect, connect_tail. cbv zeta. reflexivity. Qed.

Lemma reset_remote s : remote (reset_connection_state s) = remote s.
Proof using. reflexivity. Qed.

Lemma connect_settles s :
  storage s -> length (ip (remote s)) = 4%nat ->
  runs (connect s) (fun s' _ => fresh s' /\ renewed 1 s s') \/ connect s = (s, Err InvalidState).
Proof using Cok.
  intros Hs Hr. rewrite connect_unfold. case_if; [by right|left].
  set (s0 := s <| is_listener := false |>). assert (Hs0 : storage s0) by (destruct Hs; by split).
  assert (Hl0 : follows s s0) by exact (follows_refl s). assert (Hr0 : remote s0 = remote s) by reflexivity. clearbody s0.
  eapply runs_mono; [apply connect_tail_ok; [by apply reset_emptied|rewrite reset_remote, Hr0; exact Hr]|].
  intros s2 u [Hi Hf]. split; [done|]. eapply renewed_follows; [|exact Hf]. eapply follows_renewed; [exact Hl0|apply reset_renewed].
Qed.

Lemma listen_tail_ok s :
  emptied s -> length (ip (remote s)) = 4%nat -> fresh (s <| state := Listen |>) /\ follows s (s <| state := Listen |>).
Proof using.
  intros He Hr. split; [|exact (follows_refl s)]. intros Qr Qs. exact (emptied_inv Qr Qs s (remote s) Listen He Hr (or_intror eq_refl)).
Qed.

Lemma closed_tail_ok s :
  emptied s -> length (ip (remote s)) = 4%nat -> fresh (s <| state := Closed |>) /\ follows s (s <| state := Closed |>).
Proof using.
  intros He Hr. split; [|exact (follows_refl s)]. intros Qr Qs. exact (emptied_inv Qr Qs s (remote s) Closed He Hr (or_introl eq_refl)).
Qed.

Lemma listen_settles s :
  storage s ->
  runs (listen s) (fun s' _ => fresh s' /\ renewed 1 s s') \/ listen s = (s, Err InvalidState).
Proof using Cok.
  intros Hs. set (s0 := s <| remote := no_endpoint |> <| is_listener := true |>).
  assert (Hs0 : storage s0) by (destruct Hs; by split).
  assert (Hgo : runs ((reset_connection_state s0) <| state := Listen |>, Ok tt)
    (fun s' _ => fresh s' /\ renewed 1 s s')).
  { assert (Hl0 : follows s s0) by exact (follows_refl s). assert (Hr0 : ip (remote s0) = ip no_endpoint) by reflexivity.
    clearbody s0. apply runs_ret.
    destruct (listen_tail_ok _ (reset_emptied s0 Hs0)) as [H1 H2]; [by rewrite reset_remote, Hr0|]. split; [exact H1|].
    eapply renewed_follows; [|exact H2]. eapply follows_renewed; [exact Hl0|apply reset_renewed]. }
  unfold listen. destruct (state s); try (by right); (case_if; [by right|left; exact Hgo]).
Qed.

(** ** Data *)

Lemma free_regions_range r max :
  Ring.wf BUF r -> 0 <= max ->
  let '(a, b) := Ring.free_regions BUF r max in 0 <= snd a - fst a /\ 0 <= snd b - fst b.
Proof using Cok.
  intros [Hb Hl _] Hm. unfold Ring.free_regions, Ring.free. case_if; [|done]. cbn [fst snd].
  rewrite (Ring.mask_mod BUF BUF_pow2). pose proof BUF_bounds as HB. change (2 ^ 30) with 1073741824 in HB.
  assert (Hp : 0 < BUF) by lia. pose proof (Z.mod_pos_bound (Ring.tail r) BUF Hp). repeat case_if; bool_facts; lia.
Qed.

Section Data.
Variables (Qr : Z -> Z -> Prop) (m : Z) (Qs : Z -> Z -> Prop) (w : Z).

Local Abbreviation inv := (inv Qr m Qs).

Definition with_ring (v : TxView) (r : Ring.t) : TxView :=
  mkTxView (v_state v) (v_iss v) (v_una v) (v_nxt v) (v_syn v) (v_fin v) (v_fseq v) (v_rtx v) r (v_rto v).

(** More of the application's stream is queued. *)
Lemma tx_queued k w' v r :
  tx_inv Qs k w none_lent v -> can_send (v_state v) = true -> stores BUF Qs k w' none_lent r ->
  Ring.len (v_ring v) <= Ring.len r -> tx_inv Qs k w' none_lent (with_ring v r).
Proof using.
  intros [Hu Hst Hc Ht Hfn Hak Hqt Hsy Hop Hba Hrt] Hs Hr Hl. split; try done.
  - change (v_text (with_ring v r)) with (v_text v). cbn. lia.
  - cbn. intros Hf. destruct (Hfn Hf) as (_ & _ & Hx). by destruct (v_state v).
  - cbn. intros Hm. by destruct (v_state v).
Qed.

Lemma queued_inv s s' r w' :
  inv w s -> can_send (state s) = true -> rx_view s' = rx_view s -> tx_view s' = with_ring (tx_view s) r ->
  eg_view s' = eg_view s ->
  (forall k, stores BUF Qs k w none_lent (send_ring s) -> stores BUF Qs k w' none_lent r) ->
  Ring.len (send_ring s) <= Ring.len r -> inv w' s'.
Proof using.
  intros [Hr (k & Ht & He)] Hs Er Et Ee Hst Hl. split; [by rewrite Er|]. exists k.
  split; [|by rewrite Ee]. rewrite Et. apply (tx_queued k w'); try done. apply Hst, Ht.
Qed.

(** [send] queues a prefix of the data, or refuses. *)
Lemma send_inv s data :
  inv w s ->
  (can_send (state s) = true -> send_lent s = 0 ->
    forall i b, i < Ring.free BUF (send_ring s) -> get data i = Some b -> Qs (w + i) b) ->
  exists n, 0 <= n <= Ring.free BUF (send_ring s) /\ inv (w + n) (fst (send s data)) /\ (conn_gen (fst (send s data)), iss (fst (send s data))) = (conn_gen s, iss s) /\
    send_lent (fst (send s data)) = send_lent s /\
    (send_lent s <> 0 -> fst (send s data) = s) /\
    match snd (send s data) with
    | Ok x => x = n /\ n = Z.min (zlen data) (Ring.free BUF (send_ring s))
    | Err e => n = 0 /\ (e = InvalidState \/ e = WouldBlock)
    end.
Proof using Cok.
  intros Hi HQ. unfold send. pose proof (inv_parts _ _ _ _ s Hi) as [He Hwf]. pose proof (Ring.wf_len _ _ Hwf) as Hlen.
  assert (Hf : 0 <= Ring.free BUF (send_ring s)) by (unfold Ring.free; lia).
  assert (Hsame : forall e, e = InvalidState \/ e = WouldBlock -> exists n, 0 <= n <= Ring.free BUF (send_ring s) /\ inv (w + n) s /\
    (conn_gen s, iss s) = (conn_gen s, iss s) /\ send_lent s = send_lent s /\ (send_lent s <> 0 -> s = s) /\ n = 0 /\ (e = InvalidState \/ e = WouldBlock))
    by (intros e Hee; exists 0; rewrite Z.add_0_r; done).
  destruct (can_send (state s)) eqn:Hs; cbn [negb fst snd]; [|apply Hsame; auto].
  destruct (Z.eqb_spec (send_lent s) 0) as [Hz|Hz]; cbn [negb fst snd]; [|apply Hsame; auto].
  specialize (HQ eq_refl Hz).
  pose proof (zlen_nonneg data) as Hd. set (c := Z.min (zlen data) (Ring.free BUF (send_ring s))).
  assert (Hw : exists r', Ring.write BUF (send_ring s) data = (r', c) /\ Ring.len r' = Ring.len (send_ring s) + c /\
    forall k, stores BUF Qs k w none_lent (send_ring s) -> stores BUF Qs k (w + c) none_lent r').
  { pose proof Hi as [_ (k0 & Ht & _)].
    destruct (stores_append BUF BUF_pow2 Qs k0 w _ _ data (tx_stores _ _ _ _ _ Ht) HQ) as (r' & E & El & _). cbn in E.
    exists r'. split; [done|]. split; [done|]. intros k Hst.
    destruct (stores_append BUF BUF_pow2 Qs k w _ _ data Hst HQ) as (r2 & E2 & _ & Hst2).
    rewrite E in E2. injection E2 as <-. eapply stores_iff, Hst2. intros x Hx. by destruct Hx. }
  destruct Hw as (r' & -> & El & Hst). cbn [fst snd]. exists c. split; [unfold c; lia|].
  assert (Hi' : inv (w + c) (s <| send_ring := r' |>)).
  { apply (queued_inv s _ r'); [done|done|reflexivity|reflexivity|reflexivity|done|rewrite El; unfold c; lia]. }
  case_if; (split; [exact Hi'|split; [reflexivity|split; [reflexivity|split; [done|cbn [snd]]]]]).
  - bool_facts. split; [done|by right].
  - done.
Qed.

(** [send_commit] queues what the host left in the lent space. *)
Lemma send_commit_inv s n :
  inv w s -> 0 <= n ->
  (can_send (state s) = true -> send_lent s <> 0 -> send_lent_conn s = conn_gen s ->
    forall i b, i < Z.min n (send_lent s) -> get (RingSpec.parked (Ring.abs BUF (send_ring s))) i = Some b -> Qs (w + i) b) ->
  exists c, 0 <= c /\ inv (w + c) (fst (send_commit s n)) /\
    (conn_gen (fst (send_commit s n)), iss (fst (send_commit s n))) = (conn_gen s, iss s) /\ send_lent (fst (send_commit s n)) = 0 /\
    match snd (send_commit s n) with
    | Ok x => x = c /\ c = Z.min (Z.min n (send_lent s)) (Ring.free BUF (send_ring s))
    | Err e => c = 0 /\ e = InvalidState
    end.
Proof using Cok.
  intros Hi Hn HQ. unfold send_commit. pose proof (inv_parts _ _ _ _ s Hi) as [He Hwf]. pose proof (Ring.wf_len _ _ Hwf) as Hlen.
  pose proof (proj2 (eg_isn _ _ He)) as Hl. cbn in Hl.
  assert (Hi0 : inv w (s <| send_lent := 0 |>)).
  { destruct Hi as [Hr (k & Ht & [? ? ? ? [? ?] ? ?])]. split; [exact Hr|]. exists k. split; [exact Ht|by split]. }
  set (s0 := s <| send_lent := 0 |>) in *. assert (Er : send_ring s0 = send_ring s) by reflexivity.
  assert (Eg : (conn_gen s0, iss s0) = (conn_gen s, iss s) /\ send_lent s0 = 0 /\ send_lent_conn s0 = send_lent_conn s) by done.
  change (state s) with (state s0) in HQ. clearbody s0. destruct Eg as (Eg & El0 & Ec).
  destruct (can_send (state s0)) eqn:Hs; cbn [negb]; [rewrite orb_false_r|rewrite orb_true_r; exists 0; rewrite Z.add_0_r; done].
  case_if; [exists 0; rewrite Z.add_0_r; done|]. rewrite Er. bool_facts.
  assert (HQ' := HQ eq_refl ltac:(assumption) ltac:(congruence)). clear HQ. rename HQ' into HQ.
  set (c := Z.min (Z.min n (send_lent s)) (Ring.free BUF (send_ring s))).
  assert (Hw : exists r', Ring.commit BUF (send_ring s) (Z.min n (send_lent s)) = (r', c) /\ Ring.len r' = Ring.len (send_ring s) + c /\
    forall k, stores BUF Qs k w none_lent (send_ring s) -> stores BUF Qs k (w + c) none_lent r').
  { pose proof Hi as [_ (k0 & Ht & _)]. pose proof (tx_stores _ _ _ _ _ Ht) as Hst0. cbn in Hst0.
    destruct (stores_commit_lent BUF BUF_pow2 Qs k0 w _ (Z.min n (send_lent s)) Hst0 ltac:(lia) HQ) as (r' & E & El & _).
    exists r'. split; [done|]. split; [done|]. intros k Hst.
    destruct (stores_commit_lent BUF BUF_pow2 Qs k w _ (Z.min n (send_lent s)) Hst ltac:(lia) HQ) as (r2 & E2 & _ & Hst2).
    rewrite E in E2. injection E2 as <-. done. }
  destruct Hw as (r' & -> & El & Hst). cbn [fst snd]. exists c. split; [unfold c, Ring.free; lia|].
  split; [|done]. rewrite <- Er in El, Hst.
  apply (queued_inv s0 _ r'); [done|done|reflexivity|reflexivity|reflexivity|done|rewrite El; unfold c, Ring.free; lia].
Qed.

Lemma send_reserve_inv s max :
  inv w s -> 0 <= max ->
  inv w (fst (send_reserve s max)) /\ (conn_gen (fst (send_reserve s max)), iss (fst (send_reserve s max))) = (conn_gen s, iss s) /\
  send_ring (fst (send_reserve s max)) = send_ring s /\
  match snd (send_reserve s max) with
  | Ok l => l = Ring.free_regions BUF (send_ring s) max /\ send_lent (fst (send_reserve s max)) <> 0 /\ send_lent s = 0
  | Err e => fst (send_reserve s max) = s /\ (e = InvalidState \/ e = WouldBlock)
  end.
Proof using Cok.
  intros Hi Hm. pose proof (inv_parts _ _ _ _ s Hi) as [_ Hwf]. unfold send_reserve. case_if; [cbn; split_and!; auto|].
  pose proof (free_regions_range (send_ring s) max Hwf Hm) as Hr.
  destruct (Ring.free_regions BUF (send_ring s) max) as [a b]. cbv zeta. case_if; [cbn; split_and!; auto|]. cbn [fst snd].
  bool_facts. split; [|split; [reflexivity|split; [reflexivity|split; [reflexivity|split; [assumption|assumption]]]]]. destruct Hi as [Hrx (k & Ht & [? ? ? ? [? ?] ? ?])]. split; [exact Hrx|].
  exists k. split; [exact Ht|]. split; try done. split; [done|]. change (0 <= (snd a - fst a) + (snd b - fst b)). lia.
Qed.

(** [recv] hands out the next bytes of the peer's stream. *)
Lemma recv_inv s dst :
  inv w s ->
  let '(s', res, dst') := recv s dst in
  exists out, dst' = out ++ drop (length out) dst /\ zlen out <= zlen dst /\ follows s s' /\
    TcbInv.inv Qr (m + zlen out) Qs w s' /\ (forall i b, get out i = Some b -> Qr (m + i) b) /\
    match res with Ok n => n = zlen out | Err e => zlen out = 0 /\ (error s = Some e \/ e = ConnectionClosed) end.
Proof using Cok.
  intros Hi. unfold recv. destruct (error s) as [e|] eqn:Eerr.
  { exists []. rewrite Z.add_0_r. split_and!; try done; [apply zlen_nonneg| |by left]. intros i b Hg%get_lt_Some. change (0 <= i < 0) in Hg. lia. }
  pose proof Hi as [(n & Hr & Ha & Ho) Ht].
  destruct (stores_read BUF BUF_pow2 Qr m n _ _ dst (rx_stores _ _ _ _ Hr)) as (r' & out & E & Ez & HQ & El & Hst).
  cbn in E, Ez, El, Hst. rewrite E. cbv beta iota zeta. pose proof (zlen_nonneg out).
  pose proof (zlen_nonneg dst). pose proof (Ring.wf_len _ _ (st_wf _ _ _ _ _ _ (rx_stores _ _ _ _ Hr))) as Hl. cbn in Hl.
  set (s1 := s <| recv_ring := r' |>).
  assert (Hi1 : TcbInv.inv Qr (m + zlen out) Qs w s1).
  { split; [|exact Ht]. exists n. split; [|split].
    - destruct Hr as [? ? _ ? Hf]. split; try done. intros h Hh. cbn in Hh. destruct (Hf h Hh) as (? & Hb & ? & ?). split_and!; try done; cbn.
      + apply Hb.
      + cbn in Hb. unfold Ring.free in *. lia.
    - exact Ha.
    - intros Hop. destruct (Ho Hop) as (-> & -> & ? & ?). pose proof (st_len _ _ _ _ _ _ (rx_stores _ _ _ _ Hr)) as Hlen. cbn in Hlen.
      split_and!; try done. lia. }
  assert (Hf1 : follows s s1) by exact (follows_refl s). clearbody s1.
  destruct (Z.ltb_spec 0 (zlen out)) as [Hp|Hp].
  - set (s2 := if (_ : bool) then _ else s1).
    assert (E2 : views s2 = views s1) by (unfold s2; case_if; reflexivity). clearbody s2.
    pose proof (inv_views _ _ _ _ _ _ E2 Hi1) as Hi2. destruct (inv_parts _ _ _ _ s2 Hi2) as [He2 Hw2].
    destruct (holds_emitted Qr (m + zlen out) Qs w s2 (maybe_send_window_update s2) Hi2) as (s3 & u & -> & Hi3 & Hf3);
      [intros; by apply maybe_send_window_update_ok|]. cbn [res_bind].
    replace (zlen out =? 0) with false by lia. exists out. split_and!; try done; [lia|]. etransitivity; [exact Hf1|].
    etransitivity; [exact (views_follows _ _ E2)|exact Hf3].
  - assert (zlen out = 0) as Hz by lia. rewrite Hz in *. cbn [res_bind]. change (0 =? 0) with true. cbv iota.
    exists out. rewrite Hz. split_and!; try done. destruct (state s1); try done; split; auto.
Qed.

End Data.

(** ** Closing and egress *)

(** The moves of [close]. *)
Inductive closing_move : State -> State -> Prop :=
  | close_established : closing_move Established FinWait1
  | close_half_open : closing_move SynRcvd FinWait1
  | close_wait : closing_move CloseWait LastAck.

Section Closing.
Variables (Qr : Z -> Z -> Prop) (m : Z) (Qs : Z -> Z -> Prop) (w : Z).

Local Abbreviation inv := (inv Qr m Qs w).
Local Abbreviation holds := (holds Qr m Qs w).

(** The FIN is owed from here on; the handshake may still be under way. *)
Lemma closing_inv s st : inv s -> closing_move (state s) st -> inv (s <| state := st |>).
Proof using Cok.
  intros Hi Hst. pose proof Hi as [Hr (k & Ht & He)].
  assert (Htw : Deadline.is_armed (time_wait_deadline s) = true -> st = TimeWait).
  { intros Ha. apply (eg_tw _ _ He) in Ha. cbn in Ha. rewrite Ha in Hst. inversion Hst. }
  assert (Hc : fin_state st = true /\ fin_acked_state st = false /\ may_transmit st = true /\ opening st = false /\
    state s <> Closed /\ state s <> Listen) by (destruct Hst; done).
  destruct Hc as (H1 & H2 & H3 & H4 & H5 & H6). split.
  - change (rx_ok Qr m (rx_state (rx_view s) st)). destruct (state s) eqn:Es; inversion Hst; subst st.
    + apply rx_move; [done|done|cbn; by rewrite Es|left; cbn; by rewrite Es].
    + apply rx_move; [done|done|cbn; by rewrite Es|left; cbn; by rewrite Es].
    + destruct Hr as (n & Hn & Ha & Ho). destruct (Ho ltac:(cbn; by rewrite Es)) as (Hm0 & Hn0 & _ & Hx). specialize (Hx Es).
      pose proof (rx_started Qr m (rx_view s) FinWait1 (irs s)) as Hs. cbn in Hs, Hx. unfold rx_state. cbn. rewrite Hx.
      apply Hs; [by exists n|by rewrite Es|apply (rx_u32 _ _ _ _ Hn)].
  - exists k. split; [|exact (eg_inv_at _ _ st (time_wait_deadline s) He Htw)].
    change (tx_inv Qs k w none_lent (set_state (tx_view s) st)). apply tx_move; try done; [by left|by rewrite H2|by rewrite H3].
Qed.

Lemma close_settles s : inv s -> settles Qr m Qs w s (close s).
Proof using Cok.
  intros Hi. unfold close.
  assert (Hgo : forall st, closing_move (state s) st -> holds s (maybe_send_data (s <| state := st |>))).
  { intros st Hst. pose proof (closing_inv s st Hi Hst) as Hi1. set (s1 := s <| state := st |>) in *.
    assert (Hf : follows s s1) by exact (follows_refl s). clearbody s1. apply (holds_from _ _ _ _ _ _ _ Hf). by apply maybe_send_data_inv. }
  assert (Hre : settles Qr m Qs w s ((reset_connection_state (s <| is_listener := false |>)) <| state := Closed |>, Ok tt)).
  { pose proof (inv_storage _ _ _ _ _ Hi) as [Hs Hr]. set (s0 := s <| is_listener := false |>).
    assert (Hs0 : storage s0) by (destruct Hs; by split). assert (Hf0 : follows s s0) by exact (follows_refl s).
    assert (Hr0 : remote s0 = remote s) by reflexivity. clearbody s0.
    apply (settles_fresh _ _ _ _ s _ 1); [lia|]. apply runs_ret. pose proof (reset_emptied s0 Hs0) as He.
    pose proof (reset_remote s0) as Hr1. pose proof (follows_renewed _ _ _ _ Hf0 (reset_renewed s0)) as Hrn.
    set (s1 := reset_connection_state s0) in *. clearbody s1.
    destruct (closed_tail_ok s1 He) as [H1 H2]; [by rewrite Hr1, Hr0|].
    split; [by apply fresh_sane|]. eapply renewed_follows; [exact Hrn|exact H2]. }
  destruct (state s) eqn:Hs; try exact Hre; try (apply settles_holds, Hgo; rewrite ?Hs; constructor);
    apply settles_holds; by apply holds_ret.
Qed.

Lemma abort_settles s : inv s -> settles Qr m Qs w s (abort s).
Proof using Cok.
  intros Hi. unfold abort. apply settles_holds.
  assert (Hgo : holds s (try self := emit_ctl s (Z.lor flags.RST flags.ACK) (snd_nxt s) (rcv_nxt s) in (abort_local self, Ok tt))).
  { apply holds_bind; [by apply emit_ctl_inv|]. intros s1 _ Hi1 _. by apply abort_local_holds. }
  assert (Hloc : holds s (abort_local (s <| is_listener := false |>), Ok tt)).
  { set (s0 := s <| is_listener := false |>). assert (Hi0 : inv s0) by exact Hi. assert (Hf0 : follows s s0) by exact (follows_refl s).
    clearbody s0. apply (holds_from _ _ _ _ _ _ _ Hf0). by apply abort_local_holds. }
  destruct (state s); try exact Hgo; try exact Hloc. by apply holds_ret.
Qed.

End Closing.

(** ** Construction *)

(** The configuration at its Rust types. *)
Definition cfg_wf (cfg : TcbConfig) : Prop :=
  length (ip (cfg_local cfg)) = 4%nat /\ length (ip (cfg_remote cfg)) = 4%nat /\ is_u32 (cfg_isn cfg).

Lemma setup_storage s cfg :
  Ring.wf BUF (recv_ring s) -> (exists nxt, Ooo.wf OOO_MAX (ooo s) nxt) -> Ring.wf BUF (send_ring s) ->
  (exists a n f, covers RTX a n f (rtx s)) -> TxRing.wf TXQ MAX_PACKET (tx_ring s) -> cfg_wf cfg ->
  storage (setup_assign s cfg) /\ remote (setup_assign s cfg) = cfg_remote cfg.
Proof using.
  intros H1 H2 H3 H4 H5 (H6 & _ & H7). split; [|reflexivity].
  split; [exact H1|exact H2|exact H3|exact H4|exact H5|]. split; [exact H6|]. split; [done|]. split; [exact H7|done].
Qed.

Lemma setup_fresh s cfg :
  storage (setup_assign s cfg) -> remote (setup_assign s cfg) = cfg_remote cfg -> cfg_wf cfg -> fresh (setup s cfg).
Proof using Cok.
  intros Hs Hr (_ & Hc & _). unfold setup. pose proof (reset_emptied _ Hs) as He.
  pose proof (reset_remote (setup_assign s cfg)) as Hr1. rewrite Hr in Hr1.
  set (s1 := reset_connection_state _) in *. clearbody s1. apply (closed_tail_ok s1 He). by rewrite Hr1.
Qed.

Lemma reinit_fresh s cfg : storage s -> cfg_wf cfg -> fresh (reinit s cfg).
Proof using Cok.
  intros [H1 H2 H3 H4 H5 _] Hc. destruct (setup_storage s cfg H1 H2 H3 H4 H5 Hc) as [Hs Hr]. by apply setup_fresh.
Qed.

Lemma zero_ring_wf : Ring.wf BUF (Ring.mk (replicate (Z.to_nat BUF) 0) 0 0 0).
Proof using Cok.
  pose proof BUF_bounds. split; unfold zlen; cbn; rewrite ?length_replicate; [lia|lia|done].
Qed.

Lemma zero_ooo_wf : Ooo.wf OOO_MAX (Ooo.mk (replicate (Z.to_nat OOO_MAX) (Ooo.mkRange 0 0 0)) 0 0) 0.
Proof using.
  pose proof OOO_MAX_bounds. set (l := replicate _ _). assert (Hl : zlen l = OOO_MAX) by (unfold l, zlen; rewrite length_replicate; lia).
  assert (E : Ooo.slice (Ooo.mk l 0 0) = []) by (unfold Ooo.slice; cbn; by rewrite get_range_eq by lia).
  split; [exact Hl|cbn; lia|by rewrite E|]. unfold Ooo.view. by rewrite E.
Qed.

Lemma new_fresh cfg : cfg_wf cfg -> exists s, new cfg = Ok s /\ fresh s.
Proof using Cok.
  intros Hc. exists (setup zeroed cfg). split.
  - unfold new. pose proof BUF_bounds as HB. assert (HB0 : 0 < BUF) by lia. replace (BUF =? 0) with false by lia.
    rewrite (Ring.mask_mod BUF BUF_pow2), Z.mod_same by lia. done.
  - destruct (setup_storage zeroed cfg) as [Hs Hr]; [exact zero_ring_wf| |exact zero_ring_wf| | |exact Hc|by apply setup_fresh].
    + exists 0. exact zero_ooo_wf.
    + destruct rtx_words as (W & HW & HC). exists 0, 0, false. by apply (covers_new RTX W HW HC).
    + apply (TxRing.tx_new_wf TXQ MAX_PACKET txq_pos). done.
Qed.

(** ** Egress and lent memory *)

Section Memory.
Variables (Qr : Z -> Z -> Prop) (m : Z) (Qs : Z -> Z -> Prop) (w : Z).

Local Abbreviation inv := (inv Qr m Qs w).

Lemma popped_inv s r :
  inv s -> TxRing.wf TXQ MAX_PACKET r -> Forall (carries Qs (iss s) (remote s)) (TxRing.packets TXQ r) ->
  inv (s <| tx_ring := r |>) /\ follows s (s <| tx_ring := r |>).
Proof using.
  intros [Hr (k & Ht & [? ? ? ? ? ? ?])] Hw Hp. split; [|exact (follows_refl s)]. split; [exact Hr|].
  exists k. split; [exact Ht|]. by split.
Qed.

Lemma pop_result_Forall (P : list Z -> Prop) q out q' out' res :
  TxRing.pop_result q out q' out' res -> Forall P q ->
  Forall P q' /\
  match res with
  | Ok n => n = 0 /\ out' = out \/ exists p, P p /\ n = zlen p /\ out' = p ++ drop (length p) out
  | Err e => e = BufferTooSmall /\ out' = out
  end.
Proof using.
  intros [->|p q1 -> _|p q1 -> _] Hp; [split; [done|by left]|done|]. apply Forall_cons in Hp as [? ?].
  split; [done|]. right. by exists p.
Qed.

(** What [extract_packet] hands out carries the application's stream. *)
Lemma extract_packet_inv s out :
  inv s ->
  let '(s', res, out') := extract_packet s out in
  inv s' /\ follows s s' /\
  match res with
  | Ok n => n = 0 /\ out' = out \/ exists p, carries Qs (iss s) (remote s) p /\ n = zlen p /\ out' = p ++ drop (length p) out
  | Err e => e = BufferTooSmall /\ out' = out
  end.
Proof using Cok.
  intros Hi. pose proof Hi as [_ (k & _ & He)]. pose proof (eg_sent _ _ He) as Hp. cbn in Hp. unfold extract_packet.
  pose proof (TxRing.pop_into_spec TXQ MAX_PACKET txq_pos (tx_ring s) out (eg_ring _ _ He)) as Hs.
  destruct (TxRing.pop_into TXQ (tx_ring s) out) as [[r out'] res]. destruct Hs as [Hw Hs].
  destruct (pop_result_Forall _ _ _ _ _ _ Hs Hp) as [Hpk Hres]. by destruct (popped_inv s r Hi Hw Hpk).
Qed.

Lemma extract_packet_with_inv {R} s (f : list Z -> R) :
  inv s ->
  let '(s', res) := extract_packet_with s f in
  inv s' /\ follows s s' /\ match res with Some x => exists p, carries Qs (iss s) (remote s) p /\ x = f p | None => True end.
Proof using Cok.
  intros Hi. pose proof Hi as [_ (k & _ & He)]. pose proof (eg_sent _ _ He) as Hp. cbn in Hp. unfold extract_packet_with.
  pose proof (TxRing.pop_with_spec TXQ MAX_PACKET txq_pos (tx_ring s) f (eg_ring _ _ He)) as Hs.
  destruct (TxRing.pop_with TXQ (tx_ring s) f) as [r res]. destruct Hs as [Hw Hs].
  assert (Hpk : Forall (carries Qs (iss s) (remote s)) (TxRing.packets TXQ r) /\
    match res with Some x => exists p, carries Qs (iss s) (remote s) p /\ x = f p | None => True end).
  { destruct (TxRing.packets TXQ (tx_ring s)) as [|p q]; destruct Hs as [-> ->]; [done|].
    apply Forall_cons in Hp as [? ?]. split; [done|by exists p]. }
  destruct Hpk as [Hpk Hres]. by destruct (popped_inv s r Hi Hw Hpk).
Qed.

(** The host's store into lent memory. *)
Lemma poke_inv s j x :
  inv s -> outside BUF (send_ring s) j -> inv (s <| send_ring := poke (send_ring s) j x |>).
Proof using Cok.
  intros [Hr (k & Ht & He)] Ho. split; [exact Hr|]. exists k. split; [|exact He].
  change (tx_inv Qs k w none_lent (with_ring (tx_view s) (poke (send_ring s) j x))).
  destruct Ht as [? Hst ? ? ? ? ? ? ? ? ?]. split; try done. by apply (stores_poke BUF BUF_pow2).
Qed.

End Memory.

(** ** A listener that accepts *)

Lemma accept_fresh s seg : storage s -> seg_wf seg -> runs (accept_syn_stateful s seg) (fun s' _ => fresh s' /\ renewed 1 s s').
Proof using Cok. intros Hs Hw. apply runs_fresh. intros Qr Qs. by apply accept_syn_inv. Qed.

End Calls.
