(* ===== verification/TcbRun.v ===== *)
(** * Runs of a connection

    A host that makes any calls in any order, with any packets arriving: one
    [event] is one call of the public interface (src/tcb/mod.rs), [step] makes
    it and records the bytes that crossed the interface.  The host may hold
    send space lent to it and store into that memory at any time.  One lemma,
    [step_ok], says what every event does to the connection's invariant. *)
From S2P Require Import Prelude Error Seq State Effect Ring RingStore Sack Ooo TxRing Bytes Checksum Options Wire WireWf RtxQueue Rack RtxCover.
From S2P Require Import Congestion Tcb TcbAck TcbOutput Cookie TcbInput TcbTimers TcbApi TcbRx TcbFrame TcbTx TcbEmit TcbSend TcbInv TcbOpen TcbSys.
Import Tcb RtxCover.

Definition Regions : Type := (Z * Z) * (Z * Z).

(** The connection and the loan the host holds, if any. *)
Record Host := mkHost { tcb : t; loan : option Regions }.

Inductive event :=
  | Now (ms : Z)
  | Pause (on : bool)
  | CsumOffload (on : bool)
  | Keepalive (idle_ms intvl_ms count : Z)
  | UserTimeout (ms : Z)
  | FinWait2Timeout (ms : Z)
  | SetSecret (key : list Z)
  | SetCookieSecret (key : list Z)
  | SetMtu (m : Z)
  | UpdatePmtu (m : Z)
  | Connect
  | Listen_
  | Send (data : list Z)
  | Reserve (max : Z)
  | Fill (stores : list (Z * Z))
  | Commit (n : Z)
  | Recv (dst : list Z)
  | Close
  | Abort
  | Extract (out : list Z)
  | ExtractWith
  | Inject (packet : list Z)
  | InjectTrusted (packet : list Z)
  | Tick
  | Reinit (cfg : TcbConfig).

(** What crosses the interface: bytes read, bytes accepted for sending,
    packets handed out, and the error returned. *)
Record Output := mkOutput {
  delivered : list Z;
  accepted : list Z;
  sent : list (list Z);
  failed : option TcpError;
}.

Definition quiet : Output := mkOutput [] [] [] None.
Definition err {A} (r : Res A) : option TcpError := match r with Ok _ => None | Err e => Some e end.
Definition status {A} (r : Res A) : Output := mkOutput [] [] [] (err r).

Section Run.
Context `{C : Config}.

(** The host's stores, confined to what was lent. *)
Definition fill (l : option Regions) (r : Ring.t) (ws : list (Z * Z)) : Ring.t :=
  match l with
  | None => r
  | Some l => foldl (fun r w => if lent l (fst w) then poke r (fst w) (snd w) else r) r ws
  end.

Definition step (h : Host) (e : event) : Host * Output :=
  let s := tcb h in
  let set s' := (mkHost s' (loan h), quiet) in
  let call {A} (r : t * Res A) := (mkHost (fst r) (loan h), status (snd r)) in
  match e with
  | Now ms => set (set_now s ms)
  | Pause on => set (set_egress_paused s on)
  | CsumOffload on => set (set_tx_csum_offload s on)
  | Keepalive i n c => set (set_keepalive s i n c)
  | UserTimeout ms => set (set_user_timeout s ms)
  | FinWait2Timeout ms => set (set_fin_wait2_timeout s ms)
  | SetSecret k => set (set_secret s k)
  | SetCookieSecret k => set (set_cookie_secret s k)
  | SetMtu m => call (set_mtu s m)
  | UpdatePmtu m => set (update_pmtu s m)
  | Connect => call (connect s)
  | Listen_ => call (listen s)
  | Send data =>
      let '(s', r) := send s data in
      (mkHost s' (loan h),
       mkOutput [] (match r with Ok n => take (Z.to_nat n) data | Err _ => [] end) [] (err r))
  | Reserve max =>
      let '(s', r) := send_reserve s max in
      (mkHost s' (match r with Ok l => Some l | Err _ => loan h end), status r)
  | Fill ws => set (s <| send_ring := fill (loan h) (send_ring s) ws |>)
  | Commit n =>
      let '(s', r) := send_commit s n in
      let parked := RingSpec.parked (Ring.abs BUF (send_ring s)) in
      (mkHost s' None, mkOutput [] (match r with Ok c => take (Z.to_nat c) parked | Err _ => [] end) [] (err r))
  | Recv dst =>
      let '(s', r, dst') := recv s dst in
      (mkHost s' (loan h), mkOutput (match r with Ok n => take (Z.to_nat n) dst' | Err _ => [] end) [] [] (err r))
  | Close => call (close s)
  | Abort => call (abort s)
  | Extract out =>
      let '(s', r, out') := extract_packet s out in
      (mkHost s' (loan h),
       mkOutput [] [] (match r with Ok n => if n =? 0 then [] else [take (Z.to_nat n) out'] | Err _ => [] end) (err r))
  | ExtractWith =>
      let '(s', r) := extract_packet_with s (fun p => p) in
      (mkHost s' (loan h), mkOutput [] [] (match r with Some p => [p] | None => [] end) None)
  | Inject p => call (inject_packet s p)
  | InjectTrusted p => call (inject_packet_l4_csum_trusted s p)
  | Tick => call (tick s)
  | Reinit cfg => (mkHost (reinit s cfg) None, quiet)
  end.

Fixpoint run (h : Host) (es : list event) : Host * list Output :=
  match es with
  | [] => (h, [])
  | e :: es =>
      let '(h1, o) := step h e in
      let '(h2, os) := run h1 es in
      (h2, o :: os)
  end.

(** Arguments at their Rust types. *)
Definition event_wf (e : event) : Prop :=
  match e with
  | Now ms => is_u64 ms
  | Reserve n | Commit n => 0 <= n
  | Inject p | InjectTrusted p => bytes p
  | Reinit cfg => cfg_wf cfg
  | _ => True
  end.

#[export] Instance event_wf_dec e : Decision (event_wf e).
Proof. destruct e; unfold event_wf, bytes, cfg_wf, is_u8, is_u32, is_u64; apply _. Defined.

(** The errors the documentation of each call lists. *)
Definition documented (s : t) (e : event) (x : TcpError) : Prop :=
  match e with
  | SetMtu _ | Connect | Listen_ | Commit _ => x = InvalidState
  | Send _ | Reserve _ => x = InvalidState \/ x = WouldBlock
  | Recv _ => x = ConnectionClosed \/ error s = Some x
  | Extract _ => x = BufferTooSmall
  | Inject _ | InjectTrusted _ => x = MalformedPacket \/ x = NotForUs \/ x = InvalidState
  | _ => False
  end.

(** The events that end a loan, and the host's own stores. *)
Definition touches (e : event) : bool := match e with Fill _ | Commit _ | Reinit _ => true | _ => false end.

Definition is_reinit (e : event) : bool := match e with Reinit _ => true | _ => false end.

(** What is lent holds no byte of the queue; no loan is out that the host
    does not hold. *)
Definition loan_ok (h : Host) : Prop :=
  match loan h with
  | Some l => send_lent (tcb h) <> 0 /\ forall j, lent l j = true -> outside BUF (send_ring (tcb h)) j
  | None => send_lent (tcb h) = 0
  end.

End Run.

Section Steps.
Context `{C : Config} {Cok : ConfigOk C}.
Variables (Qr : Z -> Z -> Prop) (m : Z) (Qs : Z -> Z -> Prop) (w : Z).

Local Abbreviation inv := (inv Qr m Qs w).

(** What arrives is the peer's stream. *)
Definition event_true (h : Host) (e : event) : Prop :=
  match e with
  | Inject p => forall seg, Wire.parse en p = Ok seg -> truthful Qr m (tcb h) seg
  | InjectTrusted p => forall seg, Wire.parse_opts en p false = Ok seg -> truthful Qr m (tcb h) seg
  | _ => True
  end.

(** What an event does: the connection goes on, its streams moved by what
    crossed the interface, or another connection has begun. *)
Record stepped (h : Host) (e : event) (h' : Host) (o : Output) : Prop := mk_stepped {
  sp_loan : loan_ok h';
  sp_inv : TcbInv.inv Qr (m + zlen (delivered o)) Qs (w + zlen (accepted o)) (tcb h') /\
      (conn_gen (tcb h'), iss (tcb h')) = (conn_gen (tcb h), iss (tcb h)) \/
    sane (tcb h') /\ (conn_gen (tcb h') <> conn_gen (tcb h) \/ is_reinit e = true);
  sp_read : forall i b, get (delivered o) i = Some b -> Qr (m + i) b;
  sp_sent : Forall (carries Qs (iss (tcb h)) (remote (tcb h))) (sent o);
  sp_err : forall x, failed o = Some x -> documented (tcb h) e x;
  sp_kept : loan h <> None -> touches e = false -> loan h' = loan h /\ loan_kept (tcb h) (tcb h') /\ accepted o = [];
}.

Lemma inv_send_wf Qr' m' Qs' w' s : TcbInv.inv Qr' m' Qs' w' s -> Ring.wf BUF (send_ring s).
Proof using. intros H. by apply inv_storage in H as [[] _]. Qed.

Lemma loan_kept_ok s s' l :
  Ring.wf BUF (send_ring s) -> Ring.wf BUF (send_ring s') -> loan_kept s s' -> loan_ok (mkHost s l) -> loan_ok (mkHost s' l).
Proof using Cok.
  intros Hw Hw' [El Hs]. unfold loan_ok. cbn [loan tcb]. rewrite El. destruct l as [l|]; [|done].
  intros [Hn Ho]. split; [done|]. intros j Hj. apply (ring_step_outside BUF BUF_pow2 (send_ring s)); auto.
Qed.

Lemma get_nil i (b : Z) : get [] i = Some b -> False.
Proof using. by intros [_ ?]%get_Some. Qed.

Section One.
Variable h : Host.
Hypothesis Hi : inv (tcb h).
Hypothesis Hl : loan_ok h.

Lemma outcome_loan s' : outcome Qr m Qs w (tcb h) s' -> loan_ok (mkHost s' (loan h)).
Proof using Cok Hi Hl.
  intros Ho. destruct h as [s l]. cbn [tcb loan] in *. destruct Ho as [[H1 [_ H2]]|(_ & H2 & (m' & w' & H1))];
  apply (loan_kept_ok s); try done; by eapply inv_send_wf.
Qed.

(** A call with nothing but a status. *)
Lemma outcome_step e s' x :
  outcome Qr m Qs w (tcb h) s' -> (forall y, x = Some y -> documented (tcb h) e y) ->
  stepped h e (mkHost s' (loan h)) (mkOutput [] [] [] x).
Proof using Cok Hi Hl.
  intros Ho Hx. split; cbn; [by apply outcome_loan| |intros i b []%get_nil|done|done|].
  - rewrite !Z.add_0_r. destruct Ho as [[H1 [H2 _]]|(H2 & _ & H3)]; [by left|right; auto].
  - intros _ _. destruct Ho as [[_ [_ H2]]|(_ & H2 & _)]; done.
Qed.

Lemma inv_step e s' : inv s' -> follows (tcb h) s' -> stepped h e (mkHost s' (loan h)) quiet.
Proof using Cok Hi Hl. intros H1 H2. apply outcome_step; [by left|done]. Qed.

Lemma views_step e s' : views s' = views (tcb h) -> stepped h e (mkHost s' (loan h)) quiet.
Proof using Cok Hi Hl. intros E. apply inv_step; [by apply (inv_views _ _ _ _ _ _ E)|by apply views_follows]. Qed.

Lemma settles_step {A} e (r : t * Res A) :
  settles Qr m Qs w (tcb h) r -> stepped h e (mkHost (fst r) (loan h)) (status (snd r)).
Proof using Cok Hi Hl. intros (s' & a & -> & Ho). by apply outcome_step. Qed.

Lemma refused_step {A} e (x : TcpError) : documented (tcb h) e x -> stepped h e (mkHost (tcb h) (loan h)) (status (@Err A x)).
Proof using Cok Hi Hl. intros Hx. apply outcome_step; [by left|]. by intros y [= <-]. Qed.

(** A call that opens a connection. *)
Lemma opened_step {A} e (r : t * Res A) :
  runs r (fun s' _ => fresh s' /\ renewed 1 (tcb h) s') \/ r = (tcb h, Err InvalidState) -> documented (tcb h) e InvalidState ->
  stepped h e (mkHost (fst r) (loan h)) (status (snd r)).
Proof using Cok Hi Hl.
  intros [Hr| ->] Hd; [|by apply refused_step]. apply settles_step, (settles_fresh _ _ _ _ _ _ 1); [lia|].
  eapply runs_mono; [exact Hr|]. intros s' a [Hf Hn]. split; [by apply fresh_sane|done].
Qed.

Lemma segment_step e p v :
  documented (tcb h) e = documented (tcb h) (Inject p) -> bytes p -> (forall seg, Wire.parse_opts en p v = Ok seg -> truthful Qr m (tcb h) seg) ->
  let r := (try (self, seg) := (tcb h, Wire.parse_opts en p v) in inject_segment self seg) in
  stepped h e (mkHost (fst r) (loan h)) (status (snd r)).
Proof using Cok Hi Hl.
  intros Ed Hb Ht. cbv zeta. pose proof (parse_opts_fails en p v) as Hf. destruct (Wire.parse_opts en p v) as [seg|x] eqn:Hp; cbn [st_bind].
  - pose proof (pa_wf _ (parse_opts_parsed _ _ _ _ Hb Hp)) as Hw.
    destruct (inject_segment_lands Qr m Qs w (tcb h) seg Hi Hw (Ht seg eq_refl)) as [Ho He]. apply outcome_step; [done|].
    destruct (inject_segment (tcb h) seg) as [s' [u|x]]; [done|]. intros y [= <-]. rewrite Ed. right. by destruct He; auto.
  - apply refused_step. rewrite Ed. destruct (Hf x eq_refl); cbn; auto.
Qed.

(** ** Data *)

Lemma write_count r data : Ring.wf BUF r -> snd (Ring.write BUF r data) = Z.min (zlen data) (Ring.free BUF r).
Proof using Cok.
  intros Hw. assert (Hst : stores BUF Any 0 (Ring.len r) none_lent r) by (by split).
  by destruct (stores_append BUF BUF_pow2 Any _ _ _ r data Hst) as (r' & -> & _).
Qed.

Lemma send_step data :
  let r := step h (Send data) in
  (forall i b, get (accepted (snd r)) i = Some b -> Qs (w + i) b) -> stepped h (Send data) (fst r) (snd r).
Proof using Cok Hi Hl.
  cbn zeta. unfold step. intros HQ. pose proof (inv_send_wf _ _ _ _ _ Hi) as Hw.
  destruct (send_inv Qr m Qs w (tcb h) data Hi) as (n & Hn & H1 & H2 & H3 & H4 & H5).
  { intros Hc Hz i b Hif Hg. apply HQ. pose proof (write_count (send_ring (tcb h)) data Hw) as Hwc. pose proof (get_lt_Some _ _ _ Hg) as Hlt.
    unfold send. rewrite Hc, Hz. cbn [negb Z.eqb]. destruct (Ring.write BUF (send_ring (tcb h)) data) as [r' c]. cbn [snd] in Hwc.
    replace (c =? 0) with false by lia. cbn [andb snd accepted]. rewrite get_take. replace (i <? c) with true by lia. done. }
  assert (Hr : send_lent (tcb h) <> 0 -> match snd (send (tcb h) data) with Ok x => take (Z.to_nat x) data | Err _ => [] end = []).
  { intros Hz%Z.eqb_neq. unfold send. rewrite Hz. by destruct (can_send _). }
  destruct (send (tcb h) data) as [s' r]. cbn [fst snd] in *. split; cbn [tcb loan delivered accepted sent failed]; [|left|intros i b []%get_nil|done| |].
  - unfold loan_ok in *. cbn [tcb loan]. destruct (loan h); [|by rewrite H3]. rewrite H4 by apply Hl. exact Hl.
  - split; [|done]. rewrite Z.add_0_r. destruct r as [x|x]; [|destruct H5 as [-> _]; exact H1].
    destruct H5 as [-> ->]. rewrite zlen_take. pose proof (zlen_nonneg data). set (f := Ring.free BUF (send_ring (tcb h))) in *.
    match goal with |- TcbInv.inv _ _ _ (w + ?x) _ => replace x with (Z.min (zlen data) f) by lia end. exact H1.
  - intros x Hx. destruct r as [y|y]; [done|]. injection Hx as ->. apply H5.
  - intros Hn0 _. unfold loan_ok in Hl. destruct (loan h) as [l|] eqn:El; [|done]. destruct Hl as [Hz _]. rewrite (H4 Hz).
    split; [done|]. split; [exact (proj2 (follows_refl (tcb h)))|]. by rewrite (Hr Hz).
Qed.

Lemma reserve_step max : 0 <= max -> stepped h (Reserve max) (fst (step h (Reserve max))) (snd (step h (Reserve max))).
Proof using Cok Hi Hl.
  intros Hm. unfold step. pose proof (inv_send_wf _ _ _ _ _ Hi) as Hw.
  destruct (send_reserve_inv Qr m Qs w (tcb h) max Hi Hm) as (H1 & H2 & H3 & H4).
  destruct (send_reserve (tcb h) max) as [s' r]. cbn [fst snd] in *.
  split; cbn [tcb loan delivered accepted sent failed status]; [|left|intros i b []%get_nil|done| |].
  - destruct r as [l|x]; [|destruct H4 as [-> _]; exact Hl]. destruct H4 as (-> & H4 & _). split; [exact H4|]. cbn [tcb]. rewrite H3.
    intros j. by apply (free_regions_outside BUF BUF_pow2).
  - by rewrite !Z.add_0_r.
  - intros x Hx. destruct r as [y|y]; [done|]. injection Hx as ->. apply H4.
  - intros Hn0 _. unfold loan_ok in Hl. destruct (loan h) as [l|] eqn:El; [|done]. destruct Hl as [Hz _].
    destruct r as [l'|x]; [by destruct H4 as (_ & _ & ?)|]. destruct H4 as [-> _]. split_and!; [done|exact (proj2 (follows_refl (tcb h)))|done].
Qed.

Lemma send_commit_count s n :
  can_send (state s) = true -> send_lent s <> 0 -> send_lent_conn s = conn_gen s ->
  snd (send_commit s n) = Ok (Z.min (Z.min n (send_lent s)) (Ring.free BUF (send_ring s))).
Proof using.
  intros Hs Hz%Z.eqb_neq Hg%Z.eqb_eq. unfold send_commit.
  change (send_lent_conn (s <| send_lent := 0 |>) =? conn_gen (s <| send_lent := 0 |>)) with (send_lent_conn s =? conn_gen s).
  change (can_send (state (s <| send_lent := 0 |>))) with (can_send (state s)). rewrite Hs, Hz, Hg. reflexivity.
Qed.

Lemma commit_step n :
  let r := step h (Commit n) in
  0 <= n -> (forall i b, get (accepted (snd r)) i = Some b -> Qs (w + i) b) -> stepped h (Commit n) (fst r) (snd r).
Proof using Cok Hi Hl.
  cbn zeta. unfold step. intros Hn HQ. pose proof (inv_send_wf _ _ _ _ _ Hi) as Hw.
  pose proof (Ring.parked_zlen BUF _ Hw) as Hp.
  destruct (send_commit_inv Qr m Qs w (tcb h) n Hi Hn) as (c & Hc & H1 & H2 & H3 & H4).
  { intros Hs Hz Hg i b Hib Hgb. apply HQ. pose proof (get_lt_Some _ _ _ Hgb) as Hlt. rewrite Hp in Hlt.
    pose proof (send_commit_count (tcb h) n Hs Hz Hg) as Hsc. destruct (send_commit (tcb h) n) as [s' r]. cbn [snd] in Hsc. subst r.
    cbn [snd accepted]. rewrite get_take. match goal with |- context [i <? ?c] => replace (i <? c) with true by lia end. done. }
  destruct (send_commit (tcb h) n) as [s' r]. cbn [fst snd] in *.
  split; cbn [tcb loan delivered accepted sent failed]; [exact H3|left|intros i b []%get_nil|done| |done].
  - split; [|done]. rewrite Z.add_0_r. destruct r as [x|x]; [|destruct H4 as [-> _]; exact H1].
    destruct H4 as [-> ->]. rewrite zlen_take, Hp. set (f := Ring.free BUF (send_ring (tcb h))) in *.
    match goal with |- TcbInv.inv _ _ _ (w + ?x) _ => replace x with (Z.min (Z.min n (send_lent (tcb h))) f) by lia end. exact H1.
  - intros x Hx. destruct r as [y|y]; [done|]. injection Hx as ->. apply H4.
Qed.

Lemma fill_inv l ws : forall s,
  inv s -> (forall j, lent l j = true -> outside BUF (send_ring s) j) ->
  let r := fill (Some l) (send_ring s) ws in
  inv (s <| send_ring := r |>) /\ (forall j, outside BUF (send_ring s) j -> outside BUF r j).
Proof using Cok.
  cbn [fill]. induction ws as [|[j x] ws IH]; intros s Hs Ho; cbn [foldl]; [split; [exact Hs|done]|]. cbn [fst snd].
  destruct (lent l j) eqn:Hj; [|by apply IH]. pose proof (poke_inv Qr m Qs w s j x Hs (Ho j Hj)) as Hs1.
  destruct (IH (s <| send_ring := poke (send_ring s) j x |>) Hs1) as [H1 H2]; [exact Ho|].
  split; [exact H1|]. intros j' Hj'. apply H2. exact Hj'.
Qed.

Lemma fill_step ws : stepped h (Fill ws) (fst (step h (Fill ws))) quiet.
Proof using Cok Hi Hl.
  unfold step. cbn [fst]. unfold loan_ok in Hl. destruct (loan h) as [l|] eqn:El.
  - destruct Hl as [Hn Ho]. destruct (fill_inv l ws (tcb h) Hi Ho) as [H1 H2].
    split; cbn [tcb loan delivered accepted sent failed quiet]; [|left|intros i b []%get_nil|done|done|done].
    + split; [exact Hn|]. intros j Hj. apply H2. by apply Ho.
    + rewrite !Z.add_0_r. split; [exact H1|reflexivity].
  - split; cbn [tcb loan delivered accepted sent failed quiet]; [exact Hl|left|intros i b []%get_nil|done|done|done].
    rewrite !Z.add_0_r. split; [exact Hi|reflexivity].
Qed.

Lemma take_out (out dst : list Z) : take (Z.to_nat (zlen out)) (out ++ drop (length out) dst) = out.
Proof using. unfold zlen. rewrite Nat2Z.id. apply take_app_length. Qed.

Lemma recv_step dst : stepped h (Recv dst) (fst (step h (Recv dst))) (snd (step h (Recv dst))).
Proof using Cok Hi Hl.
  unfold step. pose proof (recv_inv Qr m Qs w (tcb h) dst Hi) as Hr. destruct (recv (tcb h) dst) as [[s' r] dst'].
  destruct Hr as (out & -> & _ & Hf & H1 & HQ & He). cbn [fst snd].
  assert (Eo : match r with Ok n => take (Z.to_nat n) (out ++ drop (length out) dst) | Err _ => [] end = out).
  { destruct r as [n|x]; [rewrite He; apply take_out|]. destruct He as [He _]. by destruct out. }
  rewrite Eo. split; cbn [tcb loan delivered accepted sent failed].
  - destruct h as [s l]. destruct Hf as [_ Hf]. eapply loan_kept_ok; [..|exact Hf|exact Hl]; by eapply inv_send_wf.
  - left. rewrite Z.add_0_r. split; [exact H1|exact (proj1 Hf)].
  - exact HQ.
  - done.
  - intros x Hx. destruct r as [y|y]; [done|]. injection Hx as ->. destruct He as [_ [He|He]]; [by right|by left].
  - intros _ _. split; [done|]. split; [exact (proj2 Hf)|done].
Qed.

Lemma popped_step e s' o :
  inv s' -> follows (tcb h) s' -> delivered o = [] -> accepted o = [] -> Forall (carries Qs (iss (tcb h)) (remote (tcb h))) (sent o) ->
  (forall x, failed o = Some x -> documented (tcb h) e x) -> stepped h e (mkHost s' (loan h)) o.
Proof using Cok Hi Hl.
  intros H1 H2 E1 E2 H3 H4. split; cbn [tcb]; [|left|rewrite E1; intros i b []%get_nil|done|done|].
  - apply outcome_loan. by left.
  - rewrite E1, E2, !Z.add_0_r. split; [exact H1|exact (proj1 H2)].
  - intros _ _. split; [done|]. split; [exact (proj2 H2)|done].
Qed.

Lemma extract_step out : stepped h (Extract out) (fst (step h (Extract out))) (snd (step h (Extract out))).
Proof using Cok Hi Hl.
  unfold step. pose proof (extract_packet_inv Qr m Qs w (tcb h) out Hi) as Hr.
  destruct (extract_packet (tcb h) out) as [[s' r] out']. destruct Hr as (H1 & H2 & H3). cbn [fst snd].
  apply popped_step; cbn [delivered accepted sent failed]; try done.
  - destruct r as [n|x]; [|done]. destruct (Z.eqb_spec n 0); [done|]. destruct H3 as [[? _]|(p & Hc & -> & ->)]; [done|].
    rewrite take_out. by apply Forall_singleton.
  - intros x Hx. destruct r as [y|y]; [done|]. injection Hx as ->. apply H3.
Qed.

Lemma extract_with_step : stepped h ExtractWith (fst (step h ExtractWith)) (snd (step h ExtractWith)).
Proof using Cok Hi Hl.
  unfold step. pose proof (extract_packet_with_inv Qr m Qs w (tcb h) (fun p => p) Hi) as Hr.
  destruct (extract_packet_with (tcb h) (fun p => p)) as [s' r]. destruct Hr as (H1 & H2 & H3). cbn [fst snd].
  apply popped_step; cbn [delivered accepted sent failed]; try done.
  destruct r as [p|]; [|done]. destruct H3 as (p' & Hc & ->). by apply Forall_singleton.
Qed.

Lemma reinit_step cfg : cfg_wf cfg -> stepped h (Reinit cfg) (fst (step h (Reinit cfg))) quiet.
Proof using Cok Hi Hl.
  intros Hc. unfold step. cbn [fst]. apply inv_storage in Hi as [Hs _]. pose proof (fresh_sane _ (reinit_fresh (tcb h) cfg Hs Hc)) as Hf.
  assert (E : send_lent (reinit (tcb h) cfg) = 0) by reflexivity. set (s' := reinit (tcb h) cfg) in *. clearbody s'.
  split; [exact E|right; split; [exact Hf|by right]|intros i b []%get_nil|done|done|done].
Qed.

(** Every event. *)
Lemma step_ok e :
  event_wf e -> event_true h e -> (forall i b, get (accepted (snd (step h e))) i = Some b -> Qs (w + i) b) ->
  stepped h e (fst (step h e)) (snd (step h e)).
Proof using Cok Hi Hl.
  intros Hw Ht HQ. destruct e; cbn [event_wf event_true] in Hw, Ht.
  - apply views_step. reflexivity.
  - apply views_step, set_egress_paused_views.
  - apply views_step. reflexivity.
  - apply views_step, set_keepalive_views.
  - apply views_step, set_user_timeout_views.
  - apply views_step, set_fin_wait2_timeout_views.
  - apply views_step, set_secret_views.
  - apply views_step, set_cookie_secret_views.
  - destruct (set_mtu_inv Qr m Qs w (tcb h) m0 Hi) as (H1 & H2 & H3). apply outcome_step; [by left|].
    destruct (snd (set_mtu (tcb h) m0)); [done|]. intros y [= <-]. exact H3.
  - destruct (update_pmtu_inv Qr m Qs w (tcb h) m0 Hi). by apply inv_step.
  - destruct (inv_storage _ _ _ _ _ Hi). apply opened_step; [by apply connect_settles|done].
  - destruct (inv_storage _ _ _ _ _ Hi). apply opened_step; [by apply listen_settles|done].
  - by apply send_step.
  - by apply reserve_step.
  - apply fill_step.
  - by apply commit_step.
  - apply recv_step.
  - by apply settles_step, close_settles.
  - by apply settles_step, abort_settles.
  - apply extract_step.
  - apply extract_with_step.
  - by apply (segment_step _ packet true).
  - by apply (segment_step _ packet false).
  - by apply settles_step, tick_settles.
  - by apply reinit_step.
Qed.

End One.

End Steps.
