(* ===== verification/Scenario.v ===== *)
(** * A conversation

    Two small endpoints that shake hands and exchange a few bytes: concrete
    states, packets and events at which the theorems about runs are
    instantiated. *)
From S2P Require Import Prelude Error State Effect Ring TxRing Bytes Checksum Options Wire RtxQueue Tcb TcbInput TcbApi TcbSys TcbRun.
Import Tcb.

Definition demo : Config := {| en := Little; BUF := 64; RTX := 64; TXQ := 4; BUF_CAP := 65536 |}.

Lemma demo_ok : ConfigOk demo.
Proof. split; [by exists 6|by vm_compute|done]. Qed.

(** Decides a closed proposition. *)
Ltac decide_closed := apply (bool_decide_unpack _); vm_compute; exact I.

Module Scenario.

Definition addr_a : Endpoint := mkEndpoint [10; 0; 0; 1] 1000.
Definition addr_b : Endpoint := mkEndpoint [10; 0; 0; 2] 80.
Definition cfg_a : TcbConfig := mkTcbConfig addr_a addr_b 1000 1000.
Definition cfg_b : TcbConfig := mkTcbConfig addr_b (mkEndpoint [0; 0; 0; 0] 0) 4294967290 1000.

Definition start (cfg : TcbConfig) : Host :=
  mkHost (match @new demo cfg with Ok s => s | Err _ => @zeroed demo end) None.

Definition after (h : Host) (es : list event) : Host := fst (@run demo h es).
Definition last_packet (os : list Output) : list Z := default [] (last (mjoin (sent <$> os))).

(** The active side connects; its first packet is a SYN. *)
Definition a0 : Host := start cfg_a.
Definition a1 : Host := after a0 [Connect].
Definition syn : list Z := last_packet (snd (@run demo a1 [ExtractWith])).

(** The passive side listens and takes the SYN. *)
Definition b0 : Host := after (start cfg_b) [SetSecret (replicate 16 7); Listen_].
Definition b1 : Host := after b0 [Inject syn].
Definition synack : list Z := last_packet (snd (@run demo b1 [ExtractWith])).

(** The active side completes the handshake and sends two bytes. *)
Definition a_opening : list event := [ExtractWith; Inject synack].
Definition ack : list Z := last_packet (snd (@run demo a1 (a_opening ++ [ExtractWith]))).
Definition a_events : list event := a_opening ++ [ExtractWith; Send [104; 105]; Tick; ExtractWith].
Definition data : list Z := last_packet (snd (@run demo a1 a_events)).

(** The network duplicates the data and delivers it first. *)
Definition b_events : list event := [ExtractWith; Inject data; Inject ack; Inject data; Recv (replicate 8 0)].

(** The host borrows send space, then everything else happens. *)
Definition a_lent : Host := after a1 (a_opening ++ [ExtractWith; Send [104]; Reserve 5]).
Definition a_busy : list event := [Send [1]; Tick; Inject synack; ExtractWith; Abort; Connect; Close].

Lemma cfgs_wf : cfg_wf cfg_a /\ cfg_wf cfg_b.
Proof. done. Qed.

Lemma starts : @new demo cfg_a = Ok (tcb (start cfg_a)) /\ @new demo cfg_b = Ok (tcb (start cfg_b)).
Proof. split; reflexivity. Qed.

Lemma a_events_wf : Forall event_wf a_events.
Proof. decide_closed. Qed.

Lemma b_events_wf : Forall event_wf b_events.
Proof. decide_closed. Qed.

Lemma a_busy_wf : Forall event_wf a_busy.
Proof. decide_closed. Qed.

Lemma syn_wf : bytes syn.
Proof. unfold bytes. decide_closed. Qed.

End Scenario.
