(* ===== verification/TcbValid.v ===== *)
(** * The self-check of the connection (src/tcb/mod.rs,
    [debug_validate_invariants]).

    The invariant implies every condition the library's own debug check tests,
    so the check passes on every state a connection can reach. *)
From S2P Require Import Prelude Error Seq State Effect Ring RingStore Sack Ooo TxRing Options Wire RtxQueue RtxProofs Rack RtxCover.
From S2P Require Import Congestion Tcb TcbAck TcbOutput Cookie TcbInput TcbTimers TcbApi TcbRx TcbFrame TcbTx TcbEmit TcbSend TcbInv TcbOpen TcbSys.
Import Tcb RtxCover.

Section Valid.
Context `{C : Config} {Cok : ConfigOk C}.

(** ** The send side *)

Lemma edges_apart u d : is_u32 u -> 0 <= d < M31 ->
  seq_lt (wadd32 u d) u = false /\ seq_lt u (wadd32 u d) = (0 <? d) /\ (u =? wadd32 u d) = (d =? 0).
Proof using.
  intros Hu Hd. assert (E : u = wadd32 u 0) by (revert Hu; clear; intros; word_lia). split_and!.
  - rewrite E at 2. rewrite seq_lt_offset by lia. lia.
  - rewrite E at 1. rewrite seq_lt_offset by lia. lia.
  - revert Hu Hd. clear. intros. destruct (Z.eqb_spec d 0) as [->|]; [apply Z.eqb_eq|apply Z.eqb_neq]; word_lia.
Qed.

(** The segment at the front starts the covered range. *)
Lemma covers_front a n fin q :
  covers RTX a n fin q -> negb (Rtx.is_empty q) || negb (n =? 0) = true -> Seg.start <$> Rtx.get_seg RTX q 0 = Some a.
Proof using.
  intros (l & Hr & Hg & <- & _) He. rewrite (RtxProofs.get_seg_repr RTX q l 0) by (apply Hr || lia).
  pose proof (RtxProofs.sl_len _ _ _ (RtxProofs.rp_slots _ _ _ Hr)) as Hl. destruct l as [|x l].
  - unfold Rtx.is_empty in He. rewrite Hl in He. done.
  - pose proof (RtxProofs.gd_contig _ _ Hg) as [Hx _]. change (Some (Seg.start x) = Some a). by rewrite Hx.
Qed.

Section Send.
Variables (Q : Z -> Z -> Prop) (k w : Z) (H : Z -> Prop) (s : t).
Hypothesis Hi : tx_inv Q k w H (tx_view s).

Lemma nxt_edge : snd_nxt s = wadd32 (data_una s) (v_out (tx_view s)) /\ 0 <= v_out (tx_view s) < M31 - 1.
Proof using Cok Hi.
  pose proof (tx_u32 _ _ _ _ _ Hi) as (Hu & Hn & _). cbn in Hu, Hn.
  pose proof (covers_bounds _ _ _ _ _ (tx_covers _ _ _ _ _ Hi)) as (_ & Hb & _). pose proof (tx_text _ _ _ _ _ Hi) as Ht.
  pose proof (Ring.wf_len _ _ (st_wf _ _ _ _ _ _ (tx_stores _ _ _ _ _ Hi))) as Hl.
  pose proof BUF_bounds as HB. change (2 ^ 30) with 1073741824 in HB.
  split; [|unfold v_text in Ht; destruct (v_finout (tx_view s)); cbn in *; lia].
  symmetry. by apply wadd32_off.
Qed.

Lemma una_nxt : exists d, snd_nxt s = wadd32 (snd_una s) d /\ d = b2z (syn_unacked s) + v_out (tx_view s) /\ 0 <= d < M31.
Proof using Cok Hi.
  destruct nxt_edge as [E Hb]. eexists. split; [|split; [reflexivity|destruct (syn_unacked s); cbn; lia]].
  rewrite E. unfold data_una, syn_outstanding. apply wadd32_assoc.
Qed.

Lemma edges_valid :
  negb (seq_lt (snd_nxt s) (snd_una s)) &&
  negb (syn_unacked s && (negb (snd_una s =? iss s) || (snd_nxt s =? iss s))) = true.
Proof using Cok Hi.
  destruct una_nxt as (d & E & Ed & Hd). pose proof (tx_u32 _ _ _ _ _ Hi) as (Hu & _). cbn in Hu.
  destruct (edges_apart _ d Hu Hd) as (E1 & _ & E2). rewrite <- E in *. rewrite E1. cbn [negb andb].
  destruct (syn_unacked s) eqn:Hy; [|done]. rewrite <- (tx_syn _ _ _ _ _ Hi Hy : snd_una s = iss s), Z.eqb_refl.
  rewrite Z.eqb_sym, E2. pose proof (proj2 nxt_edge). cbn in *. replace (d =? 0) with false by lia. done.
Qed.

Lemma fin_out : fin_sent s && seq_lt (snd_una s) (snd_nxt s) = v_finout (tx_view s).
Proof using Cok Hi.
  destruct una_nxt as (d & E & _ & Hd). pose proof (tx_u32 _ _ _ _ _ Hi) as (Hu & _). cbn in Hu.
  destruct (edges_apart _ d Hu Hd) as (_ & E1 & E2). rewrite <- E in *. unfold v_finout. cbn. rewrite E1, E2. f_equal. lia.
Qed.

Lemma queue_valid :
  Rtx.debug_valid RTX (rtx s) (data_una s) (snd_nxt s)
  && (if negb (Rtx.is_empty (rtx s)) || negb (wsub32 (snd_nxt s) (data_una s) =? 0)
      then bool_decide (Seg.start <$> Rtx.get_seg RTX (rtx s) 0 = Some (data_una s)) else true)
  && (sat_sub (wsub32 (snd_nxt s) (data_una s)) (b2z (fin_sent s && seq_lt (snd_una s) (snd_nxt s))) <=? Ring.len (send_ring s)) = true.
Proof using Cok Hi.
  destruct nxt_edge as [E Hb]. pose proof (tx_covers _ _ _ _ _ Hi) as Hc. destruct rtx_words as (W & HW & HC).
  assert (Ec : wsub32 (snd_nxt s) (data_una s) = v_out (tx_view s)) by reflexivity. rewrite fin_out, Ec.
  pose proof (covers_valid RTX W HW HC _ _ _ _ Hc) as Hv. change (v_base (tx_view s)) with (data_una s) in *. rewrite <- E in Hv.
  change (v_rtx (tx_view s)) with (rtx s) in *. rewrite Hv. cbn [andb]. apply andb_true_intro. split.
  - case_if; [|done]. apply bool_decide_eq_true. by eapply covers_front.
  - pose proof (tx_text _ _ _ _ _ Hi) as Ht. unfold v_text in Ht. cbn in Ht.
    pose proof (Ring.wf_len _ _ (st_wf _ _ _ _ _ _ (tx_stores _ _ _ _ _ Hi))) as Hl. cbn in Hl. unfold sat_sub. lia.
Qed.

Lemma fin_valid :
  (if fin_sent s then
     (wadd32 (fin_seq s) 1 =? snd_nxt s) && fin_state (state s) && negb (fin_acked_state (state s) && seq_le (snd_una s) (fin_seq s))
   else true) = true.
Proof using Hi.
  destruct (fin_sent s) eqn:Hf; [|done]. destruct (tx_fin _ _ _ _ _ Hi Hf) as (_ & E & Es). cbn in E, Es. rewrite E, Es, Z.eqb_refl. cbn [andb].
  destruct (fin_acked_state (state s)) eqn:Ha; [|done]. destruct (tx_acked _ _ _ _ _ Hi Ha) as [_ Eu]. cbn in Eu. rewrite Eu, <- E.
  pose proof (tx_u32 _ _ _ _ _ Hi) as (_ & _ & _ & Hq). cbn in Hq. unfold seq_le.
  apply negb_true_iff, andb_false_iff. right. revert Hq. clear. intros. word_lia.
Qed.

End Send.

(** ** The receive side *)

Section Receive.
Variables (Q : Z -> Z -> Prop) (m n : Z) (s : t).
Hypothesis Hi : rx_inv Q m n (rx_view s).

Lemma last_end_valid :
  match Ooo.last_end (ooo s) with Some e => wsub32 e (rcv_nxt s) <=? Ring.free BUF (recv_ring s) | None => true end = true.
Proof using Cok Hi.
  unfold Ooo.last_end. destruct (last (Ooo.slice (ooo s))) as [r|] eqn:Hr; [|done]. cbn.
  assert (Hin : Ooo.offs (rcv_nxt s) r ∈ Ooo.view (ooo s) (rcv_nxt s)).
  { apply list_elem_of_fmap_2. apply last_Some in Hr as [l ->]. set_solver. }
  destruct (Ooo.chain_bounds _ _ _ _ (Ooo.wf_chain _ _ _ (rx_ooo _ _ _ _ Hi)) Hin) as [Hb _].
  pose proof (st_fit _ _ _ _ _ _ (rx_stores _ _ _ _ Hi) (off (Ooo.r_end r) (rcv_nxt s) - 1)) as Hf. cbn in Hf.
  apply Z.leb_le. change (off (Ooo.r_end r) (rcv_nxt s) <= Ring.free BUF (recv_ring s)).
  assert (Ooo.held (Ooo.view (ooo s) (rcv_nxt s)) (off (Ooo.r_end r) (rcv_nxt s) - 1)) as Hh; [|apply Hf in Hh; lia].
  do 2 eexists. split; [exact Hin|]. lia.
Qed.

Lemma held_fin_valid : fin_ahead (rx_view s) ->
  match ooo_fin s with
  | Some h => can_recv (state s) && seq_gt (fin_at h) (rcv_nxt s) && negb (seq_gt (fin_start h) (fin_at h))
  | None => true
  end = true.
Proof using Cok Hi.
  intros Ha. destruct (ooo_fin s) as [h|] eqn:Hh; [|done].
  destruct (rx_fin _ _ _ _ Hi h Hh) as (Hc & Hb & Hu & Hs). specialize (Ha h Hh). cbn in Hc, Hb, Ha. rewrite Hc, Hs. cbn [andb negb].
  rewrite andb_true_r. pose proof (rx_free _ _ _ _ Hi) as [Hf HB]. cbn in Hf. pose proof (rx_u32 _ _ _ _ Hi) as [Hn _]. cbn in Hn.
  assert (Ho : off (fin_at h) (rcv_nxt s) < M31) by lia. revert Hu Hn Ho Ha. clear. unfold seq_gt. intros. word_lia.
Qed.

End Receive.

Lemma head_len_valid r :
  TxRing.wf TXQ MAX_PACKET r -> match TxRing.peek_head_len r with Some n => n <=? MAX_PACKET | None => true end = true.
Proof using.
  intros [Hs Hh Hl _ Hu]. unfold TxRing.peek_head_len. case_if; [done|]. bool_facts. destruct (get (TxRing.slots r) (TxRing.head r)) as [x|] eqn:Hg; [|done].
  cbn. specialize (Hu 0 x). unfold TxRing.slot_index in Hu. rewrite Z.add_0_r, Z.mod_small in Hu by lia. specialize (Hu ltac:(lia) Hg). lia.
Qed.

Lemma sane_valid s : sane s -> debug_validate_invariants s = true.
Proof using Cok.
  intros (m & w & (n & Hr & Ha & _) & (k & Ht & He)).
  pose proof (edges_valid _ _ _ _ _ Ht) as H1. pose proof (queue_valid _ _ _ _ _ Ht) as H2. pose proof (fin_valid _ _ _ _ _ Ht) as H3.
  pose proof (tx_rto _ _ _ _ _ Ht) as H4. cbn in H4.
  pose proof (proj2 (Ooo.debug_valid_chain _ _) (Ooo.wf_chain _ _ _ (rx_ooo _ _ _ _ Hr))) as H5. cbn in H5.
  pose proof (last_end_valid _ _ _ _ Hr) as H6. pose proof (held_fin_valid _ _ _ _ Hr Ha) as H7.
  pose proof (head_len_valid _ (eg_ring _ _ He)) as H8. cbn in H8.
  unfold debug_validate_invariants. cbn zeta. fold (data_una s). fold (fin_state (state s)) (fin_acked_state (state s)).
  rewrite H1, H3, H5, H6, H7, H8, !andb_true_r. cbn [andb].
  apply andb_true_intro. split; [destruct (is_synchronized (state s)); [exact H2|done]|].
  apply negb_true_iff, andb_false_iff. destruct (Deadline.is_armed (rto_deadline s)); [right; apply Z.eqb_neq; auto|by left].
Qed.

End Valid.
