(* ===== verification/TcbProps.v ===== *)
(** * What a connection promises its host

    Theorems about every state a connection can reach, whatever the host
    calls and whatever arrives: the library's self-check passes, calls fail
    only as documented, lent memory stays the host's, received bytes are a
    prefix of the peer's stream and sent packets carry the host's. *)
From S2P Require Import Prelude Error Seq State Effect Ring RingStore Sack Ooo TxRing Bytes Checksum Options Wire WireWf RtxQueue Rack RtxCover.
From S2P Require Import Congestion Tcb TcbAck TcbOutput Cookie TcbInput TcbTimers TcbApi TcbRx TcbFrame TcbTx TcbEmit TcbSend TcbInv TcbOpen TcbSys TcbRun Scenario TcbValid.
Import Tcb RtxCover.

Section Props.
Context `{C : Config} {Cok : ConfigOk C}.

(** ** Reachable states *)

Inductive reachable : Host -> Prop :=
  | reach_new cfg s : cfg_wf cfg -> new cfg = Ok s -> reachable (mkHost s None)
  | reach_step h e : reachable h -> event_wf e -> reachable (fst (step h e)).

Lemma any_true m h e : event_true Any m h e.
Proof using. destruct e; try done; intros seg _ _ i b _; done. Qed.

Lemma new_loan cfg s : new cfg = Ok s -> send_lent s = 0.
Proof using. unfold new. case_if; [done|]. intros [= <-]. reflexivity. Qed.

Lemma step_sane h e :
  sane (tcb h) -> loan_ok h -> event_wf e ->
  exists m w, stepped Any m Any w h e (fst (step h e)) (snd (step h e)) /\ sane (tcb (fst (step h e))).
Proof using Cok.
  intros (m & w & Hi) Hl Hw. pose proof (step_ok Any m Any w h Hi Hl e Hw (any_true m h e) ltac:(done)) as Hs.
  exists m, w. split; [done|]. destruct (sp_inv _ _ _ _ _ _ _ _ Hs) as [[H1 _]|[H1 _]]; [by do 2 eexists|done].
Qed.

Lemma reachable_ok h : reachable h -> sane (tcb h) /\ loan_ok h.
Proof using Cok.
  induction 1 as [cfg s Hc Hn|h e _ [Hs Hl] Hw].
  - destruct (new_fresh cfg Hc) as (s' & E & Hf). rewrite Hn in E. injection E as <-.
    split; [by apply fresh_sane|by apply (new_loan cfg)].
  - destruct (step_sane h e Hs Hl Hw) as (m & w & H1 & H2). split; [done|apply H1].
Qed.

Lemma reachable_run es : forall h, reachable h -> Forall event_wf es -> reachable (fst (run h es)).
Proof using.
  induction es as [|e es IH]; intros h Hr Hw; [done|]. apply Forall_cons in Hw as [He Hw].
  pose proof (IH _ (reach_step h e Hr He) Hw) as H. cbn [run]. destruct (step h e) as [h1 o]. cbn [fst] in H.
  by destruct (run h1 es).
Qed.

(** C4 The library's self-check passes on every reachable state: whatever calls
    the host makes, in whatever order and with whatever arguments, and whatever
    bytes arrive as packets, [debug_validate_invariants] never finds a
    violation. *)
Theorem reachable_validates h (Hr : reachable h) : debug_validate_invariants (tcb h) = true.
Proof using Cok. apply sane_valid. by apply reachable_ok. Qed.


(** ** Lent send space *)

Lemma poll_writable s : send_lent s <> 0 -> Z.land (poll s) events.WRITABLE = 0.
Proof using.
  intros Hn%Z.eqb_neq. unfold poll. cbn zeta. rewrite Hn, andb_false_r.
  repeat match goal with |- context [if ?b then _ else _] => destruct b end; reflexivity.
Qed.

Lemma run_keeps_loan l es : forall h,
  reachable h -> loan h = Some l -> Forall event_wf es -> Forall (fun e => touches e = false) es ->
  let h' := fst (run h es) in
  loan h' = Some l /\ Ring.buf (send_ring (tcb h')) = Ring.buf (send_ring (tcb h)) /\
  Forall (fun o => accepted o = []) (snd (run h es)).
Proof using Cok.
  cbn zeta. induction es as [|e es IH]; intros h Hr El Hw Ht; [done|].
  apply Forall_cons in Hw as [He Hw], Ht as [Hte Ht]. destruct (reachable_ok h Hr) as [Hs Hl].
  destruct (step_sane h e Hs Hl He) as (m & w & H & _).
  destruct (sp_kept _ _ _ _ _ _ _ _ H) as (E1 & [_ [E2 _]] & E3); [congruence|done|].
  pose proof (IH _ (reach_step h e Hr He)) as IH'. cbn [run]. destruct (step h e) as [h1 o]. cbn [fst snd] in *.
  specialize (IH' ltac:(congruence) Hw Ht). destruct (run h1 es) as [h2 os]. cbn [fst snd] in *. rewrite <- E2.
  destruct IH' as (? & ? & ?). split_and!; try done. by constructor.
Qed.

(** C6 The contract of [send_reserve]: from the moment send space is lent and
    until the host commits it (or re-initialises the connection), whatever else
    happens (packets, timers, resets, a new connection), the loan stands, the
    lent bytes are not written, no lent byte is part of the queue the connection
    reads from, [send] accepts nothing and [poll] does not offer WRITABLE. *)
Theorem loan_stays_with_host h l es
    (Hr : reachable h) (El : loan h = Some l) (Hw : Forall event_wf es) (Ht : Forall (fun e => touches e = false) es) :
  let h' := fst (run h es) in
  loan h' = Some l /\
  (forall j, lent l j = true ->
     get (Ring.buf (send_ring (tcb h'))) j = get (Ring.buf (send_ring (tcb h))) j /\ outside BUF (send_ring (tcb h')) j) /\
  Forall (fun o => accepted o = []) (snd (run h es)) /\
  Z.land (poll (tcb h')) events.WRITABLE = 0.
Proof using Cok.
  cbn zeta. destruct (run_keeps_loan l es h Hr El Hw Ht) as (H1 & H2 & H3).
  destruct (reachable_ok _ (reachable_run es h Hr Hw)) as [_ Hl]. unfold loan_ok in Hl. rewrite H1 in Hl. destruct Hl as [Hn Ho].
  split_and!; [done| |done|by apply poll_writable]. intros j Hj. split; [by rewrite H2|by apply Ho].
Qed.

End Props.

(** ** Instances *)

Lemma start_a_reachable : @reachable demo Scenario.a0.
Proof. apply (reach_new Scenario.cfg_a); [apply Scenario.cfgs_wf|apply Scenario.starts]. Qed.

Lemma start_b_reachable : @reachable demo Scenario.b0.
Proof.
  apply reachable_run; [|decide_closed]. apply (reach_new Scenario.cfg_b); [apply Scenario.cfgs_wf|apply Scenario.starts].
Qed.

Lemma connected_reachable : @reachable demo Scenario.a1.
Proof. apply reachable_run; [exact start_a_reachable|decide_closed]. Qed.

Lemma lent_reachable : @reachable demo Scenario.a_lent.
Proof. apply reachable_run; [exact connected_reachable|decide_closed]. Qed.

Lemma reachable_validates_witness :
  @debug_validate_invariants demo (tcb (Scenario.after Scenario.a1 Scenario.a_events)) = true.
Proof.
  apply (@reachable_validates demo demo_ok). apply reachable_run; [exact connected_reachable|exact Scenario.a_events_wf].
Defined.


Lemma loan_stays_with_host_witness :
  let h' := fst (@run demo Scenario.a_lent Scenario.a_busy) in
  loan h' = Some ((1, 6), (0, 0)) /\ state (tcb h') = Closed /\ outside (@BUF demo) (send_ring (tcb h')) 3 /\
  Forall (fun o => accepted o = []) (snd (@run demo Scenario.a_lent Scenario.a_busy)).
Proof.
  assert (El : loan Scenario.a_lent = Some ((1, 6), (0, 0))) by (vm_compute; reflexivity).
  assert (Ht : Forall (fun e => touches e = false) Scenario.a_busy) by decide_closed.
  destruct (@loan_stays_with_host demo demo_ok Scenario.a_lent _ Scenario.a_busy lent_reachable El Scenario.a_busy_wf Ht) as (H1 & H2 & H3 & _).
  split; [exact H1|]. split; [vm_compute; reflexivity|]. split; [apply (H2 3); reflexivity|exact H3].
Defined.
