(* ===== verification/TcbMoves.v ===== *)
(** * The connection state machine

    What each method does to the connection's state, and that every call moves
    it only along the transitions src/state.rs lists
    ([State::debug_transition_allowed]). *)
From S2P Require Import Prelude Error Seq State Effect Ring RingStore Sack Ooo TxRing Bytes Checksum Options Wire WireWf RtxQueue Rack RtxCover.
From S2P Require Import Congestion Tcb TcbAck TcbOutput Cookie TcbInput TcbTimers TcbApi TcbRx TcbFrame TcbTx TcbEmit TcbSend TcbInv TcbOpen TcbSys TcbRun Scenario TcbProps.
Import Tcb RtxCover.

(** The state a computation leaves, whatever it returns. *)
Abbreviation left r := (state (fst r)).

(** The moves an inbound segment makes from a synchronized state. *)
Definition received (a b : State) : bool :=
  state_eqb a b || state_eqb b Closed ||
  match a, b with
  | Established, CloseWait => true
  | FinWait1, (FinWait2 | Closing | TimeWait) => true
  | FinWait2, TimeWait => true
  | Closing, TimeWait => true
  | _, _ => false
  end.

Lemma received_refl a : received a a = true.
Proof. by destruct a. Qed.

Lemma received_closed a : received a Closed = true.
Proof. by destruct a. Qed.

Lemma received_allowed a b : is_synchronized a = true -> received a b = true -> debug_transition_allowed a b = true.
Proof. by destruct a, b. Qed.

(** An opening that reaches ESTABLISHED and processes the segment's text. *)
Lemma opened_allowed a b : a = Listen \/ a = SynRcvd -> received Established b = true -> debug_transition_allowed a b = true.
Proof. by intros [->| ->]; destruct b. Qed.

Section Moves.
Context `{C : Config} {Cok : ConfigOk C}.

(** ** What keeps the state *)

Lemma e_state s s' : e_mask s' = e_mask s -> state s' = state s.
Proof using. intros E. exact (f_equal state E). Qed.

Lemma s_state s s' : s_mask s' = s_mask s -> state s' = state s.
Proof using. intros E. exact (f_equal state E). Qed.

Lemma pure_ack_state s : left (send_pure_ack s) = state s.
Proof using. apply e_state, send_pure_ack_mask. Qed.

Lemma oow_ack_state s : left (send_oow_ack s) = state s.
Proof using. apply e_state, send_oow_ack_mask. Qed.

Lemma emit_state s f q a o sl e : left (emit_segment s f q a o sl e) = state s.
Proof using. apply e_state, emit_segment_mask. Qed.

Lemma probe_state s q : left (emit_probe s q) = state s.
Proof using. apply emit_state. Qed.

Lemma ctl_state s f q a : left (emit_ctl s f q a) = state s.
Proof using. apply emit_state. Qed.

Lemma syn_state s : left (emit_syn s) = state s.
Proof using. apply emit_state. Qed.

Lemma synack_sent_state s : left (emit_synack s) = state s.
Proof using. apply emit_state. Qed.

Lemma send_data_state s : left (maybe_send_data s) = state s.
Proof using. apply s_state, maybe_send_data_mask. Qed.

Lemma then_state {A B} (P : State -> Prop) (r : t * Res A) (k : t -> A -> t * Res B) :
  P (left r) -> (forall s a, P (state s) -> P (left (k s a))) -> P (left (st_bind r k)).
Proof using. destruct r as [s [a|e]]; cbn; auto. Qed.

(** ** Segments in synchronized states *)

Lemma ack_cumulative_state s ack acked mss ts d : left (ack_cumulative s ack acked mss ts d) = state s.
Proof using.
  unfold ack_cumulative. set (fa := fin_sent s && _ && _). clearbody fa.
  destruct (Rtx.ack_to _ _ _) as [[q rm] calls]. destruct (foldl _ _ calls) as [[[rk old] new] re].
  match goal with |- context [update_rtt ?x] => set (s1 := x) end. assert (H1 : state s1 = state s) by reflexivity. clearbody s1.
  set (s2 := match rtt_sample _ _ _ _ _ with Some r => _ | None => s1 end).
  assert (H2 : state s2 = state s) by (rewrite <- H1; unfold s2; repeat case_match; try reflexivity; apply views_state, update_rtt_views).
  clearbody s2. cbn [fst]. rewrite <- H2. apply views_state, note_progress_views.
Qed.

(** Everything before the state machine looks at our FIN keeps the state. *)
Lemma process_ack_split s seg : seg_wf seg ->
  exists s1, state s1 = state s /\ (process_ack s seg = ack_fin s1 \/ process_ack s seg = s1).
Proof using Cok.
  intros Hw. unfold process_ack. set (s0 := s <| rtx_count := 0 |>). assert (E0 : state s0 = state s) by reflexivity. clearbody s0.
  destruct (seq_lt (seg_ack seg) (snd_una s0)); [exists s0; auto|]. cbv zeta. set (mss := mss_payload s0). set (pf := wsub32 (snd_nxt s0) _).
  set (ts := match ts_enabled s0 with true => _ | false => _ end). set (u := snd_una s0). clearbody mss pf ts u.
  set (s1 := set_field rack s0 _). assert (E1 : state s1 = state s) by exact E0. clearbody s1.
  pose proof (ack_sack_step s1 seg mss Hw) as L2. destruct (ack_sack s1 seg mss) as [s2 [[ds sp] dl]]. cbn [fst] in L2.
  pose proof (f_equal x_state (proj1 (loss_views _ _ L2))) as E2. cbn in E2. set (acked := wsub32 _ _). clearbody acked.
  set (p := if 0 <? acked then _ else _).
  assert (E3 : state (fst p) = state s) by (unfold p; case_if; [rewrite ack_cumulative_state|]; exact (eq_trans E2 E1)).
  destruct p as [s3 d3]. cbn [fst] in E3. pose proof (ack_tail_step s3 seg u pf mss acked ds sp d3) as L. cbn zeta in L.
  destruct (ack_loss _ _ _ _ _ _ _ _) as [s4 [lost d4]]. pose proof (f_equal x_state (proj1 (loss_views _ _ L))) as E4. cbn in E4.
  set (s5 := ack_congestion _ _ _ _ _) in *. clearbody s5. exists (ack_timers s5 acked). split; [|by left].
  rewrite <- E3, <- E4. unfold ack_timers. cbv zeta. rewrite (views_state _ _ (maybe_arm_tlp_views _)). repeat case_if; reflexivity.
Qed.

(** What an acknowledgment does to the state. *)
Definition acked (a b : State) : bool :=
  state_eqb a b || match a, b with FinWait1, FinWait2 | Closing, TimeWait | LastAck, Closed => true | _, _ => false end.

Lemma ack_fin_moves s : acked (state s) (state (ack_fin s)) = true.
Proof using.
  unfold ack_fin. case_if; [|by destruct (state s)].
  destruct (state s) eqn:Es; try (by rewrite Es); try reflexivity. case_if; reflexivity.
Qed.

Lemma process_ack_moves s seg : seg_wf seg -> acked (state s) (state (process_ack s seg)) = true.
Proof using Cok.
  intros Hw. destruct (process_ack_split s seg Hw) as (s1 & E & [H|H]); rewrite H, <- E; [apply ack_fin_moves|by destruct (state s1)].
Qed.

(** What the peer's text and FIN do. *)
Definition closed_by_peer (a b : State) : bool :=
  state_eqb a b || match a, b with Established, CloseWait | FinWait1, (Closing | TimeWait) | FinWait2, TimeWait => true | _, _ => false end.

Lemma peer_same a : closed_by_peer a a = true.
Proof using. by destruct a. Qed.

Lemma consume_fin_moves s : closed_by_peer (state s) (state (consume_fin s)) = true.
Proof using.
  unfold consume_fin, advance_state_on_remote_fin. cbv zeta. set (s1 := s <| rcv_nxt := _ |> <| ooo := _ |> <| ooo_fin := _ |>).
  assert (E : state s1 = state s) by reflexivity. clearbody s1. rewrite <- E.
  destruct (state s1) eqn:Es; try (by rewrite Es); try reflexivity. case_if; reflexivity.
Qed.

Lemma receive_fin_moves s start fin : closed_by_peer (state s) (left (receive_fin s start fin)) = true.
Proof using.
  unfold receive_fin. cbn [fst]. case_if; [apply consume_fin_moves|].
  pose proof (peer_same (state s)) as H. repeat case_match; exact H.
Qed.

Lemma held_fin_moves s : closed_by_peer (state s) (left (maybe_consume_ooo_fin s)) = true.
Proof using.
  unfold maybe_consume_ooo_fin. destruct (_ && _); [apply consume_fin_moves|]. apply peer_same.
Qed.

Lemma held_fin_quiet s : can_recv (state s) = false -> left (maybe_consume_ooo_fin s) = state s.
Proof using. intros E. unfold maybe_consume_ooo_fin. by rewrite E, andb_false_r. Qed.

Lemma receive_text_moves s seg l fin : closed_by_peer (state s) (left (receive_text s seg l fin)) = true.
Proof using.
  pose proof (peer_same (state s)) as Hsame.
  unfold receive_text. destruct (can_recv (state s)) eqn:Hr; [|exact Hsame]. cbv zeta.
  set (f := if fin && _ then Some _ else None). clearbody f. set (p1 := if 0 <? l then _ else _).
  assert (E1 : left p1 = state s) by (unfold p1; case_if; [apply receive_payload_state|reflexivity]).
  destruct p1 as [s1 a1]. cbn [fst] in E1. set (p2 := match f with Some f => _ | None => _ end).
  assert (E2 : closed_by_peer (state s) (left p2) = true)
    by (rewrite <- E1 in *; unfold p2; destruct f; [apply receive_fin_moves|apply peer_same]).
  destruct p2 as [s2 a2]. cbn [fst] in E2. pose proof (held_fin_moves s2) as E3. pose proof (held_fin_quiet s2) as E4.
  destruct (maybe_consume_ooo_fin s2) as [s3 a3]. cbn [fst] in *.
  destruct (state s), (state s2); try discriminate; try exact E3; by rewrite (E4 eq_refl).
Qed.

Lemma on_reset_moves s : state (on_reset_received s) = Closed.
Proof using. unfold on_reset_received. destruct (state s); reflexivity. Qed.

Lemma acked_received a b : acked a b = true -> received a b = true.
Proof using. by destruct a, b. Qed.

Lemma acked_then a b c : acked a b = true -> closed_by_peer b c = true -> received a c = true.
Proof using. by destruct a, b, c. Qed.

Lemma on_unacceptable_moves s seg l fin : seg_wf seg -> received (state s) (left (on_unacceptable s seg l fin)) = true.
Proof using Cok.
  intros Hw. pose proof (received_refl (state s)) as Hs. unfold on_unacceptable. case_if; [exact Hs|]. case_if; [by rewrite oow_ack_state|].
  cbv zeta. set (live := seq_ge _ _ && _ && _). clearbody live. set (s1 := if live then _ else s).
  assert (H1 : received (state s) (state s1) = true).
  { unfold s1. destruct live; [|exact Hs]. apply acked_received.
    rewrite <- (views_state _ _ (update_ts_recent_views s seg)), <- (views_state _ _ (on_peer_alive_views _)). by apply process_ack_moves. }
  clearbody s1. destruct (live && _); [exact H1|]. destruct (_ && _ && _ && _); [by rewrite pure_ack_state|].
  apply (then_state (fun x => received (state s) x = true)); [|intros s2 _ H2; destruct live; [by rewrite send_data_state|exact H2]].
  destruct (_ && _ && _); [rewrite pure_ack_state, (views_state _ _ (note_dsack_views _ _ _)); exact H1|].
  destruct (_ && _ && _); [by rewrite pure_ack_state|by rewrite oow_ack_state].
Qed.

Lemma on_synchronized_moves s seg : seg_wf seg -> received (state s) (left (on_synchronized s seg)) = true.
Proof using Cok.
  intros Hw. pose proof (received_refl (state s)) as Hs. unfold on_synchronized. case_if; [exact Hs|]. cbv zeta.
  set (acc := acceptable _ _ _ || _). set (zwp := negb acc && _ && _). clearbody acc zwp.
  case_if; [by apply on_unacceptable_moves|]. case_if; [case_if; [by rewrite pure_ack_state|by rewrite oow_ack_state]|].
  case_if; [case_if; [cbn [fst]; rewrite on_reset_moves; apply received_closed|by rewrite oow_ack_state]|].
  case_if; [by rewrite oow_ack_state|]. case_if; [exact Hs|]. case_if; [by rewrite oow_ack_state|].
  set (s1 := on_peer_alive _).
  assert (E1 : state s1 = state s)
    by (apply views_state; unfold s1; rewrite on_peer_alive_views, ecn_echo_views; apply update_ts_recent_views).
  clearbody s1. pose proof (process_ack_moves s1 seg Hw) as H2. rewrite E1 in H2. set (s2 := process_ack s1 seg) in *. clearbody s2.
  pose proof (acked_received _ _ H2) as H2r. case_if; [exact H2r|]. destruct zwp.
  { apply (then_state (fun x => received (state s) x = true)); [by rewrite pure_ack_state|]. intros s3 _ H3. by rewrite send_data_state. }
  pose proof (receive_text_moves s2 seg (as_u32 (zlen (payload seg))) (Wire.has seg flags.FIN)) as H3.
  destruct (receive_text s2 seg _ _) as [s3 now]. cbn [fst] in H3. pose proof (acked_then _ _ _ H2 H3) as H4.
  apply (then_state (fun x => received (state s) x = true)); [|intros s4 _ H5; by rewrite send_data_state].
  destruct now; [by rewrite pure_ack_state|]. case_if; [cbn [fst]; rewrite (e_state _ _ (schedule_delayed_ack_mask _ _)); exact H4|].
  case_if; [by rewrite oow_ack_state|exact H4].
Qed.

(** ** Opening *)

Local Abbreviation allowed := debug_transition_allowed.

Lemma rst_state s seg : left (reset_stray_ack s seg) = state s.
Proof using. apply e_state, reset_stray_ack_mask. Qed.

(** The state was not touched. *)
Local Ltac here :=
  cbn [fst]; rewrite ?rst_state, ?oow_ack_state, ?pure_ack_state; match goal with E : state _ = _ |- _ => rewrite E end; reflexivity.

Lemma allowed_refl a : allowed a a = true.
Proof using. by destruct a. Qed.

Lemma allowed_closed a : allowed a Closed = true.
Proof using. by destruct a. Qed.

Lemma on_established_state s : state (on_established s) = state s.
Proof using. unfold on_established. cbv zeta. rewrite (views_state _ _ (on_peer_alive_views _)). case_if; reflexivity. Qed.

Lemma cookie_assign_state s seg o : state (cookie_assign s seg o) = Established.
Proof using. reflexivity. Qed.

Lemma promote_moves s seg o : seg_wf seg -> received Established (left (promote_via_cookie s seg o)) = true.
Proof using Cok.
  intros Hw. unfold promote_via_cookie, cookie_connection. pose proof (cookie_assign_state (reset_connection_state s) seg o) as E.
  rewrite <- E, <- on_established_state. by apply on_synchronized_moves.
Qed.

Lemma half_open_state s seg : state (half_open_assign s seg) = SynRcvd.
Proof using. reflexivity. Qed.

Lemma synack_state s st (f : t -> t) : state s = st -> (forall s, state (f s) = state s) ->
  left (try s := emit_synack s in (f s, Ok tt)) = st.
Proof using.
  intros E Hf. apply (then_state (fun x => x = st)); [rewrite <- E; apply emit_state|]. intros s1 _ E1. cbn [fst]. by rewrite Hf.
Qed.

Lemma accept_tail_state s : state s = SynRcvd ->
  left (try s := emit_synack s in (arm_rto (s <| snd_nxt := wadd32 (iss s) 1 |> <| syn_unacked := true |>), Ok tt)) = SynRcvd.
Proof using.
  intros E. by apply (synack_state s SynRcvd (fun s => arm_rto (s <| snd_nxt := wadd32 (iss s) 1 |> <| syn_unacked := true |>))).
Qed.

Lemma accept_moves s seg : left (accept_syn_stateful s seg) = SynRcvd.
Proof using. exact (accept_tail_state _ (half_open_state (reset_connection_state s) seg)). Qed.

Lemma on_listen_moves s seg : seg_wf seg -> state s = Listen -> allowed Listen (left (on_listen s seg)) = true.
Proof using Cok.
  intros Hw Es. unfold on_listen. case_if; [here|]. case_if.
  - case_if; [|here]. case_if; [|here].
    apply (then_state (fun x => allowed Listen x = true)); [|intros; assumption].
    unfold try_promote_via_cookie. destruct (validate_cookie s seg) as [o|]; [|here].
    apply (then_state (fun x => allowed Listen x = true)); [|intros; assumption].
    apply opened_allowed; [by left|by apply promote_moves].
  - case_if; [here|]. by rewrite accept_moves.
Qed.

Lemma active_state s seg : left (complete_active_open s seg) = Established.
Proof using. unfold complete_active_open. rewrite pure_ack_state. unfold active_established. cbv zeta. by rewrite on_established_state. Qed.

Lemma crossed_state s : state (s <| ecn_enabled := false |> <| state := SynRcvd |> <| syn_rcvd_retries := 0 |> <| syn_retransmitted := true |>) = SynRcvd.
Proof using. reflexivity. Qed.

Lemma simultaneous_state s seg : left (simultaneous_open s seg) = SynRcvd.
Proof using. unfold simultaneous_open. cbv zeta. apply synack_state; [apply crossed_state|reflexivity]. Qed.

Lemma abort_local_state s : state (abort_local s) = Closed.
Proof using. reflexivity. Qed.

Lemma on_syn_sent_moves s seg : state s = SynSent -> allowed SynSent (left (on_syn_sent s seg)) = true.
Proof using.
  intros Es. unfold on_syn_sent. cbv zeta. set (ok := _ && seq_gt _ _ && _). clearbody ok.
  case_if; [case_if; [here|here]|]. case_if; [case_if; [done|here]|].
  case_if; [here|]. case_if; [by rewrite active_state|by rewrite simultaneous_state].
Qed.

Lemma passive_state s seg : state (passive_established s seg) = Established.
Proof using. unfold passive_established. cbv zeta. by rewrite on_established_state. Qed.

Lemma passive_moves s seg : seg_wf seg -> received Established (left (complete_passive_open s seg)) = true.
Proof using Cok.
  intros Hw. unfold complete_passive_open. pose proof (passive_state s seg) as E. set (s1 := passive_established s seg) in *. clearbody s1.
  cbv zeta. case_if; [here|]. rewrite <- E. by apply on_synchronized_moves.
Qed.

Lemma vacated_state s : state (reset_to_listen_or_closed s) = if is_listener s then Listen else Closed.
Proof using. reflexivity. Qed.

Lemma on_syn_rcvd_moves s seg : seg_wf seg -> state s = SynRcvd -> allowed SynRcvd (left (on_syn_rcvd s seg)) = true.
Proof using Cok.
  intros Hw Es. assert (Hp : allowed SynRcvd (left (complete_passive_open s seg)) = true)
    by (apply opened_allowed; [by right|by apply passive_moves]).
  unfold on_syn_rcvd. cbv zeta. case_if.
  - case_if; [here|]. case_if; [here|].
    destruct (is_listener s) eqn:El; cbn [fst]; [rewrite vacated_state, El|]; reflexivity.
  - case_if; [case_if; [case_if; [exact Hp|here]|]|].
    + case_if; [|here]. pose proof (e_state _ _ (oow_allowed_mask s)) as E1. destruct (oow_allowed s) as [s1 [|]]; cbn [fst] in E1; [|rewrite Es in E1; here].
      rewrite (synack_state s1 SynRcvd (fun s => s)); [done|congruence|done].
    + case_if; [here|]. case_if; [here|]. case_if; [here|exact Hp].
Qed.

(** ** Inbound segments *)

Lemma cookie_synack_state s seg : left (emit_cookie_synack s seg) = state s.
Proof using.
  unfold emit_cookie_synack. case_if; [reflexivity|]. destruct (cookie_options _ _ _) as [o e]. cbv zeta.
  destruct (TxRing.push_with _ _ _ _) as [r [[|]|]]; reflexivity.
Qed.

Lemma on_busy_listener_moves s seg : seg_wf seg -> allowed (state s) (left (on_busy_listener s seg)) = true.
Proof using Cok.
  intros Hw. pose proof (allowed_refl (state s)) as Hs. unfold on_busy_listener.
  destruct (state_eqb (state s) SynRcvd) eqn:E; cbn [negb orb]; [|exact Hs]. apply state_eqb_true in E.
  case_if; [exact Hs|]. cbv zeta. case_if; [by rewrite cookie_synack_state|]. case_if; [|exact Hs].
  destruct (validate_cookie s seg) as [o|]; [|exact Hs]. rewrite E. apply opened_allowed; [by right|by apply promote_moves].
Qed.

Lemma dispatch_moves s seg : seg_wf seg -> allowed (state s) (left (dispatch s seg)) = true.
Proof using Cok.
  intros Hw. unfold dispatch. cbv zeta. match goal with |- context [on_listen ?x _] => set (s1 := x) end.
  assert (E : state s1 = state s) by reflexivity. clearbody s1. rewrite <- E. clear E s.
  destruct (state s1) eqn:Es; try (rewrite <- Es; apply received_allowed; [by rewrite Es|by apply on_synchronized_moves]).
  - here.
  - by apply on_syn_sent_moves.
  - by apply on_listen_moves.
  - by apply on_syn_rcvd_moves.
Qed.

Lemma listen_syn_state s seg : state s = Listen ->
  Wire.has seg flags.SYN = true -> Wire.has seg flags.ACK = false -> Wire.has seg flags.RST = false -> Wire.has seg flags.FIN = false ->
  left (dispatch s seg) = SynRcvd.
Proof using.
  intros Es F1 F2 F3 F4. unfold dispatch. cbv zeta. match goal with |- context [on_listen ?x _] => set (s2 := x) end.
  assert (E2 : state s2 = Listen) by exact Es. clearbody s2. rewrite E2. unfold on_listen. rewrite F1, F2, F3, F4. cbn [negb orb].
  apply accept_moves.
Qed.

(** A SYN that replaces a stale half-open connection. *)
Lemma replaced_moves s seg : may_replace_half_open s seg = true ->
  allowed (state s) (left (dispatch (reset_to_listen_or_closed s) seg)) = true.
Proof using.
  intros Hm. unfold may_replace_half_open in Hm. rewrite !andb_true_iff, !negb_true_iff in Hm.
  destruct Hm as ((((((Hs & Hl) & F1) & F2) & F3) & F4) & _). apply state_eqb_true in Hs.
  rewrite (listen_syn_state _ seg (reset_to_listen_state s Hl) F1 F2 F3 F4), Hs. reflexivity.
Qed.

Lemma inject_segment_moves s seg : seg_wf seg -> allowed (state s) (left (inject_segment s seg)) = true.
Proof using Cok.
  intros Hw. pose proof (allowed_refl (state s)) as Hs. pose proof (replaced_moves s seg) as H1.
  pose proof (on_busy_listener_moves s seg Hw) as H2. pose proof (dispatch_moves s seg Hw) as H3.
  unfold inject_segment. destruct (_ || _); [exact Hs|]. cbv zeta. destruct (_ && _); [|exact H3].
  destruct (may_replace_half_open s seg); [exact (H1 eq_refl)|exact H2].
Qed.

Lemma inject_moves s p v : bytes p ->
  allowed (state s) (left (try (self, seg) := (s, Wire.parse_opts en p v) in inject_segment self seg)) = true.
Proof using Cok.
  intros Hp. destruct (Wire.parse_opts en p v) as [seg|e] eqn:E; [|apply allowed_refl].
  apply inject_segment_moves. exact (pa_wf _ (parse_opts_parsed _ _ _ _ Hp E)).
Qed.

(** ** Timers *)

(** A timer leaves the state alone or gives the connection up. *)
Definition expired (a b : State) : bool := state_eqb a b || state_eqb b Closed.

Lemma expired_refl a : expired a a = true.
Proof using. by destruct a. Qed.

Lemma expired_closed a : expired a Closed = true.
Proof using. by destruct a. Qed.

Lemma expired_allowed a b c : expired b c = true -> allowed a b = true -> allowed a c = true.
Proof using. by destruct a, b, c. Qed.

Lemma new_state s l f : left (emit_new s l f) = state s.
Proof using. apply s_state, emit_new_mask. Qed.

Lemma retransmit_state s i : left (retransmit s i) = state s.
Proof using. apply s_state, retransmit_mask. Qed.

Lemma fire_tlp_state s : left (fire_tlp s) = state s.
Proof using.
  unfold fire_tlp. cbv zeta. set (s1 := s <| tlp_deadline := _ |>). assert (E : state s1 = state s) by reflexivity. clearbody s1. rewrite <- E.
  destruct (negb _); [reflexivity|]. destruct (egress_full s1); [exact (views_state _ _ (maybe_arm_tlp_views s1))|].
  apply (then_state (fun x => x = state s1)).
  - unfold tlp_probe. cbv zeta. case_if; [apply (then_state (fun x => x = state s1)); [apply new_state|intros; assumption]|].
    case_if; [reflexivity|]. destruct (Rtx.get_seg _ _ _) as [sg|]; [|reflexivity]. case_if; [|reflexivity].
    apply (then_state (fun x => x = state s1)); [apply retransmit_state|intros; assumption].
  - intros s2 r E2. case_if; exact E2.
Qed.

Lemma on_rto_moves s : expired (state s) (state (on_rto s)) = true.
Proof using.
  unfold on_rto. cbv zeta. set (s1 := s <| rto_deadline := _ |>). assert (E : state s1 = state s) by reflexivity. clearbody s1. rewrite <- E.
  case_if; [apply expired_refl|]. set (s2 := s1 <| rtx_count := _ |>). assert (E2 : state s2 = state s1) by reflexivity. clearbody s2.
  case_if; [apply expired_closed|]. rewrite <- E2. unfold rto_collapse. cbv zeta.
  match goal with |- context [blackhole_check ?x] => pose proof (views_state _ _ (blackhole_check_views x)) as E3; set (s3 := blackhole_check x) in * end.
  clearbody s3. assert (H : expired (state s2) (state s3) = true) by (rewrite E3; apply expired_refl). clear E3. case_if; exact H.
Qed.

Lemma cc_state s c : state (s <| cc := c |>) = state s.
Proof using. reflexivity. Qed.

Lemma rack_timer_state s : state (rack_timer s) = state s.
Proof using.
  unfold rack_timer. cbv zeta. set (s1 := s <| rack_deadline := _ |>). assert (E : state s1 = state s) by reflexivity. clearbody s1. rewrite <- E.
  assert (H2 : left (rack_detect s1) = state s1) by (unfold rack_detect; repeat case_match; reflexivity).
  destruct (rack_detect s1) as [s2 [|]]; [|exact H2]. cbn [fst] in H2. rewrite <- H2. rewrite cc_state. destruct (negb _); [|reflexivity].
  apply views_state, enter_fast_recovery_views.
Qed.

Lemma on_persist_moves s : expired (state s) (left (on_persist_timer s)) = true.
Proof using.
  unfold on_persist_timer. cbv zeta. set (s1 := s <| persist_deadline := _ |>). assert (E : state s1 = state s) by reflexivity. clearbody s1.
  rewrite <- E. clear E s. pose proof (expired_refl (state s1)) as Hs. case_if; [exact Hs|]. case_if; [exact Hs|]. case_if.
  - apply (then_state (fun x => expired (state s1) x = true)); [by rewrite new_state|].
    intros s2 _ H2. cbn [fst]. by rewrite (views_state _ _ (persist_backoff_views s2)).
  - apply (then_state (fun x => expired (state s1) x = true)); [by rewrite probe_state|]. intros s2 _ H2.
    case_if; [apply expired_closed|]. cbn [fst]. by rewrite (views_state _ _ (persist_backoff_views _)).
Qed.

Lemma check_keepalive_moves s : expired (state s) (left (check_keepalive s)) = true.
Proof using.
  pose proof (expired_refl (state s)) as Hs. unfold check_keepalive. case_if; [exact Hs|]. case_if; [exact Hs|]. case_if; [exact Hs|].
  case_if; [cbn [fst]; destruct (state_eqb _ _); apply expired_closed|].
  apply (then_state (fun x => expired (state s) x = true)); [by rewrite probe_state|]. intros s2 [|] H2; exact H2.
Qed.

Lemma check_user_timeout_moves s : expired (state s) (state (check_user_timeout s)) = true.
Proof using.
  pose proof (expired_refl (state s)) as Hs. unfold check_user_timeout. case_if; [exact Hs|]. case_if; [exact Hs|].
  case_if; [apply expired_closed|exact Hs].
Qed.

Lemma recovery_timers_moves s : expired (state s) (left (recovery_timers s)) = true.
Proof using.
  unfold recovery_timers. cbv zeta. apply (then_state (fun x => expired (state s) x = true)).
  { destruct (Deadline.due _ _); [rewrite fire_tlp_state|]; apply expired_refl. }
  intros s1 _ H1. set (fired := is_synchronized _ && _). clearbody fired. set (s2 := if fired then on_rto s1 else s1).
  assert (H2 : expired (state s) (state s2) = true).
  { unfold s2. destruct fired; [|exact H1]. pose proof (on_rto_moves s1) as H. by destruct (state s), (state s1), (state (on_rto s1)). }
  clearbody s2. case_if; [exact H2|]. cbn [fst]. destruct (Deadline.due (rack_deadline s2) _); [by rewrite rack_timer_state|exact H2].
Qed.

Lemma expired_trans a b c : expired a b = true -> expired b c = true -> expired a c = true.
Proof using. by destruct a, b, c. Qed.

Lemma liveness_timers_moves s : expired (state s) (left (liveness_timers s)) = true.
Proof using.
  unfold liveness_timers. cbv zeta. set (fired := Deadline.due _ _). clearbody fired.
  apply (then_state (fun x => expired (state s) x = true)); [destruct fired; [apply on_persist_moves|apply expired_refl]|].
  intros s1 _ H1. case_if; [exact H1|]. apply (then_state (fun x => expired (state s) x = true)).
  - exact (expired_trans _ _ _ H1 (check_keepalive_moves s1)).
  - intros s2 _ H2. exact (expired_trans _ _ _ H2 (check_user_timeout_moves s2)).
Qed.

Lemma later_timers_moves now s : expired (state s) (left (later_timers now s)) = true.
Proof using.
  unfold later_timers. apply (then_state (fun x => expired (state s) x = true)); [apply recovery_timers_moves|].
  intros s1 go H1. destruct go; [|exact H1]. cbn [negb]. apply (then_state (fun x => expired (state s) x = true)).
  - exact (expired_trans _ _ _ H1 (liveness_timers_moves s1)).
  - intros s2 go H2. destruct go; [|exact H2]. cbn [negb]. apply (then_state (fun x => expired (state s) x = true)); [by rewrite send_data_state|].
    intros s3 _ H3. destruct (_ && _); [by rewrite pure_ack_state|exact H3].
Qed.

Lemma backoff_state s : state (backoff_rto s) = state s.
Proof using. reflexivity. Qed.

Lemma handshake_timers_moves s : allowed (state s) (left (handshake_timers s)) = true.
Proof using.
  pose proof (allowed_refl (state s)) as Hs. unfold handshake_timers. destruct (state s) eqn:Es; try (by cbn [fst]; rewrite Es).
  - unfold syn_sent_timer. destruct (negb _); [by cbn [fst]; rewrite Es|]. cbv zeta.
    set (s1 := s <| rtx_count := _ |>). assert (E1 : state s1 = SynSent) by exact Es. clearbody s1. case_if; [reflexivity|].
    apply (then_state (fun x => allowed SynSent x = true)); [|intros s2 _ H2; exact H2].
    rewrite syn_state, backoff_state. change (allowed SynSent (state s1) = true). by rewrite E1.
  - unfold syn_rcvd_timer. destruct (negb _); [by cbn [fst]; rewrite Es|]. cbv zeta.
    set (s1 := s <| syn_rcvd_retries := _ |>). assert (E1 : state s1 = SynRcvd) by exact Es. clearbody s1.
    case_if; [cbn [fst]; destruct (is_listener s1) eqn:El; [rewrite vacated_state, El|]; reflexivity|].
    apply (then_state (fun x => allowed SynRcvd x = true)); [|intros s2 _ H2; exact H2].
    rewrite synack_sent_state, backoff_state. change (allowed SynRcvd (state s1) = true). by rewrite E1.
Qed.

Lemma tick_moves s : allowed (state s) (left (tick s)) = true.
Proof using.
  unfold tick, run_timers. cbv zeta. destruct (Deadline.due _ _); [apply allowed_closed|]. destruct (_ && _).
  - apply (then_state (fun x => allowed (state s) x = true)); [rewrite ctl_state; apply allowed_refl|].
    intros s1 _ _. apply allowed_closed.
  - change (allowed (state s) (left (try s1 := handshake_timers s in later_timers (now_ms s) s1)) = true).
    apply (then_state (fun x => allowed (state s) x = true)); [apply handshake_timers_moves|].
    intros s1 _ H1. exact (expired_allowed _ _ _ (later_timers_moves _ s1) H1).
Qed.

(** ** The host's calls *)

Lemma set_paused_state s b : state (set_egress_paused s b) = state s.
Proof using. exact (views_state _ _ (set_egress_paused_views s b)). Qed.

Lemma set_mtu_state s m : left (set_mtu s m) = state s.
Proof using. unfold set_mtu. destruct (state s) eqn:E; exact E. Qed.

Lemma update_pmtu_state s m : state (update_pmtu s m) = state s.
Proof using.
  unfold update_pmtu. cbv zeta. set (s1 := s <| pmtu_restore_mss := _ |>). assert (H1 : state s1 = state s) by reflexivity. clearbody s1.
  match goal with |- context [if ?b then ?x else s1] => set (s2 := if b then x else s1) end.
  assert (H2 : state s2 = state s) by (rewrite <- H1; unfold s2; destruct (_ <=? _); reflexivity). clearbody s2. rewrite <- H2.
  destruct (_ <=? _); [reflexivity|]. destruct (is_synchronized _); [|reflexivity]. rewrite send_data_state. reflexivity.
Qed.

Lemma opened_state s off now : state (s <| ts_offset := off |> <| state := SynSent |> <| syn_xmit_ms := now |>) = SynSent.
Proof using. reflexivity. Qed.

Lemma syn_tail_state s : state s = SynSent ->
  left (try (self, sent) := emit_syn s in
    if sent then (arm_rto (self <| snd_nxt := wadd32 (iss self) 1 |> <| syn_unacked := true |>), Ok tt) else (self, Ok tt)) = SynSent.
Proof using.
  intros E. apply (then_state (fun x => x = SynSent)); [by rewrite syn_state|]. intros s1 [|] E1; exact E1.
Qed.

Lemma connect_moves s : allowed (state s) (left (connect s)) = true.
Proof using.
  unfold connect. destruct (state_eqb (state s) Closed) eqn:E; cbn [negb]; [|apply allowed_refl]. apply state_eqb_true in E. rewrite E. cbv zeta.
  by rewrite (syn_tail_state _ (opened_state _ _ _)).
Qed.

Lemma listen_moves s : allowed (state s) (left (listen s)) = true.
Proof using.
  unfold listen. cbv zeta. destruct (state s) eqn:E; try (cbn [fst]; rewrite E; reflexivity);
    (destruct (_ && _); [cbn [fst]; rewrite E|]; reflexivity).
Qed.

Lemma send_state s d : left (send s d) = state s.
Proof using.
  unfold send. destruct (negb _); [reflexivity|]. destruct (negb _); [reflexivity|]. destruct (Ring.write _ _ _) as [r n].
  cbv zeta. destruct (_ && _); reflexivity.
Qed.

Lemma reserve_state s n : left (send_reserve s n) = state s.
Proof using.
  unfold send_reserve. destruct (_ || _); [reflexivity|]. destruct (Ring.free_regions _ _ _) as [a b]. cbv zeta.
  destruct (_ =? 0); reflexivity.
Qed.

Lemma commit_state s n : left (send_commit s n) = state s.
Proof using.
  unfold send_commit. cbv zeta. destruct (_ || _); [reflexivity|]. destruct (Ring.commit _ _ _) as [r c]. reflexivity.
Qed.

Lemma recv_state s d : state (fst (fst (recv s d))) = state s.
Proof using.
  unfold recv. destruct (error s); [reflexivity|]. destruct (Ring.read _ _ _) as [[r d'] n]. cbv zeta.
  set (s1 := s <| recv_ring := r |>). assert (E1 : state s1 = state s) by reflexivity. clearbody s1. rewrite <- E1. destruct (0 <? n); [|reflexivity].
  match goal with |- context [if ?b then ?x else s1] => set (s2 := if b then x else s1) end.
  assert (E2 : state s2 = state s1) by (unfold s2; destruct (_ && _); reflexivity). clearbody s2.
  pose proof (e_state _ _ (maybe_send_window_update_mask s2)) as E3. destruct (maybe_send_window_update s2) as [s3 x].
  cbn [fst] in *. congruence.
Qed.

Lemma close_moves s : allowed (state s) (left (close s)) = true.
Proof using.
  unfold close. cbv zeta. destruct (state s) eqn:E; try (cbn [fst]; rewrite E; reflexivity); try reflexivity; rewrite send_data_state; reflexivity.
Qed.

Lemma abort_moves s : allowed (state s) (left (abort s)) = true.
Proof using.
  unfold abort. destruct (state s) eqn:E; try apply allowed_closed; try (cbn [fst]; rewrite E; reflexivity);
    (match goal with |- allowed ?x _ = true => apply (then_state (fun y => allowed x y = true)) end;
     [rewrite ctl_state, E; reflexivity|intros; apply allowed_closed]).
Qed.

(** C14 Every call moves the connection along the documented state machine: from
    any state, whatever the call and whatever packet arrives, the state
    afterwards is one [State::debug_transition_allowed] (the relation
    docs/state-machine.dot draws) permits from the state before. *)
Theorem transitions_are_allowed h e (Hw : event_wf e) :
  debug_transition_allowed (state (tcb h)) (state (tcb (fst (step h e)))) = true.
Proof using Cok.
  destruct h as [s l]. pose proof (allowed_refl (state s)) as Hs. destruct e; cbn [step tcb loan fst event_wf] in *; try exact Hs.
  - by rewrite set_paused_state.
  - by rewrite (views_state _ _ (set_secret_views s key)).
  - by rewrite (views_state _ _ (set_cookie_secret_views s key)).
  - by rewrite set_mtu_state.
  - by rewrite update_pmtu_state.
  - apply connect_moves.
  - apply listen_moves.
  - pose proof (send_state s data) as E. destruct (send s data). cbn in *. by rewrite E.
  - pose proof (reserve_state s max) as E. destruct (send_reserve s max). cbn in *. by rewrite E.
  - pose proof (commit_state s n) as E. destruct (send_commit s n). cbn in *. by rewrite E.
  - pose proof (recv_state s dst) as E. destruct (recv s dst) as [[? ?] ?]. cbn in *. by rewrite E.
  - apply close_moves.
  - apply abort_moves.
  - unfold extract_packet. destruct (TxRing.pop_into _ _ _) as [[? ?] ?]. exact Hs.
  - unfold extract_packet_with. destruct (TxRing.pop_with _ _ _) as [? ?]. exact Hs.
  - by apply inject_moves.
  - by apply inject_moves.
  - apply tick_moves.
  - apply allowed_closed.
Qed.

End Moves.

Lemma transitions_are_allowed_witness :
  state (tcb Scenario.b0) = Listen /\ state (tcb Scenario.b1) = SynRcvd /\ debug_transition_allowed Listen SynRcvd = true.
Proof.
  assert (Hw : event_wf (Inject Scenario.syn)) by decide_closed.
  assert (E1 : state (tcb Scenario.b0) = Listen) by (vm_compute; reflexivity).
  assert (E2 : state (tcb (fst (@step demo Scenario.b0 (Inject Scenario.syn)))) = SynRcvd) by (vm_compute; reflexivity).
  pose proof (@transitions_are_allowed demo demo_ok Scenario.b0 (Inject Scenario.syn) Hw) as H. rewrite E1, E2 in H.
  split; [exact E1|]. split; [vm_compute; reflexivity|exact H].
Defined.
