(* ===== verification/TcbPeer.v ===== *)
(** * Who the connection is with

    The peer's address, its initial sequence number and the generation of the
    connection.  They are assigned when a connection is opened and when the
    active side hears the peer's SYN; every other step leaves them alone. *)
From S2P Require Import Prelude Error Seq State Effect Ring RingStore Sack Ooo TxRing Bytes Checksum Options Wire WireWf RtxQueue Rack RtxCover.
From S2P Require Import Congestion Tcb TcbAck TcbOutput Cookie TcbInput TcbTimers TcbApi TcbRx TcbFrame TcbTx TcbEmit TcbSend TcbInv TcbOpen TcbSys TcbRun TcbMoves.
Import Tcb RtxCover.

Definition tag (s : t) : Z * Endpoint * Endpoint * Z := (irs s, local s, remote s, conn_gen s).

(** The peer's initial sequence number is known. *)
Definition linked (st : State) : bool := match st with Closed | Listen | SynSent => false | _ => true end.

Lemma linked_expired a b : expired a b = true -> linked b = true -> linked a = true.
Proof. by destruct a, b. Qed.

Lemma linked_moved a b : debug_transition_allowed a b = true -> linked a = false -> a <> Listen -> a <> SynSent -> linked b = false.
Proof. by destruct a, b. Qed.

Section Peer.
Context `{C : Config} {Cok : ConfigOk C}.

(** ** Frame *)

Lemma e_tag s s' : e_mask s' = e_mask s -> tag s' = tag s.
Proof using. intros E. exact (f_equal tag E). Qed.

Lemma s_tag s s' : s_mask s' = s_mask s -> tag s' = tag s.
Proof using. intros E. exact (f_equal tag E). Qed.

Lemma rx_eg_tag s s' : rx_view s' = rx_view s -> eg_view s' = eg_view s -> tag s' = tag s.
Proof using.
  intros E1 E2. unfold tag. by rewrite (f_equal x_irs E1 : irs s' = irs s), (f_equal g_local E2 : local s' = local s),
    (f_equal g_remote E2 : remote s' = remote s), (f_equal g_gen E2 : conn_gen s' = conn_gen s).
Qed.

Lemma views_tag s s' : views s' = views s -> tag s' = tag s.
Proof using. intros E. exact (rx_eg_tag _ _ (f_equal (fun v => fst (fst v)) E) (f_equal snd E)). Qed.

Lemma loss_tag s s' : loss_step s s' -> tag s' = tag s.
Proof using. intros (E1 & _ & E2)%loss_views. by apply rx_eg_tag. Qed.

Lemma then_tag {A B} (r : t * Res A) (k : t -> A -> t * Res B) x :
  tag (fst r) = x -> (forall s a, tag s = x -> tag (fst (k s a)) = x) -> tag (fst (st_bind r k)) = x.
Proof using. destruct r as [s [a|e]]; cbn; auto. Qed.

Lemma pure_ack_tag s : tag (fst (send_pure_ack s)) = tag s.
Proof using. apply e_tag, send_pure_ack_mask. Qed.

Lemma oow_ack_tag s : tag (fst (send_oow_ack s)) = tag s.
Proof using. apply e_tag, send_oow_ack_mask. Qed.

Lemma emit_tag s f q a o sl e : tag (fst (emit_segment s f q a o sl e)) = tag s.
Proof using. apply e_tag, emit_segment_mask. Qed.

Lemma synack_tag s : tag (fst (emit_synack s)) = tag s.
Proof using. apply emit_tag. Qed.

Lemma syn_tag s : tag (fst (emit_syn s)) = tag s.
Proof using. apply emit_tag. Qed.

Lemma ctl_tag s f q a : tag (fst (emit_ctl s f q a)) = tag s.
Proof using. apply emit_tag. Qed.

Lemma rst_tag s seg : tag (fst (reset_stray_ack s seg)) = tag s.
Proof using. apply e_tag, reset_stray_ack_mask. Qed.

Lemma send_data_tag s : tag (fst (maybe_send_data s)) = tag s.
Proof using. apply s_tag, maybe_send_data_mask. Qed.

(** ** Segments in synchronized states *)

Lemma ack_cumulative_tag s ack acked mss ts d : tag (fst (ack_cumulative s ack acked mss ts d)) = tag s.
Proof using.
  unfold ack_cumulative. set (fa := fin_sent s && _ && _). clearbody fa.
  destruct (Rtx.ack_to _ _ _) as [[q rm] calls]. destruct (foldl _ _ calls) as [[[rk old] new] re].
  match goal with |- context [update_rtt ?x] => set (s1 := x) end. assert (H1 : tag s1 = tag s) by reflexivity. clearbody s1.
  set (s2 := match rtt_sample _ _ _ _ _ with Some r => _ | None => s1 end).
  assert (H2 : tag s2 = tag s) by (rewrite <- H1; unfold s2; repeat case_match; try reflexivity; apply views_tag, update_rtt_views).
  clearbody s2. cbn [fst]. rewrite <- H2. apply views_tag, note_progress_views.
Qed.

Lemma ack_fin_tag s : tag (ack_fin s) = tag s.
Proof using. unfold ack_fin. case_if; [|reflexivity]. destruct (state s); try reflexivity. case_if; reflexivity. Qed.

Lemma ack_timers_tag s a : tag (ack_timers s a) = tag s.
Proof using. unfold ack_timers. cbv zeta. rewrite (views_tag _ _ (maybe_arm_tlp_views _)). repeat case_if; reflexivity. Qed.

Lemma process_ack_tag s seg : seg_wf seg -> tag (process_ack s seg) = tag s.
Proof using Cok.
  intros Hw. unfold process_ack. set (s0 := s <| rtx_count := 0 |>). assert (E0 : tag s0 = tag s) by reflexivity. clearbody s0.
  destruct (seq_lt (seg_ack seg) (snd_una s0)); [exact E0|]. cbv zeta. set (mss := mss_payload s0). set (pf := wsub32 (snd_nxt s0) _).
  set (ts := match ts_enabled s0 with true => _ | false => _ end). set (u := snd_una s0). clearbody mss pf ts u.
  set (s1 := set_field rack s0 _). assert (E1 : tag s1 = tag s) by exact E0. clearbody s1.
  pose proof (ack_sack_step s1 seg mss Hw) as L2. destruct (ack_sack s1 seg mss) as [s2 [[ds sp] dl]]. cbn [fst] in L2.
  apply loss_tag in L2. set (acked := wsub32 _ _). clearbody acked.
  set (p := if 0 <? acked then _ else _).
  assert (E3 : tag (fst p) = tag s) by (unfold p; case_if; [rewrite ack_cumulative_tag|]; exact (eq_trans L2 E1)).
  destruct p as [s3 d3]. cbn [fst] in E3. pose proof (ack_tail_step s3 seg u pf mss acked ds sp d3) as L. cbn zeta in L.
  destruct (ack_loss _ _ _ _ _ _ _ _) as [s4 [lost d4]]. apply loss_tag in L.
  set (s5 := ack_congestion _ _ _ _ _) in *. clearbody s5. exact (eq_trans (ack_fin_tag _) (eq_trans (ack_timers_tag _ _) (eq_trans L E3))).
Qed.

Lemma consume_fin_tag s : tag (consume_fin s) = tag s.
Proof using.
  unfold consume_fin, advance_state_on_remote_fin. cbv zeta. set (s1 := s <| rcv_nxt := _ |> <| ooo := _ |> <| ooo_fin := _ |>).
  assert (E : tag s1 = tag s) by reflexivity. clearbody s1. rewrite <- E. destruct (state s1); try reflexivity. case_if; reflexivity.
Qed.

Lemma receive_fin_tag s start fin : tag (fst (receive_fin s start fin)) = tag s.
Proof using. unfold receive_fin. cbn [fst]. case_if; [apply consume_fin_tag|]. repeat case_match; reflexivity. Qed.

Lemma held_fin_tag s : tag (fst (maybe_consume_ooo_fin s)) = tag s.
Proof using. unfold maybe_consume_ooo_fin. destruct (_ && _); [apply consume_fin_tag|reflexivity]. Qed.

Lemma absorb_ooo_tag s f : tag (fst (absorb_ooo s f)) = tag s.
Proof using. unfold absorb_ooo. destruct (Ooo.advance _ _) as [o new]. cbv zeta. case_if; [reflexivity|]. destruct (Ring.commit _ _ _). reflexivity. Qed.

Lemma receive_in_order_tag s d f : tag (fst (receive_in_order s d f)) = tag s.
Proof using.
  unfold receive_in_order. destruct (Ring.write _ _ _) as [r n]. rewrite absorb_ooo_tag. cbv zeta. repeat case_match; reflexivity.
Qed.

Lemma receive_parked_tag s q o d : tag (receive_parked s q o d) = tag s.
Proof using.
  unfold receive_parked. cbv zeta. destruct (Ooo.insert _ _ _ _ _) as [oo ins]. set (s1 := s <| ooo := oo |>).
  assert (E : tag s1 = tag s) by reflexivity. clearbody s1. rewrite <- E. destruct ins as [dup|]; [|reflexivity].
  set (s2 := s1 <| recv_ring := _ |>). assert (E2 : tag s2 = tag s1) by reflexivity. clearbody s2. rewrite <- E2.
  set (s3 := if dup then _ else s2). assert (E3 : tag s3 = tag s2) by (unfold s3; destruct dup; [rewrite (views_tag _ _ (note_dsack_views _ _ _))|]; reflexivity).
  clearbody s3. rewrite <- E3. repeat case_match; reflexivity.
Qed.

Lemma receive_payload_tag s seg f : tag (fst (receive_payload s seg f)) = tag s.
Proof using.
  assert (H : forall s1 q d a, tag s1 = tag s -> tag (fst (
    let free := Ring.free BUF (recv_ring s1) in let off := wsub32 q (rcv_nxt s1) in
    if free <=? off then (s1, true) else
    let data := take (Z.to_nat (Z.min (zlen d) (free - off))) d in
    if off =? 0 then let '(self, filled) := receive_in_order s1 data f in (self, filled || a)
    else (receive_parked s1 q off data, true))) = tag s).
  { intros s1 q d a E. cbv zeta. case_if; [exact E|]. case_if; [|cbn [fst]; by rewrite receive_parked_tag].
    match goal with |- context [receive_in_order ?a ?b ?c] => pose proof (receive_in_order_tag a b c) as H1; destruct (receive_in_order a b c) end.
    cbn [fst] in *. congruence. }
  unfold receive_payload. destruct (seq_lt _ _); [|by apply H]. destruct (get_range _ _ _) as [[|b rest]|]; [reflexivity| |reflexivity].
  apply H. by rewrite (views_tag _ _ (note_dsack_views _ _ _)).
Qed.

Lemma receive_text_tag s seg l fin : tag (fst (receive_text s seg l fin)) = tag s.
Proof using.
  unfold receive_text. destruct (can_recv (state s)); [|reflexivity]. cbv zeta.
  set (f := if fin && _ then Some _ else None). clearbody f. set (p1 := if 0 <? l then _ else _).
  assert (E1 : tag (fst p1) = tag s) by (unfold p1; case_if; [apply receive_payload_tag|reflexivity]).
  destruct p1 as [s1 a1]. cbn [fst] in E1. set (p2 := match f with Some f => _ | None => _ end).
  assert (E2 : tag (fst p2) = tag s1) by (unfold p2; destruct f; [apply receive_fin_tag|reflexivity]).
  destruct p2 as [s2 a2]. cbn [fst] in E2. pose proof (held_fin_tag s2) as E3. destruct (maybe_consume_ooo_fin s2) as [s3 a3].
  cbn [fst] in *. congruence.
Qed.

Lemma on_reset_tag s : tag (on_reset_received s) = tag s.
Proof using. unfold on_reset_received. destruct (state s); reflexivity. Qed.

Lemma on_unacceptable_tag s seg l fin : seg_wf seg -> tag (fst (on_unacceptable s seg l fin)) = tag s.
Proof using Cok.
  intros Hw. unfold on_unacceptable. case_if; [reflexivity|]. case_if; [by rewrite oow_ack_tag|].
  cbv zeta. set (live := seq_ge _ _ && _ && _). clearbody live. set (s1 := if live then _ else s).
  assert (H1 : tag s1 = tag s).
  { unfold s1. destruct live; [|reflexivity].
    by rewrite process_ack_tag, (views_tag _ _ (on_peer_alive_views _)), (views_tag _ _ (update_ts_recent_views s seg)). }
  clearbody s1. destruct (live && _); [exact H1|]. destruct (_ && _ && _ && _); [by rewrite pure_ack_tag|].
  apply then_tag; [|intros s2 _ H2; destruct live; [by rewrite send_data_tag|exact H2]].
  destruct (_ && _ && _); [by rewrite pure_ack_tag, (views_tag _ _ (note_dsack_views _ _ _))|].
  destruct (_ && _ && _); [by rewrite pure_ack_tag|by rewrite oow_ack_tag].
Qed.

Lemma on_synchronized_tag s seg : seg_wf seg -> tag (fst (on_synchronized s seg)) = tag s.
Proof using Cok.
  intros Hw. unfold on_synchronized. case_if; [reflexivity|]. cbv zeta.
  set (acc := acceptable _ _ _ || _). set (zwp := negb acc && _ && _). clearbody acc zwp.
  case_if; [by apply on_unacceptable_tag|]. case_if; [case_if; [by rewrite pure_ack_tag|by rewrite oow_ack_tag]|].
  case_if; [case_if; [cbn [fst]; apply on_reset_tag|by rewrite oow_ack_tag]|].
  case_if; [by rewrite oow_ack_tag|]. case_if; [reflexivity|]. case_if; [by rewrite oow_ack_tag|].
  set (s1 := on_peer_alive _).
  assert (E1 : tag s1 = tag s)
    by (apply views_tag; unfold s1; rewrite on_peer_alive_views, ecn_echo_views; apply update_ts_recent_views).
  clearbody s1. pose proof (process_ack_tag s1 seg Hw) as H2. rewrite E1 in H2. set (s2 := process_ack s1 seg) in *. clearbody s2.
  case_if; [exact H2|]. destruct zwp.
  { apply then_tag; [by rewrite pure_ack_tag|]. intros s3 _ H3. by rewrite send_data_tag. }
  pose proof (receive_text_tag s2 seg (as_u32 (zlen (payload seg))) (Wire.has seg flags.FIN)) as H3.
  destruct (receive_text s2 seg _ _) as [s3 now]. cbn [fst] in H3. rewrite H2 in H3.
  apply then_tag; [|intros s4 _ H5; by rewrite send_data_tag].
  destruct now; [by rewrite pure_ack_tag|]. case_if; [cbn [fst]; by rewrite (e_tag _ _ (schedule_delayed_ack_mask _ _))|].
  case_if; [by rewrite oow_ack_tag|exact H3].
Qed.

(** ** Generations *)

Lemma next_gen x : wadd32 x 1 <> x.
Proof using. intros E. word_lia. Qed.

Lemma next_gen2 x : wadd32 (wadd32 x 1) 1 <> x.
Proof using. intros E. word_lia. Qed.

Lemma tag_gen s s' : tag s' = tag s -> conn_gen s' = conn_gen s.
Proof using. intros E. exact (f_equal snd E). Qed.

Lemma reset_gen s : conn_gen (reset_connection_state s) = wadd32 (conn_gen s) 1.
Proof using. reflexivity. Qed.

Lemma vacated_gen s : conn_gen (reset_to_listen_or_closed s) = wadd32 (conn_gen s) 1.
Proof using. reflexivity. Qed.

Lemma cookie_assign_gen s seg o : conn_gen (cookie_assign s seg o) = conn_gen s.
Proof using. unfold cookie_assign. cbv zeta. repeat case_match; reflexivity. Qed.

Lemma half_open_gen s seg : conn_gen (half_open_assign s seg) = conn_gen s.
Proof using. unfold half_open_assign, absorb_syn_options. cbv zeta. repeat case_match; reflexivity. Qed.

Lemma promote_gen s seg o : seg_wf seg -> conn_gen (fst (promote_via_cookie s seg o)) = wadd32 (conn_gen s) 1.
Proof using Cok.
  intros Hw. unfold promote_via_cookie, cookie_connection. rewrite (tag_gen _ _ (on_synchronized_tag _ _ Hw)).
  rewrite (tag_gen _ _ (views_tag _ _ (on_established_views _))), cookie_assign_gen. apply reset_gen.
Qed.

Lemma synack_then_gen s (f : t -> t) : (forall s, tag (f s) = tag s) -> tag (fst (try s := emit_synack s in (f s, Ok tt))) = tag s.
Proof using. intros Hf. apply then_tag; [apply synack_tag|]. intros s1 _ E1. cbn [fst]. by rewrite Hf. Qed.

Lemma accept_tail_tag s :
  tag (fst (try s := emit_synack s in (arm_rto (s <| snd_nxt := wadd32 (iss s) 1 |> <| syn_unacked := true |>), Ok tt))) = tag s.
Proof using. by apply (synack_then_gen s (fun s => arm_rto (s <| snd_nxt := wadd32 (iss s) 1 |> <| syn_unacked := true |>))). Qed.

Lemma accept_gen s seg : conn_gen (fst (accept_syn_stateful s seg)) = wadd32 (conn_gen s) 1.
Proof using.
  pose proof (tag_gen _ _ (accept_tail_tag (half_open_assign (reset_connection_state s) seg))) as E.
  rewrite half_open_gen, reset_gen in E. exact E.
Qed.

(** ** Opening *)

(** The step belongs to the connection and tells it nothing about the peer. *)
Definition same_peer (s s' : t) : Prop := tag s' = tag s /\ (linked (state s') = true -> linked (state s) = true).

(** The active side hears the SYN [seg]. *)
Definition heard (s : t) (seg : Segment) (s' : t) : Prop :=
  state s = SynSent /\ Wire.has seg flags.SYN = true /\ irs s' = seg_seq seg /\ remote s' = remote s /\ local s' = local s.

(** Another connection, the same one with the peer unchanged, or the peer's SYN. *)
Definition told (s : t) (seg : Segment) (s' : t) : Prop := conn_gen s' <> conn_gen s \/ same_peer s s' \/ heard s seg s'.

Lemma unmoved s s' : tag s' = tag s -> state s' = state s -> same_peer s s'.
Proof using. intros E1 E2. split; [done|by rewrite E2]. Qed.

Lemma linked_same s s' : linked (state s) = true -> tag s' = tag s -> same_peer s s'.
Proof using. by split. Qed.

Lemma closed_same s s' : tag s' = tag s -> state s' = Closed -> same_peer s s'.
Proof using. intros E1 E2. split; [done|by rewrite E2]. Qed.

Lemma rst_same s seg : same_peer s (fst (reset_stray_ack s seg)).
Proof using. apply unmoved; [apply rst_tag|apply rst_state]. Qed.

#[global] Instance same_peer_refl : Reflexive same_peer.
Proof using. intros s. by apply unmoved. Qed.

Lemma on_listen_told s seg : seg_wf seg -> conn_gen (fst (on_listen s seg)) <> conn_gen s \/ same_peer s (fst (on_listen s seg)).
Proof using Cok.
  intros Hw. assert (Hr : same_peer s s) by reflexivity. unfold on_listen. case_if; [by right|]. case_if.
  - case_if; [|right; apply rst_same]. case_if; [|by right]. unfold try_promote_via_cookie.
    destruct (validate_cookie s seg) as [o|]; [|by right]. left. pose proof (promote_gen s seg o Hw) as E. pose proof (next_gen (conn_gen s)) as Hn.
    destruct (promote_via_cookie s seg o) as [s1 [u|x]]; cbn [st_bind fst] in *; congruence.
  - case_if; [by right|]. left. rewrite accept_gen. apply next_gen.
Qed.

Lemma absorb_tag s seg : irs (absorb_syn_options s seg) = seg_seq seg /\ local (absorb_syn_options s seg) = local s /\
  remote (absorb_syn_options s seg) = remote s.
Proof using. unfold absorb_syn_options. cbv zeta. repeat case_match; done. Qed.

Lemma tag_parts s s' : tag s' = tag s -> irs s' = irs s /\ local s' = local s /\ remote s' = remote s.
Proof using. by intros [= -> -> -> _]. Qed.

Lemma active_acked_tag s b u a : tag (s <| ecn_enabled := b |> <| snd_una := u |> <| snd_acked := a |> <| syn_unacked := false |> <| rtx_count := 0 |>) = tag s.
Proof using. reflexivity. Qed.

Lemma active_done_tag s : tag (s <| rto_deadline := Deadline.OFF |> <| state := Established |>) = tag s.
Proof using. reflexivity. Qed.

Lemma active_tag s seg : tag (active_established s seg) = tag (absorb_syn_options s seg).
Proof using.
  unfold active_established. cbv zeta. rewrite (views_tag _ _ (on_established_views _)), active_done_tag.
  rewrite (views_tag _ _ (handshake_rtt_sample_views _ _)). apply active_acked_tag.
Qed.

Lemma on_syn_sent_told s seg : state s = SynSent -> told s seg (fst (on_syn_sent s seg)).
Proof using.
  intros Es. assert (Hr : told s seg s) by (right; left; reflexivity). unfold on_syn_sent. cbv zeta. set (ok := _ && seq_gt _ _ && _). clearbody ok.
  case_if; [case_if; [right; left; apply rst_same|exact Hr]|]. case_if; [case_if; [right; left; by apply closed_same|exact Hr]|].
  destruct (Wire.has seg flags.SYN) eqn:Hy; cbn [negb]; [|exact Hr]. right; right.
  destruct (absorb_tag s seg) as (E1 & E2 & E3).
  assert (H : forall s', tag s' = tag (absorb_syn_options s seg) -> heard s seg s').
  { intros s' (F1 & F2 & F3)%tag_parts. split_and!; congruence. }
  destruct ok; apply H.
  - unfold complete_active_open. rewrite pure_ack_tag. apply active_tag.
  - unfold simultaneous_open. set (s1 := absorb_syn_options s seg). clearbody s1. cbv zeta. by rewrite (synack_then_gen _ arm_rto).
Qed.

Lemma passive_acked_tag s u a w m l1 l2 (b : bool) :
  tag (let s := s <| snd_una := u |> <| snd_acked := a |> <| syn_unacked := false |> <| snd_wnd := w |> <| max_snd_wnd := m |>
         <| snd_wl1 := l1 |> <| snd_wl2 := l2 |> in if b then s <| syn_retransmitted := true |> else s) = tag s.
Proof using. destruct b; reflexivity. Qed.

Lemma passive_done_tag s :
  tag (s <| rto_deadline := Deadline.OFF |> <| rtx_count := 0 |> <| syn_rcvd_retries := 0 |> <| state := Established |>) = tag s.
Proof using. reflexivity. Qed.

Lemma passive_tag s seg : tag (passive_established s seg) = tag s.
Proof using.
  unfold passive_established. cbv zeta. rewrite (views_tag _ _ (on_established_views _)), passive_done_tag.
  rewrite (views_tag _ _ (handshake_rtt_sample_views _ _)). apply passive_acked_tag.
Qed.

Lemma passive_open_tag s seg : seg_wf seg -> tag (fst (complete_passive_open s seg)) = tag s.
Proof using Cok.
  intros Hw. unfold complete_passive_open. cbv zeta. case_if; [rewrite pure_ack_tag|rewrite on_synchronized_tag by done]; apply passive_tag.
Qed.

Lemma on_syn_rcvd_told s seg : seg_wf seg ->
  conn_gen (fst (on_syn_rcvd s seg)) <> conn_gen s \/ tag (fst (on_syn_rcvd s seg)) = tag s.
Proof using Cok.
  intros Hw. unfold on_syn_rcvd. cbv zeta. case_if.
  - case_if; [by right|]. case_if; [right; apply oow_ack_tag|]. case_if; [left; cbn [fst]; rewrite vacated_gen; apply next_gen|by right].
  - right. case_if; [case_if; [case_if; [by apply passive_open_tag|apply rst_tag]|]|].
    + case_if; [|reflexivity]. pose proof (e_tag _ _ (oow_allowed_mask s)) as E1. destruct (oow_allowed s) as [s1 [|]]; cbn [fst] in E1; [|exact E1].
      rewrite <- E1. by apply (synack_then_gen s1 (fun s => s)).
    + case_if; [reflexivity|]. case_if; [apply rst_tag|]. case_if; [apply oow_ack_tag|by apply passive_open_tag].
Qed.

(** ** Inbound segments *)

Lemma cookie_synack_tag s seg : tag (fst (emit_cookie_synack s seg)) = tag s.
Proof using.
  unfold emit_cookie_synack. case_if; [reflexivity|]. destruct (cookie_options _ _ _) as [o e]. cbv zeta.
  destruct (TxRing.push_with _ _ _ _) as [r [[|]|]]; reflexivity.
Qed.

Lemma on_busy_listener_told s seg : seg_wf seg ->
  conn_gen (fst (on_busy_listener s seg)) <> conn_gen s \/ same_peer s (fst (on_busy_listener s seg)).
Proof using Cok.
  intros Hw. assert (Hr : same_peer s s) by reflexivity. unfold on_busy_listener. case_if; [by right|]. cbv zeta.
  case_if; [right; apply unmoved; [apply cookie_synack_tag|apply cookie_synack_state]|]. case_if; [|by right].
  destruct (validate_cookie s seg) as [o|]; [|by right]. left. rewrite promote_gen, vacated_gen by done. apply next_gen2.
Qed.

Lemma dispatch_told s seg : seg_wf seg -> told s seg (fst (dispatch s seg)).
Proof using Cok.
  intros Hw. unfold dispatch. cbv zeta. match goal with |- context [on_listen ?x _] => set (s1 := x) end.
  assert (E : tag s1 = tag s /\ state s1 = state s) by done. clearbody s1. destruct E as [E1 E2].
  assert (Hx : forall s2, told s1 seg s2 -> told s seg s2).
  { intros s2 H. unfold told, same_peer, heard in *. rewrite E1, E2, (tag_gen _ _ E1) in H. destruct (tag_parts _ _ E1) as (_ & -> & ->) in H. exact H. }
  apply Hx. clear Hx E1 E2 s. destruct (state s1) eqn:Es;
    try (right; left; apply linked_same; [by rewrite Es|by apply on_synchronized_tag]).
  - right; left. reflexivity.
  - by apply on_syn_sent_told.
  - destruct (on_listen_told s1 seg Hw); [by left|by right; left].
  - destruct (on_syn_rcvd_told s1 seg Hw); [by left|right; left]. apply linked_same; [by rewrite Es|done].
Qed.

Lemma listen_syn_gen s seg : state s = Listen ->
  Wire.has seg flags.SYN = true -> Wire.has seg flags.ACK = false -> Wire.has seg flags.RST = false -> Wire.has seg flags.FIN = false ->
  conn_gen (fst (dispatch s seg)) = wadd32 (conn_gen s) 1.
Proof using.
  intros Es F1 F2 F3 F4. unfold dispatch. cbv zeta. match goal with |- context [on_listen ?x _] => set (s2 := x) end.
  assert (E2 : state s2 = Listen /\ conn_gen s2 = conn_gen s) by done. clearbody s2. destruct E2 as [E2 <-]. rewrite E2.
  unfold on_listen. rewrite F1, F2, F3, F4. cbn [negb orb]. apply accept_gen.
Qed.

Lemma half_open_names s seg : irs (half_open_assign s seg) = seg_seq seg /\ local (half_open_assign s seg) = local s.
Proof using. unfold half_open_assign, absorb_syn_options. cbv zeta. repeat case_match; done. Qed.

(** A listener takes the peer's initial sequence number from the SYN. *)
Lemma accept_names s seg : irs (fst (accept_syn_stateful s seg)) = seg_seq seg /\ local (fst (accept_syn_stateful s seg)) = local s.
Proof using.
  destruct (tag_parts _ _ (accept_tail_tag (half_open_assign (reset_connection_state s) seg))) as (E1 & E2 & _).
  destruct (half_open_names (reset_connection_state s) seg) as [F1 F2]. exact (conj (eq_trans E1 F1) (eq_trans E2 F2)).
Qed.

Lemma listen_syn_names s seg : state s = Listen ->
  Wire.has seg flags.SYN = true -> Wire.has seg flags.ACK = false -> Wire.has seg flags.RST = false -> Wire.has seg flags.FIN = false ->
  irs (fst (dispatch s seg)) = seg_seq seg /\ local (fst (dispatch s seg)) = local s.
Proof using.
  intros Es F1 F2 F3 F4. unfold dispatch. cbv zeta. match goal with |- context [on_listen ?x _] => set (s2 := x) end.
  assert (E2 : state s2 = Listen /\ local s2 = local s) by done. clearbody s2. destruct E2 as [E2 <-]. rewrite E2.
  unfold on_listen. rewrite F1, F2, F3, F4. cbn [negb orb]. apply accept_names.
Qed.

(** A SYN that replaces a half-open connection begins another one. *)
Lemma replaced_gen s seg : may_replace_half_open s seg = true ->
  conn_gen (fst (dispatch (reset_to_listen_or_closed s) seg)) <> conn_gen s.
Proof using.
  intros Hm. unfold may_replace_half_open in Hm. rewrite !andb_true_iff, !negb_true_iff in Hm.
  destruct Hm as ((((((_ & Hl) & F1) & F2) & F3) & F4) & _).
  rewrite (listen_syn_gen _ seg (reset_to_listen_state s Hl) F1 F2 F3 F4), vacated_gen. apply next_gen2.
Qed.

(** A segment that is not for this endpoint changes nothing. *)
Lemma inject_segment_told s seg : seg_wf seg ->
  same_peer s (fst (inject_segment s seg)) \/
  dst_ip seg = ip (local s) /\ dst_port seg = port (local s) /\ told s seg (fst (inject_segment s seg)).
Proof using Cok.
  intros Hw. pose proof (replaced_gen s seg) as H1. pose proof (on_busy_listener_told s seg Hw) as H2. pose proof (dispatch_told s seg Hw) as H3.
  unfold inject_segment. destruct (_ || _) eqn:Ef; [by left|]. cbv zeta.
  apply orb_false_iff in Ef as [F1 F2]. apply negb_false_iff in F1, F2. apply bool_decide_eq_true in F1. apply Z.eqb_eq in F2.
  right. split; [done|]. split; [done|]. destruct (_ && _); [|exact H3].
  destruct (may_replace_half_open s seg); [left; by apply H1|]. destruct H2; [by left|by right; left].
Qed.

(** ** Timers *)

Lemma new_tag s l f : tag (fst (emit_new s l f)) = tag s.
Proof using. apply s_tag, emit_new_mask. Qed.

Lemma retransmit_tag s i : tag (fst (retransmit s i)) = tag s.
Proof using. apply s_tag, retransmit_mask. Qed.

Lemma fire_tlp_tag s : tag (fst (fire_tlp s)) = tag s.
Proof using.
  unfold fire_tlp. cbv zeta. set (s1 := s <| tlp_deadline := _ |>). assert (E : tag s1 = tag s) by reflexivity. clearbody s1. rewrite <- E.
  destruct (negb _); [reflexivity|]. destruct (egress_full s1); [exact (views_tag _ _ (maybe_arm_tlp_views s1))|].
  apply then_tag.
  - unfold tlp_probe. cbv zeta. case_if; [apply then_tag; [apply new_tag|intros; assumption]|].
    case_if; [reflexivity|]. destruct (Rtx.get_seg _ _ _) as [sg|]; [|reflexivity]. case_if; [|reflexivity].
    apply then_tag; [apply retransmit_tag|intros; assumption].
  - intros s2 r E2. case_if; exact E2.
Qed.

Lemma on_rto_tag s : tag (on_rto s) = tag s.
Proof using.
  unfold on_rto. cbv zeta. set (s1 := s <| rto_deadline := _ |>). assert (E : tag s1 = tag s) by reflexivity. clearbody s1. rewrite <- E.
  case_if; [reflexivity|]. set (s2 := s1 <| rtx_count := _ |>). assert (E2 : tag s2 = tag s1) by reflexivity. clearbody s2. rewrite <- E2.
  case_if; [reflexivity|]. unfold rto_collapse. cbv zeta.
  match goal with |- context [blackhole_check ?x] => pose proof (views_tag _ _ (blackhole_check_views x)) as E3; set (s3 := blackhole_check x) in * end.
  clearbody s3. assert (H : tag s3 = tag s2) by (rewrite E3; reflexivity). clear E3. case_if; exact H.
Qed.

Lemma cc_tag s c : tag (s <| cc := c |>) = tag s.
Proof using. reflexivity. Qed.

Lemma rack_timer_tag s : tag (rack_timer s) = tag s.
Proof using.
  unfold rack_timer. cbv zeta. set (s1 := s <| rack_deadline := _ |>). assert (E : tag s1 = tag s) by reflexivity. clearbody s1. rewrite <- E.
  assert (H2 : tag (fst (rack_detect s1)) = tag s1) by (unfold rack_detect; repeat case_match; reflexivity).
  destruct (rack_detect s1) as [s2 [|]]; [|exact H2]. cbn [fst] in H2. rewrite <- H2, cc_tag. destruct (negb _); [|reflexivity].
  apply views_tag, enter_fast_recovery_views.
Qed.

Lemma on_persist_tag s : tag (fst (on_persist_timer s)) = tag s.
Proof using.
  unfold on_persist_timer. cbv zeta. set (s1 := s <| persist_deadline := _ |>). assert (E : tag s1 = tag s) by reflexivity. clearbody s1.
  rewrite <- E. clear E s. case_if; [reflexivity|]. case_if; [reflexivity|]. case_if.
  - apply then_tag; [apply new_tag|]. intros s2 _ H2. cbn [fst]. by rewrite (views_tag _ _ (persist_backoff_views s2)).
  - apply then_tag; [apply emit_tag|]. intros s2 _ H2. case_if; [exact H2|]. cbn [fst]. by rewrite (views_tag _ _ (persist_backoff_views _)).
Qed.

Lemma check_keepalive_tag s : tag (fst (check_keepalive s)) = tag s.
Proof using.
  unfold check_keepalive. case_if; [reflexivity|]. case_if; [reflexivity|]. case_if; [reflexivity|].
  case_if; [cbn [fst]; destruct (state_eqb _ _); reflexivity|]. apply then_tag; [apply emit_tag|]. intros s2 [|] H2; exact H2.
Qed.

Lemma check_user_timeout_tag s : tag (check_user_timeout s) = tag s.
Proof using. unfold check_user_timeout. repeat case_if; reflexivity. Qed.

Lemma recovery_timers_tag s : tag (fst (recovery_timers s)) = tag s.
Proof using.
  unfold recovery_timers. cbv zeta. apply then_tag; [destruct (Deadline.due _ _); [apply fire_tlp_tag|reflexivity]|].
  intros s1 _ H1. set (fired := is_synchronized _ && _). clearbody fired. set (s2 := if fired then on_rto s1 else s1).
  assert (H2 : tag s2 = tag s) by (unfold s2; destruct fired; [rewrite on_rto_tag|]; exact H1).
  clearbody s2. case_if; [exact H2|]. cbn [fst]. destruct (Deadline.due (rack_deadline s2) _); [by rewrite rack_timer_tag|exact H2].
Qed.

Lemma liveness_timers_tag s : tag (fst (liveness_timers s)) = tag s.
Proof using.
  unfold liveness_timers. cbv zeta. set (fired := Deadline.due _ _). clearbody fired.
  apply then_tag; [destruct fired; [apply on_persist_tag|reflexivity]|]. intros s1 _ H1. case_if; [exact H1|].
  apply then_tag; [by rewrite check_keepalive_tag|]. intros s2 _ H2. cbn [fst]. by rewrite check_user_timeout_tag.
Qed.

Lemma later_timers_tag now s : tag (fst (later_timers now s)) = tag s.
Proof using.
  unfold later_timers. apply then_tag; [apply recovery_timers_tag|]. intros s1 go H1. destruct go; [|exact H1]. cbn [negb].
  apply then_tag; [by rewrite liveness_timers_tag|]. intros s2 go H2. destruct go; [|exact H2]. cbn [negb].
  apply then_tag; [by rewrite send_data_tag|]. intros s3 _ H3. destruct (_ && _); [by rewrite pure_ack_tag|exact H3].
Qed.

(** The timers either begin another generation or keep the peer. *)
Definition ticked (s s' : t) : Prop := conn_gen s' <> conn_gen s \/ same_peer s s'.

Lemma expired_same s s' : tag s' = tag s -> expired (state s) (state s') = true -> same_peer s s'.
Proof using. intros E H. split; [done|]. by apply linked_expired. Qed.

Lemma same_trans s1 s2 s3 : same_peer s1 s2 -> same_peer s2 s3 -> same_peer s1 s3.
Proof using. intros [E1 H1] [E2 H2]. split; [congruence|auto]. Qed.

Lemma handshake_timers_told s : ticked s (fst (handshake_timers s)).
Proof using.
  assert (Hr : same_peer s s) by reflexivity. unfold handshake_timers. destruct (state s) eqn:Es; try (by right).
  - right. unfold syn_sent_timer. destruct (negb _); [done|]. cbv zeta. set (s1 := s <| rtx_count := _ |>).
    assert (E1 : tag s1 = tag s /\ state s1 = SynSent) by done. clearbody s1. destruct E1 as [E1 F1]. case_if; [by apply closed_same|].
    match goal with |- context [emit_syn ?x] =>
      assert (E2 : tag x = tag s1 /\ state x = state s1) by done; pose proof (syn_tag x) as E3; pose proof (syn_state x) as F3 end.
    destruct E2 as [E2 F2]. rewrite E2, E1 in E3. rewrite F2, F1 in F3.
    destruct (emit_syn _) as [s3 [u|x]]; cbn [st_bind fst] in *; apply unmoved; first [exact E3|by rewrite Es].
  - unfold syn_rcvd_timer. destruct (negb _); [by right|]. cbv zeta. set (s1 := s <| syn_rcvd_retries := _ |>).
    assert (E1 : tag s1 = tag s) by done. clearbody s1. pose proof (tag_gen _ _ E1) as Hg.
    case_if; [cbn [fst]; destruct (is_listener s1); [left; rewrite vacated_gen, Hg; apply next_gen|right; by apply closed_same]|].
    right. apply linked_same; [by rewrite Es|]. rewrite <- E1.
    apply then_tag; [rewrite synack_tag; reflexivity|]. intros s2 _ E2. exact E2.
Qed.

Lemma tick_told s : ticked s (fst (tick s)).
Proof using.
  unfold tick, run_timers. cbv zeta. destruct (Deadline.due _ _); [right; by apply closed_same|]. destruct (_ && _).
  - right. match goal with |- context [emit_ctl s ?a ?b ?c] =>
      pose proof (ctl_tag s a b c) as E; pose proof (ctl_state s a b c) as F; destruct (emit_ctl s a b c) as [s3 [u|x]] end;
      cbn [st_bind fst] in *; [by apply closed_same|by apply unmoved].
  - change (ticked s (fst (try s1 := handshake_timers s in later_timers (now_ms s) s1))).
    pose proof (handshake_timers_told s) as H. destruct (handshake_timers s) as [s1 [u|x]]; cbn [st_bind fst] in *; [|exact H].
    pose proof (later_timers_tag (now_ms s) s1) as E. pose proof (later_timers_moves (now_ms s) s1) as F.
    destruct H as [H|H]; [left; by rewrite (tag_gen _ _ E)|right]. apply (same_trans _ _ _ H). by apply expired_same.
Qed.

(** ** The host's calls *)

Lemma set_mtu_tag s m : tag (fst (set_mtu s m)) = tag s.
Proof using. unfold set_mtu. destruct (state s); reflexivity. Qed.

Lemma update_pmtu_tag s m : tag (update_pmtu s m) = tag s.
Proof using.
  unfold update_pmtu. cbv zeta. set (s1 := s <| pmtu_restore_mss := _ |>). assert (H1 : tag s1 = tag s) by reflexivity. clearbody s1.
  match goal with |- context [if ?b then ?x else s1] => set (s2 := if b then x else s1) end.
  assert (H2 : tag s2 = tag s) by (rewrite <- H1; unfold s2; destruct (_ <=? _); reflexivity). clearbody s2. rewrite <- H2.
  destruct (_ <=? _); [reflexivity|]. destruct (is_synchronized _); [|reflexivity]. rewrite send_data_tag. reflexivity.
Qed.

Lemma opened_gen s off now : conn_gen (s <| ts_offset := off |> <| state := SynSent |> <| syn_xmit_ms := now |>) = conn_gen s.
Proof using. reflexivity. Qed.

Lemma syn_tail_gen s :
  conn_gen (fst (try (self, sent) := emit_syn s in
    if sent then (arm_rto (self <| snd_nxt := wadd32 (iss self) 1 |> <| syn_unacked := true |>), Ok tt) else (self, Ok tt))) = conn_gen s.
Proof using.
  apply tag_gen, then_tag; [apply emit_tag|]. intros s1 [|] E1; exact E1.
Qed.

Lemma connect_told s : ticked s (fst (connect s)).
Proof using.
  unfold connect. destruct (negb _); [right; reflexivity|]. left. cbv zeta. rewrite syn_tail_gen, opened_gen. apply next_gen.
Qed.

Lemma listening_gen s :
  conn_gen ((reset_connection_state (s <| remote := no_endpoint |> <| is_listener := true |>)) <| state := Listen |>) = wadd32 (conn_gen s) 1.
Proof using. reflexivity. Qed.

Lemma listen_told s : ticked s (fst (listen s)).
Proof using.
  assert (Hr : same_peer s s) by reflexivity. unfold listen. cbv zeta.
  destruct (state s); try (by right); (destruct (_ && _); [by right|left; cbn [fst]; rewrite listening_gen; apply next_gen]).
Qed.

Lemma send_tag s d : tag (fst (send s d)) = tag s.
Proof using.
  unfold send. destruct (negb _); [reflexivity|]. destruct (negb _); [reflexivity|]. destruct (Ring.write _ _ _) as [r n].
  cbv zeta. destruct (_ && _); reflexivity.
Qed.

Lemma reserve_tag s n : tag (fst (send_reserve s n)) = tag s.
Proof using.
  unfold send_reserve. destruct (_ || _); [reflexivity|]. destruct (Ring.free_regions _ _ _) as [a b]. cbv zeta.
  destruct (_ =? 0); reflexivity.
Qed.

Lemma commit_tag s n : tag (fst (send_commit s n)) = tag s.
Proof using.
  unfold send_commit. cbv zeta. destruct (_ || _); [reflexivity|]. destruct (Ring.commit _ _ _) as [r c]. reflexivity.
Qed.

Lemma recv_tag s d : tag (fst (fst (recv s d))) = tag s.
Proof using.
  unfold recv. destruct (error s); [reflexivity|]. destruct (Ring.read _ _ _) as [[r d'] n]. cbv zeta.
  set (s1 := s <| recv_ring := r |>). assert (E1 : tag s1 = tag s) by reflexivity. clearbody s1. rewrite <- E1. destruct (0 <? n); [|reflexivity].
  match goal with |- context [if ?b then ?x else s1] => set (s2 := if b then x else s1) end.
  assert (E2 : tag s2 = tag s1) by (unfold s2; destruct (_ && _); reflexivity). clearbody s2.
  pose proof (e_tag _ _ (maybe_send_window_update_mask s2)) as E3. destruct (maybe_send_window_update s2) as [s3 x].
  cbn [fst] in *. congruence.
Qed.

Lemma unopened_gen s : conn_gen ((reset_connection_state (s <| is_listener := false |>)) <| state := Closed |>) = wadd32 (conn_gen s) 1.
Proof using. reflexivity. Qed.

Lemma close_told s : ticked s (fst (close s)).
Proof using.
  assert (Hr : same_peer s s) by reflexivity. unfold close. cbv zeta.
  destruct (state s) eqn:E; try (right; exact Hr); try (left; cbn [fst]; rewrite unopened_gen; apply next_gen);
    (right; apply linked_same; [by rewrite E|by rewrite send_data_tag]).
Qed.

Lemma abort_told s : same_peer s (fst (abort s)).
Proof using.
  assert (Hr : same_peer s s) by reflexivity. unfold abort.
  destruct (state s) eqn:E; try exact Hr; try (by apply closed_same);
    (apply linked_same; [by rewrite E|]; apply then_tag; [apply ctl_tag|intros s1 _ H1; exact H1]).
Qed.

(** ** Events *)

(** The packet of an event, and whether its checksum is verified. *)
Definition arrives (e : event) (p : list Z) (v : bool) : Prop := e = Inject p /\ v = true \/ e = InjectTrusted p /\ v = false.

(** A SYN for this endpoint tells the active side who the peer is. *)
Definition introduced (h : Host) (e : event) (h' : Host) : Prop :=
  exists p v seg, arrives e p v /\ Wire.parse_opts en p v = Ok seg /\
    dst_ip seg = ip (local (tcb h)) /\ dst_port seg = port (local (tcb h)) /\ heard (tcb h) seg (tcb h').

Lemma inject_step_told h e p v : arrives e p v -> bytes p ->
  let s' := fst (try (self, seg) := (tcb h, Wire.parse_opts en p v) in inject_segment self seg) in
  ticked (tcb h) s' \/ forall l, introduced h e (mkHost s' l).
Proof using Cok.
  intros Ha Hp. cbv zeta. destruct (Wire.parse_opts en p v) as [seg|x] eqn:E; cbn [st_bind fst]; [|left; by right].
  pose proof (pa_wf _ (parse_opts_parsed _ _ _ _ Hp E)) as Hw.
  destruct (inject_segment_told (tcb h) seg Hw) as [H|(H1 & H2 & [H|[H|H]])]; [left; by right|left; by left|left; by right|].
  right. intros l. exists p, v, seg. by split_and!.
Qed.

Lemma step_told h e : event_wf e -> is_reinit e = false ->
  ticked (tcb h) (tcb (fst (step h e))) \/ introduced h e (fst (step h e)).
Proof using Cok.
  intros Hw Hn. assert (Hr : same_peer (tcb h) (tcb h)) by reflexivity.
  assert (Hf : forall s', tag s' = tag (tcb h) -> state s' = state (tcb h) -> ticked (tcb h) s') by (intros; right; by apply unmoved).
  destruct e; cbn [step tcb loan fst event_wf] in *; try (left; right; exact Hr); try (left; by apply Hf).
  - left. apply Hf; [apply views_tag, set_egress_paused_views|apply set_paused_state].
  - left. apply Hf; [apply views_tag|apply views_state]; apply set_secret_views.
  - left. apply Hf; [apply views_tag|apply views_state]; apply set_cookie_secret_views.
  - left. apply Hf; [apply set_mtu_tag|apply set_mtu_state].
  - left. apply Hf; [apply update_pmtu_tag|apply update_pmtu_state].
  - left. apply connect_told.
  - left. apply listen_told.
  - pose proof (send_tag (tcb h) data) as E. pose proof (send_state (tcb h) data) as F. destruct (send _ data). left. by apply Hf.
  - pose proof (reserve_tag (tcb h) max) as E. pose proof (reserve_state (tcb h) max) as F. destruct (send_reserve _ max). left. by apply Hf.
  - pose proof (commit_tag (tcb h) n) as E. pose proof (commit_state (tcb h) n) as F. destruct (send_commit _ n). left. by apply Hf.
  - pose proof (recv_tag (tcb h) dst) as E. pose proof (recv_state (tcb h) dst) as F. destruct (recv _ dst) as [[? ?] ?]. left. by apply Hf.
  - left. apply close_told.
  - left. right. apply abort_told.
  - unfold extract_packet. destruct (TxRing.pop_into _ _ _) as [[? ?] ?]. left. by apply Hf.
  - unfold extract_packet_with. destruct (TxRing.pop_with _ _ _) as [? ?]. left. by apply Hf.
  - destruct (inject_step_told h (Inject packet) packet true) as [H|H]; [by left|done|by left|right; apply H].
  - destruct (inject_step_told h (InjectTrusted packet) packet false) as [H|H]; [by right|done|by left|right; apply H].
  - left. apply tick_told.
Qed.

End Peer.
