(* ===== verification/TcbStream.v ===== *)
(** * The byte streams of a connection

    From the moment a connection is opened, actively or by a SYN to a
    listener, until the state is reset for another one, what the host reads is
    a prefix of what the peer sent and what leaves in packets is what the host
    wrote, at the sequence numbers where it belongs. *)
From S2P Require Import Prelude Error Seq State Effect Ring RingStore Sack Ooo TxRing Bytes Checksum Options Wire WireWf RtxQueue Rack RtxCover.
From S2P Require Import Congestion Tcb TcbAck TcbOutput Cookie TcbInput TcbTimers TcbApi TcbRx TcbFrame TcbTx TcbEmit TcbSend TcbInv TcbOpen TcbSys TcbRun Scenario TcbProps TcbMoves TcbPeer.
Import Tcb RtxCover.

(** Byte [i] of a stream. *)
Definition byte_at (l : list Z) (i b : Z) : Prop := get l i = Some b.

Section Streams.
Context `{C : Config} {Cok : ConfigOk C}.

(** ** Opening *)

Definition pure_syn (seg : Segment) : bool :=
  Wire.has seg flags.SYN && negb (Wire.has seg flags.ACK) && negb (Wire.has seg flags.RST) && negb (Wire.has seg flags.FIN).

(** A call that opened a connection: [connect], or a SYN for a listener. *)
Inductive opens (h0 : Host) : event -> Host -> Prop :=
  | by_connect h : step h0 Connect = (h, quiet) -> opens h0 Connect h
  | by_syn p seg h :
      bytes p -> Wire.parse en p = Ok seg -> pure_syn seg = true -> state (tcb h0) = Listen ->
      step h0 (Inject p) = (h, quiet) -> opens h0 (Inject p) h.

Lemma listen_syn_fresh s seg :
  storage s -> state s = Listen -> seg_wf seg -> pure_syn seg = true -> runs (dispatch s seg) (fun s' _ => fresh s').
Proof using Cok.
  intros Hs Hst Hw Hp. unfold pure_syn in Hp. bool_facts. unfold dispatch. set (s2 := set_field stats s _).
  assert (Hs2 : state s2 = Listen) by exact Hst. assert (Hsto : storage s2) by (destruct Hs; by split). clearbody s2. rewrite Hs2.
  unfold on_listen. repeat match goal with E : Wire.has seg _ = _ |- _ => rewrite E; clear E end. cbn [negb orb].
  eapply runs_mono; [by apply accept_fresh|]. intros s3 u [H _]. exact H.
Qed.

Lemma err_none {A} (r : Res A) : err r = None -> exists a, r = Ok a.
Proof using. destruct r; [eauto|done]. Qed.

Lemma opens_fresh h0 e h : reachable h0 -> opens h0 e h -> fresh (tcb h) /\ loan_ok h.
Proof using Cok.
  intros Hr Ho. pose proof (reachable_ok h0 Hr) as [(m & w & Hi) Hl]. destruct (inv_storage _ _ _ _ _ Hi) as [Hs Hip].
  destruct Ho as [h Ho|p seg h Hb Hp Hy Hst Ho].
  - pose proof (reachable_ok _ (reach_step h0 Connect Hr I)) as [_ Hl']. rewrite Ho in Hl'. split; [|done].
    unfold step in Ho. injection Ho as <- Hq. apply err_none in Hq as [u Hq]. cbn [tcb].
    destruct (connect_settles (tcb h0) Hs Hip) as [(s' & a & -> & Hf & _)|E]; [done|]. by rewrite E in Hq.
  - pose proof (reachable_ok _ (reach_step h0 (Inject p) Hr Hb)) as [_ Hl']. rewrite Ho in Hl'. split; [|done].
    unfold step in Ho. injection Ho as <- Hq. apply err_none in Hq as [u Hq]. cbn [tcb].
    unfold inject_packet in *. rewrite Hp in *. cbn [st_bind] in *. unfold inject_segment in *. rewrite Hst in *.
    case_if; [done|]. cbn [negb andb] in *. pose proof (pa_wf _ (parse_opts_parsed _ _ _ _ Hb Hp)) as Hw.
    by destruct (listen_syn_fresh (tcb h0) seg Hs Hst Hw Hy) as (s' & a & -> & Hf).
Qed.

(** ** Runs of one connection *)

(** While no event resets the connection its peer stays the same. *)
Lemma steady_peer h e : event_wf e -> is_reinit e = false -> conn_gen (tcb (fst (step h e))) = conn_gen (tcb h) ->
  remote (tcb (fst (step h e))) = remote (tcb h) /\ local (tcb (fst (step h e))) = local (tcb h).
Proof using Cok.
  intros Hw Hn Hg. destruct (step_told h e Hw Hn) as [[H|[H _]]|(p & v & seg & _ & _ & _ & _ & H)]; [done| |].
  - by apply tag_parts in H as (_ & -> & ->).
  - by destruct H as (_ & _ & _ & -> & ->).
Qed.

(** No event resets the connection state. *)
Fixpoint steady (h : Host) (es : list event) : Prop :=
  match es with
  | [] => True
  | e :: es =>
      is_reinit e = false /\ conn_gen (tcb (fst (step h e))) = conn_gen (tcb h) /\ steady (fst (step h e)) es
  end.

Definition all_delivered (os : list Output) : list Z := mjoin (delivered <$> os).
Definition all_accepted (os : list Output) : list Z := mjoin (accepted <$> os).
Definition all_sent (os : list Output) : list (list Z) := mjoin (sent <$> os).

Lemma get_shift (l k : list Z) (P : Z -> Z -> Prop) n :
  (forall i b, get (l ++ k) i = Some b -> P (n + i) b) ->
  (forall i b, get l i = Some b -> P (n + i) b) /\ (forall i b, get k i = Some b -> P (n + zlen l + i) b).
Proof using.
  intros H. split; intros i b Hg; apply get_lt_Some in Hg as Hi; pose proof (zlen_nonneg l).
  - apply H. rewrite get_app. replace (i <? zlen l) with true by lia. done.
  - replace (n + zlen l + i) with (n + (zlen l + i)) by lia. apply H. rewrite get_app.
    replace (zlen l + i <? zlen l) with false by lia. by replace (zlen l + i - zlen l) with i by lia.
Qed.

Lemma get_join (l k : list Z) (P : Z -> Z -> Prop) n :
  (forall i b, get l i = Some b -> P (n + i) b) -> (forall i b, get k i = Some b -> P (n + zlen l + i) b) ->
  forall i b, get (l ++ k) i = Some b -> P (n + i) b.
Proof using.
  intros Hl Hk i b Hg. rewrite get_app in Hg. case_if in Hg; [by apply Hl|].
  apply Hk in Hg. by replace (n + zlen l + (i - zlen l)) with (n + i) in Hg by lia.
Qed.

Section Along.
Variables (Qr Qs : Z -> Z -> Prop).

(** Every segment that arrives carries the stream [Qr] at its position; [m]
    bytes of it have been read. *)
Fixpoint true_wire (m : Z) (h : Host) (es : list event) : Prop :=
  match es with
  | [] => True
  | e :: es => event_true Qr m h e /\ true_wire (m + zlen (delivered (snd (step h e)))) (fst (step h e)) es
  end.

Lemma run_streams es : forall h m w,
  inv Qr m Qs w (tcb h) -> loan_ok h -> Forall event_wf es -> steady h es -> true_wire m h es ->
  let os := snd (run h es) in
  (forall i b, get (all_accepted os) i = Some b -> Qs (w + i) b) ->
  (forall i b, get (all_delivered os) i = Some b -> Qr (m + i) b) /\ Forall (carries Qs (iss (tcb h)) (remote (tcb h))) (all_sent os).
Proof using Cok.
  cbn zeta. induction es as [|e es IH]; intros h m w Hi Hl Hw Hst Ht HQ.
  { split; [intros i b Hg; by apply get_nil in Hg|constructor]. }
  apply Forall_cons in Hw as [He Hw]. destruct Hst as (Hn & Hg & Hst). destruct Ht as [Hte Ht]. cbn [run] in *.
  pose proof (steady_peer h e He Hn Hg) as [Er _].
  pose proof (step_ok Qr m Qs w h Hi Hl e He Hte) as Hs. destruct (step h e) as [h1 o]. cbn [fst snd] in *.
  specialize (IH h1 (m + zlen (delivered o)) (w + zlen (accepted o))). destruct (run h1 es) as [h2 os]. cbn [fst snd] in *.
  unfold all_accepted, all_delivered, all_sent in *. rewrite !fmap_cons in *. cbn [mjoin list_join] in *.
  apply get_shift in HQ as [HQ1 HQ2]. specialize (Hs HQ1).
  destruct (sp_inv _ _ _ _ _ _ _ _ Hs) as [[Hi1 [= _ Ei]]|[_ [?|?]]]; [|done|congruence].
  destruct (IH Hi1 (sp_loan _ _ _ _ _ _ _ _ Hs) Hw Hst Ht HQ2) as [H1 H2]. split.
  - apply get_join; [exact (sp_read _ _ _ _ _ _ _ _ Hs)|exact H1].
  - apply Forall_app. split; [exact (sp_sent _ _ _ _ _ _ _ _ Hs)|]. by rewrite <- Ei, <- Er.
Qed.

End Along.

(** ** The streams of one connection *)

Lemma prefix_get (l k : list Z) : (forall i b, get l i = Some b -> get k i = Some b) -> l `prefix_of` k.
Proof using.
  intros H. exists (drop (length l) k). apply list_eq. intros i. destruct (decide (i < length l)%nat) as [Hi|Hi].
  - rewrite lookup_app_l by done. apply lookup_lt_is_Some in Hi as [b Hb]. rewrite Hb.
    specialize (H (Z.of_nat i) b). rewrite !get_Some, Nat2Z.id in H. apply H. split; [lia|done].
  - rewrite lookup_app_r, lookup_drop by lia. f_equal. lia.
Qed.

(** C2 Stream integrity on receive: over the life of a connection, from the
    call that opened it on, whatever segments arrive (lost, duplicated,
    reordered, overlapping, split anywhere, with holes filled in any order) and
    whatever the host does meanwhile, the bytes [recv] hands out, put together,
    are a prefix of the peer's stream, provided each segment carries that stream
    at the position its sequence number names. *)
Theorem received_is_prefix h0 e h es str
    (Hr : reachable h0) (Ho : opens h0 e h) (Hw : Forall event_wf es) (Hst : steady h es) (Ht : true_wire (byte_at str) 0 h es) :
  all_delivered (snd (run h es)) `prefix_of` str.
Proof using Cok.
  destruct (opens_fresh h0 e h Hr Ho) as [Hf Hl]. apply prefix_get.
  exact (proj1 (run_streams (byte_at str) Any es h 0 0 (Hf _ _) Hl Hw Hst Ht ltac:(done))).
Qed.

Lemma any_wire es : forall m h, true_wire Any m h es.
Proof using. induction es as [|e es IH]; intros m h; [done|]. split; [apply any_true|apply IH]. Qed.

Lemma sent_carries h0 e h es :
  reachable h0 -> opens h0 e h -> Forall event_wf es -> steady h es ->
  Forall (carries (byte_at (all_accepted (snd (run h es)))) (iss (tcb h)) (remote (tcb h))) (all_sent (snd (run h es))).
Proof using Cok.
  intros Hr Ho Hw Hst. destruct (opens_fresh h0 e h Hr Ho) as [Hf Hl].
  exact (proj2 (run_streams Any (byte_at _) es h 0 0 (Hf _ _) Hl Hw Hst (any_wire es 0 h) ltac:(done))).
Qed.

(** C3 Stream integrity on send: over the life of a connection every packet
    handed to the network, first transmission or retransmission, whatever was
    split, merged, probed or marked lost in between, is a well-formed segment
    whose text is exactly the bytes the host wrote at the stream position its
    sequence number names; a SYN for the peer has the initial sequence number. *)
Theorem sent_is_written h0 e h es
    (Hr : reachable h0) (Ho : opens h0 e h) (Hw : Forall event_wf es) (Hst : steady h es) :
  Forall (carries (byte_at (all_accepted (snd (run h es)))) (iss (tcb h)) (remote (tcb h))) (all_sent (snd (run h es))).
Proof using Cok. by apply (sent_carries h0 e). Qed.

End Streams.

(** ** Two connections *)

Section Relay.
Context `{C : Config} {Cok : ConfigOk C} `{CA : Config}.
Variables (ps : list (list Z)) (peer_iss : Z) (here : Endpoint).

(** The network delivers only packets of [ps], any number of times and in any
    order. *)
Definition relays (e : event) : Prop :=
  match e with
  | Inject p | InjectTrusted p => p ∈ ps
  | _ => True
  end.

Variable (str : list Z).
Hypothesis Hstr : zlen str < M31.
Hypothesis Hiss : is_u32 peer_iss.
Hypothesis Hps : Forall (@carries CA (byte_at str) peer_iss here) ps.

(** Once the connection knows its peer it knows the peer's initial sequence
    number. *)
Definition agreed (s : t) : Prop := local s = here /\ (linked (state s) = true -> irs s = peer_iss).

Lemma has_syn seg fl : seg_flags seg = fl -> Wire.has seg flags.SYN = true -> Z.land fl flags.SYN <> 0.
Proof using. unfold Wire.has. intros -> ->%Z.eqb_eq. done. Qed.

(** A relayed SYN for this endpoint has the peer's initial sequence number. *)
Lemma relayed_syn p v seg :
  p ∈ ps -> Wire.parse_opts (@en C) p v = Ok seg -> Wire.has seg flags.SYN = true ->
  dst_ip seg = ip here -> dst_port seg = port here -> seg_seq seg = peer_iss.
Proof using Hiss Hps.
  intros Hin Hp Hs H1 H2. apply (proj1 (Forall_forall _ _) Hps) in Hin.
  destruct Hin as (sip & dip & sp & dp & sq & ak & fl & wnd & opts & text & id & ecnv & full & -> & Hsi & Hdi & (Hk & HL & HM) & _ & Hsyn).
  apply emitted_parses in Hp as (_ & Eq & Ef & Ed & Ep); try done; [|change MSS with 1460 in HM; lia].
  apply (has_syn _ _ Ef) in Hs. destruct Hsyn as [?|[->|[?|?]]]; try congruence. by rewrite Eq, be32_roundtrip.
Qed.

Lemma arrives_relayed e p v : arrives e p v -> relays e -> p ∈ ps.
Proof using. by intros [[-> _]|[-> _]]. Qed.

Lemma agreed_step h e :
  event_wf e -> relays e -> is_reinit e = false -> conn_gen (tcb (fst (@step C h e))) = conn_gen (tcb h) ->
  agreed (tcb h) -> agreed (tcb (fst (@step C h e))).
Proof using Cok Hiss Hps.
  intros Hw Hre Hn Hg [El Ha]. destruct (@step_told C Cok h e Hw Hn) as [[H|[H Hl]]|(p & v & seg & Hv & Hp & D1 & D2 & H)]; [done| |].
  - apply tag_parts in H as (E1 & E2 & _). split; [congruence|]. intros Hk. rewrite E1. auto.
  - destruct H as (_ & Hs & E1 & _ & E2). split; [congruence|]. intros _. rewrite E1. rewrite El in D1, D2.
    apply (relayed_syn p v); try done. by eapply arrives_relayed.
Qed.

Lemma listen_takes s seg u : state s = Listen -> snd (@inject_segment C s seg) = Ok u ->
  dst_ip seg = ip (local s) /\ dst_port seg = port (local s) /\ @inject_segment C s seg = @dispatch C s seg.
Proof using.
  intros Hst. unfold inject_segment. rewrite Hst. destruct (_ || _) eqn:Ef; [done|]. intros _.
  rewrite orb_false_iff, !negb_false_iff, bool_decide_eq_true, Z.eqb_eq in Ef. split; [apply Ef|split; [apply Ef|reflexivity]].
Qed.

Lemma opens_agreed h0 e h : @opens C h0 e h -> relays e -> local (tcb h) = here -> agreed (tcb h).
Proof using Hiss Hps.
  intros Ho Hre El. split; [exact El|]. destruct Ho as [h Ho|p seg h Hb Hp Hy Hst Ho]; unfold step in Ho; injection Ho as <- Hq;
    apply err_none in Hq as [u Hq]; cbn [tcb] in *.
  - intros Hl. exfalso. revert Hl. unfold connect in *. destruct (negb _); [done|]. cbv zeta. by rewrite (@syn_tail_state C _ (opened_state _ _ _)).
  - intros _. unfold inject_packet in *. rewrite Hp in *. cbn [st_bind] in *.
    destruct (listen_takes (tcb h0) seg u Hst Hq) as (D1 & D2 & E). rewrite E in *.
    unfold pure_syn in Hy. rewrite !andb_true_iff, !negb_true_iff in Hy. destruct Hy as (((F1 & F2) & F3) & F4).
    destruct (@listen_syn_names C (tcb h0) seg Hst F1 F2 F3 F4) as [E1 E2]. rewrite E2 in El. rewrite El in D1, D2. rewrite E1.
    by apply (relayed_syn p true).
Qed.

(** Where the next byte expected sits in the stream. *)
Lemma rcv_position m w s :
  @inv C (byte_at str) m Any w s -> 0 <= m <= zlen str -> can_recv (state s) = true \/ state s = SynRcvd ->
  let n := m + Ring.len (recv_ring s) in rcv_nxt s = wadd32 (irs s) (1 + n) /\ 0 <= n <= zlen str.
Proof using.
  intros [(n & Hr & _ & Ho) _] Hm Hs. cbn zeta. pose proof (rx_stores _ _ _ _ Hr) as Hst.
  rewrite <- (st_len _ _ _ _ _ _ Hst : n = m + Ring.len (recv_ring s)).
  pose proof (st_len _ _ _ _ _ _ Hst) as Hn. pose proof (Ring.wf_len _ _ (st_wf _ _ _ _ _ _ Hst)) as Hl. cbn in Hn, Hl. split.
  - destruct Hs as [Hs|Hs]; [exact (rx_base _ _ _ _ Hr Hs)|]. destruct Ho as (_ & -> & _ & Hx); [cbn; by rewrite Hs|]. by apply Hx.
  - destruct (decide (Ring.len (recv_ring s) = 0)); [lia|].
    destruct (proj2 (get_is_Some (RingSpec.readable (Ring.abs (@BUF C) (recv_ring s))) (Ring.len (recv_ring s) - 1))) as [b Hb].
    { rewrite Ring.readable_zlen by apply Hst. lia. }
    apply (st_read _ _ _ _ _ _ Hst) in Hb. apply get_lt_Some in Hb. lia.
Qed.

Lemma recv_linked st : can_recv st = true \/ st = SynRcvd -> linked st = true.
Proof using. intros [H| ->]; [by destruct st|done]. Qed.

Lemma relayed_truthful m w s p seg v :
  @inv C (byte_at str) m Any w s -> 0 <= m <= zlen str -> p ∈ ps -> agreed s ->
  Wire.parse_opts (@en C) p v = Ok seg -> truthful (byte_at str) m s seg.
Proof using Hstr Hps.
  intros Hi Hm Hin [_ Hirs] Hp Hst. apply (proj1 (Forall_forall _ _) Hps) in Hin.
  destruct Hin as (sip & dip & sp & dp & sq & ak & fl & wnd & opts & text & id & ecnv & full & -> & Hs & Hd & (Hk & HL & HM) & Htext & _).
  apply emitted_parses in Hp as (Ep & Eq & _); try done; [|change MSS with 1460 in HM; lia].
  intros i b Hg. rewrite Ep in Hg. destruct (rcv_position m w s Hi Hm Hst) as [En Hn]. specialize (Hirs (recv_linked _ Hst)).
  destruct Htext as [->|(pos & -> & HQ)]; [by apply get_nil in Hg|]. pose proof (HQ i b Hg) as HQi.
  rewrite be32_roundtrip in Eq by apply wadd32_range. pose proof (get_lt_Some _ _ _ Hg) as Hi0.
  assert (Hpos : 0 <= pos < zlen str).
  { destruct (proj2 (get_is_Some text 0)) as [b0 Hb0]; [lia|]. apply HQ, get_lt_Some in Hb0. lia. }
  unfold ahead. rewrite Eq, En, Hirs. set (n := m + Ring.len (recv_ring s)) in *.
  assert (as_i32 (wsub32 (wadd32 peer_iss (1 + pos)) (wadd32 peer_iss (1 + n))) = pos - n) as ->.
  { revert Hpos Hn Hstr. clear. intros. word_lia. }
  by replace (n + (pos - n) + i) with (pos + i) by lia.
Qed.

Lemma relayed_true es : forall h m w,
  @inv C (byte_at str) m Any w (tcb h) -> @loan_ok C h -> 0 <= m <= zlen str -> agreed (tcb h) ->
  Forall event_wf es -> @steady C h es -> Forall relays es -> @true_wire C (byte_at str) m h es.
Proof using Cok Hstr Hiss Hps.
  induction es as [|e es IH]; intros h m w Hi Hl Hm Ha Hw Hst Hrel; [done|].
  apply Forall_cons in Hw as [He Hw], Hrel as [Hre Hrel]. destruct Hst as (Hn & Hg & Hst).
  assert (Hte : @event_true C (byte_at str) m h e) by
    (destruct e; try exact I; intros seg Hp; exact (relayed_truthful m w (tcb h) _ seg _ Hi Hm Hre Ha Hp)).
  split; [exact Hte|]. pose proof (@step_ok C Cok (byte_at str) m Any w h Hi Hl e He Hte ltac:(done)) as Hs.
  destruct (sp_inv _ _ _ _ _ _ _ _ Hs) as [[Hi1 _]|[_ [?|?]]]; [|done|congruence].
  eapply IH; [exact Hi1|exact (sp_loan _ _ _ _ _ _ _ _ Hs)| |exact (agreed_step h e He Hre Hn Hg Ha)|exact Hw|exact Hst|exact Hrel].
  set (out := delivered (snd (@step C h e))) in *. pose proof (zlen_nonneg out). split; [lia|].
  destruct (decide (zlen out = 0)); [lia|]. destruct (proj2 (get_is_Some out (zlen out - 1))) as [b Hb]; [lia|].
  apply (sp_read _ _ _ _ _ _ _ _ Hs), get_lt_Some in Hb. lia.
Qed.

End Relay.

Lemma fresh_iss `{C : Config} s : fresh s -> is_u32 (iss s).
Proof. intros H. destruct (H Any Any) as [_ (k & Ht & _)]. apply (tx_u32 _ _ _ _ _ Ht). Qed.

(** C1 Two connections implement a byte stream: join two endpoints, each with
    its own buffer sizes and machine, by a network that may lose, duplicate,
    delay and reorder packets; then what one host reads is a prefix of what the
    other wrote, the handshake included: whichever side opened first, and
    whether or not both did at once.  The stream is shorter than half the
    sequence space. *)
Theorem delivered_is_written `{CA : Config} {okA : ConfigOk CA} `{CB : Config} {okB : ConfigOk CB} a0 ea a eas b0 eb b ebs
    (HrA : @reachable CA a0) (HoA : @opens CA a0 ea a) (HwA : Forall event_wf eas) (HsA : @steady CA a eas)
    (HrB : @reachable CB b0) (HoB : @opens CB b0 eb b) (HwB : Forall event_wf ebs) (HsB : @steady CB b ebs)
    (Hlen : zlen (all_accepted (snd (@run CA a eas))) < M31)
    (Hmeet : remote (tcb a) = local (tcb b))
    (Hrel : Forall (relays (all_sent (snd (@run CA a eas)))) (eb :: ebs)) :
  all_delivered (snd (@run CB b ebs)) `prefix_of` all_accepted (snd (@run CA a eas)).
Proof.
  pose proof (@sent_carries CA okA a0 ea a eas HrA HoA HwA HsA) as Hc. destruct (@opens_fresh CB okB b0 eb b HrB HoB) as [Hf Hl].
  pose proof (fresh_iss _ (proj1 (@opens_fresh CA okA a0 ea a HrA HoA))) as Hu. rewrite Hmeet in Hc.
  set (str := all_accepted _) in *. apply prefix_get. apply Forall_cons in Hrel as [Hre Hrel].
  pose proof (@opens_agreed CB CA _ _ _ str Hu Hc b0 eb b HoB Hre eq_refl) as Ha.
  assert (Hm : 0 <= 0 <= zlen str) by (pose proof (zlen_nonneg str); lia).
  pose proof (@relayed_true CB okB CA _ _ _ str Hlen Hu Hc ebs b 0 0 (Hf _ _) Hl Hm Ha HwB HsB Hrel) as Ht.
  exact (proj1 (@run_streams CB okB (byte_at str) Any ebs b 0 0 (Hf _ _) Hl HwB HsB Ht ltac:(done))).
Qed.

(** ** Instances *)

Import Scenario.

Lemma a_opens : @opens demo a0 Connect a1.
Proof. apply by_connect. vm_compute. reflexivity. Qed.

Lemma b_opens : @opens demo b0 (Inject syn) b1.
Proof.
  assert (Hp : exists seg, Wire.parse (@en demo) syn = Ok seg /\ pure_syn seg = true) by (eexists; split; vm_compute; reflexivity).
  destruct Hp as (seg & Hp & Hs). apply (by_syn _ syn seg); [exact syn_wf|exact Hp|exact Hs|vm_compute; reflexivity..].
Qed.

Ltac steady_closed := cbn [steady]; repeat (split; [vm_compute; reflexivity|]); exact I.

Lemma a_steady : @steady demo a1 a_events.
Proof. unfold a_events, a_opening. cbn [app]. steady_closed. Qed.

Lemma b_steady : @steady demo b1 b_events.
Proof. unfold b_events. steady_closed. Qed.

Lemma a_meets_b : remote (tcb a1) = local (tcb b1) /\ is_u32 (iss (tcb a1)).
Proof. split; [vm_compute; reflexivity|]. unfold is_u32. decide_closed. Qed.

Lemma b_relayed : Forall (relays (all_sent (snd (@run demo a1 a_events)))) (Inject syn :: b_events).
Proof. unfold b_events. repeat (apply Forall_cons; split; [first [exact I|unfold relays; decide_closed]|]). constructor. Qed.

Lemma b_hears_a : @true_wire demo (byte_at [104; 105]) 0 b1 b_events.
Proof.
  assert (Hz : 0 <= 0 <= zlen [104; 105]) by done. pose proof b_relayed as Hrel. destruct a_meets_b as [Hmeet Hu].
  pose proof (@sent_carries demo demo_ok a0 Connect a1 a_events start_a_reachable a_opens a_events_wf a_steady) as Hc.
  assert (E : all_accepted (snd (@run demo a1 a_events)) = [104; 105]) by (vm_compute; reflexivity). rewrite E, Hmeet in Hc. clear E.
  destruct (@opens_fresh demo demo_ok b0 _ b1 start_b_reachable b_opens) as [Hf Hl]. apply Forall_cons in Hrel as [Hre Hrel].
  pose proof (@opens_agreed demo demo _ _ _ _ Hu Hc b0 _ b1 b_opens Hre eq_refl) as Ha.
  exact (@relayed_true demo demo_ok demo _ _ _ [104; 105] eq_refl Hu Hc b_events b1 0 0 (Hf _ _) Hl Hz Ha b_events_wf b_steady Hrel).
Qed.

Lemma received_is_prefix_witness : all_delivered (snd (@run demo b1 b_events)) `prefix_of` [104; 105].
Proof.
  exact (@received_is_prefix demo demo_ok b0 (Inject syn) b1 b_events [104; 105] start_b_reachable b_opens b_events_wf b_steady b_hears_a).
Defined.

Lemma sent_is_written_witness :
  length (all_sent (snd (@run demo a1 a_events))) = 3%nat /\
  Forall (@carries demo (byte_at (all_accepted (snd (@run demo a1 a_events)))) (iss (tcb a1)) (remote (tcb a1))) (all_sent (snd (@run demo a1 a_events))).
Proof.
  split; [vm_compute; reflexivity|].
  exact (@sent_is_written demo demo_ok a0 Connect a1 a_events start_a_reachable a_opens a_events_wf a_steady).
Defined.

Lemma delivered_is_written_witness :
  all_delivered (snd (@run demo b1 b_events)) = [104; 105] /\
  all_delivered (snd (@run demo b1 b_events)) `prefix_of` all_accepted (snd (@run demo a1 a_events)).
Proof.
  split; [vm_compute; reflexivity|].
  refine (@delivered_is_written demo demo_ok demo demo_ok a0 Connect a1 a_events b0 (Inject syn) b1 b_events start_a_reachable a_opens
    a_events_wf a_steady start_b_reachable b_opens b_events_wf b_steady _ (proj1 a_meets_b) b_relayed).
  vm_compute. reflexivity.
Defined.
