(* ===== verification/TcbLive.v ===== *)
(** * Outstanding data always has a timer

    The retransmission timer is armed whenever anything is outstanding, and
    its interval stays within the bounds of src/tcb/mod.rs; both hold of every
    reachable state.  One lemma per method; TcbProgress.v draws the
    conclusions. *)
From S2P Require Import Prelude Error Seq State Effect Ring RingStore Sack Ooo TxRing Bytes Checksum Options Wire WireWf RtxQueue Rack RtxCover.
From S2P Require Import Congestion Tcb TcbAck TcbOutput Cookie TcbInput TcbTimers TcbApi TcbRx TcbFrame TcbTx TcbEmit TcbSend TcbInv TcbOpen TcbSys TcbRun Scenario TcbProps.
Import Tcb RtxCover.

(** What the property is about: the clock, the timer's interval and its
    initial value, the probe backoff, the send window's edges and the timer. *)
Record LiveView := mkLiveView { l_now : Z; l_rto : Z; l_init : Z; l_probe : Z; l_una : Z; l_nxt : Z; l_timer : Deadline.t }.

Definition live_view (s : t) : LiveView :=
  mkLiveView (now_ms s) (rto_ms s) (init_rto_ms s) (persist_backoff_ms s) (snd_una s) (snd_nxt s) (rto_deadline s).

Definition interval (x : Z) : Prop := RTO_MIN_MS <= x <= RTO_MAX_MS.
Definition clocked (v : LiveView) : Prop :=
  is_u64 (l_now v) /\ interval (l_rto v) /\ interval (l_init v) /\ 0 <= l_probe v <= RTO_MAX_MS.

Record live (v : LiveView) : Prop := mk_live {
  lv_clock : clocked v;
  lv_timer : l_una v <> l_nxt v -> Deadline.is_armed (l_timer v) = true;
}.

Abbreviation alive s := (live (live_view s)).
Abbreviation calm s s' := (live_view s' = live_view s).

Section Live.
Context `{C : Config} {Cok : ConfigOk C}.

Lemma at_armed now x : is_u64 now -> 0 <= x -> Deadline.is_armed (Deadline.at_ (sat_add64 now x)) = true.
Proof using. unfold Deadline.is_armed, Deadline.at_, sat_add64, is_u64. intros. lia. Qed.

Lemma calm_alive s s' : calm s s' -> alive s -> alive s'.
Proof using. by intros ->. Qed.

Lemma arm_rto_alive s : clocked (live_view s) -> alive (arm_rto s).
Proof using.
  intros Hc. split; [exact Hc|]. intros _. destruct Hc as (Hn & Hr & _). apply at_armed; [exact Hn|].
  unfold interval in Hr. change RTO_MIN_MS with 200 in Hr. cbn in Hr |- *. lia.
Qed.

(** With nothing outstanding the timer may be off. *)
Lemma idle_alive s : clocked (live_view s) -> snd_una s = snd_nxt s -> alive s.
Proof using. intros Hc He. split; [exact Hc|]. by intros Hne. Qed.

Lemma e_calm s s' : e_mask s' = e_mask s -> calm s s'.
Proof using. intros E. exact (f_equal live_view E). Qed.

(** ** Sending *)

Lemma maybe_arm_tlp_calm s : calm s (maybe_arm_tlp s).
Proof using. unfold maybe_arm_tlp. case_if; reflexivity. Qed.

Lemma armed_alive s : clocked (live_view s) -> alive (if negb (Deadline.is_armed (rto_deadline s)) then arm_rto s else s).
Proof using. intros Hc. case_if; [by apply arm_rto_alive|]. bool_facts. by split. Qed.

Lemma new_sent_alive s seq len fin : clocked (live_view s) -> alive (new_sent s seq len fin).
Proof using.
  intros Hc. unfold new_sent. rewrite maybe_arm_tlp_calm. apply armed_alive. destruct fin; case_if; exact Hc.
Qed.

Lemma emit_new_alive s len fin : alive s -> alive (fst (emit_new s len fin)).
Proof using.
  intros Ha. unfold emit_new. case_if; [exact Ha|].
  match goal with |- context [emit_data_segment ?a ?b ?c ?d ?e] => pose proof (emit_data_segment_mask a b c d e) as E end.
  apply e_calm in E. destruct (emit_data_segment _ _ _ _ _) as [s1 [[|]|]]; cbn [st_bind fst negb] in *;
    try exact (calm_alive _ _ E Ha). pose proof (calm_alive _ _ E Ha) as Ha1.
  destruct (Rtx.push _ _ _) as [q' [|]]; cbn [fst negb]; [apply new_sent_alive; exact (lv_clock _ Ha1)|exact Ha1].
Qed.

Lemma retrans_sent_alive s i plen sg fin : clocked (live_view s) -> alive (retrans_sent s i plen sg fin).
Proof using. intros Hc. unfold retrans_sent. apply armed_alive. case_if; exact Hc. Qed.

Lemma retrans_prepare_calm s i sg m : calm s (fst (retrans_prepare s i sg m)).
Proof using.
  unfold retrans_prepare. case_if; case_if; try reflexivity; destruct (Rtx.split _ _ _ _) as [q [|]]; reflexivity.
Qed.

Lemma retransmit_alive s i : alive s -> alive (fst (retransmit s i)).
Proof using.
  intros Ha. unfold retransmit. destruct (Rtx.get_seg _ _ _) as [sg0|]; [|exact Ha].
  match goal with |- context [retrans_prepare ?a ?b ?c ?d] => pose proof (retrans_prepare_calm a b c d) as E end.
  destruct (retrans_prepare _ _ _ _) as [s1 sg]. cbn [fst] in E. pose proof (calm_alive _ _ E Ha) as Ha1. case_if; [exact Ha1|].
  match goal with |- context [emit_data_segment ?a ?b ?c ?d ?e] => pose proof (emit_data_segment_mask a b c d e) as E1 end.
  apply e_calm in E1. destruct (emit_data_segment _ _ _ _ _) as [s2 [[|]|]]; cbn [st_bind fst negb] in *;
    try exact (calm_alive _ _ E1 Ha1). apply retrans_sent_alive. exact (lv_clock _ (calm_alive _ _ E1 Ha1)).
Qed.

Lemma send_new_alive s : alive s -> alive (fst (send_new s)).
Proof using.
  intros Ha. unfold send_new. case_if; [case_if; [by apply emit_new_alive|exact Ha]|]. case_if; [exact Ha|].
  case_if; [exact Ha|]. destruct (new_len _ _ _) as [[n p]|]; [|exact Ha].
  set (s1 := if _ && _ then _ else s). assert (E : calm s s1) by (unfold s1; case_if; reflexivity).
  clearbody s1. match goal with |- context [emit_new ?a ?b ?c] => pose proof (emit_new_alive a b c (calm_alive _ _ E Ha)) as H1 end.
  destruct (emit_new _ _ _) as [s2 [[|]|]]; cbn [st_bind fst] in *; try exact H1. destruct p as [[? ?]|]; exact H1.
Qed.

Lemma send_one_alive s : alive s -> alive (fst (send_one s)).
Proof using.
  intros Ha. unfold send_one. destruct (Rtx.next_lost _ _) as [q [i|]].
  - case_if; [exact Ha|]. by apply retransmit_alive.
  - by apply send_new_alive.
Qed.

Lemma send_loop_alive n : forall s, alive s -> alive (fst (send_loop n s)).
Proof using.
  induction n as [|n IH]; intros s Ha; cbn [send_loop]; case_if; try exact Ha.
  pose proof (send_one_alive s Ha) as H. destruct (send_one s) as [s1 [[|]|]]; cbn [st_bind fst] in *; try exact H. by apply IH.
Qed.

Lemma probe_alive s x : 0 <= x <= RTO_MAX_MS -> alive s -> alive (s <| persist_backoff_ms := x |>).
Proof using. intros Hx [(H1 & H2 & H3 & _) Ht]. split; [|exact Ht]. split; [exact H1|]. split; [exact H2|]. split; [exact H3|exact Hx]. Qed.

Lemma rto_probe s : clocked (live_view s) -> 0 <= rto_ms s <= RTO_MAX_MS.
Proof using. intros (_ & H & _). unfold interval in H. cbn in H. change RTO_MIN_MS with 200 in H. lia. Qed.

Lemma update_persist_alive s : alive s -> alive (update_persist s).
Proof using.
  intros Ha. unfold update_persist. case_if; [exact Ha|]. case_if; [|exact Ha].
  set (s1 := if persist_backoff_ms s =? 0 then _ else s).
  assert (H1 : alive s1) by (unfold s1; case_if; [apply probe_alive; [apply rto_probe, Ha|exact Ha]|exact Ha]).
  clearbody s1. exact H1.
Qed.

Lemma maybe_send_data_alive s : alive s -> alive (fst (maybe_send_data s)).
Proof using.
  intros Ha. unfold maybe_send_data. case_if; [exact Ha|]. pose proof (send_loop_alive (Z.to_nat (TXQ + 2)) s Ha) as H.
  destruct (send_loop _ s) as [s1 [|]]; cbn [st_bind fst] in *; [|exact H]. by apply update_persist_alive.
Qed.

(** ** Acknowledgments *)

Lemma update_rtt_clock s r : clocked (live_view s) -> clocked (live_view (update_rtt s r)).
Proof using.
  intros (H1 & H2 & H3 & H4). unfold update_rtt. split_and!; [case_if; exact H1| |case_if; exact H3|case_if; apply H4|case_if; apply H4].
  case_if; cbn; unfold interval, clamp; change RTO_MIN_MS with 200; change RTO_MAX_MS with 60000; lia.
Qed.

Lemma update_rtt_alive s r : alive s -> alive (update_rtt s r).
Proof using.
  intros [Hc Ht]. split; [by apply update_rtt_clock|]. unfold update_rtt. case_if; exact Ht.
Qed.

Lemma sack_fold_calm now bs : forall s d, calm s (fst (foldl (sack_one now) (s, d) bs)).
Proof using.
  induction bs as [|[l r] bs IH]; intros s d; cbn [foldl]; [reflexivity|].
  assert (E : calm s (fst (sack_one now (s, d) (l, r)))).
  { unfold sack_one. destruct (Rtx.sack _ _ _ _) as [[q n] calls]. reflexivity. }
  destruct (sack_one now (s, d) (l, r)) as [s1 d1]. cbn [fst] in E. by rewrite IH.
Qed.

Lemma ack_sack_calm s seg mss : calm s (fst (ack_sack s seg mss)).
Proof using.
  unfold ack_sack. case_if; [reflexivity|]. destruct (SackBlocks.as_slice _) as [|[l0 r0] bs]; [reflexivity|].
  set (isd := seq_le r0 _ || _). clearbody isd. set (p1 := if isd then dsack_valid s l0 r0 mss else (s, false)).
  assert (E1 : calm s (fst p1)) by (unfold p1, dsack_valid; destruct isd; [repeat case_if|]; reflexivity).
  destruct p1 as [s1 valid]. cbn [fst] in E1. set (p2 := if valid then _ else _).
  assert (E2 : calm s1 (fst p2)).
  { unfold p2, believe_dsack. destruct valid; [|reflexivity]. destruct (Reno.on_dsack _ _ _ _) as [cc' [|]]; reflexivity. }
  destruct p2 as [s2 ds]. cbn [fst] in E2. pose proof (sack_fold_calm (now_ms s2) (drop (if isd then 1 else 0) ((l0, r0) :: bs)) s2 0) as E3.
  destruct (foldl _ _ _) as [s3 d]. cbn [fst] in *. congruence.
Qed.

Lemma rack_detect_calm s : calm s (fst (rack_detect s)).
Proof using. unfold rack_detect. destruct (Rack.detect_loss _ _ _ _ _) as [q [mk to]]. reflexivity. Qed.

Lemma enter_fast_recovery_calm s fl : calm s (enter_fast_recovery s fl).
Proof using. unfold enter_fast_recovery. case_if; reflexivity. Qed.

Lemma ack_loss_calm s seg acked wnd mss pf sp d : calm s (fst (ack_loss s seg acked wnd mss pf sp d)).
Proof using.
  unfold ack_loss. set (p1 := if sack_enabled s then _ else _).
  assert (E1 : calm s (fst p1)) by (unfold p1; case_if; [apply rack_detect_calm|reflexivity]).
  destruct p1 as [s1 l1]. cbn [fst] in E1. set (p2 := if negb sp then _ else _).
  assert (E2 : calm s1 (fst p2)).
  { unfold p2. case_if; [|reflexivity]. assert (E : calm s1 (fst (newreno_detect s1 seg acked wnd))).
    { unfold newreno_detect. repeat case_if; reflexivity. }
    destruct (newreno_detect _ _ _ _) as [s2 [lost dup]]. cbn [fst] in E. case_if; exact E. }
  destruct p2 as [s2 [l2 d2]]. cbn [fst] in *. rewrite <- E1, <- E2. case_if; [rewrite enter_fast_recovery_calm|]; reflexivity.
Qed.

Lemma ack_congestion_calm s d mss a nl : calm s (ack_congestion s d mss a nl).
Proof using.
  unfold ack_congestion, take_cwnd_limited. destruct (Reno.maybe_exit _ _) as [cc' ex].
  set (s1 := if ex then _ else _). assert (E1 : calm s s1) by (unfold s1; destruct ex; reflexivity). clearbody s1.
  set (s2 := if seq_ge _ _ then _ else s1). assert (E2 : calm s1 s2) by (unfold s2; case_if; reflexivity). clearbody s2.
  case_if; (transitivity (live_view s2); [reflexivity|congruence]).
Qed.

Lemma ack_tail_calm s seg u pf mss acked ds sp d :
  let s1 := ack_ecn (update_send_window (pmtu_probe_on_ack s) seg u) seg pf mss in
  let '(s2, (lost, d2)) := ack_loss s1 seg acked (snd_wnd (pmtu_probe_on_ack s)) mss pf sp d in
  calm s (ack_congestion (tlp_on_ack s2 (seg_ack seg) ds sp d2) d2 mss acked lost).
Proof using.
  intros s1. assert (E1 : calm s s1).
  { unfold s1, ack_ecn, update_send_window. transitivity (live_view (pmtu_probe_on_ack s)); [repeat case_if; reflexivity|].
    unfold pmtu_probe_on_ack. repeat case_if; reflexivity. }
  set (w := snd_wnd _). clearbody s1 w. pose proof (ack_loss_calm s1 seg acked w mss pf sp d) as L.
  destruct (ack_loss _ _ _ _ _ _ _ _) as [s2 [lost d2]]. cbn [fst] in L. rewrite ack_congestion_calm, <- E1, <- L.
  unfold tlp_on_ack. destruct (tlp_end_seq s2); [|reflexivity]. repeat case_if; reflexivity.
Qed.

Lemma note_progress_clock s a : clocked (live_view s) -> clocked (live_view (note_progress s a)).
Proof using.
  intros (H1 & H2 & H3 & _). assert (Hp : 0 <= 0 <= RTO_MAX_MS) by done.
  unfold note_progress. repeat case_if; (split; [exact H1|]; split; [exact H2|]; split; [exact H3|exact Hp]).
Qed.

Lemma ack_cumulative_clock s ack acked mss ts d :
  clocked (live_view s) -> clocked (live_view (fst (ack_cumulative s ack acked mss ts d))).
Proof using.
  intros Hc. unfold ack_cumulative. set (fa := fin_sent s && _ && _). clearbody fa.
  destruct (Rtx.ack_to _ _ _) as [[q rm] calls]. destruct (foldl _ _ calls) as [[[rk old] new] re].
  match goal with |- context [update_rtt ?x] => set (s1 := x) end. assert (H1 : clocked (live_view s1)) by exact Hc. clearbody s1.
  set (s2 := match rtt_sample _ _ _ _ _ with Some r => _ | None => s1 end).
  assert (H2 : clocked (live_view s2)) by (unfold s2; repeat case_match; try exact H1; by apply update_rtt_clock).
  clearbody s2. cbn [fst]. by apply note_progress_clock.
Qed.

Lemma ack_timers_alive s acked : clocked (live_view s) -> (acked <= 0 -> alive s) -> alive (ack_timers s acked).
Proof using.
  intros Hc Ha. unfold ack_timers. rewrite maybe_arm_tlp_calm. destruct (Z.eqb_spec (snd_una s) (snd_nxt s)) as [E|E].
  - by apply idle_alive.
  - case_if; [by apply arm_rto_alive|]. bool_facts. apply Ha. lia.
Qed.

Lemma released_alive s : clocked (live_view s) -> alive (close_clean s) /\ alive (abort_local s).
Proof using. intros Hc. split; by apply idle_alive. Qed.

Lemma ack_fin_alive s : alive s -> alive (ack_fin s).
Proof using.
  intros Ha. unfold ack_fin. case_if; [|exact Ha]. destruct (state s); try exact Ha; [case_if; exact Ha|].
  exact (proj1 (released_alive s (lv_clock _ Ha))).
Qed.

Lemma process_ack_alive s seg : alive s -> alive (process_ack s seg).
Proof using.
  intros Ha. unfold process_ack. set (s0 := s <| rtx_count := 0 |>). assert (Ha0 : alive s0) by exact Ha. clearbody s0. clear Ha.
  case_if; [exact Ha0|]. set (mss := mss_payload s0). set (pf := wsub32 (snd_nxt s0) _). set (u := snd_una s0).
  set (ts := match ts_enabled s0 with true => _ | false => _ end). clearbody mss pf ts u.
  set (s1 := set_field rack s0 _). assert (Ha1 : alive s1) by exact Ha0. clearbody s1.
  pose proof (ack_sack_calm s1 seg mss) as E2. destruct (ack_sack s1 seg mss) as [s2 [[ds sp] dl]]. cbn [fst] in E2.
  pose proof (calm_alive _ _ E2 Ha1) as Ha2. set (acked := wsub32 (seg_ack seg) u). clearbody acked.
  set (p := if 0 <? acked then _ else _).
  assert (H3 : clocked (live_view (fst p)) /\ (acked <= 0 -> alive (fst p))).
  { unfold p. case_if; bool_facts; [split; [apply ack_cumulative_clock, Ha2|lia]|split; [apply Ha2|done]]. }
  destruct p as [s3 d3]. cbn [fst] in H3. pose proof (ack_tail_calm s3 seg u pf mss acked ds sp d3) as E4. cbn zeta in E4.
  destruct (ack_loss _ _ _ _ _ _ _ _) as [s4 [lost d4]]. set (s5 := ack_congestion _ _ _ _ _) in *. clearbody s5.
  destruct H3 as [H3 H4]. apply ack_fin_alive, ack_timers_alive; [rewrite E4; exact H3|]. intros Hz. rewrite E4. exact (H4 Hz).
Qed.

(** ** Segments *)

Lemma update_ts_recent_calm s seg : calm s (update_ts_recent s seg).
Proof using. unfold update_ts_recent. repeat case_match; reflexivity. Qed.

Lemma on_peer_alive_calm s : calm s (on_peer_alive s).
Proof using. unfold on_peer_alive. case_if; reflexivity. Qed.

Lemma ecn_echo_calm s seg l : calm s (ecn_echo s seg l).
Proof using. unfold ecn_echo. repeat case_if; reflexivity. Qed.

Lemma consume_fin_calm s : calm s (consume_fin s).
Proof using. unfold consume_fin, advance_state_on_remote_fin. cbn. destruct (state s); try reflexivity. case_if; reflexivity. Qed.

Lemma receive_text_calm s seg l fin : calm s (fst (receive_text s seg l fin)).
Proof using.
  destruct (receive_text_mask s seg l fin) as [E|(s1 & E & _ & ->)]; [exact (f_equal live_view E)|].
  rewrite consume_fin_calm. exact (f_equal live_view E).
Qed.

Lemma pure_ack_alive s : alive s -> alive (fst (send_pure_ack s)).
Proof using. exact (calm_alive _ _ (e_calm _ _ (send_pure_ack_mask s))). Qed.

Lemma oow_ack_alive s : alive s -> alive (fst (send_oow_ack s)).
Proof using. exact (calm_alive _ _ (e_calm _ _ (send_oow_ack_mask s))). Qed.

Lemma then_alive {A B} (r : t * Res A) (k : t -> A -> t * Res B) :
  alive (fst r) -> (forall s a, alive s -> alive (fst (k s a))) -> alive (fst (st_bind r k)).
Proof using. destruct r as [s [a|e]]; cbn; auto. Qed.

Lemma on_unacceptable_alive s seg l fin : alive s -> alive (fst (on_unacceptable s seg l fin)).
Proof using.
  intros Ha. unfold on_unacceptable. case_if; [exact Ha|]. case_if; [by apply oow_ack_alive|].
  set (live := seq_ge _ _ && _ && _). clearbody live. set (s1 := if live then _ else s).
  assert (Ha1 : alive s1).
  { unfold s1. destruct live; [|exact Ha]. apply process_ack_alive. by rewrite on_peer_alive_calm, update_ts_recent_calm. }
  clearbody s1. case_if; [exact Ha1|]. case_if.
  { apply pure_ack_alive. exact Ha1. }
  apply then_alive; [|intros s2 _ Ha2; destruct live; [by apply maybe_send_data_alive|exact Ha2]].
  case_if; [|case_if; [by apply pure_ack_alive|by apply oow_ack_alive]]. apply pure_ack_alive.
  unfold note_dsack. repeat case_if; exact Ha1.
Qed.

Lemma delayed_ack_alive s n : alive s -> alive (schedule_delayed_ack s n).
Proof using. exact (calm_alive _ _ (e_calm _ _ (schedule_delayed_ack_mask s n))). Qed.

Lemma on_reset_received_alive s : alive s -> alive (on_reset_received s).
Proof using.
  intros [Hc _]. destruct (released_alive s Hc) as [H1 H2]. unfold on_reset_received. destruct (state s); (exact H1 || exact H2).
Qed.

Lemma on_synchronized_alive s seg : alive s -> alive (fst (on_synchronized s seg)).
Proof using.
  intros Ha. unfold on_synchronized. case_if; [exact Ha|]. case_if; [by apply on_unacceptable_alive|].
  case_if; [case_if; [by apply pure_ack_alive|by apply oow_ack_alive]|].
  case_if; [case_if; [by apply on_reset_received_alive|by apply oow_ack_alive]|].
  case_if; [by apply oow_ack_alive|]. case_if; [exact Ha|]. case_if; [by apply oow_ack_alive|].
  set (s1 := process_ack _ seg).
  assert (Ha1 : alive s1) by (apply process_ack_alive; by rewrite on_peer_alive_calm, ecn_echo_calm, update_ts_recent_calm).
  clearbody s1. case_if; [exact Ha1|].
  case_if; [apply then_alive; [by apply pure_ack_alive|intros; by apply maybe_send_data_alive]|].
  pose proof (receive_text_calm s1 seg (as_u32 (zlen (payload seg))) (Wire.has seg flags.FIN)) as E.
  destruct (receive_text _ _ _ _) as [s2 now]. cbn [fst] in E. pose proof (calm_alive _ _ E Ha1) as Ha2.
  apply then_alive; [|intros; by apply maybe_send_data_alive].
  destruct now; [by apply pure_ack_alive|]. case_if; [by apply delayed_ack_alive|]. case_if; [by apply oow_ack_alive|exact Ha2].
Qed.

(** ** The handshake *)

Lemma absorb_syn_options_calm s seg : calm s (absorb_syn_options s seg).
Proof using.
  unfold absorb_syn_options. destruct (mss (options seg)), (wscale (options seg)), (ts (options seg)) as [[? ?]|]; reflexivity.
Qed.

Lemma on_established_calm s : calm s (on_established s).
Proof using.
  unfold on_established. rewrite on_peer_alive_calm. case_if; reflexivity.
Qed.

Lemma handshake_rtt_clock s seg : clocked (live_view s) -> clocked (live_view (handshake_rtt_sample s seg)).
Proof using. intros Hc. unfold handshake_rtt_sample. repeat case_match; try exact Hc. by apply update_rtt_clock. Qed.

Lemma reset_starts s : is_u64 (now_ms s) -> interval (init_rto_ms s) -> clocked (live_view (reset_connection_state s)).
Proof using.
  intros H1 H2. assert (Hp : 0 <= 0 <= RTO_MAX_MS) by done.
  split; [exact H1|]. split; [exact H2|]. split; [exact H2|exact Hp].
Qed.

Lemma reset_clock s : clocked (live_view s) -> clocked (live_view (reset_connection_state s)).
Proof using. intros (H1 & _ & H3 & _). exact (reset_starts s H1 H3). Qed.

Lemma reset_idle s : snd_una (reset_connection_state s) = snd_nxt (reset_connection_state s).
Proof using. reflexivity. Qed.

Lemma synack_then_alive s (f : t -> t) :
  alive s -> (forall s, clocked (live_view s) -> clocked (live_view (f s))) ->
  alive (fst (try s := emit_synack s in (arm_rto (f s), Ok tt))).
Proof using.
  intros Ha Hf. apply then_alive; [exact (calm_alive _ _ (e_calm _ _ (emit_segment_mask _ _ _ _ _ _ _)) Ha)|].
  intros s1 _ Ha1. apply arm_rto_alive, Hf, Ha1.
Qed.

Lemma absorb_alive s seg : alive s -> alive (absorb_syn_options s seg).
Proof using. by rewrite absorb_syn_options_calm. Qed.

Lemma half_open_tail_alive s b now :
  alive s -> alive (s <| ecn_enabled := b |> <| state := SynRcvd |> <| syn_rcvd_retries := 0 |> <| syn_xmit_ms := now |>).
Proof using. intros Ha. exact Ha. Qed.

Lemma half_open_head_alive s ep x off :
  clocked (live_view s) ->
  alive (s <| remote := ep |> <| iss := x |> <| snd_una := x |> <| snd_acked := 0 |> <| snd_nxt := x |> <| ts_offset := off |>).
Proof using. intros Hc. apply idle_alive; [exact Hc|reflexivity]. Qed.

Lemma half_open_assign_alive s seg : clocked (live_view s) -> alive (half_open_assign s seg).
Proof using.
  intros Hc. unfold half_open_assign. cbv zeta. apply half_open_tail_alive, absorb_alive. exact (half_open_head_alive s _ _ _ Hc).
Qed.

Lemma accept_tail_alive s :
  alive s -> alive (fst (try s := emit_synack s in (arm_rto (s <| snd_nxt := wadd32 (iss s) 1 |> <| syn_unacked := true |>), Ok tt))).
Proof using. intros Ha. by apply (synack_then_alive s (fun s => s <| snd_nxt := wadd32 (iss s) 1 |> <| syn_unacked := true |>)). Qed.

Lemma accept_syn_alive s seg : clocked (live_view s) -> alive (fst (accept_syn_stateful s seg)).
Proof using. intros Hc. exact (accept_tail_alive _ (half_open_assign_alive _ seg (reset_clock s Hc))). Qed.

Lemma cookie_assign_alive s seg opts : clocked (live_view s) -> alive (cookie_assign s seg opts).
Proof using.
  intros Hc. unfold cookie_assign. apply idle_alive; destruct (ck_wscale opts), (ts (options seg)) as [[? ?]|]; (exact Hc || reflexivity).
Qed.

Lemma promote_alive s seg opts : clocked (live_view s) -> alive (fst (promote_via_cookie s seg opts)).
Proof using.
  intros Hc. unfold promote_via_cookie, cookie_connection. apply reset_clock in Hc. set (s0 := reset_connection_state s) in *. clearbody s0.
  apply on_synchronized_alive. rewrite on_established_calm. by apply cookie_assign_alive.
Qed.

Lemma rst_alive s seg : alive s -> alive (fst (reset_stray_ack s seg)).
Proof using. exact (calm_alive _ _ (e_calm _ _ (reset_stray_ack_mask s seg))). Qed.

Lemma on_listen_alive s seg : alive s -> alive (fst (on_listen s seg)).
Proof using.
  intros Ha. unfold on_listen. case_if; [exact Ha|]. case_if.
  - case_if; [|by apply rst_alive]. case_if; [|exact Ha]. apply then_alive; [|intros; assumption].
    unfold try_promote_via_cookie. destruct (validate_cookie s seg); [|exact Ha].
    apply then_alive; [|intros; assumption]. apply promote_alive, Ha.
  - case_if; [exact Ha|]. apply accept_syn_alive, Ha.
Qed.

Lemma handshake_rtt_idle s seg : clocked (live_view s) -> snd_una s = snd_nxt s ->
  clocked (live_view (handshake_rtt_sample s seg)) /\ snd_una (handshake_rtt_sample s seg) = snd_nxt (handshake_rtt_sample s seg).
Proof using.
  intros Hc E. split; [by apply handshake_rtt_clock|].
  unfold handshake_rtt_sample, update_rtt. repeat case_match; exact E.
Qed.

(** The handshake is over and nothing is outstanding. *)
Lemma established_alive s seg :
  clocked (live_view s) -> snd_una s = snd_nxt s ->
  alive (on_established ((handshake_rtt_sample s seg) <| rto_deadline := Deadline.OFF |> <| state := Established |>)).
Proof using.
  intros Hc E. rewrite on_established_calm. destruct (handshake_rtt_idle s seg Hc E) as [H1 H2].
  set (s1 := handshake_rtt_sample s seg) in *. clearbody s1. apply idle_alive; [exact H1|exact H2].
Qed.

Lemma active_alive s seg : clocked (live_view s) -> seg_ack seg = snd_nxt s -> alive (active_established s seg).
Proof using.
  intros Hc Ea. unfold active_established. cbv zeta. apply established_alive.
  - change (clocked (live_view (absorb_syn_options s seg))). by rewrite absorb_syn_options_calm.
  - change (seg_ack seg = snd_nxt (absorb_syn_options s seg)). rewrite Ea. symmetry. exact (f_equal l_nxt (absorb_syn_options_calm s seg)).
Qed.

Lemma passive_head_alive s seg w1 m1 : clocked (live_view s) -> seg_ack seg = snd_nxt s ->
  let s1 := s <| snd_una := seg_ack seg |> <| snd_acked := wsub32 (seg_ack seg) (iss s) |> <| syn_unacked := false |>
    <| snd_wnd := w1 |> <| max_snd_wnd := m1 |> <| snd_wl1 := seg_seq seg |> <| snd_wl2 := seg_ack seg |> in
  let s2 := if 0 <? syn_rcvd_retries s1 then s1 <| syn_retransmitted := true |> else s1 in
  clocked (live_view s2) /\ snd_una s2 = snd_nxt s2.
Proof using. intros Hc Ea. cbv zeta. case_if; (split; [exact Hc|exact Ea]). Qed.

Lemma passive_tail_alive s seg : clocked (live_view s) -> snd_una s = snd_nxt s ->
  alive (on_established ((handshake_rtt_sample s seg) <| rto_deadline := Deadline.OFF |> <| rtx_count := 0 |>
    <| syn_rcvd_retries := 0 |> <| state := Established |>)).
Proof using.
  intros Hc E. rewrite on_established_calm. destruct (handshake_rtt_idle s seg Hc E) as [H1 H2].
  set (s1 := handshake_rtt_sample s seg) in *. clearbody s1. apply idle_alive; [exact H1|exact H2].
Qed.

Lemma passive_alive s seg : clocked (live_view s) -> seg_ack seg = snd_nxt s -> alive (passive_established s seg).
Proof using.
  intros Hc Ea. unfold passive_established. cbv zeta.
  destruct (passive_head_alive s seg (if Wire.has seg flags.SYN then window seg else scale_peer_window s (window seg))
    (Z.max (max_snd_wnd s) (if Wire.has seg flags.SYN then window seg else scale_peer_window s (window seg))) Hc Ea) as [H1 H2].
  exact (passive_tail_alive _ seg H1 H2).
Qed.

(** While opening, exactly our SYN is outstanding. *)
Definition syn_only (s : t) : Prop := opening (state s) = true -> snd_nxt s = wadd32 (iss s) 1.

Lemma sane_syn_only s : sane s -> syn_only s.
Proof using Cok.
  intros (m & w & _ & k & Ht & _) Ho. destruct (opening_tx _ _ k _ Ht Ho) as (_ & _ & Hn & _). exact Hn.
Qed.

Lemma abort_alive s : alive s -> alive (abort_local s).
Proof using. intros Ha. exact (proj2 (released_alive s (lv_clock _ Ha))). Qed.

Lemma crossed_alive s : alive s ->
  alive (s <| ecn_enabled := false |> <| state := SynRcvd |> <| syn_rcvd_retries := 0 |> <| syn_retransmitted := true |>).
Proof using. intros Ha. exact Ha. Qed.

Lemma synack_armed_alive s : alive s -> alive (fst (try self := emit_synack s in (arm_rto self, Ok tt))).
Proof using. intros Ha. exact (synack_then_alive s (fun s => s) Ha (fun _ H => H)). Qed.

Lemma simultaneous_open_alive s seg : alive s -> alive (fst (simultaneous_open s seg)).
Proof using. intros Ha. unfold simultaneous_open. cbv zeta. apply synack_armed_alive, crossed_alive, absorb_alive, Ha. Qed.

Lemma on_syn_sent_alive s seg :
  alive s -> is_u32 (iss s) -> is_u32 (seg_ack seg) -> syn_only s -> state s = SynSent -> alive (fst (on_syn_sent s seg)).
Proof using.
  intros Ha Hu1 Hu2 Hy Hs. unfold on_syn_sent. assert (Hn : snd_nxt s = wadd32 (iss s) 1) by (apply Hy; by rewrite Hs).
  destruct (Wire.has seg flags.ACK && seq_gt (seg_ack seg) (iss s) && seq_le (seg_ack seg) (snd_nxt s)) eqn:Ho.
  - rewrite andb_false_r. case_if; [by apply abort_alive|]. case_if; [exact Ha|]. apply pure_ack_alive, active_alive; [exact (lv_clock _ Ha)|].
    apply andb_true_iff in Ho as [[_ H1]%andb_true_iff H2]. rewrite Hn in *. revert H1 H2 Hu1 Hu2. clear. intros. word_lia.
  - rewrite andb_true_r. case_if; [case_if; [by apply rst_alive|exact Ha]|]. case_if; [exact Ha|]. case_if; [exact Ha|].
    by apply simultaneous_open_alive.
Qed.

Lemma vacant_alive s ep st : clocked (live_view s) -> snd_una s = snd_nxt s -> alive (s <| remote := ep |> <| state := st |>).
Proof using. intros Hc E. apply idle_alive; [exact Hc|exact E]. Qed.

Lemma reset_to_listen_alive s : clocked (live_view s) -> alive (reset_to_listen_or_closed s).
Proof using. intros Hc. exact (vacant_alive _ _ _ (reset_clock s Hc) (reset_idle s)). Qed.

Lemma complete_passive_alive s seg : alive s -> seg_ack seg = snd_nxt s -> alive (fst (complete_passive_open s seg)).
Proof using.
  intros Ha E. pose proof (passive_alive s seg (lv_clock _ Ha) E) as H. unfold complete_passive_open.
  set (s1 := passive_established s seg) in *. clearbody s1. cbv zeta. case_if; [by apply pure_ack_alive|by apply on_synchronized_alive].
Qed.

Lemma resend_synack_alive s : alive s ->
  alive (fst (let '(self, allowed) := oow_allowed s in
              if allowed then try self := emit_synack self in (self, Ok tt) else (self, Ok tt))).
Proof using.
  intros Ha. pose proof (calm_alive _ _ (e_calm _ _ (oow_allowed_mask s)) Ha) as H. destruct (oow_allowed s) as [s1 [|]]; [|exact H].
  apply then_alive; [exact (calm_alive _ _ (e_calm _ _ (emit_segment_mask _ _ _ _ _ _ _)) H)|intros; assumption].
Qed.

Lemma on_syn_rcvd_alive s seg : alive s -> syn_only s -> state s = SynRcvd -> alive (fst (on_syn_rcvd s seg)).
Proof using.
  intros Ha Hy Hs. assert (Hn : snd_nxt s = wadd32 (iss s) 1) by (apply Hy; by rewrite Hs). unfold on_syn_rcvd. case_if.
  - case_if; [exact Ha|]. case_if; [by apply oow_ack_alive|].
    case_if; [exact (reset_to_listen_alive s (lv_clock _ Ha))|by apply abort_alive].
  - case_if; [case_if; [case_if; [bool_facts; apply complete_passive_alive; [exact Ha|congruence]|by apply rst_alive]|]|].
    + case_if; [by apply resend_synack_alive|exact Ha].
    + case_if; [exact Ha|]. case_if; [by apply rst_alive|]. bool_facts. cbv zeta. case_if; [by apply oow_ack_alive|].
      apply complete_passive_alive; [exact Ha|congruence].
Qed.

(** ** Inbound segments *)

Lemma emit_cookie_synack_calm s seg : calm s (fst (emit_cookie_synack s seg)).
Proof using.
  unfold emit_cookie_synack. case_if; [reflexivity|]. destruct (cookie_options _ _ _) as [o e]. cbv zeta.
  destruct (TxRing.push_with _ _ _ _) as [r [[|]|]]; reflexivity.
Qed.

Lemma on_busy_listener_alive s seg : alive s -> alive (fst (on_busy_listener s seg)).
Proof using.
  intros Ha. unfold on_busy_listener. case_if; [exact Ha|]. cbv zeta. case_if; [by rewrite emit_cookie_synack_calm|].
  case_if; [|exact Ha]. destruct (validate_cookie s seg) as [o|]; [|exact Ha].
  pose proof (reset_to_listen_alive s (lv_clock _ Ha)) as H. set (s1 := reset_to_listen_or_closed s) in *. clearbody s1.
  apply promote_alive, H.
Qed.

Lemma dispatch_alive s seg :
  alive s -> is_u32 (iss s) -> is_u32 (seg_ack seg) -> syn_only s -> alive (fst (dispatch s seg)).
Proof using.
  intros Ha Hu1 Hu2 Hy. unfold dispatch. cbv zeta.
  match goal with |- context [on_listen ?x _] => set (s1 := x) end. assert (H1 : alive s1) by exact Ha. assert (H2 : is_u32 (iss s1)) by exact Hu1.
  assert (H3 : syn_only s1) by exact Hy. clearbody s1. clear s Ha Hu1 Hy.
  destruct (state s1) eqn:Hs; try exact H1; try (by apply on_synchronized_alive).
  - by apply on_syn_sent_alive.
  - by apply on_listen_alive.
  - by apply on_syn_rcvd_alive.
Qed.

Lemma vacant_syn_only s : syn_only (reset_to_listen_or_closed s).
Proof using.
  unfold syn_only. assert (E : state (reset_to_listen_or_closed s) = if is_listener s then Listen else Closed) by reflexivity.
  rewrite E. by destruct (is_listener s).
Qed.

Lemma sane_iss s : sane s -> is_u32 (iss s).
Proof using. intros (m & w & _ & k & Ht & _). apply (tx_u32 _ _ _ _ _ Ht). Qed.

Lemma vacant_iss s : sane s -> is_u32 (iss (reset_to_listen_or_closed s)).
Proof using Cok.
  intros (m & w & Hi). apply sane_iss. exists 0, 0. apply reset_to_listen_inv. by apply inv_storage in Hi as [? _].
Qed.

Lemma replaced_alive s seg : sane s -> alive s -> is_u32 (seg_ack seg) -> alive (fst (dispatch (reset_to_listen_or_closed s) seg)).
Proof using Cok.
  intros Hs Ha Hu.
  exact (dispatch_alive _ seg (reset_to_listen_alive s (lv_clock _ Ha)) (vacant_iss s Hs) Hu (vacant_syn_only s)).
Qed.

Lemma inject_segment_alive s seg : sane s -> alive s -> seg_wf seg -> alive (fst (inject_segment s seg)).
Proof using Cok.
  intros Hs Ha Hw. pose proof (sw_ack _ Hw) as Hu. pose proof (replaced_alive s seg Hs Ha Hu) as H1.
  pose proof (on_busy_listener_alive s seg Ha) as H2.
  pose proof (dispatch_alive s seg Ha (sane_iss s Hs) Hu (sane_syn_only s Hs)) as H3.
  unfold inject_segment. destruct (_ || _); [exact Ha|]. cbv zeta. destruct (_ && _); [|exact H3].
  destruct (may_replace_half_open s seg); [exact H1|exact H2].
Qed.

Lemma inject_alive s p v : sane s -> alive s -> bytes p ->
  alive (fst (try (self, seg) := (s, Wire.parse_opts en p v) in inject_segment self seg)).
Proof using Cok.
  intros Hs Ha Hp. destruct (Wire.parse_opts en p v) as [seg|e] eqn:E; [|exact Ha].
  apply inject_segment_alive; [exact Hs|exact Ha|]. exact (pa_wf _ (parse_opts_parsed _ _ _ _ Hp E)).
Qed.

(** ** Timers *)

Lemma doubled x : interval x -> interval (Z.min (sat_mul32 x 2) RTO_MAX_MS).
Proof using. unfold interval, sat_mul32. change RTO_MIN_MS with 200. change RTO_MAX_MS with 60000. lia. Qed.

Lemma backoff_clock s : clocked (live_view s) -> clocked (live_view (backoff_rto s)).
Proof using. intros (H1 & H2 & H3). split; [exact H1|]. split; [exact (doubled _ H2)|exact H3]. Qed.

Lemma backoff_alive s : alive s -> alive (backoff_rto s).
Proof using. intros [Hc Ht]. split; [by apply backoff_clock|exact Ht]. Qed.

Lemma emitted_alive {A} s f q a o sl e (k : t -> bool -> t * Res A) :
  alive s -> (forall s b, alive s -> alive (fst (k s b))) -> alive (fst (st_bind (emit_segment s f q a o sl e) k)).
Proof using. intros Ha Hk. apply then_alive; [exact (calm_alive _ _ (e_calm _ _ (emit_segment_mask _ _ _ _ _ _ _)) Ha)|exact Hk]. Qed.

Lemma rearmed s (b : bool) : alive s -> alive (fst (arm_rto s, @Ok unit tt)).
Proof using. intros Ha. apply arm_rto_alive, Ha. Qed.

Lemma syn_sent_timer_alive s : alive s -> alive (fst (syn_sent_timer s)).
Proof using.
  intros Ha. unfold syn_sent_timer. destruct (negb _); [exact Ha|]. cbv zeta.
  set (s1 := s <| rtx_count := _ |>). assert (H1 : alive s1) by exact Ha. clearbody s1. case_if; [by apply abort_alive|].
  apply emitted_alive; [|exact rearmed]. apply backoff_alive. exact H1.
Qed.

Lemma syn_rcvd_timer_alive s : alive s -> alive (fst (syn_rcvd_timer s)).
Proof using.
  intros Ha. unfold syn_rcvd_timer. destruct (negb _); [exact Ha|]. cbv zeta.
  set (s1 := s <| syn_rcvd_retries := _ |>). assert (H1 : alive s1) by exact Ha. clearbody s1.
  destruct (_ <? _); [cbn [fst]; destruct (is_listener s1); [exact (reset_to_listen_alive s1 (lv_clock _ H1))|by apply abort_alive]|].
  apply emitted_alive; [|exact rearmed]. apply backoff_alive. exact H1.
Qed.

Lemma blackhole_check_calm s : calm s (blackhole_check s).
Proof using. unfold blackhole_check. repeat case_match; reflexivity. Qed.

Lemma rto_collapse_alive s : clocked (live_view s) -> alive (rto_collapse s).
Proof using.
  intros Hc. unfold rto_collapse. cbv zeta.
  match goal with |- context [blackhole_check ?x] => pose proof (blackhole_check_calm x) as E; set (s1 := blackhole_check x) in * end.
  assert (H1 : clocked (live_view s1)) by (rewrite E; exact Hc). clearbody s1. clear E Hc s.
  match goal with |- context [if ?b then ?x else s1] => set (s2 := if b then x else s1) end.
  assert (H2 : clocked (live_view s2)) by (unfold s2; case_if; exact H1). clearbody s2. clear H1 s1.
  apply arm_rto_alive, backoff_clock. exact H2.
Qed.

Lemma on_rto_alive s : clocked (live_view s) -> alive (on_rto s).
Proof using.
  intros Hc. unfold on_rto. cbv zeta.
  set (s1 := s <| rto_deadline := _ |>). assert (H1 : clocked (live_view s1)) by exact Hc. clearbody s1. clear s Hc.
  destruct (Z.eqb_spec (snd_una s1) (snd_nxt s1)) as [E|E]; [by apply idle_alive|].
  set (s2 := s1 <| rtx_count := _ |>). assert (H2 : clocked (live_view s2)) by exact H1. clearbody s2.
  case_if; [exact (proj2 (released_alive s2 H2))|by apply rto_collapse_alive].
Qed.

Lemma tlp_probe_alive s : alive s -> alive (fst (tlp_probe s)).
Proof using.
  intros Ha. unfold tlp_probe. cbv zeta. case_if; [apply then_alive; [by apply emit_new_alive|intros; assumption]|].
  case_if; [exact Ha|]. destruct (Rtx.get_seg _ _ _) as [sg|]; [|exact Ha]. case_if; [|exact Ha].
  apply then_alive; [by apply retransmit_alive|intros; assumption].
Qed.

Lemma fire_tlp_alive s : alive s -> alive (fst (fire_tlp s)).
Proof using.
  intros Ha. unfold fire_tlp. cbv zeta.
  set (s1 := s <| tlp_deadline := _ |>). assert (H1 : alive s1) by exact Ha. clearbody s1. clear s Ha.
  destruct (negb _); [exact H1|].
  destruct (egress_full s1); [exact (calm_alive _ _ (maybe_arm_tlp_calm s1) H1)|].
  apply then_alive; [by apply tlp_probe_alive|]. intros s r Ha. case_if; [|exact Ha]. apply arm_rto_alive. exact (lv_clock _ Ha).
Qed.

Lemma cc_alive s c : alive s -> alive (s <| cc := c |>).
Proof using. intros Ha. exact Ha. Qed.

Lemma rack_timer_alive s : alive s -> alive (rack_timer s).
Proof using.
  intros Ha. unfold rack_timer. cbv zeta.
  set (s1 := s <| rack_deadline := _ |>). assert (H1 : alive s1) by exact Ha. clearbody s1. clear s Ha.
  pose proof (calm_alive _ _ (rack_detect_calm s1) H1) as H2. destruct (rack_detect s1) as [s2 [|]]; [|exact H2]. cbn [fst] in H2.
  apply cc_alive. destruct (negb _); [|exact H2]. exact (calm_alive _ _ (enter_fast_recovery_calm s2 _) H2).
Qed.

Lemma probe_doubled x y : 0 <= y <= RTO_MAX_MS -> 0 <= Z.min (sat_mul32 (Z.max x y) 2) RTO_MAX_MS <= RTO_MAX_MS.
Proof using. unfold sat_mul32. change RTO_MAX_MS with 60000. lia. Qed.

Lemma persist_backoff_alive s : alive s -> alive (persist_backoff s).
Proof using.
  intros Ha. unfold persist_backoff. cbv zeta.
  pose proof (probe_alive s _ (probe_doubled (persist_backoff_ms s) _ (rto_probe s (lv_clock _ Ha))) Ha) as H1. set (s1 := s <| persist_backoff_ms := _ |>) in *. clearbody s1. destruct (_ && _); exact H1.
Qed.

Lemma on_persist_timer_alive s : alive s -> alive (fst (on_persist_timer s)).
Proof using.
  intros Ha. unfold on_persist_timer. cbv zeta.
  set (s1 := s <| persist_deadline := _ |>). assert (H1 : alive s1) by exact Ha. clearbody s1. clear s Ha.
  case_if; [exact H1|]. case_if; [exact H1|]. case_if.
  - apply then_alive; [by apply emit_new_alive|]. intros s b Ha. by apply persist_backoff_alive.
  - apply emitted_alive; [exact H1|]. intros s b Ha.
    set (s2 := s <| rtx_count := _ |>). assert (H2 : alive s2) by exact Ha. clearbody s2.
    case_if; [by apply abort_alive|by apply persist_backoff_alive].
Qed.

Lemma check_keepalive_alive s : alive s -> alive (fst (check_keepalive s)).
Proof using.
  intros Ha. unfold check_keepalive. case_if; [exact Ha|]. case_if; [exact Ha|]. case_if; [exact Ha|]. case_if.
  - cbn [fst]. destruct (state_eqb _ _); [exact (proj1 (released_alive s (lv_clock _ Ha)))|by apply abort_alive].
  - apply emitted_alive; [exact Ha|]. intros s1 b H1. destruct b; exact H1.
Qed.

Lemma check_user_timeout_alive s : alive s -> alive (check_user_timeout s).
Proof using.
  intros Ha. unfold check_user_timeout. case_if; [exact Ha|]. case_if; [exact Ha|]. case_if; [by apply abort_alive|exact Ha].
Qed.

Lemma recovery_timers_alive s : alive s -> alive (fst (recovery_timers s)).
Proof using.
  intros Ha. unfold recovery_timers. cbv zeta. apply then_alive; [destruct (Deadline.due (tlp_deadline s) _); [by apply fire_tlp_alive|exact Ha]|].
  intros s1 _ H1. set (fired := is_synchronized _ && _). clearbody fired. set (s2 := if fired then on_rto s1 else s1).
  assert (H2 : alive s2) by (unfold s2; destruct fired; [exact (on_rto_alive s1 (lv_clock _ H1))|exact H1]). clearbody s2.
  case_if; [exact H2|]. cbn [fst]. destruct (Deadline.due (rack_deadline s2) _); [by apply rack_timer_alive|exact H2].
Qed.

Lemma liveness_timers_alive s : alive s -> alive (fst (liveness_timers s)).
Proof using.
  intros Ha. unfold liveness_timers. cbv zeta. set (fired := Deadline.due _ _). clearbody fired.
  apply then_alive; [destruct fired; [by apply on_persist_timer_alive|exact Ha]|]. intros s1 _ H1. case_if; [exact H1|].
  apply then_alive; [by apply check_keepalive_alive|]. intros s2 _ H2. by apply check_user_timeout_alive.
Qed.

Lemma disarmed_alive s : clocked (live_view s) -> snd_una s = snd_nxt s -> alive (disarm_timers (s <| state := Closed |>)).
Proof using. intros Hc E. apply idle_alive; [exact Hc|exact E]. Qed.

Lemma later_timers_alive now s : alive s -> alive (fst (later_timers now s)).
Proof using.
  intros Ha. unfold later_timers. apply then_alive; [by apply recovery_timers_alive|]. intros s1 go H1. destruct go; [|exact H1].
  apply then_alive; [by apply liveness_timers_alive|]. intros s2 go H2. destruct go; [|exact H2].
  apply then_alive; [by apply maybe_send_data_alive|]. intros s3 _ H3. destruct (_ && _); [by apply pure_ack_alive|exact H3].
Qed.

Lemma handshake_timers_alive s : alive s -> alive (fst (handshake_timers s)).
Proof using.
  intros Ha. unfold handshake_timers. destruct (state s); try exact Ha; [by apply syn_sent_timer_alive|by apply syn_rcvd_timer_alive].
Qed.

Lemma tick_alive s : sane s -> alive s -> alive (fst (tick s)).
Proof using.
  intros (m & w & _ & k & Ht & He) Ha. unfold tick, run_timers. cbv zeta. destruct (Deadline.due (time_wait_deadline s) _) eqn:Htw.
  - apply due_armed in Htw. pose proof (eg_tw _ _ He Htw) as Hst. apply disarmed_alive; [exact (lv_clock _ Ha)|].
    apply (tx_acked _ _ _ _ _ Ht). cbn in Hst |- *. by rewrite Hst.
  - destruct (_ && _).
    + apply emitted_alive; [exact Ha|]. intros s1 _ H1. by apply abort_alive.
    + change (alive (fst (try s1 := handshake_timers s in later_timers (now_ms s) s1))).
      apply then_alive; [by apply handshake_timers_alive|]. intros s1 _ H1. by apply later_timers_alive.
Qed.

(** ** The host's calls *)

Lemma set_egress_paused_calm s b : calm s (set_egress_paused s b).
Proof using.
  unfold set_egress_paused. cbv zeta. match goal with |- context [if ?b then ?x else s] => set (s1 := if b then x else s) end.
  assert (E : calm s s1) by (unfold s1; destruct (_ && _); [apply maybe_arm_tlp_calm|reflexivity]). clearbody s1. exact E.
Qed.

Lemma install_cookie_key_calm s k : calm s (install_cookie_key s k).
Proof using.
  unfold install_cookie_key. cbv zeta. match goal with |- context [if ?b then ?x else s] => set (s1 := if b then x else s) end.
  assert (E : calm s s1) by (unfold s1; destruct (_ && _); reflexivity). clearbody s1.
  destruct (negb _); exact E.
Qed.

Lemma set_secret_calm s k : calm s (set_secret s k).
Proof using.
  unfold set_secret. cbv zeta. set (s1 := s <| secret := k |> <| secret_set := true |>). assert (E : calm s s1) by reflexivity.
  clearbody s1. destruct (negb _); [|exact E]. rewrite install_cookie_key_calm. exact E.
Qed.

Lemma explicit_calm s b : calm s (s <| cookie_secret_explicit := b |>).
Proof using. reflexivity. Qed.

Lemma set_cookie_secret_calm s k : calm s (set_cookie_secret s k).
Proof using. unfold set_cookie_secret. cbv zeta. rewrite explicit_calm. apply install_cookie_key_calm. Qed.

Lemma set_mtu_calm s m : calm s (fst (set_mtu s m)).
Proof using. unfold set_mtu. destruct (state s); reflexivity. Qed.

Lemma update_pmtu_alive s m : alive s -> alive (update_pmtu s m).
Proof using.
  intros Ha. unfold update_pmtu. cbv zeta. set (s1 := s <| pmtu_restore_mss := _ |>). assert (H1 : alive s1) by exact Ha. clearbody s1.
  match goal with |- context [if ?b then ?x else s1] => set (s2 := if b then x else s1) end.
  assert (H2 : alive s2) by (unfold s2; destruct (_ <=? _); exact H1). clearbody s2. destruct (_ <=? _); [exact H2|].
  set (s3 := s2 <| pmtu_mss := _ |>). assert (H3 : alive s3) by exact H2. clearbody s3.
  destruct (is_synchronized _); [|exact H3]. apply maybe_send_data_alive. exact H3.
Qed.

Lemma syn_sent_alive s : alive s ->
  alive (fst (try (self, sent) := emit_syn s in
    if sent then (arm_rto (self <| snd_nxt := wadd32 (iss self) 1 |> <| syn_unacked := true |>), Ok tt) else (self, Ok tt))).
Proof using.
  intros Ha. apply emitted_alive; [exact Ha|]. intros s1 [|] H1; [|exact H1]. apply arm_rto_alive. exact (lv_clock _ H1).
Qed.

Lemma opening_assign_alive s off now : clocked (live_view s) -> snd_una s = snd_nxt s ->
  alive (s <| ts_offset := off |> <| state := SynSent |> <| syn_xmit_ms := now |>).
Proof using. intros Hc E. apply idle_alive; [exact Hc|exact E]. Qed.

Lemma connect_alive s : alive s -> alive (fst (connect s)).
Proof using.
  intros Ha. unfold connect. destruct (negb _); [exact Ha|]. cbv zeta.
  assert (H1 : clocked (live_view (s <| is_listener := false |>))) by exact (lv_clock _ Ha).
  apply syn_sent_alive, opening_assign_alive; [exact (reset_clock _ H1)|exact (reset_idle _)].
Qed.

Lemma placed_alive s st : clocked (live_view s) -> snd_una s = snd_nxt s -> alive (s <| state := st |>).
Proof using. intros Hc E. apply idle_alive; [exact Hc|exact E]. Qed.

Lemma emptied_alive s st : clocked (live_view s) -> alive ((reset_connection_state s) <| state := st |>).
Proof using. intros Hc. apply placed_alive; [exact (reset_clock s Hc)|exact (reset_idle s)]. Qed.

Lemma listen_alive s : alive s -> alive (fst (listen s)).
Proof using.
  intros Ha. pose proof (emptied_alive (s <| remote := no_endpoint |> <| is_listener := true |>) Listen (lv_clock _ Ha)) as H.
  unfold listen. cbv zeta. destruct (state s); try exact Ha; (destruct (_ && _); [exact Ha|exact H]).
Qed.

Lemma send_calm s d : calm s (fst (send s d)).
Proof using.
  unfold send. destruct (negb _); [reflexivity|]. destruct (negb _); [reflexivity|]. destruct (Ring.write _ _ _) as [r n].
  cbv zeta. destruct (_ && _); reflexivity.
Qed.

Lemma send_reserve_calm s n : calm s (fst (send_reserve s n)).
Proof using.
  unfold send_reserve. destruct (_ || _); [reflexivity|]. destruct (Ring.free_regions _ _ _) as [a b]. cbv zeta.
  destruct (_ =? 0); reflexivity.
Qed.

Lemma send_commit_calm s n : calm s (fst (send_commit s n)).
Proof using.
  unfold send_commit. cbv zeta. destruct (_ || _); [reflexivity|]. destruct (Ring.commit _ _ _) as [r c]. reflexivity.
Qed.

Lemma recv_calm s d : calm s (fst (fst (recv s d))).
Proof using.
  unfold recv. destruct (error s); [reflexivity|]. destruct (Ring.read _ _ _) as [[r d'] n]. cbv zeta.
  set (s1 := s <| recv_ring := r |>). assert (E1 : calm s s1) by reflexivity. clearbody s1. destruct (0 <? n); [|exact E1].
  match goal with |- context [if ?b then ?x else s1] => set (s2 := if b then x else s1) end.
  assert (E2 : calm s1 s2) by (unfold s2; destruct (_ && _); reflexivity). clearbody s2.
  pose proof (e_calm _ _ (maybe_send_window_update_mask s2)) as E3. destruct (maybe_send_window_update s2) as [s3 x].
  cbn [fst] in *. exact (eq_trans E3 (eq_trans E2 E1)).
Qed.

Lemma close_alive s : alive s -> alive (fst (close s)).
Proof using.
  intros Ha. pose proof (emptied_alive (s <| is_listener := false |>) Closed (lv_clock _ Ha)) as H.
  unfold close. cbv zeta. destruct (state s); try exact Ha; try exact H; apply maybe_send_data_alive; exact Ha.
Qed.

Lemma abort_call_alive s : alive s -> alive (fst (abort s)).
Proof using.
  intros Ha. assert (H1 : alive (s <| is_listener := false |>)) by exact Ha. apply abort_alive in H1.
  assert (H2 : alive (fst (try self := emit_ctl s (Z.lor flags.RST flags.ACK) (snd_nxt s) (rcv_nxt s) in (abort_local self, Ok tt))))
    by (apply emitted_alive; [exact Ha|]; intros s1 _ Hs1; by apply abort_alive).
  unfold abort. destruct (state s); (exact Ha || exact H1 || exact H2).
Qed.

Lemma extract_packet_calm s o : calm s (fst (fst (extract_packet s o))).
Proof using. unfold extract_packet. destruct (TxRing.pop_into _ _ _) as [[r o'] x]. reflexivity. Qed.

Lemma extract_packet_with_calm {R} s (f : list Z -> R) : calm s (fst (extract_packet_with s f)).
Proof using. unfold extract_packet_with. destruct (TxRing.pop_with _ _ _) as [r x]. reflexivity. Qed.

Lemma setup_alive s cfg : alive (setup s cfg).
Proof using.
  assert (H1 : is_u64 (now_ms (setup_assign s cfg))) by (cbn; unfold is_u64; lia).
  assert (H2 : interval (init_rto_ms (setup_assign s cfg)))
    by (cbn; unfold interval, clamp; change RTO_MIN_MS with 200; change RTO_MAX_MS with 60000; lia).
  apply placed_alive; [exact (reset_starts _ H1 H2)|exact (reset_idle _)].
Qed.

(** ** Every reachable state *)

Lemma step_alive h e : sane (tcb h) -> alive (tcb h) -> event_wf e -> alive (tcb (fst (step h e))).
Proof using Cok.
  intros Hs Ha Hw. destruct h as [s l]. cbn [tcb] in *. destruct e; cbn [step tcb loan fst event_wf] in *.
  - split; [|exact (lv_timer _ Ha)]. split; [exact Hw|exact (proj2 (lv_clock _ Ha))].
  - exact (calm_alive _ _ (set_egress_paused_calm s on) Ha).
  - exact Ha.
  - exact Ha.
  - exact Ha.
  - exact Ha.
  - exact (calm_alive _ _ (set_secret_calm s key) Ha).
  - exact (calm_alive _ _ (set_cookie_secret_calm s key) Ha).
  - exact (calm_alive _ _ (set_mtu_calm s m) Ha).
  - by apply update_pmtu_alive.
  - by apply connect_alive.
  - by apply listen_alive.
  - pose proof (calm_alive _ _ (send_calm s data) Ha) as H. destruct (send s data). exact H.
  - pose proof (calm_alive _ _ (send_reserve_calm s max) Ha) as H. destruct (send_reserve s max). exact H.
  - exact Ha.
  - pose proof (calm_alive _ _ (send_commit_calm s n) Ha) as H. destruct (send_commit s n). exact H.
  - pose proof (calm_alive _ _ (recv_calm s dst) Ha) as H. destruct (recv s dst) as [[? ?] ?]. exact H.
  - by apply close_alive.
  - by apply abort_call_alive.
  - pose proof (calm_alive _ _ (extract_packet_calm s out) Ha) as H. destruct (extract_packet s out) as [[? ?] ?]. exact H.
  - pose proof (calm_alive _ _ (extract_packet_with_calm s (fun p => p)) Ha) as H. destruct (extract_packet_with s _). exact H.
  - by apply inject_alive.
  - by apply inject_alive.
  - by apply tick_alive.
  - apply setup_alive.
Qed.

Lemma reachable_alive h : reachable h -> alive (tcb h).
Proof using Cok.
  induction 1 as [cfg s Hc Hn|h e Hr IH Hw].
  - unfold new in Hn. case_if in Hn; [done|]. injection Hn as <-. apply setup_alive.
  - apply step_alive; [by apply reachable_ok|exact IH|exact Hw].
Qed.

End Live.
