(* ===== verification/TcbProgress.v ===== *)
(** * Progress

    What the timers guarantee a host that keeps calling [tick]: the
    retransmission interval is bounded, outstanding data always has a deadline
    to wait for, and after a [tick] nothing is stuck. *)
From S2P Require Import Prelude Error Seq State Effect Ring RingStore Sack Ooo TxRing Bytes Checksum Options Wire WireWf RtxQueue Rack RtxCover.
From S2P Require Import Congestion Tcb TcbAck TcbOutput Cookie TcbInput TcbTimers TcbApi TcbRx TcbFrame TcbTx TcbEmit TcbSend TcbInv TcbOpen TcbSys TcbRun Scenario TcbProps TcbLive.
Import Tcb RtxCover.

Section Progress.
Context `{C : Config} {Cok : ConfigOk C}.

(** ** After a tick *)

(** Unsent data that nothing in flight will push out has its probe timer. *)
Definition probed (s : t) : Prop :=
  may_transmit (state s) = true -> 0 < unsent_bytes s -> snd_una s = snd_nxt s -> Deadline.is_armed (persist_deadline s) = true.

Lemma probe_armed s : alive s -> Deadline.is_armed (Deadline.at_ (sat_add64 (now_ms s) (persist_backoff_ms s))) = true.
Proof using. intros [(H1 & _ & _ & H2) _]. apply at_armed; [exact H1|exact (proj1 H2)]. Qed.

Lemma update_persist_probed s : alive s -> probed (update_persist s).
Proof using.
  intros Ha. unfold update_persist. destruct ((0 <? unsent_bytes s) && (snd_una s =? snd_nxt s) && may_transmit (state s)) eqn:E; cbn [negb].
  - destruct (Deadline.is_armed (persist_deadline s)) eqn:Ed; cbn [negb]; [intros _ _ _; exact Ed|]. intros _ _ _. cbv zeta.
    set (s1 := if persist_backoff_ms s =? 0 then _ else s).
    assert (H1 : alive s1) by (unfold s1; case_if; [apply probe_alive; [apply rto_probe, Ha|exact Ha]|exact Ha]).
    clearbody s1. exact (probe_armed s1 H1).
  - intros Hm Hu He. exfalso. change (may_transmit (state s) = true) in Hm. change (0 < unsent_bytes s) in Hu.
    change (snd_una s = snd_nxt s) in He. rewrite Hm, andb_true_r in E. apply Z.ltb_lt in Hu. rewrite Hu in E.
    apply Z.eqb_eq in He. by rewrite He in E.
Qed.

Lemma maybe_send_data_probed s : sane s -> alive s -> probed (fst (maybe_send_data s)).
Proof using Cok.
  intros (m & w & Hi) Ha. destruct (maybe_send_data_inv _ _ _ _ s Hi) as (s' & u & E & _).
  unfold maybe_send_data in *. destruct (may_transmit (state s)) eqn:Hm; cbn [negb] in *; [|intros Ht; cbn [fst] in Ht; congruence].
  pose proof (send_loop_alive (Z.to_nat (TXQ + 2)) s Ha) as H. destruct (send_loop _ s) as [s1 [b|e]]; cbn [st_bind fst] in *.
  - by apply update_persist_probed.
  - discriminate E.
Qed.

Lemma probed_mask s s' : e_mask s' = e_mask s -> probed s -> probed s'.
Proof using. intros E H. exact (eq_rect _ probed (H : probed (e_mask s)) _ (eq_sym E) : probed s'). Qed.

Lemma stopped_closed (b : bool) s : b && state_eqb (state s) Closed = true -> state s = Closed.
Proof using. intros [_ H]%andb_true_iff. by destruct (state s). Qed.

Lemma recovery_timers_stop s s' : recovery_timers s = (s', Ok false) -> state s' = Closed.
Proof using.
  unfold recovery_timers. cbv zeta. destruct (if Deadline.due (tlp_deadline s) _ then _ else _) as [s1 [u|e]]; [|discriminate].
  cbn [st_bind]. set (s2 := if _ && _ then on_rto s1 else s1). clearbody s2.
  destruct (_ && state_eqb (state s2) Closed) eqn:E; [|discriminate]. intros [= <-]. exact (stopped_closed _ _ E).
Qed.

Lemma liveness_timers_stop s s' : liveness_timers s = (s', Ok false) -> state s' = Closed.
Proof using.
  unfold liveness_timers. cbv zeta. destruct (if Deadline.due (persist_deadline s) _ then _ else _) as [s1 [u|e]]; [|discriminate].
  cbn [st_bind]. destruct (_ && state_eqb (state s1) Closed) eqn:E; [intros [= <-]; exact (stopped_closed _ _ E)|].
  destruct (check_keepalive s1) as [s2 [u2|e]]; [|discriminate]. cbn [st_bind]. set (s3 := check_user_timeout s2). clearbody s3.
  intros [= <- H]. apply negb_false_iff in H. exact (stopped_closed true _ H).
Qed.

Lemma later_timers_probed now s : sane s -> alive s ->
  let s' := fst (later_timers now s) in state s' = Closed \/ probed s'.
Proof using Cok.
  intros (m & w & Hi) Ha. cbv zeta. unfold later_timers.
  destruct (recovery_timers_inv _ _ _ _ s Hi) as (s1 & go & E1 & Hi1 & _). pose proof (recovery_timers_alive s Ha) as H1.
  rewrite E1 in *. cbn [st_bind fst] in *. destruct go; [|left; exact (recovery_timers_stop _ _ E1)].
  destruct (liveness_timers_inv _ _ _ _ s1 Hi1) as (s2 & go & E2 & Hi2 & _). pose proof (liveness_timers_alive s1 H1) as H2.
  rewrite E2 in *. cbn [negb st_bind fst] in *. destruct go; [|left; exact (liveness_timers_stop _ _ E2)].
  pose proof (maybe_send_data_probed s2 (ex_intro _ m (ex_intro _ w Hi2)) H2) as H3.
  destruct (maybe_send_data_inv _ _ _ _ s2 Hi2) as (s3 & u & E3 & _). rewrite E3 in *. cbn [negb st_bind fst] in *. right.
  destruct (_ && _); [|exact H3]. exact (probed_mask _ _ (send_pure_ack_mask s3) H3).
Qed.

Lemma handshake_timers_sane s : sane s -> runs (handshake_timers s) (fun s' _ => sane s').
Proof using Cok.
  intros (m & w & Hi). assert (Hs : sane s) by by do 2 eexists. unfold handshake_timers. destruct (state s) eqn:Es; try by apply runs_ret.
  - eapply runs_mono; [exact (syn_sent_timer_inv _ _ _ _ s Hi Es)|]. intros s' u [H _]. by do 2 eexists.
  - destruct (syn_rcvd_timer_inv _ _ _ _ s Hi Es) as [H|H]; (eapply runs_mono; [exact H|]; intros s' u [H' _]; by do 2 eexists).
Qed.

Lemma tick_probed s : sane s -> alive s -> let s' := fst (tick s) in state s' = Closed \/ probed s'.
Proof using Cok.
  intros Hs Ha. pose proof (handshake_timers_sane s Hs) as (s1 & u & E & Hs1). pose proof (handshake_timers_alive s Ha) as Ha1.
  unfold tick, run_timers. cbv zeta. destruct (Deadline.due (time_wait_deadline s) _); [by left|]. destruct (_ && _).
  - destruct Hs as (m & w & Hi). destruct (emit_ctl_inv _ _ _ _ s (Z.lor flags.RST flags.ACK) (snd_nxt s) (rcv_nxt s) eq_refl Hi) as (s2 & b & E2 & _).
    rewrite E2. by left.
  - rewrite E in *. exact (later_timers_probed (now_ms s) s1 Hs1 Ha1).
Qed.

Lemma check_from s : alive s -> state s = Closed \/ probed s -> debug_check_liveness s = true.
Proof using.
  intros Ha [Hc|Hp]; unfold debug_check_liveness; [rewrite Hc, orb_true_r; reflexivity|]. case_if; [done|].
  apply andb_true_iff. split; apply negb_true_iff.
  - destruct (Z.eqb_spec (snd_una s) (snd_nxt s)) as [E|E]; [done|]. assert (Hr := lv_timer _ Ha E). cbn in Hr. by rewrite Hr.
  - destruct (can_send (state s)) eqn:Hs; [|done]. destruct (Z.ltb_spec 0 (unsent_bytes s)) as [Hu|Hu]; [|done].
    destruct (Z.eqb_spec (snd_una s) (snd_nxt s)) as [E|E]; [|done]. rewrite Hp; [done| |done|done]. by destruct (state s).
Qed.

(** C7 Nothing is ever stuck: whatever the host did and whatever arrived, after
    a [tick] the library's liveness oracle passes: either output waits in the
    egress ring, or the connection is closed, or outstanding data has an armed
    retransmission, loss or reorder timer and unsent data with nothing in flight
    has an armed probe timer. *)
Theorem tick_leaves_nothing_stuck h (Hr : reachable h) :
  debug_check_liveness (tcb (fst (step h Tick))) = true.
Proof using Cok.
  destruct (reachable_ok h Hr) as [Hs _]. pose proof (reachable_alive h Hr) as Ha.
  apply check_from; [exact (tick_alive _ Hs Ha)|exact (tick_probed _ Hs Ha)].
Qed.

(** ** Waiting *)

Lemma armed_get d : Deadline.is_armed d = true -> Deadline.get d = Some (d - 1).
Proof using. unfold Deadline.get, Deadline.is_armed. by destruct (d =? 0). Qed.

Lemma min_deadline_le ds d y : d ∈ ds -> Deadline.get d = Some y -> exists x, min_deadline ds = Some x /\ x <= y.
Proof using.
  intros Hin E. induction ds as [|d' ds IH]; [by apply not_elem_of_nil in Hin|].
  cbn [min_deadline foldr]. fold (min_deadline ds). apply elem_of_cons in Hin as [<-|Hin].
  - rewrite E. destruct (min_deadline ds); eexists; (split; [done|lia]).
  - destruct (IH Hin) as (x & -> & Hx). destruct (Deadline.get d'); eexists; (split; [done|lia]).
Qed.

(** C11 A host that sleeps until [next_deadline] is always woken for outstanding
    data: on every reachable state in which sent data (or a SYN or FIN) is
    unacknowledged, [next_deadline] is a time no later than the retransmission
    timer's. *)
Theorem outstanding_data_has_deadline h (Hr : reachable h) (Ho : snd_una (tcb h) <> snd_nxt (tcb h)) :
  exists x rto, next_deadline (tcb h) = Some x /\ Deadline.get (rto_deadline (tcb h)) = Some rto /\ x <= rto.
Proof using Cok.
  pose proof (lv_timer _ (reachable_alive h Hr) Ho) as Ha. unfold next_deadline. cbv zeta.
  match goal with |- context [min_deadline ?l] =>
    destruct (min_deadline_le l (rto_deadline (tcb h)) _ ltac:(set_solver) (armed_get _ Ha)) as (x & E & Hx) end.
  exists x, (rto_deadline (tcb h) - 1). split_and!; [exact E|exact (armed_get _ Ha)|exact Hx].
Qed.

(** C12 The retransmission timeout stays within RFC 6298's bounds: on every
    reachable state the interval, through every measurement, backoff and reset,
    is at least [RTO_MIN_MS] and at most [RTO_MAX_MS], and so is the one a new
    connection starts with; the probe backoff never exceeds [RTO_MAX_MS]. *)
Theorem rto_stays_bounded h (Hr : reachable h) :
  RTO_MIN_MS <= rto_ms (tcb h) <= RTO_MAX_MS /\ RTO_MIN_MS <= init_rto_ms (tcb h) <= RTO_MAX_MS /\
  0 <= persist_backoff_ms (tcb h) <= RTO_MAX_MS.
Proof using Cok. exact (proj2 (lv_clock _ (reachable_alive h Hr))). Qed.

End Progress.

(** ** Instances *)

Lemma busy_reachable : @reachable demo (Scenario.after Scenario.a1 Scenario.a_events).
Proof. apply reachable_run; [exact connected_reachable|exact Scenario.a_events_wf]. Qed.

Lemma tick_leaves_nothing_stuck_witness :
  debug_check_liveness (tcb (fst (@step demo (Scenario.after Scenario.a1 Scenario.a_events) Tick))) = true.
Proof. apply (@tick_leaves_nothing_stuck demo demo_ok). exact busy_reachable. Defined.

Lemma outstanding_data_has_deadline_witness :
  let s := tcb (Scenario.after Scenario.a1 Scenario.a_events) in
  snd_una s <> snd_nxt s /\ exists x rto, next_deadline s = Some x /\ Deadline.get (rto_deadline s) = Some rto /\ x <= rto.
Proof.
  assert (Ho : let s := tcb (Scenario.after Scenario.a1 Scenario.a_events) in snd_una s <> snd_nxt s)
    by (apply Z.eqb_neq; vm_compute; reflexivity).
  split; [exact Ho|]. exact (@outstanding_data_has_deadline demo demo_ok _ busy_reachable Ho).
Defined.

Lemma rto_stays_bounded_witness : RTO_MIN_MS <= rto_ms (tcb (Scenario.after Scenario.a1 Scenario.a_events)) <= RTO_MAX_MS.
Proof. exact (proj1 (@rto_stays_bounded demo demo_ok _ busy_reachable)). Defined.

(** ** Where the documentation says more than the code does *)

Import Scenario.

(** Data from the peer arrives while the egress ring is full: the ACK it calls
    for cannot be staged and is retried at the current time. *)
Definition reply : list Z := last_packet (snd (@run demo b1 [ExtractWith; Inject ack; Send [7]; Tick; ExtractWith])).
Definition a_full : list event :=
  a_opening ++ [ExtractWith; Send [1]; Tick; Send [2]; Tick; Send [3]; Tick; Send [4]; Tick; Inject reply; Now 1000].

(** [next_deadline] can be due at once right after a [tick]: the documentation
    of [next_deadline] and of [tcp_next_deadline] says it is always later than
    the time of the tick. *)
Example due_deadline_after_tick :
  @reachable demo (after a1 a_full) /\
  next_deadline (tcb (fst (@step demo (after a1 a_full) Tick))) = Some (now_ms (tcb (after a1 a_full))).
Proof.
  split; [|vm_compute; reflexivity]. apply reachable_run; [exact connected_reachable|]. decide_closed.
Qed.

(** An acknowledgment of less than a full segment does not restart the USER
    TIMEOUT; the header describes any advance of SND.UNA as progress. *)
Lemma small_ack_keeps_user_timeout (s : t) acked :
  user_timeout_ms s <> 0 -> has_send_work s = true -> Deadline.is_armed (user_timeout_deadline s) = true ->
  sat_add32 (ut_progress s) acked < mss_payload s ->
  user_timeout_deadline (note_progress s acked) = user_timeout_deadline s.
Proof.
  intros Hu%Z.eqb_neq Hw Ha Hp%Z.leb_gt. unfold note_progress. cbv zeta.
  change (user_timeout_ms (s <| persist_backoff_ms := 0 |>)) with (user_timeout_ms s). rewrite Hu.
  change (has_send_work (s <| persist_backoff_ms := 0 |>)) with (has_send_work s). rewrite Hw. cbn [negb].
  match goal with |- context [mss_payload ?x <=? ut_progress ?x] =>
    change (mss_payload x <=? ut_progress x) with (mss_payload s <=? sat_add32 (ut_progress s) acked);
    change (user_timeout_deadline x) with (user_timeout_deadline s) end.
  by rewrite Hp, Ha.
Qed.
