(* ===== verification/TcbGiveup.v ===== *)
(** * Giving up on a silent peer

    While nothing arrives, every expiry of the retransmission timer either
    closes the connection or uses up part of a finite budget, whatever the host
    does in between: a connection with data outstanding to a peer that has
    vanished ends. *)
From S2P Require Import Prelude Error Seq State Effect Ring RingStore Sack Ooo TxRing Bytes Checksum Options Wire WireWf RtxQueue Rack RtxCover.
From S2P Require Import Congestion Tcb TcbAck TcbOutput Cookie TcbInput TcbTimers TcbApi TcbRx TcbFrame TcbTx TcbEmit TcbSend TcbInv TcbOpen TcbSys TcbRun Scenario TcbProps TcbMoves TcbLive TcbProgress.
Import Tcb RtxCover.

Section Giveup.
Context `{C : Config} {Cok : ConfigOk C}.

(** ** How far sending moves SND.NXT *)

Definition moved (K : Z) (s s' : t) : Prop :=
  Reno.state (cc s') = Reno.state (cc s) /\ exists j, 0 <= j <= K /\ (snd_nxt s' - snd_nxt s - j) mod M32 = 0.

Lemma same_moved s s' : cc s' = cc s -> snd_nxt s' = snd_nxt s -> moved 0 s s'.
Proof using. intros E1 E2. split; [by rewrite E1|]. exists 0. split; [lia|]. rewrite E2. by replace (snd_nxt s - snd_nxt s - 0) with 0 by lia. Qed.

Lemma e_moved s s' : e_mask s' = e_mask s -> moved 0 s s'.
Proof using. intros E. exact (same_moved s s' (f_equal cc E) (f_equal snd_nxt E)). Qed.

Lemma moved_le K K' s s' : K <= K' -> moved K s s' -> moved K' s s'.
Proof using. intros HK [E (j & Hj & H)]. split; [done|]. exists j. split; [lia|done]. Qed.

Lemma moved_trans K1 K2 s1 s2 s3 : moved K1 s1 s2 -> moved K2 s2 s3 -> moved (K1 + K2) s1 s3.
Proof using.
  intros [E1 (j1 & H1 & F1)] [E2 (j2 & H2 & F2)]. split; [congruence|]. exists (j1 + j2). split; [lia|].
  Z.div_mod_to_equations. lia.
Qed.

Lemma on_send_state r n : Reno.state (Reno.on_send r n) = Reno.state r.
Proof using. unfold Reno.on_send. by case_if. Qed.

Lemma on_retransmit_state r : Reno.state (Reno.on_retransmit r) = Reno.state r.
Proof using. unfold Reno.on_retransmit. by case_if. Qed.

Lemma idle_restart_state r w : Reno.state (Reno.on_idle_restart r w) = Reno.state r.
Proof using. unfold Reno.on_idle_restart. by case_if. Qed.

Lemma arm_tlp_cc s : cc (maybe_arm_tlp s) = cc s /\ snd_nxt (maybe_arm_tlp s) = snd_nxt s.
Proof using. unfold maybe_arm_tlp. by case_if. Qed.

Lemma new_sent_moved s len fin : 0 <= len <= MSS -> moved (MSS + 1) s (new_sent s (snd_nxt s) len fin).
Proof using.
  intros Hl. unfold new_sent. cbv zeta. match goal with |- context [maybe_arm_tlp ?x] => destruct (arm_tlp_cc x) as [E1 E2]; set (s1 := x) in * end.
  assert (F1 : cc s1 = Reno.on_send (cc s) (len + b2z fin)) by (unfold s1; destruct fin; repeat case_if; reflexivity).
  assert (F2 : snd_nxt s1 = wadd32 (snd_nxt s) (len + b2z fin)) by (unfold s1; destruct fin; repeat case_if; reflexivity).
  clearbody s1. split; [by rewrite E1, F1, on_send_state|]. exists (len + b2z fin). rewrite E2, F2.
  assert (0 <= b2z fin <= 1) by (destruct fin; simpl; lia). split; [lia|]. unfold wadd32, as_u32. Z.div_mod_to_equations. lia.
Qed.

Lemma emit_new_moved s len fin : 0 <= len -> moved (MSS + 1) s (fst (emit_new s len fin)).
Proof using.
  intros Hl. unfold emit_new. destruct (Z.ltb_spec MSS len) as [|Hm]; [apply (moved_le 0); [change MSS with 1460; lia|by apply same_moved]|].
  match goal with |- context [emit_data_segment ?a ?b ?c ?d ?e] => pose proof (emit_data_segment_mask a b c d e) as H end.
  pose proof (f_equal snd_nxt H) as En. apply e_moved in H.
  destruct (emit_data_segment _ _ _ _ _) as [s1 [[|]|]]; cbn [st_bind fst negb] in *; try (apply (moved_le 0); [change MSS with 1460; lia|exact H]).
  cbn in En. rewrite <- En. destruct (Rtx.push _ _ _) as [q' [|]]; cbn [fst negb].
  - apply (moved_trans 0 _ _ _ _ H). set (s2 := s1 <| rtx := q' |>). exact (new_sent_moved s2 len fin (conj Hl Hm)).
  - apply (moved_le 0); [change MSS with 1460; lia|exact H].
Qed.

Lemma retrans_sent_cc s i n sg f : cc (retrans_sent s i n sg f) = Reno.on_retransmit (Reno.on_send (cc s) (n + b2z f)).
Proof using. unfold retrans_sent. repeat case_if; reflexivity. Qed.

Lemma retrans_sent_nxt s i n sg f : snd_nxt (retrans_sent s i n sg f) = snd_nxt s.
Proof using. unfold retrans_sent. repeat case_if; reflexivity. Qed.

Lemma stay_moved s s' : Reno.state (cc s') = Reno.state (cc s) -> snd_nxt s' = snd_nxt s -> moved 0 s s'.
Proof using. intros E1 E2. split; [done|]. exists 0. split; [lia|]. rewrite E2. by replace (snd_nxt s - snd_nxt s - 0) with 0 by lia. Qed.

Lemma retrans_sent_moved s i n sg f : moved 0 s (retrans_sent s i n sg f).
Proof using. apply stay_moved; [|apply retrans_sent_nxt]. by rewrite retrans_sent_cc, on_retransmit_state, on_send_state. Qed.

Lemma retrans_prepare_moved s i sg m : moved 0 s (fst (retrans_prepare s i sg m)).
Proof using.
  unfold retrans_prepare. case_if; case_if; try (by apply same_moved); destruct (Rtx.split _ _ _ _) as [q [|]]; by apply same_moved.
Qed.

Lemma retransmit_moved s i : moved 0 s (fst (retransmit s i)).
Proof using.
  unfold retransmit. destruct (Rtx.get_seg _ _ _) as [sg0|]; [|by apply same_moved].
  match goal with |- context [retrans_prepare ?a ?b ?c ?d] => pose proof (retrans_prepare_moved a b c d) as H end.
  destruct (retrans_prepare _ _ _ _) as [s1 sg]. cbn [fst] in H. case_if; [exact H|].
  match goal with |- context [emit_data_segment ?a ?b ?c ?d ?e] => pose proof (emit_data_segment_mask a b c d e) as H1 end.
  apply e_moved, (moved_trans 0 0 _ _ _ H) in H1. destruct (emit_data_segment _ _ _ _ _) as [s2 [[|]|]]; cbn [st_bind fst negb] in *; try exact H1.
  exact (moved_trans 0 0 _ _ _ H1 (retrans_sent_moved s2 i _ sg _)).
Qed.

Lemma mss_payload_pos s : 1 <= mss_payload s.
Proof using. unfold mss_payload. lia. Qed.

Lemma new_len_nonneg s unsent len probe : new_len s unsent (mss_payload s) = Some (len, probe) -> 0 <= len.
Proof using.
  pose proof (mss_payload_pos s) as Hm. unfold new_len. set (mss := mss_payload s) in *. set (avail := Z.min _ _). clearbody avail.
  destruct (match pmtu_probe_len s with Some _ => _ | None => _ end) as [[pl cap]|] eqn:Ep.
  - intros [= <- <-]. destruct (pmtu_probe_len s) as [[pl' cap']|] eqn:El; [|done]. case_if in Ep; [|done]. injection Ep as -> ->.
    unfold pmtu_probe_len in El. case_if in El; [done|]. fold mss in El. case_if in El; [|done]. injection El as <- <-. bool_facts. lia.
  - clear Ep. case_if; bool_facts; [intros [= <- <-]; lia|]. case_if; [|done]. bool_facts. intros [= <- <-]. lia.
Qed.

Lemma send_new_moved s : moved (MSS + 1) s (fst (send_new s)).
Proof using.
  assert (Hr : moved (MSS + 1) s s) by (apply (moved_le 0); [change MSS with 1460; lia|by apply same_moved]).
  unfold send_new. case_if; [case_if; [by apply emit_new_moved|exact Hr]|]. case_if; [exact Hr|].
  case_if; [exact Hr|]. destruct (new_len _ _ _) as [[n p]|] eqn:En; [|exact Hr]. apply new_len_nonneg in En. cbv zeta.
  set (s1 := if _ && _ then _ else s). assert (H : moved 0 s s1).
  { unfold s1. case_if; [|by apply same_moved]. apply stay_moved; [apply idle_restart_state|reflexivity]. }
  clearbody s1. match goal with |- context [emit_new ?a ?b ?c] => pose proof (emit_new_moved a b c En) as H1 end.
  apply (moved_trans 0 _ _ _ _ H) in H1. rewrite Z.add_0_l in H1.
  destruct (emit_new _ _ _) as [s2 [[|]|]]; cbn [st_bind fst] in *; try exact H1. destruct p as [[? ?]|]; exact H1.
Qed.

Lemma send_one_moved s : moved (MSS + 1) s (fst (send_one s)).
Proof using.
  unfold send_one. destruct (Rtx.next_lost _ _) as [q [i|]].
  - apply (moved_le 0); [change MSS with 1460; lia|]. set (s1 := s <| rtx := q |>). case_if; [by apply same_moved|]. exact (retransmit_moved s1 i).
  - set (s1 := s <| rtx := q |>). exact (send_new_moved s1).
Qed.

Lemma send_loop_moved n : forall s, moved (Z.of_nat n * (MSS + 1)) s (fst (send_loop n s)).
Proof using.
  induction n as [|n IH]; intros s; cbn [send_loop].
  - case_if; by apply same_moved.
  - assert (HK : 0 <= Z.of_nat (S n) * (MSS + 1)) by (change MSS with 1460; lia).
    case_if; [apply (moved_le 0); [exact HK|by apply same_moved]|].
    assert (HK2 : MSS + 1 <= Z.of_nat (S n) * (MSS + 1)) by (change MSS with 1460; lia).
    pose proof (send_one_moved s) as H. destruct (send_one s) as [s1 [[|]|]]; cbn [st_bind fst] in *; try exact (moved_le _ _ _ _ HK2 H).
    replace (Z.of_nat (S n) * (MSS + 1)) with (MSS + 1 + Z.of_nat n * (MSS + 1)) by lia. exact (moved_trans _ _ _ _ _ H (IH s1)).
Qed.

Definition BURST : Z := 95751018.

Lemma maybe_send_data_moved s : moved BURST s (fst (maybe_send_data s)).
Proof using Cok.
  unfold maybe_send_data. case_if; [apply (moved_le 0); [done|by apply same_moved]|].
  apply (moved_le (Z.of_nat (Z.to_nat (TXQ + 2)) * (MSS + 1))).
  { pose proof txq_valid. unfold BURST. change MSS with 1460. change M16 with 65536 in *. lia. }
  pose proof (send_loop_moved (Z.to_nat (TXQ + 2)) s) as H. destruct (send_loop _ s) as [s1 [|]]; cbn [st_bind fst] in *; [|exact H].
  rewrite <- (Z.add_0_r (_ * _)). apply (moved_trans _ 0 _ _ _ H). unfold update_persist. repeat case_if; by apply same_moved.
Qed.

(** ** The budget *)

(** A tail-loss probe may still be sent. *)
Definition tlp_ready (s : t) : bool := ca_eqb (Reno.state (cc s)) CaOpen && negb (Options.is_some (tlp_end_seq s)).

(** The expiries left: one for each retransmission, the one that gives up, and
    one for the probe. *)
Definition budget (s : t) : Z := Z.max 1 (MAX_RETRANSMITS + 1 - rtx_count s) + b2z (tlp_ready s).

Definition edge (s : t) : State * Z * bool := (state s, snd_una s, syn_unacked s).

Definition core (s : t) : bool * Z * bool := (may_transmit (state s), snd_una s, syn_unacked s).

(** The connection goes on, SND.NXT at most [K] further, with [k] of its budget
    used up. *)
Definition lives (k K : Z) (s s' : t) : Prop :=
  core s' = core s /\ budget s' + k <= budget s /\ exists j, 0 <= j <= K /\ (snd_nxt s' - snd_nxt s - j) mod M32 = 0.

Definition ends (k K : Z) (s s' : t) : Prop := state s' = Closed \/ lives k K s s'.

Lemma lives_trans k1 K1 k2 K2 s1 s2 s3 : lives k1 K1 s1 s2 -> lives k2 K2 s2 s3 -> lives (k1 + k2) (K1 + K2) s1 s3.
Proof using.
  intros (E1 & B1 & j1 & H1 & F1) (E2 & B2 & j2 & H2 & F2). split; [congruence|]. split; [lia|]. exists (j1 + j2). split; [lia|].
  Z.div_mod_to_equations. lia.
Qed.

Lemma ends_trans k1 K1 k2 K2 s1 s2 s3 : lives k1 K1 s1 s2 -> ends k2 K2 s2 s3 -> ends (k1 + k2) (K1 + K2) s1 s3.
Proof using. intros H1 [H2|H2]; [by left|right]. exact (lives_trans _ _ _ _ _ _ _ H1 H2). Qed.

Lemma lives_le k k' K K' s s' : k' <= k -> K <= K' -> lives k K s s' -> lives k' K' s s'.
Proof using. intros Hk HK (E & B & j & H & F). split; [done|]. split; [lia|]. exists j. split; [lia|done]. Qed.

Lemma budget_le s s' : rtx_count s' = rtx_count s -> (tlp_ready s' = true -> tlp_ready s = true) -> budget s' <= budget s.
Proof using.
  intros E H. unfold budget. rewrite E. destruct (tlp_ready s'); [rewrite (H eq_refl); lia|]. destruct (tlp_ready s); simpl; lia.
Qed.

Lemma masked_lives K s s' : s_mask s' = s_mask s -> moved K s s' -> lives 0 K s s'.
Proof using.
  intros E [Ec Hj]. split; [exact (f_equal core E)|]. split; [|exact Hj]. rewrite Z.add_0_r. apply budget_le; [exact (f_equal rtx_count E)|].
  unfold tlp_ready. by rewrite Ec, (f_equal tlp_end_seq E : tlp_end_seq s' = tlp_end_seq s).
Qed.

Lemma e_lives s s' : e_mask s' = e_mask s -> lives 0 0 s s'.
Proof using. intros E. exact (masked_lives 0 s s' (e_s_mask _ _ E) (e_moved s s' E)). Qed.

(** The fields the budget depends on. *)
Definition wait_view (s : t) : State * Z * bool * Z * Z * option Z * CaState :=
  (edge s, snd_nxt s, rtx_count s, tlp_end_seq s, Reno.state (cc s)).

Lemma view_lives s s' : wait_view s' = wait_view s -> lives 0 0 s s'.
Proof using.
  unfold wait_view. intros [= E1 E2 E3 E4 E5 E6 E7]. split; [unfold core; congruence|]. split.
  - rewrite Z.add_0_r. apply budget_le; [done|]. unfold tlp_ready. by rewrite E6, E7.
  - exists 0. split; [lia|]. rewrite E4. by replace (snd_nxt s - snd_nxt s - 0) with 0 by lia.
Qed.

Definition waiting (s : t) : Prop := may_transmit (state s) = true /\ snd_una s <> snd_nxt s.

(** A connection that goes on still waits for its data to be acknowledged. *)
Lemma lives_waiting Qr m Qs w k K s s' : inv Qr m Qs w s -> K <= 2 ^ 28 -> waiting s -> lives k K s s' -> waiting s'.
Proof using Cok.
  intros [_ (n & Ht & _)] HK [Hm Hne] ([= E1 E2 E3] & _ & j & Hj & Hn). split; [by rewrite E1|]. rewrite E2. intros Heq.
  pose proof (tx_bounds _ _ _ _ _ Ht) as (_ & Ho & HB & Hx & _). destruct (tx_u32 _ _ _ _ _ Ht) as (Hu & Hu2 & _).
  unfold v_base in Hx. cbn in Hu, Hu2, Hx, Ho. unfold is_u32 in *. apply Hne. rewrite Hx in *. unfold wadd32, as_u32 in *.
  change (2 ^ 28) with 268435456 in HK. change M32 with 4294967296 in *. destruct (syn_unacked s); cbn [b2z] in *; Z.div_mod_to_equations; lia.
Qed.

(** ** Timers *)

Section Run.
Variables (Qr : Z -> Z -> Prop) (m : Z) (Qs : Z -> Z -> Prop) (w : Z).
Local Abbreviation inv := (inv Qr m Qs w).

(** A segment that found no room leaves the retransmission timer alone. *)
Lemma emit_new_unsent s n f : snd (emit_new s n f) = Ok false -> rto_deadline (fst (emit_new s n f)) = rto_deadline s.
Proof using.
  unfold emit_new. case_if; [done|].
  match goal with |- context [emit_data_segment ?a ?b ?c ?d ?e] => pose proof (emit_data_segment_mask a b c d e) as H end.
  destruct (emit_data_segment _ _ _ _ _) as [s1 [[|]|]]; cbn [st_bind fst snd negb] in *; [|intros _; exact (f_equal rto_deadline H)|done].
  by destruct (Rtx.push _ _ _) as [q' [|]].
Qed.

Lemma retrans_prepare_rto s i sg mss : rto_deadline (fst (retrans_prepare s i sg mss)) = rto_deadline s.
Proof using. unfold retrans_prepare. case_if; case_if; try reflexivity; destruct (Rtx.split _ _ _ _) as [q [|]]; reflexivity. Qed.

Lemma retransmit_unsent s i : snd (retransmit s i) = Ok false -> rto_deadline (fst (retransmit s i)) = rto_deadline s.
Proof using.
  unfold retransmit. destruct (Rtx.get_seg _ _ _) as [sg0|]; [|done].
  match goal with |- context [retrans_prepare ?a ?b ?c ?d] => pose proof (retrans_prepare_rto a b c d) as H end.
  destruct (retrans_prepare _ _ _ _) as [s1 sg]. cbn [fst] in H. case_if; [done|].
  match goal with |- context [emit_data_segment ?a ?b ?c ?d ?e] => pose proof (emit_data_segment_mask a b c d e) as H1 end.
  destruct (emit_data_segment _ _ _ _ _) as [s2 [[|]|]]; cbn [st_bind fst snd negb] in *; try done.
  intros _. rewrite <- H. exact (f_equal rto_deadline H1).
Qed.

Lemma tlp_probe_unsent s r : snd (tlp_probe s) = Ok (false, r) -> rto_deadline (fst (tlp_probe s)) = rto_deadline s.
Proof using.
  unfold tlp_probe. cbv zeta. case_if.
  - match goal with |- context [emit_new ?a ?b ?c] => pose proof (emit_new_unsent a b c) as H; destruct (emit_new a b c) as [s1 [b1|x]] end;
      cbn [st_bind fst snd] in *; [|done]. intros [= -> _]. by apply H.
  - case_if; [done|]. destruct (Rtx.get_seg _ _ _); [|done]. case_if; [|done].
    match goal with |- context [retransmit ?a ?b] => pose proof (retransmit_unsent a b) as H; destruct (retransmit a b) as [s1 [b1|x]] end;
      cbn [st_bind fst snd] in *; [|done]. intros [= -> _]. by apply H.
Qed.

Lemma tlp_probe_moved s : moved (MSS + 1) s (fst (tlp_probe s)).
Proof using.
  assert (Hr : moved (MSS + 1) s s) by (apply (moved_le 0); [change MSS with 1460; lia|by apply same_moved]).
  pose proof (mss_payload_pos s) as Hm. unfold tlp_probe. cbv zeta. case_if.
  - bool_facts. match goal with |- context [emit_new ?a ?b ?c] => pose proof (emit_new_moved a b c ltac:(lia)) as Hx; destruct (emit_new a b c) as [s1 [b1|x]] end; exact Hx.
  - case_if; [exact Hr|]. destruct (Rtx.get_seg _ _ _); [|exact Hr]. case_if; [|exact Hr]. apply (moved_le 0); [change MSS with 1460; lia|].
    match goal with |- context [retransmit ?a ?b] => pose proof (retransmit_moved a b) as Hx; destruct (retransmit a b) as [s1 [b1|x]] end; exact Hx.
Qed.

Lemma arm_tlp_wait s : wait_view (maybe_arm_tlp s) = wait_view s /\ rto_deadline (maybe_arm_tlp s) = rto_deadline s /\ now_ms (maybe_arm_tlp s) = now_ms s.
Proof using. unfold maybe_arm_tlp. by case_if. Qed.

(** The expiry that [fire_tlp] prevents is paid for by the probe. *)
Definition probed_or (s s1 : t) : Prop :=
  lives 0 (MSS + 1) s s1 /\ rto_deadline s1 = rto_deadline s \/ lives 1 (MSS + 1) s s1.

Lemma view_probed s s1 : wait_view s1 = wait_view s -> rto_deadline s1 = rto_deadline s -> probed_or s s1.
Proof using. intros E1 E2. left. split; [|done]. apply (lives_le 0 _ 0); [done|done|by apply view_lives]. Qed.

Lemma tlp_sent_budget s s1 b n r : s_mask s1 = s_mask s -> tlp_ready s = true ->
  budget (s1 <| stats := n |> <| tlp_end_seq := Some b |> <| tlp_is_retrans := r |> <| tlp_deadline := Deadline.OFF |>) + 1 <= budget s.
Proof using.
  intros E Hr. unfold budget. rewrite Hr.
  change (rtx_count (s1 <| stats := n |> <| tlp_end_seq := Some b |> <| tlp_is_retrans := r |> <| tlp_deadline := Deadline.OFF |>)) with (rtx_count s1).
  change (tlp_ready (s1 <| stats := n |> <| tlp_end_seq := Some b |> <| tlp_is_retrans := r |> <| tlp_deadline := Deadline.OFF |>)) with (ca_eqb (Reno.state (cc s1)) CaOpen && false).
  rewrite andb_false_r, (f_equal rtx_count E : rtx_count s1 = rtx_count s). cbn [b2z]. lia.
Qed.

Lemma arm_budget s : budget (arm_rto s) = budget s.
Proof using. reflexivity. Qed.

Lemma tlp_sent_lives s s1 b n r : s_mask s1 = s_mask s -> moved (MSS + 1) s s1 -> tlp_ready s = true ->
  lives 1 (MSS + 1) s (arm_rto (s1 <| stats := n |> <| tlp_end_seq := Some b |> <| tlp_is_retrans := r |> <| tlp_deadline := Deadline.OFF |>)).
Proof using.
  intros E [_ Hj] Hr. pose proof (tlp_sent_budget s s1 b n r E Hr) as Hb. split; [exact (f_equal core E)|]. split; [rewrite arm_budget; exact Hb|exact Hj].
Qed.

Lemma fire_tlp_ends s : inv s -> runs (fire_tlp s) (fun s1 _ => inv s1 /\ now_ms s1 = now_ms s /\ probed_or s s1).
Proof using Cok.
  intros Hi. destruct (fire_tlp_inv _ _ _ _ s Hi) as (s1 & [] & E & Hi1 & _). exists s1, tt. split; [exact E|]. split; [exact Hi1|]. clear Hi1. revert E.
  unfold fire_tlp. cbv zeta. set (s0 := s <| tlp_deadline := _ |>).
  assert (E0 : wait_view s0 = wait_view s /\ rto_deadline s0 = rto_deadline s /\ now_ms s0 = now_ms s /\ tlp_ready s0 = tlp_ready s) by done.
  assert (Hi0 : inv s0) by exact Hi. clearbody s0. destruct E0 as (E0 & R0 & N0 & T0).
  destruct (_ && _ && _ && _) eqn:Ee; cbn [negb]; [|intros [= <-]; split; [done|by apply view_probed]].
  destruct (egress_full s0); [intros [= <-]; destruct (arm_tlp_wait s0) as (F1 & F2 & F3); split; [congruence|apply view_probed; congruence]|].
  assert (Hr : tlp_ready s0 = true) by (unfold tlp_ready; rewrite !andb_true_iff in *; tauto).
  destruct (tlp_probe_inv _ _ _ _ s0 Hi0) as (s2 & [b r] & E & _ & Hm & _). pose proof (tlp_probe_unsent s0 r) as Hu. pose proof (tlp_probe_moved s0) as Hv.
  rewrite E in *. cbn [st_bind fst snd] in *. pose proof (masked_lives _ _ _ Hm Hv) as H2.
  assert (H02 : lives 0 (MSS + 1) s s2) by exact (lives_trans 0 0 0 (MSS + 1) _ _ _ (view_lives _ _ E0) H2).
  pose proof (f_equal now_ms Hm : now_ms s2 = now_ms s0) as N2. destruct b; intros [= <-].
  - split; [exact (eq_trans N2 N0)|]. right.
    exact (lives_trans 0 0 1 (MSS + 1) _ _ _ (view_lives _ _ E0) (tlp_sent_lives s0 s2 (snd_nxt s2) _ r Hm Hv Hr)).
  - split; [congruence|]. left. split; [exact H02|]. by rewrite Hu.
Qed.

(** *** The retransmission timer *)

Lemma blackhole_wait s : wait_view (blackhole_check s) = wait_view s.
Proof using.
  unfold blackhole_check. cbv zeta. destruct (if _ <=? _ then _ else _) as [x|]; [|reflexivity]. case_if; [|reflexivity]. case_if; reflexivity.
Qed.

Lemma on_rto_loss r f u n k : Reno.state (Reno.on_rto r f u n k) = CaLoss.
Proof using. reflexivity. Qed.

Lemma collapsed_wait s cc' q :
  let s' := backoff_rto (s <| cc := cc' |> <| rtx := q |> <| reno_sacked := 0 |> <| tlp_end_seq := None |> <| tlp_deadline := Deadline.OFF |>
    <| rack_deadline := Deadline.OFF |> <| dup_acks := 0 |>) in
  wait_view (arm_rto s') = (edge s, snd_nxt s, rtx_count s, None, Reno.state cc').
Proof using. reflexivity. Qed.

Lemma rto_collapse_wait s : wait_view (rto_collapse s) = (edge s, snd_nxt s, rtx_count s, None, CaLoss).
Proof using.
  unfold rto_collapse. cbv zeta.
  match goal with |- context [blackhole_check ?x] => pose proof (blackhole_wait x) as E; set (s3 := blackhole_check x) in * end.
  assert (E3 : wait_view s3 = wait_view s) by exact E. clearbody s3. clear E.
  match goal with |- context [if ?b then ?x else s3] => set (s4 := if b then x else s3) end.
  assert (E4 : wait_view s4 = wait_view s) by (rewrite <- E3; unfold s4; case_if; reflexivity). clearbody s4.
  rewrite collapsed_wait, on_rto_loss. unfold edge. by injection E4 as -> -> -> -> -> _ _.
Qed.

Lemma counted_budget s : rtx_count s < MAX_RETRANSMITS -> Z.max 1 (MAX_RETRANSMITS + 1 - (rtx_count s + 1)) <= budget s - 1.
Proof using. intros Hc. unfold budget. assert (0 <= b2z (tlp_ready s)) by (by destruct (tlp_ready s)). lia. Qed.

Lemma on_rto_ends s : snd_una s <> snd_nxt s -> ends 1 0 s (on_rto s).
Proof using.
  intros Hne. unfold on_rto. cbv zeta. set (s1 := s <| rto_deadline := _ |>). assert (E1 : wait_view s1 = wait_view s) by reflexivity. clearbody s1.
  injection E1 as Es Eu Ey En Ec _ _. rewrite Eu, En. destruct (Z.eqb_spec (snd_una s) (snd_nxt s)) as [|_]; [done|].
  set (s2 := s1 <| rtx_count := _ |>).
  assert (E2 : edge s2 = edge s1 /\ snd_nxt s2 = snd_nxt s1 /\ rtx_count s2 = sat_add8 (rtx_count s1) 1) by done. clearbody s2. destruct E2 as (F1 & F2 & F3).
  destruct (Z.ltb_spec MAX_RETRANSMITS (rtx_count s2)) as [|Hle]; [by left|right]. pose proof (rto_collapse_wait s2) as E. set (s3 := rto_collapse s2) in *. clearbody s3.
  assert (Hc : rtx_count s < MAX_RETRANSMITS /\ rtx_count s2 = rtx_count s + 1).
  { rewrite F3, Ec in *. unfold sat_add8 in *. change MAX_RETRANSMITS with 10 in *. lia. }
  injection E as G1 G2 G3 G4 G5 G6 G7. unfold edge in F1. injection F1 as F11 F12 F13. split; [unfold core; congruence|]. split.
  - pose proof (counted_budget s (proj1 Hc)) as Hb. unfold budget at 1, tlp_ready. rewrite G5, G7, (proj2 Hc).
    change (ca_eqb CaLoss CaOpen && negb (Options.is_some (tlp_end_seq s3))) with false. cbn [b2z]. lia.
  - exists 0. split; [lia|]. rewrite G4, F2, En. by replace (snd_nxt s - snd_nxt s - 0) with 0 by lia.
Qed.

(** *** The other timers *)

Lemma rack_detect_wait s : wait_view (fst (rack_detect s)) = wait_view s.
Proof using. unfold rack_detect. repeat case_match; reflexivity. Qed.

Lemma enter_recovery_wait s f : core (enter_fast_recovery s f) = core s /\ snd_nxt (enter_fast_recovery s f) = snd_nxt s /\
  rtx_count (enter_fast_recovery s f) = rtx_count s.
Proof using. unfold enter_fast_recovery. cbv zeta. case_if; done. Qed.

Lemma enter_recovery_state s f : ca_eqb (Reno.state (cc (enter_fast_recovery s f))) CaOpen = false.
Proof using.
  unfold enter_fast_recovery. cbv zeta. destruct (ca_eqb (Reno.state (cc s)) CaCwr) eqn:E; [|reflexivity].
  change (ca_eqb (Reno.state (Reno.cwr_to_recovery (cc s))) CaOpen = false). unfold Reno.cwr_to_recovery. by destruct (Reno.state (cc s)) eqn:F; rewrite ?F.
Qed.

Lemma prr_state r d p mss b : Reno.state (Reno.prr_update r d p mss b) = Reno.state r.
Proof using. unfold Reno.prr_update. by case_if. Qed.

Lemma cc_wait s c : core (s <| cc := c |>) = core s /\ snd_nxt (s <| cc := c |>) = snd_nxt s /\ rtx_count (s <| cc := c |>) = rtx_count s /\
  cc (s <| cc := c |>) = c /\ tlp_end_seq (s <| cc := c |>) = tlp_end_seq s.
Proof using. done. Qed.

(** Entering recovery takes the probe away. *)
Lemma closed_lives s s' :
  core s' = core s -> snd_nxt s' = snd_nxt s -> rtx_count s' = rtx_count s -> ca_eqb (Reno.state (cc s')) CaOpen = false -> lives 0 0 s s'.
Proof using.
  intros E1 E2 E3 E4. split; [done|]. split; [rewrite Z.add_0_r; apply budget_le; [done|]; unfold tlp_ready; by rewrite E4|].
  exists 0. split; [lia|]. rewrite E2. by replace (snd_nxt s - snd_nxt s - 0) with 0 by lia.
Qed.

Lemma rack_timer_lives s : lives 0 0 s (rack_timer s).
Proof using.
  unfold rack_timer. cbv zeta. set (s1 := s <| rack_deadline := _ |>). assert (E1 : wait_view s1 = wait_view s) by reflexivity. clearbody s1.
  apply (lives_trans 0 0 0 0 s s1); [by apply view_lives|]. pose proof (rack_detect_wait s1) as E2. destruct (rack_detect s1) as [s2 [|]]; cbn [fst] in E2; [|by apply view_lives].
  apply (lives_trans 0 0 0 0 s1 s2); [by apply view_lives|]. clear E1 E2 s1 s. destruct (Reno.in_loss_recovery (cc s2)) eqn:El; cbn [negb].
  - apply closed_lives; try reflexivity. cbn. rewrite prr_state. unfold Reno.in_loss_recovery in El. by destruct (Reno.state (cc s2)).
  - destruct (enter_recovery_wait s2 (wsub32 (snd_nxt s2) (data_una s2))) as (F1 & F2 & F3).
    pose proof (enter_recovery_state s2 (wsub32 (snd_nxt s2) (data_una s2))) as F4. set (s3 := enter_fast_recovery s2 _) in *. clearbody s3.
    match goal with |- context [s3 <| cc := ?c |>] => destruct (cc_wait s3 c) as (G1 & G2 & G3 & G4 & _) end.
    apply closed_lives; [congruence..|]. by rewrite G4, prr_state.
Qed.

Lemma on_persist_waits s : snd_una s <> snd_nxt s -> on_persist_timer s = (s <| persist_deadline := Deadline.OFF |>, Ok tt).
Proof using.
  intros Hne%Z.eqb_neq. unfold on_persist_timer. cbv zeta. set (s1 := s <| persist_deadline := _ |>).
  assert (E : (snd_una s1 =? snd_nxt s1) = false) by exact Hne. clearbody s1. by rewrite E, orb_true_r.
Qed.

Lemma check_keepalive_ends s : ends 0 0 s (fst (check_keepalive s)).
Proof using.
  assert (Hr : ends 0 0 s s) by (right; by apply view_lives). unfold check_keepalive. case_if; [exact Hr|]. case_if; [exact Hr|]. case_if; [exact Hr|].
  case_if; [left; cbn [fst]; by destruct (state_eqb _ _)|].
  match goal with |- context [emit_probe s ?q] => pose proof (emit_segment_mask s) as H; unfold emit_probe; set (e := emit_segment _ _ _ _ _ _ _) end.
  assert (E : e_mask (fst e) = e_mask s) by apply H. clear H. clearbody e.
  right. apply e_lives in E. destruct e as [s1 [[|]|]]; exact E.
Qed.

Lemma check_user_timeout_ends s : ends 0 0 s (check_user_timeout s).
Proof using.
  assert (Hr : ends 0 0 s s) by (right; by apply view_lives). unfold check_user_timeout. case_if; [exact Hr|]. case_if; [exact Hr|].
  case_if; [by left|exact Hr].
Qed.

(** *** A tick *)

Lemma waiting_sync st : may_transmit st = true -> is_synchronized st = true.
Proof using. by destruct st. Qed.

Lemma ends_le k k' K K' s s' : k' <= k -> K <= K' -> ends k K s s' -> ends k' K' s s'.
Proof using. intros Hk HK [H|H]; [by left|right; by apply (lives_le k _ K)]. Qed.

Lemma b2z_le b : 0 <= b2z b <= 1.
Proof using. destruct b; simpl; lia. Qed.

(** After the probe, the retransmission timer. *)
Lemma rto_stage s s1 :
  inv s1 -> waiting s1 -> probed_or s s1 ->
  let due := Deadline.due (rto_deadline s) (now_ms s) in
  let fired := Deadline.due (rto_deadline s1) (now_ms s) in
  ends (b2z due) (MSS + 1) s (if fired then on_rto s1 else s1).
Proof using.
  intros Hi [_ Hne] Hp. cbv zeta. assert (H0 : lives 0 (MSS + 1) s s1) by (destruct Hp as [[H _]|H]; [done|by apply (lives_le 1 _ (MSS + 1))]).
  destruct (Deadline.due (rto_deadline s1) (now_ms s)) eqn:Ef.
  - pose proof (ends_trans 0 (MSS + 1) 1 0 _ _ _ H0 (on_rto_ends s1 Hne)) as H. rewrite Z.add_0_r in H.
    apply (ends_le 1 _ (MSS + 1)); [apply b2z_le|lia|exact H].
  - right. destruct Hp as [[H E]|H]; [rewrite <- E, Ef; exact H|].
    apply (lives_le 1 _ (MSS + 1)); [apply b2z_le|lia|exact H].
Qed.

Lemma recovery_ends s : inv s -> waiting s ->
  runs (recovery_timers s) (fun s' go => inv s' /\
    if go then lives (b2z (Deadline.due (rto_deadline s) (now_ms s))) (MSS + 1) s s' else state s' = Closed).
Proof using Cok.
  intros Hi Hw. destruct (recovery_timers_inv _ _ _ _ s Hi) as (s' & go & E & Hi' & _). exists s', go. split; [exact E|]. split; [exact Hi'|]. revert E.
  unfold recovery_timers. cbv zeta.
  assert (Hx : runs (if Deadline.due (tlp_deadline s) (now_ms s) then fire_tlp s else (s, Ok tt)) (fun s1 _ => inv s1 /\ now_ms s1 = now_ms s /\ probed_or s s1))
    by (case_if; [by apply fire_tlp_ends|apply runs_ret; split; [done|split; [done|by apply view_probed]]]).
  destruct Hx as (s1 & u & -> & Hi1 & _ & Hp). cbn [st_bind].
  assert (H0 : lives 0 (MSS + 1) s s1) by (destruct Hp as [[H _]|H]; [done|by apply (lives_le 1 _ (MSS + 1))]).
  pose proof (lives_waiting _ _ _ _ 0 (MSS + 1) s s1 Hi ltac:(done) Hw H0) as Hw1. rewrite (waiting_sync _ (proj1 Hw1)). cbn [andb].
  pose proof (rto_stage s s1 Hi1 Hw1 Hp) as H. cbv zeta in H. set (fired := Deadline.due (rto_deadline s1) (now_ms s)) in *. clearbody fired.
  set (s2 := if fired then on_rto s1 else s1) in *.
  assert (Hn : fired = false -> state s2 <> Closed) by (unfold s2; intros ->; destruct Hw1 as [Hm1 _]; by destruct (state s1)). clearbody s2.
  destruct (state_eqb (state s2) Closed) eqn:Ec; [apply state_eqb_true in Ec; destruct fired; [|by destruct Hn]; by intros [= <- <-]|].
  rewrite andb_false_r. intros [= <- <-]. destruct H as [H|H]; [by rewrite H in Ec|]. destruct (Deadline.due (rack_deadline s2) _); [|exact H].
  pose proof (lives_trans _ _ _ _ _ _ _ H (rack_timer_lives s2)) as H2. by rewrite !Z.add_0_r in H2.
Qed.

Lemma liveness_ends s : inv s -> waiting s ->
  runs (liveness_timers s) (fun s' go => inv s' /\ go = negb (state_eqb (state s') Closed) /\ ends 0 0 s s').
Proof using Cok.
  intros Hi Hw. destruct (liveness_timers_inv _ _ _ _ s Hi) as (s' & go & E & Hi' & _). exists s', go. split; [exact E|]. split; [exact Hi'|]. revert E.
  unfold liveness_timers. cbv zeta. set (fired := Deadline.due _ _). clearbody fired. rewrite (on_persist_waits s (proj2 Hw)).
  set (s0 := s <| persist_deadline := _ |>). assert (E0 : wait_view s0 = wait_view s) by reflexivity. clearbody s0.
  set (s1 := if fired then s0 else s). assert (E1 : wait_view s1 = wait_view s) by (unfold s1; by destruct fired).
  assert (E2 : (if fired then (s0, Ok tt) else (s, Ok tt)) = (s1, Ok tt)) by (unfold s1; by destruct fired). rewrite E2. clear E2. cbn [st_bind].
  clearbody s1. destruct Hw as [Hm _]. assert (Es : state s1 = state s) by (by injection E1). rewrite Es.
  assert (Hc : state_eqb (state s) Closed = false) by (by destruct (state s)). rewrite Hc, andb_false_r.
  pose proof (check_keepalive_ends s1) as H1. destruct (check_keepalive s1) as [s2 [u|x]]; cbn [st_bind fst] in *; [|done]. intros [= <- <-]. split; [done|].
  pose proof (check_user_timeout_moves s2) as Hx. destruct H1 as [H1|H1].
  - left. rewrite H1 in Hx. by destruct (state (check_user_timeout s2)).
  - apply (ends_trans 0 0 0 0 s s1); [by apply view_lives|]. exact (ends_trans 0 0 0 0 _ _ _ H1 (check_user_timeout_ends s2)).
Qed.

Definition REACH : Z := BURST + MSS + 1.

Lemma later_ends now s : inv s -> waiting s -> now = now_ms s ->
  ends (b2z (Deadline.due (rto_deadline s) (now_ms s))) REACH s (fst (later_timers now s)).
Proof using Cok.
  intros Hi Hw ->. unfold later_timers, REACH. destruct (recovery_ends s Hi Hw) as (s1 & go & -> & Hi1 & H1). cbn [st_bind].
  set (k := b2z _) in *. clearbody k. destruct go; cbn [negb]; [|by left].
  pose proof (lives_waiting _ _ _ _ k (MSS + 1) s s1 Hi ltac:(done) Hw H1) as Hw1. destruct (liveness_ends s1 Hi1 Hw1) as (s2 & go & -> & Hi2 & -> & H2). cbn [st_bind].
  destruct H2 as [H2|H2]; [left; by rewrite H2|]. rewrite negb_involutive.
  destruct (state_eqb (state s2) Closed) eqn:Ec; [left; by apply state_eqb_true|]. pose proof (lives_trans _ _ _ _ _ _ _ H1 H2) as H3. rewrite !Z.add_0_r in H3.
  right. replace k with (k + 0) by lia. replace (BURST + MSS + 1) with (MSS + 1 + BURST) by lia. apply (lives_trans _ _ _ _ s s2); [exact H3|]. clear H1 H2 H3.
  pose proof (masked_lives _ _ _ (maybe_send_data_mask s2) (maybe_send_data_moved s2)) as H4. destruct (maybe_send_data s2) as [s3 [u|x]]; cbn [st_bind fst] in *; [|exact H4].
  case_if; [|exact H4]. replace 0 with (0 + 0) by lia. rewrite <- (Z.add_0_r BURST). exact (lives_trans _ _ _ _ _ _ _ H4 (e_lives _ _ (send_pure_ack_mask s3))).
Qed.

Lemma tick_ends s : inv s -> waiting s -> ends (b2z (Deadline.due (rto_deadline s) (now_ms s))) REACH s (fst (tick s)).
Proof using Cok.
  intros Hi Hw. unfold tick, run_timers. cbv zeta. destruct (Deadline.due (time_wait_deadline s) _); [by left|].
  destruct Hw as [Hm Hne]. assert (E2 : state_eqb (state s) FinWait2 = false) by (by destruct (state s)). rewrite E2. cbn [andb].
  assert (E3 : handshake_timers s = (s, Ok tt)) by (unfold handshake_timers; by destruct (state s)). rewrite E3. cbn [st_bind].
  exact (later_ends (now_ms s) s Hi (conj Hm Hne) eq_refl).
Qed.

(** ** The host's calls *)

Lemma update_pmtu_lives s x : lives 0 BURST s (update_pmtu s x).
Proof using Cok.
  assert (H0 : forall s', wait_view s' = wait_view s -> lives 0 BURST s s') by (intros; apply (lives_le 0 _ 0); [done|done|by apply view_lives]).
  unfold update_pmtu. cbv zeta. set (s1 := s <| pmtu_restore_mss := _ |>). assert (E1 : wait_view s1 = wait_view s) by reflexivity. clearbody s1.
  match goal with |- context [if ?b then ?x else s1] => set (s2 := if b then x else s1) end.
  assert (E2 : wait_view s2 = wait_view s) by (rewrite <- E1; unfold s2; destruct (_ <=? _); reflexivity). clearbody s2.
  destruct (_ <=? _); [by apply H0|]. set (s3 := s2 <| pmtu_mss := _ |>). assert (E3 : wait_view s3 = wait_view s) by exact E2. clearbody s3.
  destruct (is_synchronized _); [|by apply H0]. set (s4 := s3 <| rtx := _ |>). assert (E4 : wait_view s4 = wait_view s) by exact E3. clearbody s4.
  pose proof (masked_lives _ _ _ (maybe_send_data_mask s4) (maybe_send_data_moved s4)) as H4.
  exact (lives_trans 0 0 0 BURST _ _ _ (view_lives _ _ E4) H4).
Qed.

(** [close] sends a FIN: the state moves, the rest goes on. *)
Lemma closing_lives s st : may_transmit (state s) = true -> may_transmit st = true -> lives 0 BURST s (fst (maybe_send_data (s <| state := st |>))).
Proof using Cok.
  intros Hm Hst. set (s1 := s <| state := st |>). assert (H1 : lives 0 0 s s1).
  { split; [unfold core; f_equal; f_equal; by rewrite Hm|]. split; [change (budget s + 0 <= budget s); lia|].
    exists 0. split; [lia|]. change (snd_nxt s1) with (snd_nxt s). by replace (snd_nxt s - snd_nxt s - 0) with 0 by lia. }
  clearbody s1. exact (lives_trans 0 0 0 BURST _ _ _ H1 (masked_lives _ _ _ (maybe_send_data_mask s1) (maybe_send_data_moved s1))).
Qed.

Lemma close_lives s : may_transmit (state s) = true -> lives 0 BURST s (fst (close s)).
Proof using Cok.
  intros Hm. assert (H0 : lives 0 BURST s s) by (apply (lives_le 0 _ 0); [done|done|by apply view_lives]). unfold close. cbv zeta.
  destruct (state s) eqn:E; try done; try exact H0; apply closing_lives; try done; by rewrite E.
Qed.

Lemma abort_closes s : inv s -> state (fst (abort s)) = Closed.
Proof using Cok.
  intros Hi. unfold abort. destruct (state s) eqn:E; try exact E; try reflexivity;
    (destruct (emit_ctl_inv _ _ _ _ s (Z.lor flags.RST flags.ACK) (snd_nxt s) (rcv_nxt s) eq_refl Hi) as (s1 & b & -> & _); reflexivity).
Qed.

End Run.

(** ** Silence *)

(** Nothing arrives, and the connection is not thrown away. *)
Definition silent (e : event) : bool := match e with Inject _ | InjectTrusted _ | Reinit _ => false | _ => true end.

(** The event is a tick at which the retransmission timer has expired. *)
Definition expires (h : Host) (e : event) : bool :=
  match e with Tick => Deadline.due (rto_deadline (tcb h)) (now_ms (tcb h)) | _ => false end.

(** The expiries of a run. *)
Fixpoint timeouts (h : Host) (es : list event) : nat :=
  match es with
  | [] => 0
  | e :: es => (if expires h e then 1 else 0) + timeouts (fst (step h e)) es
  end.

Lemma send_wait s d : wait_view (fst (send s d)) = wait_view s.
Proof using.
  unfold send. destruct (negb _); [reflexivity|]. destruct (negb _); [reflexivity|]. destruct (Ring.write _ _ _) as [r n].
  cbv zeta. destruct (_ && _); reflexivity.
Qed.

Lemma reserve_wait s n : wait_view (fst (send_reserve s n)) = wait_view s.
Proof using.
  unfold send_reserve. destruct (_ || _); [reflexivity|]. destruct (Ring.free_regions _ _ _) as [a b]. cbv zeta.
  destruct (_ =? 0); reflexivity.
Qed.

Lemma commit_wait s n : wait_view (fst (send_commit s n)) = wait_view s.
Proof using.
  unfold send_commit. cbv zeta. destruct (_ || _); [reflexivity|]. destruct (Ring.commit _ _ _) as [r c]. reflexivity.
Qed.

Lemma recv_wait s d : wait_view (fst (fst (recv s d))) = wait_view s.
Proof using.
  unfold recv. destruct (error s); [reflexivity|]. destruct (Ring.read _ _ _) as [[r d'] n]. cbv zeta.
  set (s1 := s <| recv_ring := r |>). assert (E1 : wait_view s1 = wait_view s) by reflexivity. clearbody s1. rewrite <- E1. destruct (0 <? n); [|reflexivity].
  match goal with |- context [if ?b then ?x else s1] => set (s2 := if b then x else s1) end.
  assert (E2 : wait_view s2 = wait_view s1) by (unfold s2; destruct (_ && _); reflexivity). clearbody s2.
  pose proof (f_equal wait_view (maybe_send_window_update_mask s2) : wait_view (fst (maybe_send_window_update s2)) = wait_view s2) as E3.
  destruct (maybe_send_window_update s2) as [s3 x]. cbn [fst] in *. congruence.
Qed.

Lemma secret_wait s k : wait_view (set_secret s k) = wait_view s /\ wait_view (set_cookie_secret s k) = wait_view s.
Proof using. unfold set_secret, set_cookie_secret, install_cookie_key. split; repeat case_match; reflexivity. Qed.

Lemma pause_wait s b : wait_view (set_egress_paused s b) = wait_view s.
Proof using. unfold set_egress_paused. cbv zeta. repeat case_if; try reflexivity; apply arm_tlp_wait. Qed.

Lemma silent_step h e : reachable h -> silent e = true -> waiting (tcb h) ->
  ends (b2z (expires h e)) REACH (tcb h) (tcb (fst (step h e))).
Proof using Cok.
  intros Hr Hs [Hm Hne]. pose proof (reachable_ok h Hr) as [(m & w & Hi) _].
  assert (H0 : forall s', wait_view s' = wait_view (tcb h) -> ends 0 REACH (tcb h) s')
    by (intros s' E; right; apply (lives_le 0 _ 0); [done|done|by apply view_lives]).
  assert (H1 : forall s', lives 0 BURST (tcb h) s' -> ends 0 REACH (tcb h) s') by (intros s' H; right; by apply (lives_le 0 _ BURST)).
  pose proof (H0 _ eq_refl) as Hsame. destruct e; cbn [step tcb loan fst expires b2z silent] in *; try done; try exact Hsame; try (by apply H0).
  - apply H0, pause_wait.
  - apply H0, secret_wait.
  - apply H0, secret_wait.
  - unfold set_mtu. destruct (state (tcb h)); try exact Hsame; discriminate Hm.
  - apply H1, update_pmtu_lives.
  - unfold connect. by destruct (state (tcb h)).
  - unfold listen. by destruct (state (tcb h)).
  - pose proof (send_wait (tcb h) data) as E. destruct (send _ data). by apply H0.
  - pose proof (reserve_wait (tcb h) max) as E. destruct (send_reserve _ max). by apply H0.
  - pose proof (commit_wait (tcb h) n) as E. destruct (send_commit _ n). by apply H0.
  - pose proof (recv_wait (tcb h) dst) as E. destruct (recv _ dst) as [[? ?] ?]. by apply H0.
  - apply H1. by apply close_lives.
  - left. by apply (abort_closes _ _ _ _ (tcb h) Hi).
  - unfold extract_packet. destruct (TxRing.pop_into _ _ _) as [[? ?] ?]. by apply H0.
  - unfold extract_packet_with. destruct (TxRing.pop_with _ _ _) as [? ?]. by apply H0.
  - by apply (tick_ends _ _ _ _ (tcb h) Hi).
Qed.

Lemma silent_run es : forall h, reachable h -> waiting (tcb h) -> Forall event_wf es -> Forall (fun e => silent e = true) es ->
  (exists k, state (tcb (fst (run h (take k es)))) = Closed) \/ Z.of_nat (timeouts h es) < budget (tcb h).
Proof using Cok.
  induction es as [|e es IH]; intros h Hr Hw He Hs.
  { right. cbn. unfold budget. pose proof (b2z_le (tlp_ready (tcb h))). lia. }
  apply Forall_cons in He as [He1 He], Hs as [Hs1 Hs]. pose proof (reachable_ok h Hr) as [(m & w & Hi) _].
  pose proof (reach_step h e Hr He1) as Hr1.
  destruct (silent_step h e Hr Hs1 Hw) as [H|H].
  { left. exists 1%nat. cbn [take firstn run]. destruct (step h e) as [h1 o]. exact H. }
  pose proof (lives_waiting _ _ _ _ _ REACH _ _ Hi ltac:(done) Hw H) as Hw1. destruct H as (_ & Hb & _).
  destruct (IH _ Hr1 Hw1 He Hs) as [(k & Hk)|Hlt].
  - left. exists (S k). cbn [take run]. destruct (step h e) as [h1 o]. cbn [fst] in *. destruct (run h1 (take k es)). exact Hk.
  - right. cbn [timeouts]. destruct (expires h e); cbn [b2z] in Hb; lia.
Qed.

(** C8 A silent peer is given up: if data (or a FIN) is outstanding and nothing
    arrives any more, then whatever else the host calls and however it runs the
    clock, the connection is closed by the time ticks have found the
    retransmission timer expired [MAX_RETRANSMITS] + 2 times (fewer if some
    retransmissions are already counted; one expiry may go to a tail-loss
    probe). *)
Theorem silent_peer_is_given_up h es
    (Hr : reachable h) (Hm : may_transmit (state (tcb h)) = true) (Hne : snd_una (tcb h) <> snd_nxt (tcb h))
    (Hw : Forall event_wf es) (Hs : Forall (fun e => silent e = true) es)
    (Ht : Z.max 1 (MAX_RETRANSMITS + 1 - rtx_count (tcb h)) + 1 <= Z.of_nat (timeouts h es)) :
  exists k, state (tcb (fst (run h (take k es)))) = Closed.
Proof using Cok.
  destruct (silent_run es h Hr (conj Hm Hne) Hw Hs) as [H|H]; [exact H|].
  unfold budget in H. pose proof (b2z_le (tlp_ready (tcb h))). lia.
Qed.

End Giveup.

(** ** Instances *)

Import Scenario.

(** The peer never answers; the host ticks every hundred seconds and has turned
    the USER TIMEOUT, which would act first, off. *)
Definition a_alone : list event := UserTimeout 0 :: mjoin ((fun i => [Now (100000 * (1 + Z.of_nat i)); Tick; ExtractWith; ExtractWith]) <$> seq 0 12).

Lemma silent_peer_is_given_up_witness :
  timeouts (C := demo) (after a1 a_events) a_alone = 12%nat /\ exists k, state (tcb (fst (@run demo (after a1 a_events) (take k a_alone)))) = Closed.
Proof.
  assert (E : timeouts (C := demo) (after a1 a_events) a_alone = 12%nat) by (vm_compute; reflexivity). split; [exact E|].
  apply (@silent_peer_is_given_up demo demo_ok); [exact busy_reachable|vm_compute; reflexivity|apply Z.eqb_neq; vm_compute; reflexivity
    |decide_closed|decide_closed|rewrite E; apply Z.leb_le; vm_compute; reflexivity].
Defined.
