(* ===== verification/Ffi.v ===== *)
(** * The C boundary (src/ffi.rs)

    Every exported function over a model of the memory it is handed: the
    storage blocks the host gave to [tcp_init], and the host's own bytes,
    [usize] cells and output structs.  A call that leaves what its safety
    contract allows (a dangling pointer, storage never initialised) has no
    result: [None] stands for undefined behaviour.  The separate stores are
    the contract's disjointness: handles, buffers and out-parameters do not
    overlap. *)
From stdpp Require Import gmap.
From S2P Require Import Prelude Error Seq State Effect Ring Ooo TxRing Wire RtxQueue Rack Congestion.
From S2P Require Import Tcb TcbAck TcbOutput Cookie TcbInput TcbTimers TcbApi.
Import Tcb.

(** ** What the boundary copies out *)

Module Snapshot.

Record t := mk {
  snd_una : Z;
  snd_nxt : Z;
  snd_wnd : Z;
  rcv_nxt : Z;
  cwnd : Z;
  ssthresh : Z;
  rto_ms : Z;
  rto_deadline : Z;
  now_ms : Z;
  send_ring_len : Z;
  recv_ring_len : Z;
  oo_start : Z;
  oo_len : Z;
  tx_len : Z;
  pending_ack : bool;
  dup_ack_count : Z;
  state : Z;
}.

End Snapshot.

Section Copies.
Context `{C : Config}.

(** [CaState as u8] *)
Definition ca_code (c : CaState) : Z :=
  match c with CaOpen => 0 | CaRecovery => 1 | CaLoss => 2 | CaCwr => 3 end.

Definition debug_snapshot (self : t) : Snapshot.t :=
  Snapshot.mk (snd_una self) (snd_nxt self) (snd_wnd self) (rcv_nxt self) (Reno.cwnd (cc self)) (Reno.ssthresh (cc self))
    (rto_ms self) (default (M64 - 1) (Deadline.get (rto_deadline self))) (now_ms self)
    (as_u32 (Ring.len (send_ring self))) (as_u32 (Ring.len (recv_ring self)))
    (default 0 (Ooo.first_start (ooo self))) (Ooo.held_bytes (ooo self))
    (as_u32 (default 0 (TxRing.peek_head_len (tx_ring self)))) (pending_ack self) (dup_acks self) (state_code (state self)).

(** [Tcb::stats]: the counters, with the gauges filled in. *)
Definition stats_of (self : t) : Stats.t :=
  let s := stats self in
  let s := s <| Stats.srtt_ms := srtt_ms self |> in
  let s := s <| Stats.rttvar_ms := rttvar_ms self |> in
  let s := s <| Stats.min_rtt_ms := default 0 (WinMin.get (Rack.min_rtt (rack self))) |> in
  let s := s <| Stats.rto_ms := rto_ms self |> in
  let s := s <| Stats.cwnd := Reno.cwnd (cc self) |> in
  let s := s <| Stats.ssthresh := Reno.ssthresh (cc self) |> in
  let s := s <| Stats.pipe := pipe self |> in
  let s := s <| Stats.mss := mss_payload self |> in
  let s := s <| Stats.snd_wnd := snd_wnd self |> in
  let s := s <| Stats.rcv_wnd := rcv_wnd self |> in
  let s := s <| Stats.ca_state := ca_code (Reno.state (cc self)) |> in
  s <| Stats.state := state_code (state self) |>.

End Copies.

(** ** Memory *)

Definition NULL : Z := 0.
Definition MAGIC_LIVE : Z := 0x54435031.
Definition MAGIC_DEAD : Z := 0x44454144.

(** [TcpStreamHandle]; [inner] is [None] while uninitialised or dropped. *)
Record TcpStreamHandle := mkHandle { magic : Z; inner : option t }.

(** The host's memory, by address; what is absent may not be touched. *)
Record HostMem := mkHostMem {
  hbytes : gmap Z Z;
  hwords : gmap Z Z;
  hstats : gmap Z Stats.t;
  hsnaps : gmap Z Snapshot.t;
}.

Record Mem := mkMem { blocks : gmap Z TcpStreamHandle; host : HostMem }.

Definition load (hm : HostMem) (p n : Z) : option (list Z) := mapM (fun a => hbytes hm !! a) (seqZ p n).

(** Stores [bs] at [p]; every address must be the host's to write. *)
Definition store (hm : HostMem) (p : Z) (bs : list Z) : option HostMem :=
  if bool_decide (Forall (fun a => is_Some (hbytes hm !! a)) (seqZ p (zlen bs))) then
    Some (mkHostMem (list_to_map (zip (seqZ p (zlen bs)) bs) ∪ hbytes hm) (hwords hm) (hstats hm) (hsnaps hm))
  else None.

(** ** Helpers; the inner [None] is the Rust [None], the outer one undefined
    behaviour. *)

Definition read_array (n : Z) (hm : HostMem) (p : Z) : option (option (list Z)) :=
  if p =? NULL then Some None else Some <$> load hm p n.

Definition read_ip (hm : HostMem) (p : Z) : option (option (list Z)) := read_array 4 hm p.
Definition read16 (hm : HostMem) (p : Z) : option (option (list Z)) := read_array 16 hm p.

Definition in_slice (hm : HostMem) (p len : Z) : option (option (list Z)) :=
  if len =? 0 then Some (Some []) else
  if p =? NULL then Some None else Some <$> load hm p len.

(** The borrowed contents; the callee's stores go back with [store]. *)
Definition out_slice (hm : HostMem) (p len : Z) : option (option (list Z)) :=
  if len =? 0 then Some (Some []) else
  if p =? NULL then Some None else Some <$> load hm p len.

Definition write_out (hm : HostMem) (p v : Z) : option HostMem :=
  if p =? NULL then Some hm else
  if bool_decide (is_Some (hwords hm !! p)) then
    Some (mkHostMem (hbytes hm) (<[p := v]> (hwords hm)) (hstats hm) (hsnaps hm))
  else None.

(** [validate]: the connection behind a live handle. *)
Definition validate (m : Mem) (h : Z) : option (option t) :=
  if h =? NULL then Some None else
  b ← blocks m !! h;
  if negb (magic b =? MAGIC_LIVE) then Some None else
  s ← inner b; Some (Some s).

Definition code {A} (r : Res A) : Z := match r with Ok _ => 0 | Err e => as_code e end.

Definition with_handle (m : Mem) (h : Z) (f : HostMem -> t -> option (HostMem * (t * Res unit))) : option (Mem * Z) :=
  if h =? NULL then Some (m, as_code NullPointer) else
  b ← blocks m !! h;
  if negb (magic b =? MAGIC_LIVE) then Some (m, as_code NullPointer) else
  s ← inner b;
  '(hm, (s', r)) ← f (host m) s;
  Some (mkMem (<[h := mkHandle (magic b) (Some s')]> (blocks m)) hm, code r).

(** A closure that touches only the connection. *)
Definition pure (f : t -> t * Res unit) (hm : HostMem) (s : t) : option (HostMem * (t * Res unit)) := Some (hm, f s).

(** [let n = ...?; write_out(out, n); Ok(())] *)
Definition report (hm : HostMem) (out : Z) (s : t) (r : Res Z) : option (HostMem * (t * Res unit)) :=
  match r with
  | Err e => Some (hm, (s, Err e))
  | Ok n => hm ← write_out hm out n; Some (hm, (s, Ok tt))
  end.

(** [let Some(x) = ... else { return NullPointer }] *)
Definition or_null {A} (m : Mem) (o : option (option A)) (k : A -> option (Mem * Z)) : option (Mem * Z) :=
  x ← o; match x with None => Some (m, as_code NullPointer) | Some a => k a end.

Section Ffi.
Context `{C : Config}.
(** [align_of::<TcpStreamHandle>()], fixed by the target. *)
Variable ALIGN : Z.

(** ** Lifecycle *)

Definition tcp_handle_align : Z := ALIGN.
Definition tcp_abi_version : Z := 2.
Definition tcp_max_packet : Z := MAX_PACKET.

Definition tcp_init (m : Mem) (storage local_ip local_port remote_ip remote_port iss initial_rto_ms : Z) : option (Mem * Z) :=
  if storage =? NULL then Some (m, as_code NullPointer) else
  if negb (storage mod tcp_handle_align =? 0) then Some (m, as_code InvalidState) else
  local ← read_ip (host m) local_ip;
  remote ← read_ip (host m) remote_ip;
  match local, remote with
  | Some local, Some remote =>
      let cfg := mkTcbConfig (mkEndpoint local local_port) (mkEndpoint remote remote_port) iss initial_rto_ms in
      match new cfg with
      | Err e => Some (mkMem (<[storage := mkHandle MAGIC_DEAD None]> (blocks m)) (host m), as_code e)
      | Ok s => Some (mkMem (<[storage := mkHandle MAGIC_LIVE (Some s)]> (blocks m)) (host m), 0)
      end
  | _, _ => Some (m, as_code NullPointer)
  end.

Definition tcp_destroy (m : Mem) (h : Z) : option (Mem * Z) :=
  if h =? NULL then Some (m, 0) else
  b ← blocks m !! h;
  if negb (magic b =? MAGIC_LIVE) then Some (m, as_code InvalidState) else
  _ ← inner b;
  Some (mkMem (<[h := mkHandle MAGIC_DEAD None]> (blocks m)) (host m), 0).

(** ** Connection control *)

Definition tcp_connect (m : Mem) (h now : Z) := with_handle m h (pure (fun s => connect (set_now s now))).
Definition tcp_listen (m : Mem) (h now : Z) := with_handle m h (pure (fun s => listen (set_now s now))).

Definition tcp_set_cookie_secret (m : Mem) (h secret : Z) : option (Mem * Z) :=
  or_null m (read16 (host m) secret) (fun key => with_handle m h (pure (fun s => (set_cookie_secret s key, Ok tt)))).

Definition tcp_set_secret (m : Mem) (h secret : Z) : option (Mem * Z) :=
  or_null m (read16 (host m) secret) (fun key => with_handle m h (pure (fun s => (set_secret s key, Ok tt)))).

Definition tcp_set_mtu (m : Mem) (h mtu : Z) := with_handle m h (pure (fun s => set_mtu s mtu)).

Definition tcp_update_pmtu (m : Mem) (h now mtu : Z) :=
  with_handle m h (pure (fun s => (update_pmtu (set_now s now) mtu, Ok tt))).

Definition tcp_close (m : Mem) (h now : Z) := with_handle m h (pure (fun s => close (set_now s now))).

Definition tcp_set_keepalive (m : Mem) (h now idle_ms intvl_ms count : Z) :=
  with_handle m h (pure (fun s => (set_keepalive (set_now s now) idle_ms intvl_ms count, Ok tt))).

Definition tcp_set_user_timeout (m : Mem) (h now ms : Z) :=
  with_handle m h (pure (fun s => (set_user_timeout (set_now s now) ms, Ok tt))).

Definition tcp_set_fin_wait2_timeout (m : Mem) (h now ms : Z) :=
  with_handle m h (pure (fun s => (set_fin_wait2_timeout (set_now s now) ms, Ok tt))).

Definition tcp_abort (m : Mem) (h now : Z) := with_handle m h (pure (fun s => abort (set_now s now))).
Definition tcp_tick (m : Mem) (h now : Z) := with_handle m h (pure (fun s => tick (set_now s now))).

(** ** Queries *)

Definition tcp_state (m : Mem) (h : Z) : option Z :=
  x ← validate m h; Some (match x with Some s => state_code (state s) | None => 0xFF end).

Definition tcp_next_deadline (m : Mem) (h : Z) : option Z :=
  x ← validate m h; Some (match x with Some s => default (M64 - 1) (next_deadline s) | None => M64 - 1 end).

Definition tcp_poll (m : Mem) (h : Z) : option Z :=
  x ← validate m h; Some (match x with Some s => poll s | None => 0 end).

(** ** Data *)

Definition tcp_send (m : Mem) (h data len out_written : Z) : option (Mem * Z) :=
  or_null m (in_slice (host m) data len) (fun slice =>
    with_handle m h (fun hm s => let '(s, r) := send s slice in report hm out_written s r)).

Definition tcp_recv (m : Mem) (h buf cap out_read : Z) : option (Mem * Z) :=
  or_null m (out_slice (host m) buf cap) (fun slice =>
    with_handle m h (fun hm s =>
      let '(s, r, slice) := recv s slice in
      hm ← store hm buf slice; report hm out_read s r)).

(** ** Datagrams *)

Definition tcp_inject_packet (m : Mem) (h packet len now : Z) : option (Mem * Z) :=
  or_null m (in_slice (host m) packet len) (fun slice =>
    with_handle m h (pure (fun s => inject_packet (set_now s now) slice))).

Definition tcp_extract_packet (m : Mem) (h buf cap out_written : Z) : option (Mem * Z) :=
  or_null m (out_slice (host m) buf cap) (fun slice =>
    with_handle m h (fun hm s =>
      let '(s, r, slice) := extract_packet s slice in
      hm ← store hm buf slice; report hm out_written s r)).

(** ** Statistics *)

Definition tcp_get_stats (m : Mem) (h out : Z) : option (Mem * Z) :=
  x ← validate m h;
  match x with
  | None => Some (m, as_code InvalidState)
  | Some s =>
      if out =? NULL then Some (m, as_code NullPointer) else
      let hm := host m in
      if bool_decide (is_Some (hstats hm !! out)) then
        Some (mkMem (blocks m) (mkHostMem (hbytes hm) (hwords hm) (<[out := stats_of s]> (hstats hm)) (hsnaps hm)), 0)
      else None
  end.

Definition tcp_debug_snapshot (m : Mem) (h out : Z) : option (Mem * Z) :=
  x ← validate m h;
  match x with
  | None => Some (m, as_code InvalidState)
  | Some s =>
      if out =? NULL then Some (m, as_code NullPointer) else
      let hm := host m in
      if bool_decide (is_Some (hsnaps hm !! out)) then
        Some (mkMem (blocks m) (mkHostMem (hbytes hm) (hwords hm) (hstats hm) (<[out := debug_snapshot s]> (hsnaps hm))), 0)
      else None
  end.

(** ** Any call *)

Inductive call :=
  | Init (storage local_ip local_port remote_ip remote_port iss initial_rto_ms : Z)
  | Destroy (h : Z)
  | Connect_ (h now : Z)
  | Listen__ (h now : Z)
  | SetCookieSecret_ (h secret : Z)
  | SetSecret_ (h secret : Z)
  | SetMtu_ (h mtu : Z)
  | UpdatePmtu_ (h now mtu : Z)
  | Close_ (h now : Z)
  | SetKeepalive (h now idle_ms intvl_ms count : Z)
  | SetUserTimeout (h now ms : Z)
  | SetFinWait2Timeout (h now ms : Z)
  | Abort_ (h now : Z)
  | Tick_ (h now : Z)
  | Send_ (h data len out_written : Z)
  | Recv_ (h buf cap out_read : Z)
  | InjectPacket (h packet len now : Z)
  | ExtractPacket (h buf cap out_written : Z)
  | GetStats (h out : Z)
  | DebugSnapshot_ (h out : Z).

Definition ffi (m : Mem) (c : call) : option (Mem * Z) :=
  match c with
  | Init st l lp r rp i rto => tcp_init m st l lp r rp i rto
  | Destroy h => tcp_destroy m h
  | Connect_ h now => tcp_connect m h now
  | Listen__ h now => tcp_listen m h now
  | SetCookieSecret_ h k => tcp_set_cookie_secret m h k
  | SetSecret_ h k => tcp_set_secret m h k
  | SetMtu_ h x => tcp_set_mtu m h x
  | UpdatePmtu_ h now x => tcp_update_pmtu m h now x
  | Close_ h now => tcp_close m h now
  | SetKeepalive h now i n c => tcp_set_keepalive m h now i n c
  | SetUserTimeout h now x => tcp_set_user_timeout m h now x
  | SetFinWait2Timeout h now x => tcp_set_fin_wait2_timeout m h now x
  | Abort_ h now => tcp_abort m h now
  | Tick_ h now => tcp_tick m h now
  | Send_ h p n o => tcp_send m h p n o
  | Recv_ h p n o => tcp_recv m h p n o
  | InjectPacket h p n now => tcp_inject_packet m h p n now
  | ExtractPacket h p n o => tcp_extract_packet m h p n o
  | GetStats h o => tcp_get_stats m h o
  | DebugSnapshot_ h o => tcp_debug_snapshot m h o
  end.

End Ffi.
