(* ===== verification/FfiProps.v ===== *)
(** * What the C boundary promises

    A C program that keeps the documented safety contracts, and may do what it
    likes with its own memory: every call has a result (the library performs
    no undefined behaviour), touches only the handle it was given, and is a run
    of the interface TcbRun.v describes, so that every theorem about runs
    holds of a connection behind a handle. *)
From stdpp Require Import gmap.
From S2P Require Import Prelude Error Seq State Effect Ring RingStore Sack Ooo TxRing Bytes Checksum Options Wire WireWf RtxQueue Rack RtxCover.
From S2P Require Import Congestion Tcb TcbAck TcbOutput Cookie TcbInput TcbTimers TcbApi TcbRx TcbFrame TcbTx TcbEmit TcbSend TcbInv TcbOpen TcbSys TcbRun Scenario TcbValid TcbProps Ffi.
Import Tcb RtxCover.

(** ** The contract *)

Definition readable (hm : HostMem) (p n : Z) : Prop := forall a, p <= a < p + n -> is_Some (hbytes hm !! a).

(** "point to [n] bytes, or NULL" *)
Definition array_ok (hm : HostMem) (p n : Z) : Prop := p = NULL \/ readable hm p n.

(** "point to [len] bytes (or be NULL with [len == 0])"; NULL with a length is
    refused, not undefined. *)
Definition buffer_ok (hm : HostMem) (p len : Z) : Prop := 0 <= len /\ (len = 0 \/ array_ok hm p len).

Definition out_ok (hm : HostMem) (o : Z) : Prop := o = NULL \/ is_Some (hwords hm !! o).

(** "NULL or initialised by [tcp_init]" *)
Definition handle_ok (m : Mem) (h : Z) : Prop := h = NULL \/ is_Some (blocks m !! h).

Definition contract (m : Mem) (c : call) : Prop :=
  let hm := host m in
  match c with
  | Init _ l _ r _ iss _ => array_ok hm l 4 /\ array_ok hm r 4 /\ is_u32 iss
  | Destroy h | SetMtu_ h _ => handle_ok m h
  | SetCookieSecret_ h k | SetSecret_ h k => handle_ok m h /\ array_ok hm k 16
  | Connect_ h now | Listen__ h now | UpdatePmtu_ h now _ | Close_ h now | SetKeepalive h now _ _ _
  | SetUserTimeout h now _ | SetFinWait2Timeout h now _ | Abort_ h now | Tick_ h now => handle_ok m h /\ is_u64 now
  | Send_ h p n o | Recv_ h p n o | ExtractPacket h p n o => handle_ok m h /\ buffer_ok hm p n /\ out_ok hm o
  | InjectPacket h p n now =>
      handle_ok m h /\ buffer_ok hm p n /\ is_u64 now /\ (forall bs, load hm p n = Some bs -> bytes bs)
  | GetStats h o => handle_ok m h /\ (o = NULL \/ is_Some (hstats hm !! o))
  | DebugSnapshot_ h o => handle_ok m h /\ (o = NULL \/ is_Some (hsnaps hm !! o))
  end.

(** ** The run a call stands for *)

Definition slice_of (x : option (option (list Z))) : option (list Z) := mjoin x.

Definition acts (m : Mem) (c : call) : option (Z * list event) :=
  match c with
  | Init _ _ _ _ _ _ _ | Destroy _ | GetStats _ _ | DebugSnapshot_ _ _ => None
  | Connect_ h now => Some (h, [Now now; Connect])
  | Listen__ h now => Some (h, [Now now; Listen_])
  | SetCookieSecret_ h k => (fun key => (h, [SetCookieSecret key])) <$> slice_of (read16 (host m) k)
  | SetSecret_ h k => (fun key => (h, [SetSecret key])) <$> slice_of (read16 (host m) k)
  | SetMtu_ h x => Some (h, [SetMtu x])
  | UpdatePmtu_ h now x => Some (h, [Now now; UpdatePmtu x])
  | Close_ h now => Some (h, [Now now; Close])
  | SetKeepalive h now i n k => Some (h, [Now now; Keepalive i n k])
  | SetUserTimeout h now x => Some (h, [Now now; UserTimeout x])
  | SetFinWait2Timeout h now x => Some (h, [Now now; FinWait2Timeout x])
  | Abort_ h now => Some (h, [Now now; Abort])
  | Tick_ h now => Some (h, [Now now; Tick])
  | Send_ h p n _ => (fun d => (h, [Send d])) <$> slice_of (in_slice (host m) p n)
  | Recv_ h p n _ => (fun d => (h, [Recv d])) <$> slice_of (out_slice (host m) p n)
  | InjectPacket h p n now => (fun d => (h, [Now now; Inject d])) <$> slice_of (in_slice (host m) p n)
  | ExtractPacket h p n _ => (fun d => (h, [Extract d])) <$> slice_of (out_slice (host m) p n)
  end.

(** The handle a call names. *)
Definition target (c : call) : Z :=
  match c with
  | Init h _ _ _ _ _ _ | Destroy h | Connect_ h _ | Listen__ h _ | SetCookieSecret_ h _ | SetSecret_ h _ | SetMtu_ h _
  | UpdatePmtu_ h _ _ | Close_ h _ | SetKeepalive h _ _ _ _ | SetUserTimeout h _ _ | SetFinWait2Timeout h _ _ | Abort_ h _
  | Tick_ h _ | Send_ h _ _ _ | Recv_ h _ _ _ | InjectPacket h _ _ _ | ExtractPacket h _ _ _ | GetStats h _ | DebugSnapshot_ h _ => h
  end.

(** What the outputs of a run say to C: a status, and the bytes that moved. *)
Definition status_code (os : list Output) : Z := match last os with Some o => match failed o with Some e => as_code e | None => 0 end | None => 0 end.
Definition moved (o : Output) : list Z := delivered o ++ accepted o ++ mjoin (sent o).
Definition moved_by (os : list Output) : list Z := mjoin (moved <$> os).

Definition live (m : Mem) (h : Z) (s : t) : Prop := blocks m !! h = Some (mkHandle MAGIC_LIVE (Some s)).
Definition dead (m : Mem) (h : Z) : Prop := h = NULL \/ blocks m !! h = Some (mkHandle MAGIC_DEAD None).

(** What the call leaves in the host's memory when its run moved [bs] and ended
    with status [r]. *)
Definition handed (c : call) (hm hm' : HostMem) (r : Z) (bs : list Z) : Prop :=
  match c with
  | Send_ _ _ _ o => hbytes hm' = hbytes hm /\ (r = 0 -> o <> NULL -> hwords hm' !! o = Some (zlen bs))
  | Recv_ _ p _ o | ExtractPacket _ p _ o =>
      r = 0 -> load hm' p (zlen bs) = Some bs /\ (o <> NULL -> hwords hm' !! o = Some (zlen bs))
  | _ => hm' = hm
  end.

(** ** Host memory *)

Lemma load_Some hm p n : readable hm p n -> exists bs, load hm p n = Some bs /\ length bs = Z.to_nat n.
Proof.
  intros Hr. destruct (mapM (fun a => hbytes hm !! a) (seqZ p n)) as [bs|] eqn:E.
  - exists bs. split; [exact E|]. apply mapM_Some, Forall2_length in E. by rewrite length_seqZ in E.
  - exfalso. apply eq_None_not_Some in E. apply E, mapM_is_Some, Forall_forall. intros a Ha%elem_of_seqZ. by apply Hr.
Qed.

Lemma array_Some n hm p : array_ok hm p n ->
  (p = NULL /\ read_array n hm p = Some None) \/
  (p <> NULL /\ exists bs, read_array n hm p = Some (Some bs) /\ length bs = Z.to_nat n).
Proof.
  intros H. unfold read_array. destruct (Z.eqb_spec p NULL) as [->|Hn]; [by left|right]. split; [done|].
  destruct H as [->|H]; [done|]. destruct (load_Some hm p n H) as (bs & -> & Hl). by exists bs.
Qed.

Lemma slice_Some hm p n : buffer_ok hm p n ->
  (n <> 0 /\ p = NULL /\ in_slice hm p n = Some None) \/
  (exists bs, in_slice hm p n = Some (Some bs) /\ zlen bs = n /\ (n = 0 \/ (p <> NULL /\ readable hm p n)) /\ load hm p n = Some bs).
Proof.
  intros [Hn H]. unfold in_slice. destruct (Z.eqb_spec n 0) as [->|Hz].
  - right. exists []. split_and!; try done. by left.
  - destruct (Z.eqb_spec p NULL) as [->|Hp]; [by left|right]. destruct H as [?|[?|H]]; try done.
    destruct (load_Some hm p n H) as (bs & E & Hl). rewrite E. exists bs. split_and!; try done; [|by right]. unfold zlen. lia.
Qed.

Lemma store_Some hm p bs : (bs = [] \/ readable hm p (zlen bs)) ->
  exists hm', store hm p bs = Some hm' /\ hwords hm' = hwords hm /\ load hm' p (zlen bs) = Some bs.
Proof.
  intros Hr. unfold store.
  assert (Ha : Forall (fun a => is_Some (hbytes hm !! a)) (seqZ p (zlen bs))).
  { apply Forall_forall. intros a Ha%elem_of_seqZ. destruct Hr as [->|Hr]; [unfold zlen in Ha; cbn in Ha; lia|by apply Hr]. }
  rewrite bool_decide_eq_true_2 by done. eexists. split; [done|]. split; [done|]. unfold load. cbn [hbytes].
  apply mapM_Some. apply Forall2_same_length_lookup. rewrite length_seqZ. split; [unfold zlen; lia|].
  intros i a b Hi Hb. apply lookup_union_Some_l, elem_of_list_to_map; [|apply list_elem_of_lookup; exists i; by apply lookup_zip_with_Some; eauto].
  rewrite fst_zip; [apply NoDup_seqZ|]. rewrite length_seqZ. unfold zlen. lia.
Qed.

(** ** Calls through a handle *)

Section Calls.
Context `{C : Config} {Cok : ConfigOk C}.
Variable ALIGN : Z.

(** A live handle holds a connection some run reaches; any other block was
    destroyed or failed to initialise. *)
Definition sound (m : Mem) : Prop :=
  forall h b, blocks m !! h = Some b -> h <> NULL /\
    ((exists s, b = mkHandle MAGIC_LIVE (Some s) /\ reachable (mkHost s None)) \/ b = mkHandle MAGIC_DEAD None).

Lemma sound_insert m hm h b : sound m -> h <> NULL ->
  (exists s, b = mkHandle MAGIC_LIVE (Some s) /\ reachable (mkHost s None)) \/ b = mkHandle MAGIC_DEAD None ->
  sound (mkMem (<[h := b]> (blocks m)) hm).
Proof using.
  intros Hs Hn Hb h' b' H. cbn [blocks] in H. apply lookup_insert_Some in H as [[<- <-]|[_ H]]; [exact (conj Hn Hb)|exact (Hs _ _ H)].
Qed.

Lemma sound_host m hm : sound m -> sound (mkMem (blocks m) hm).
Proof using. intros Hs. exact Hs. Qed.

Lemma handle_cases m h : sound m -> handle_ok m h -> dead m h \/ (h <> NULL /\ exists s, live m h s /\ reachable (mkHost s None)).
Proof using.
  intros Hs [->|[b Hb]]; [by left; left|].
  destruct (Hs h b Hb) as [Hn [(s & -> & Hr)| ->]]; [right; eauto|by left; right].
Qed.

Lemma with_dead m h f : dead m h -> with_handle m h f = Some (m, as_code NullPointer).
Proof using.
  unfold with_handle. intros [->|E]; [done|]. case_if; [done|]. by rewrite E.
Qed.

Lemma with_live m h s f hm s' r : h <> NULL -> live m h s -> f (host m) s = Some (hm, (s', r)) ->
  with_handle m h f = Some (mkMem (<[h := mkHandle MAGIC_LIVE (Some s')]> (blocks m)) hm, code r).
Proof using.
  intros Hn E Hf. unfold with_handle. apply Z.eqb_neq in Hn. rewrite Hn, E. cbn [mbind option_bind magic inner].
  change (MAGIC_LIVE =? MAGIC_LIVE) with true. cbn [negb]. by rewrite Hf.
Qed.

Lemma validate_dead m h : dead m h -> validate m h = Some None.
Proof using. unfold validate. intros [->|E]; [done|]. case_if; [done|]. by rewrite E. Qed.

Lemma validate_live m h s : h <> NULL -> live m h s -> validate m h = Some (Some s).
Proof using. intros Hn E. unfold validate. apply Z.eqb_neq in Hn. by rewrite Hn, E. Qed.

(** The outcome of a call through a live handle: the run [es]. *)
Definition ran (m : Mem) (c : call) (h : Z) (es : list event) (s : t) : Prop :=
  let r := run (mkHost s None) es in
  exists hm', ffi ALIGN m c = Some (mkMem (<[h := mkHandle MAGIC_LIVE (Some (tcb (fst r)))]> (blocks m)) hm', status_code (snd r)) /\
    loan (fst r) = None /\ handed c (host m) hm' (status_code (snd r)) (moved_by (snd r)).

Lemma ran_pure m c h es s f : h <> NULL -> live m h s ->
  ffi ALIGN m c = with_handle m h (pure f) -> (forall r bs, handed c (host m) (host m) r bs) ->
  let r := run (mkHost s None) es in
  fst r = mkHost (fst (f s)) None -> status_code (snd r) = code (snd (f s)) -> ran m c h es s.
Proof using.
  intros Hn Hl E Hh r H1 H2. unfold ran. cbv zeta. fold r. exists (host m). rewrite H1, H2. cbn [tcb loan]. split; [|done].
  rewrite E. apply (with_live m h s (pure f) _ _ _ Hn Hl). unfold pure. by destruct (f s).
Qed.

Lemma status_call {A} o (r : Res A) : status_code [o; status r] = code r.
Proof using. by destruct r. Qed.

Lemma act_clocked m h now s c e f : h <> NULL -> live m h s ->
  ffi ALIGN m c = with_handle m h (pure f) -> (forall r bs, handed c (host m) (host m) r bs) ->
  (forall s, step (mkHost (set_now s now) None) e = (mkHost (fst (f s)) None, status (snd (f s)))) -> ran m c h [Now now; e] s.
Proof using.
  intros Hn Hl E Hh Hs. apply (ran_pure m c h _ s f Hn Hl E Hh); cbn [run step tcb loan]; rewrite Hs; [done|apply status_call].
Qed.

Lemma act_once m h s c e f : h <> NULL -> live m h s ->
  ffi ALIGN m c = with_handle m h (pure f) -> (forall r bs, handed c (host m) (host m) r bs) ->
  (forall s, step (mkHost s None) e = (mkHost (fst (f s)) None, status (snd (f s)))) -> ran m c h [e] s.
Proof using.
  intros Hn Hl E Hh Hs. apply (ran_pure m c h _ s f Hn Hl E Hh); cbn [run]; rewrite Hs; [done|]. by destruct (snd (f s)).
Qed.

Lemma or_null_Some {A} (m : Mem) (a : A) k : or_null m (Some (Some a)) k = k a.
Proof using. done. Qed.

(** *** Calls that copy *)

Lemma write_out_Some hm o n : out_ok hm o ->
  exists hm', write_out hm o n = Some hm' /\ hbytes hm' = hbytes hm /\ (o <> NULL -> hwords hm' !! o = Some n).
Proof using.
  intros Ho. unfold write_out. destruct (Z.eqb_spec o NULL) as [->|Hn]; [by exists hm|]. destruct Ho as [?|Ho]; [done|].
  rewrite bool_decide_eq_true_2 by done. eexists. split_and!; [done|done|]. intros _. cbn. by rewrite lookup_insert_eq.
Qed.

Definition unit_res {A} (r : Res A) : Res unit := match r with Ok _ => Ok tt | Err e => Err e end.

Lemma code_unit {A} (r : Res A) : code (unit_res r) = code r.
Proof using. by destruct r. Qed.

Lemma report_Some hm o s r : out_ok hm o ->
  exists hm', report hm o s r = Some (hm', (s, unit_res r)) /\ hbytes hm' = hbytes hm /\
    match r with Ok n => o <> NULL -> hwords hm' !! o = Some n | Err _ => True end.
Proof using.
  intros Ho. destruct r as [n|e]; cbn [report].
  - destruct (write_out_Some hm o n Ho) as (hm' & E & H1 & H2). rewrite E. by exists hm'.
  - by exists hm.
Qed.

Lemma send_moves s d n : sane s -> snd (send s d) = Ok n -> zlen (take (Z.to_nat n) d) = n.
Proof using Cok.
  intros (m & w & Hi) E. destruct (send_inv Any m Any w s d Hi ltac:(done)) as (n' & Hn & _ & _ & _ & _ & H). rewrite E in H.
  destruct H as [-> ->]. rewrite zlen_take. pose proof (zlen_nonneg d). lia.
Qed.

(** What [recv] leaves in the buffer. *)
Lemma recv_fills s d : sane s ->
  let '(s', r, d') := recv s d in
  zlen d' = zlen d /\ match r with Ok n => exists out, d' = out ++ drop (length out) d /\ n = zlen out | Err _ => True end.
Proof using Cok.
  intros (m & w & Hi). pose proof (recv_inv Any m Any w s d Hi) as H. destruct (recv s d) as [[s' r] d'].
  destruct H as (out & -> & Hl & _ & _ & _ & Hr). split.
  - unfold zlen in *. rewrite length_app, length_drop. lia.
  - destruct r; [by exists out|done].
Qed.

Lemma extract_fills s d : sane s ->
  let '(s', r, d') := extract_packet s d in
  zlen d' = zlen d /\ match r with Ok n => exists out, d' = out ++ drop (length out) d /\ n = zlen out | Err _ => True end.
Proof using Cok.
  intros (m & w & _ & k & _ & He). unfold extract_packet.
  pose proof (TxRing.pop_into_spec TXQ MAX_PACKET txq_pos (tx_ring s) d (eg_ring _ _ He)) as Hs.
  destruct (TxRing.pop_into TXQ (tx_ring s) d) as [[r d'] res]. destruct Hs as [_ [_|p q1 _ _|p q1 _ Hp]].
  - split; [done|]. exists []. done.
  - done.
  - split; [unfold zlen in *; rewrite length_app, length_drop; lia|]. by exists p.
Qed.

Lemma filled_take (out d : list Z) : take (Z.to_nat (zlen out)) (out ++ drop (length out) d) = out.
Proof using. unfold zlen. rewrite Nat2Z.id, take_app_length. done. Qed.

Lemma load_take hm p d n : load hm p (zlen d) = Some d -> 0 <= n <= zlen d -> load hm p n = Some (take (Z.to_nat n) d).
Proof using.
  unfold load. rewrite !mapM_Some. intros H Hn. assert (E : seqZ p n = take (Z.to_nat n) (seqZ p (zlen d))).
  { apply list_eq. intros i. destruct (decide (i < Z.to_nat n)%nat) as [Hi|Hi].
    - rewrite lookup_take_lt by done. rewrite !lookup_seqZ_lt by lia. done.
    - rewrite lookup_take_ge by lia. apply lookup_seqZ_ge. lia. }
  rewrite E. by apply Forall2_take.
Qed.

Lemma act_send m h p n o d s : sane s -> h <> NULL -> live m h s -> out_ok (host m) o -> in_slice (host m) p n = Some (Some d) ->
  ran m (Send_ h p n o) h [Send d] s.
Proof using Cok.
  intros Hs Hn Hl Ho Hd. pose proof (send_moves s d) as Hm. destruct (send s d) as [s' r] eqn:E.
  destruct (report_Some (host m) o s' r Ho) as (hm' & Er & H1 & H2). unfold ran. cbn [run step]. cbn [tcb]. rewrite E. cbv zeta. cbn [fst snd tcb loan].
  exists hm'. split; [|split; [done|]].
  - cbn [ffi]. unfold tcp_send. rewrite Hd, or_null_Some. rewrite (with_live m h s _ hm' s' (unit_res r) Hn Hl); [rewrite code_unit; by destruct r|]. by rewrite E.
  - split; [exact H1|]. destruct r as [k|e]; [|intros Hz; by destruct e]. intros _ Hno. rewrite (H2 Hno). f_equal.
    unfold moved_by, moved. cbn. rewrite !app_nil_r. symmetry. apply Hm; done.
Qed.

(** The outcome of a call that fills the host's buffer [d] at [p]. *)
Lemma ran_fill m c h p o e d s s' r d' out os :
  h <> NULL -> live m h s -> out_ok (host m) o -> (zlen d = 0 \/ readable (host m) p (zlen d)) ->
  ffi ALIGN m c = with_handle m h (fun hm s => hm ← store hm p d'; report hm o s' r) ->
  (forall hm bs, handed c (host m) hm (code r) bs <-> (code r = 0 -> load hm p (zlen bs) = Some bs /\ (o <> NULL -> hwords hm !! o = Some (zlen bs)))) ->
  run (mkHost s None) [e] = (mkHost s' None, [os]) -> failed os = err r -> (forall k, r = Ok k -> moved os = out /\ zlen out = k) ->
  zlen d' = zlen d -> (forall k, r = Ok k -> d' = out ++ drop (length out) d) -> ran m c h [e] s.
Proof using.
  intros Hn Hl Ho Hd E Hh Hr Hf Hm Hz Hd'. unfold ran. rewrite Hr. cbv zeta. cbn [fst snd tcb loan].
  assert (Es : status_code [os] = code r) by (unfold status_code, code; cbn; rewrite Hf; by destruct r).
  destruct (store_Some (host m) p d') as (hm1 & E1 & Hw1 & Hl1).
  { rewrite Hz. destruct Hd as [H0|H0]; [left|by right]. apply nil_length_inv. unfold zlen in *. lia. }
  destruct (report_Some hm1 o s' r) as (hm' & Er & H1 & H2); [unfold out_ok in *; by rewrite Hw1|].
  exists hm'. rewrite Es. split; [|split; [done|]].
  - rewrite E. rewrite (with_live m h s _ hm' s' (unit_res r) Hn Hl); [by rewrite code_unit|]. by rewrite E1.
  - apply Hh. destruct r as [k|x]; [|by destruct x]. intros _. destruct (Hm k eq_refl) as [E2 E3]. specialize (Hd' k eq_refl).
    assert (Eb : moved_by [os] = out) by (unfold moved_by; cbn; by rewrite app_nil_r).
    rewrite Eb, E3. split; [|exact H2]. rewrite <- (filled_take out d), <- Hd', E3. unfold load. rewrite H1. fold (load hm1 p k).
    apply load_take; [exact Hl1|]. rewrite <- E3, Hd'. unfold zlen. rewrite length_app. lia.
Qed.

Lemma slice_readable hm p n d : buffer_ok hm p n -> in_slice hm p n = Some (Some d) -> zlen d = 0 \/ readable hm p (zlen d).
Proof using.
  intros Hb E. destruct (slice_Some hm p n Hb) as [(_ & _ & E')|(bs & E' & Hl & [H0|[_ Hr]] & _)]; rewrite E in E'; [done| |];
    injection E' as <-; [left; congruence|right; by rewrite Hl].
Qed.

Lemma act_recv m h p n o d s : sane s -> h <> NULL -> live m h s -> buffer_ok (host m) p n -> out_ok (host m) o ->
  out_slice (host m) p n = Some (Some d) -> ran m (Recv_ h p n o) h [Recv d] s.
Proof using Cok.
  intros Hs Hn Hl Hb Ho Hd. pose proof (recv_fills s d Hs) as Hf. destruct (recv s d) as [[s' r] d'] eqn:E. destruct Hf as [Hz Hf].
  set (out := match r with Ok k => take (Z.to_nat k) d' | Err _ => [] end).
  assert (Ho' : forall k, r = Ok k -> d' = out ++ drop (length out) d /\ zlen out = k).
  { intros k ->. destruct Hf as (x & -> & ->). unfold out. by rewrite filled_take. }
  apply (ran_fill m _ h p o _ d s s' r d' out (mkOutput out [] [] (err r)) Hn Hl Ho (slice_readable _ _ _ _ Hb Hd)); try done.
  - cbn [ffi]. unfold tcp_recv. rewrite Hd, or_null_Some. unfold with_handle. rewrite Hl. cbn [mbind option_bind inner]. by rewrite E.
  - cbn [run step]. cbn [tcb]. by rewrite E.
  - intros k Hk. split; [unfold moved; cbn; by rewrite !app_nil_r|]. by apply Ho'.
  - intros k Hk. by apply (Ho' k).
Qed.

Lemma act_extract m h p n o d s : sane s -> h <> NULL -> live m h s -> buffer_ok (host m) p n -> out_ok (host m) o ->
  out_slice (host m) p n = Some (Some d) -> ran m (ExtractPacket h p n o) h [Extract d] s.
Proof using Cok.
  intros Hs Hn Hl Hb Ho Hd. pose proof (extract_fills s d Hs) as Hf. destruct (extract_packet s d) as [[s' r] d'] eqn:E. destruct Hf as [Hz Hf].
  set (out := match r with Ok k => take (Z.to_nat k) d' | Err _ => [] end).
  assert (Ho' : forall k, r = Ok k -> d' = out ++ drop (length out) d /\ zlen out = k).
  { intros k ->. destruct Hf as (x & -> & ->). unfold out. by rewrite filled_take. }
  apply (ran_fill m _ h p o _ d s s' r d' out
    (mkOutput [] [] (match r with Ok n => if n =? 0 then [] else [take (Z.to_nat n) d'] | Err _ => [] end) (err r))
    Hn Hl Ho (slice_readable _ _ _ _ Hb Hd)); try done.
  - cbn [ffi]. unfold tcp_extract_packet. rewrite Hd, or_null_Some. unfold with_handle. rewrite Hl. cbn [mbind option_bind inner]. by rewrite E.
  - cbn [run step]. cbn [tcb]. by rewrite E.
  - intros k Hk. destruct (Ho' k Hk) as [_ E2]. split; [|done]. unfold moved. rewrite Hk. cbn. unfold out in *. rewrite Hk in *.
    destruct (Z.eqb_spec k 0) as [->|_]; [done|]. cbn. by rewrite app_nil_r.
  - intros k Hk. by apply (Ho' k).
Qed.

(** Through a live handle every call is its run. *)
Lemma act_live m c h es s : sane s -> contract m c -> acts m c = Some (h, es) -> h <> NULL -> live m h s -> ran m c h es s.
Proof using Cok.
  intros Hs Hc Ha Hn Hl. destruct c; cbn [acts contract] in *; try discriminate; try (injection Ha as <- <-);
    try (by eapply act_clocked; [exact Hn|exact Hl|reflexivity|done|reflexivity]);
    try (by eapply act_once; [exact Hn|exact Hl|reflexivity|done|reflexivity]);
    apply fmap_Some in Ha as (d & Hd & [= -> ->]); apply bind_Some in Hd as (x & Hd & ->).
  - apply (act_once m _ s _ _ (fun s => (set_cookie_secret s d, Ok tt)) Hn Hl); [|done|reflexivity].
    cbn [ffi]. unfold tcp_set_cookie_secret. by rewrite Hd.
  - apply (act_once m _ s _ _ (fun s => (set_secret s d, Ok tt)) Hn Hl); [|done|reflexivity].
    cbn [ffi]. unfold tcp_set_secret. by rewrite Hd.
  - apply act_send; try done. apply Hc.
  - apply act_recv; try done; apply Hc.
  - apply (act_clocked m _ now s _ _ (fun s => inject_packet (set_now s now) d) Hn Hl); [|done|reflexivity].
    cbn [ffi]. unfold tcp_inject_packet. by rewrite Hd.
  - apply act_extract; try done; apply Hc.
Qed.

(** *** Every call *)

Definition through (c : call) : bool :=
  match c with Init _ _ _ _ _ _ _ | Destroy _ | GetStats _ _ | DebugSnapshot_ _ _ => false | _ => true end.

Lemma or_null_refused {A} m (x : option (option A)) k h f : is_Some x -> dead m h ->
  (forall a, k a = with_handle m h (f a)) -> or_null m x k = Some (m, as_code NullPointer).
Proof using. intros [[a|] ->] Hd Hk; [|done]. cbn. rewrite Hk. by apply with_dead. Qed.

Lemma array_defined n hm p : array_ok hm p n -> is_Some (read_array n hm p).
Proof using. intros [[_ ->]|(_ & bs & -> & _)]%array_Some; eauto. Qed.

Lemma slice_defined hm p n : buffer_ok hm p n -> is_Some (in_slice hm p n).
Proof using. intros [(_ & _ & ->)|(bs & -> & _)]%slice_Some; eauto. Qed.

Lemma dead_refused m c : through c = true -> contract m c -> dead m (target c) -> ffi ALIGN m c = Some (m, as_code NullPointer).
Proof using.
  intros Ht Hc Hd. destruct c; try discriminate; cbn [contract target ffi] in *; try (by apply with_dead).
  - eapply or_null_refused; [apply array_defined, Hc|exact Hd|reflexivity].
  - eapply or_null_refused; [apply array_defined, Hc|exact Hd|reflexivity].
  - eapply or_null_refused; [apply slice_defined, Hc|exact Hd|reflexivity].
  - eapply (or_null_refused _ (in_slice (host m) buf cap)); [apply slice_defined, Hc|exact Hd|reflexivity].
  - eapply or_null_refused; [apply slice_defined, Hc|exact Hd|reflexivity].
  - eapply (or_null_refused _ (in_slice (host m) buf cap)); [apply slice_defined, Hc|exact Hd|reflexivity].
Qed.

Lemma array_refused n hm p : array_ok hm p n -> slice_of (read_array n hm p) = None -> read_array n hm p = Some None.
Proof using. intros [[_ ->]|(_ & bs & -> & _)]%array_Some; done. Qed.

Lemma slice_refused hm p n : buffer_ok hm p n -> slice_of (in_slice hm p n) = None -> in_slice hm p n = Some None.
Proof using. intros [(_ & _ & ->)|(bs & -> & _)]%slice_Some; done. Qed.

(** Events whose well-formedness is in the contract. *)
Ltac wf_events := repeat (apply Forall_cons; split); try apply Forall_nil_2; cbn [event_wf]; tauto.

(** A call through a handle either names a run or is refused for a NULL buffer. *)
Lemma acts_or_null m c : through c = true -> contract m c ->
  (exists es, acts m c = Some (target c, es) /\ Forall event_wf es) \/ ffi ALIGN m c = Some (m, as_code NullPointer).
Proof using.
  intros Ht Hc. destruct c; try discriminate; cbn [contract target acts] in *;
    try (left; eexists; split; [reflexivity|]; solve [wf_events]);
    match goal with |- context [slice_of ?x] => destruct (slice_of x) as [d|] eqn:Hd end;
    try (left; eexists; split; [reflexivity|]; solve [wf_events]).
  - right. cbn [ffi]. unfold tcp_set_cookie_secret, read16. by rewrite (array_refused 16 _ _ (proj2 Hc) Hd).
  - right. cbn [ffi]. unfold tcp_set_secret, read16. by rewrite (array_refused 16 _ _ (proj2 Hc) Hd).
  - right. cbn [ffi]. unfold tcp_send. by rewrite (slice_refused _ _ _ (proj1 (proj2 Hc)) Hd).
  - right. cbn [ffi]. unfold tcp_recv. change out_slice with in_slice. by rewrite (slice_refused _ _ _ (proj1 (proj2 Hc)) Hd).
  - left. eexists. split; [reflexivity|]. destruct Hc as (_ & Hb & Hu & Hbs).
    apply bind_Some in Hd as (x & Hd & ->). destruct (slice_Some _ _ _ Hb) as [(_ & _ & E)|(bs & E & _ & _ & El)]; rewrite Hd in E; [done|].
    injection E as <-. apply Forall_cons. split; [exact Hu|]. apply Forall_cons. split; [exact (Hbs d El)|apply Forall_nil_2].
  - right. cbn [ffi]. unfold tcp_inject_packet. by rewrite (slice_refused _ _ _ (proj1 (proj2 Hc)) Hd).
  - right. cbn [ffi]. unfold tcp_extract_packet. change out_slice with in_slice. by rewrite (slice_refused _ _ _ (proj1 (proj2 Hc)) Hd).
Qed.

(** What any call may do: it has a result, keeps handles sound, leaves other
    handles alone, and does nothing through a dead one. *)
Record safe (m : Mem) (c : call) (m' : Mem) (r : Z) : Prop := mk_safe {
  sf_sound : sound m';
  sf_code : r = 0 \/ exists e, r = as_code e;
  sf_others : forall h, h <> target c -> blocks m' !! h = blocks m !! h;
  sf_dead : dead m (target c) -> match c with Init _ _ _ _ _ _ _ => True | _ => m' = m end;
}.

Lemma safe_same m c r : sound m -> (r = 0 \/ exists e, r = as_code e) -> safe m c m r.
Proof using. intros Hs Hr. split; [done|done|done|]. by destruct c. Qed.

Lemma safe_insert m c hm h b r : sound m -> h = target c -> h <> NULL -> (dead m h -> match c with Init _ _ _ _ _ _ _ => True | _ => False end) ->
  (exists s, b = mkHandle MAGIC_LIVE (Some s) /\ reachable (mkHost s None)) \/ b = mkHandle MAGIC_DEAD None ->
  (r = 0 \/ exists e, r = as_code e) -> safe m c (mkMem (<[h := b]> (blocks m)) hm) r.
Proof using.
  intros Hs -> Hn0 Hd Hb Hr. split; [by apply sound_insert|done| |].
  - intros h Hn. cbn [blocks]. by rewrite lookup_insert_ne.
  - intros H. specialize (Hd H). by destruct c.
Qed.

Lemma live_not_dead m h s : h <> NULL -> live m h s -> ~ dead m h.
Proof using. intros Hn E [?|E']; [done|]. unfold live in E. rewrite E in E'. discriminate. Qed.

Lemma init_safe m st l lp r rp i rto : sound m -> contract m (Init st l lp r rp i rto) ->
  exists m' x, ffi ALIGN m (Init st l lp r rp i rto) = Some (m', x) /\ safe m (Init st l lp r rp i rto) m' x.
Proof using Cok.
  intros Hs (Hl & Hr & Hi). cbn [ffi]. unfold tcp_init, read_ip.
  destruct (Z.eqb_spec st NULL) as [->|Hst]; [eexists _, _; split; [done|]; apply safe_same; [done|by right; exists NullPointer]|].
  case_if; [eexists _, _; split; [done|]; apply safe_same; [done|by right; exists InvalidState]|].
  destruct (array_Some 4 _ _ Hl) as [[_ ->]|(_ & lb & -> & Hll)], (array_Some 4 _ _ Hr) as [[_ ->]|(_ & rb & -> & Hrl)];
    cbn [mbind option_bind]; try (eexists _, _; split; [done|]; apply safe_same; [done|by right; exists NullPointer]).
  cbv zeta. set (cfg := mkTcbConfig _ _ _ _). assert (Hc : cfg_wf cfg) by by split_and!.
  destruct (new cfg) as [s|e] eqn:E; eexists _, _; (split; [done|]); apply safe_insert; try done.
  - left. exists s. split; [done|]. by apply (reach_new cfg).
  - by left.
  - by right.
  - by right; exists e.
Qed.

Lemma destroy_safe m h : sound m -> handle_ok m h -> exists m' x, ffi ALIGN m (Destroy h) = Some (m', x) /\ safe m (Destroy h) m' x.
Proof using.
  intros Hs Hh. cbn [ffi]. unfold tcp_destroy. destruct (handle_cases m h Hs Hh) as [[->|E]|(Hn & s & E & _)].
  - eexists _, _. split; [done|]. apply safe_same; [done|by left].
  - case_if; [eexists _, _; split; [done|]; apply safe_same; [done|by left]|]. rewrite E. cbn.
    eexists _, _. split; [done|]. apply safe_same; [done|by right; exists InvalidState].
  - pose proof (live_not_dead m h s Hn E) as Hd. pose proof Hn as Hn'. apply Z.eqb_neq in Hn'. rewrite Hn', E. cbn.
    eexists _, _. split; [done|]. apply safe_insert; [done|done|done|done|by right|by left].
Qed.

(** The two calls that copy a struct out. *)
Lemma copy_safe m c h (w : t -> Mem) o : target c = h -> sound m -> handle_ok m h ->
  (forall s, blocks (w s) = blocks m) -> match c with Init _ _ _ _ _ _ _ => False | _ => True end ->
  ffi ALIGN m c = (x ← validate m h; match x with None => Some (m, as_code InvalidState)
    | Some s => if o =? NULL then Some (m, as_code NullPointer) else Some (w s, 0) end) ->
  exists m' x, ffi ALIGN m c = Some (m', x) /\ safe m c m' x.
Proof using.
  intros Ht Hs Hh Hw Hi E. rewrite E. destruct (handle_cases m h Hs Hh) as [Hd|(Hn & s & El & _)].
  - rewrite (validate_dead m h Hd). cbn. eexists _, _. split; [done|]. apply safe_same; [done|by right; exists InvalidState].
  - rewrite (validate_live m h s Hn El). cbn. case_if; [eexists _, _; split; [done|]; apply safe_same; [done|by right; exists NullPointer]|].
    eexists _, _. split; [done|]. split; [|by left|by rewrite Hw|].
    + intros h' b Hb. rewrite Hw in Hb. by apply (Hs h').
    + intros Hd. rewrite Ht in Hd. by apply live_not_dead in El.
Qed.

Lemma contract_handle m c : through c = true -> contract m c -> handle_ok m (target c).
Proof using. intros Ht Hc. destruct c; try discriminate; (exact Hc || exact (proj1 Hc)). Qed.

Lemma ffi_safe m c : sound m -> contract m c -> exists m' x, ffi ALIGN m c = Some (m', x) /\ safe m c m' x.
Proof using Cok.
  intros Hs Hc. destruct (through c) eqn:Ht.
  - assert (Hnull : forall r, ffi ALIGN m c = Some (m, as_code r) -> exists m' x, ffi ALIGN m c = Some (m', x) /\ safe m c m' x).
    { intros r E. exists m, (as_code r). split; [exact E|]. apply safe_same; [done|by right; exists r]. }
    destruct (acts_or_null m c Ht Hc) as [(es & Ha & Hw)|E]; [|exact (Hnull _ E)].
    destruct (handle_cases m _ Hs (contract_handle m c Ht Hc)) as [Hd|(Hn & s & Hl & Hr)]; [exact (Hnull _ (dead_refused m c Ht Hc Hd))|].
    destruct (act_live m c _ es s (proj1 (reachable_ok _ Hr)) Hc Ha Hn Hl) as (hm & E & El & _).
    eexists _, _. split; [exact E|]. apply safe_insert; [done|done|done| | |].
    + intros Hd. by apply live_not_dead in Hl.
    + left. eexists. split; [reflexivity|]. pose proof (reachable_run es _ Hr Hw) as H.
      destruct (fst (run (mkHost s None) es)) as [s1 l1]. cbn [loan tcb] in *. by rewrite El in H.
    + unfold status_code. destruct (last _) as [o|]; [|by left]. destruct (failed o) as [e|]; [right; by exists e|by left].
  - destruct c; try discriminate; cbn [contract] in Hc.
    + by apply init_safe.
    + by apply destroy_safe.
    + apply (copy_safe m _ h (fun s => mkMem (blocks m) (mkHostMem (hbytes (host m)) (hwords (host m)) (<[out := stats_of s]> (hstats (host m))) (hsnaps (host m)))) out); try done; [apply Hc|].
      cbn [ffi]. unfold tcp_get_stats. destruct (validate m h) as [[s|]|]; cbn; [|done|done].
      destruct (Z.eqb_spec out NULL); [done|]. destruct Hc as [_ [?|Ho]]; [done|]. by rewrite bool_decide_eq_true_2.
    + apply (copy_safe m _ h (fun s => mkMem (blocks m) (mkHostMem (hbytes (host m)) (hwords (host m)) (hstats (host m)) (<[out := debug_snapshot s]> (hsnaps (host m))))) out); try done; [apply Hc|].
      cbn [ffi]. unfold tcp_debug_snapshot. destruct (validate m h) as [[s|]|]; cbn; [|done|done].
      destruct (Z.eqb_spec out NULL); [done|]. destruct Hc as [_ [?|Ho]]; [done|]. by rewrite bool_decide_eq_true_2.
Qed.

(** ** Every C program *)

Inductive c_reachable : Mem -> Prop :=
  | c_start hm : c_reachable (mkMem ∅ hm)
  | c_call m c m' r : c_reachable m -> contract m c -> ffi ALIGN m c = Some (m', r) -> c_reachable m'
  | c_host m hm : c_reachable m -> c_reachable (mkMem (blocks m) hm).

Lemma c_sound m : c_reachable m -> sound m.
Proof using Cok.
  induction 1 as [hm|m c m' r _ IH Hc E|m hm _ IH]; [by intros h b|..|exact (sound_host m hm IH)].
  destruct (ffi_safe m c IH Hc) as (m2 & x & E2 & Hs). rewrite E in E2. injection E2 as <- <-. apply Hs.
Qed.

(** C10 The C boundary is safe for every program that keeps the documented
    contracts: whatever it called before and whatever it did with its own
    memory, a call within its contract has a result (the library performs no
    undefined behaviour), returns 0 or a defined error code, leaves every handle
    but the one it names alone, does nothing at all through a NULL or destroyed
    handle, and every live handle holds a connection that passes the library's
    self-check. *)
Theorem c_calls_are_safe m c (Hr : c_reachable m) (Hc : contract m c) :
  exists m' r, ffi ALIGN m c = Some (m', r) /\ (r = 0 \/ exists e, r = as_code e) /\
    (forall h s, live m' h s -> debug_validate_invariants s = true) /\
    (forall h, h <> target c -> blocks m' !! h = blocks m !! h) /\
    (dead m (target c) -> match c with Init _ _ _ _ _ _ _ => True | _ => m' = m end).
Proof using Cok.
  destruct (ffi_safe m c (c_sound m Hr) Hc) as (m' & r & E & [H1 H2 H3 H4]). exists m', r. split_and!; try done.
  intros h s Hl. destruct (H1 h _ Hl) as [_ [(s' & [= <-] & Hs)|?]]; [|done]. apply sane_valid. exact (proj1 (reachable_ok _ Hs)).
Qed.

(** C9 A C call is a run of the interface: through a live handle it performs
    exactly the events it stands for (set the clock, then the operation), on a
    connection some run reached; its status is the run's, the handle holds the
    run's final state, and its buffer and out-parameter receive exactly the
    bytes the run handed out and their count. *)
Theorem c_calls_are_runs m c h es s (Hr : c_reachable m) (Hc : contract m c) (Ha : acts m c = Some (h, es)) (Hl : live m h s) :
  let r := run (mkHost s None) es in
  reachable (mkHost s None) /\
  exists hm', ffi ALIGN m c = Some (mkMem (<[h := mkHandle MAGIC_LIVE (Some (tcb (fst r)))]> (blocks m)) hm', status_code (snd r)) /\
    handed c (host m) hm' (status_code (snd r)) (moved_by (snd r)).
Proof using Cok.
  destruct (c_sound m Hr h _ Hl) as [Hn [(s' & [= <-] & Hs)|?]]; [|done]. split; [exact Hs|].
  destruct (act_live m c h es s (proj1 (reachable_ok _ Hs)) Hc Ha Hn Hl) as (hm & E & _ & Hh). by exists hm.
Qed.

End Calls.

(** ** Instances *)

Lemma readable_check hm p n : forallb (fun a => bool_decide (is_Some (hbytes hm !! a))) (seqZ p n) = true -> readable hm p n.
Proof.
  intros H a Ha. rewrite forallb_forall in H. specialize (H a). apply bool_decide_eq_true in H; [done|].
  apply list_elem_of_In, elem_of_seqZ. lia.
Qed.

(** A C program that opens a connection and takes the SYN out. *)
Module CScenario.

Definition hm0 : HostMem :=
  mkHostMem (list_to_map (zip (seqZ 100 8) [10; 0; 0; 1; 10; 0; 0; 2] ++ zip (seqZ 200 128) (replicate 128 0))) {[ 400 := 0 ]} ∅ ∅.

Definition after (m : Mem) (c : call) : Mem := match @ffi demo 8 m c with Some (m', _) => m' | None => m end.

Definition m0 : Mem := mkMem ∅ hm0.
Definition init : call := Init 64 100 1000 104 80 1000 1000.
Definition m1 : Mem := after m0 init.
Definition m2 : Mem := after m1 (Connect_ 64 5).
Definition extract : call := ExtractPacket 64 200 128 400.
Definition s2 : t := match blocks m2 !! 64 with Some b => default (@zeroed demo) (inner b) | None => @zeroed demo end.

Lemma after_reachable m c : @c_reachable demo 8 m -> contract m c -> @c_reachable demo 8 (after m c).
Proof.
  intros Hr Hc. unfold after. destruct (@ffi demo 8 m c) as [[m' r]|] eqn:E; [|done]. by apply (@c_call demo 8 m c m' r).
Qed.

Lemma m2_reachable : @c_reachable demo 8 m2.
Proof.
  apply after_reachable; [apply after_reachable; [apply c_start|]|].
  - split_and!; [right; apply readable_check; vm_compute; reflexivity|right; apply readable_check; vm_compute; reflexivity|done].
  - split; [|done]. right. apply (bool_decide_unpack _). vm_compute. exact I.
Qed.

Lemma extract_contract : contract m2 extract.
Proof.
  split; [right; apply (bool_decide_unpack _); vm_compute; exact I|]. split.
  - split; [done|]. right. right. apply readable_check. vm_compute. reflexivity.
  - right. apply (bool_decide_unpack _). vm_compute. exact I.
Qed.

End CScenario.

Lemma c_calls_are_safe_witness :
  exists m' r, @ffi demo 8 CScenario.m2 (Tick_ 64 3000) = Some (m', r) /\ (r = 0 \/ exists e, r = as_code e).
Proof.
  assert (Hc : contract CScenario.m2 (Tick_ 64 3000)).
  { split; [|done]. right. apply (bool_decide_unpack _). vm_compute. exact I. }
  destruct (@c_calls_are_safe demo demo_ok 8 CScenario.m2 (Tick_ 64 3000) CScenario.m2_reachable Hc) as (m' & r & E & Hr & _).
  exists m', r. exact (conj E Hr).
Defined.

Lemma c_calls_are_runs_witness :
  exists hm', (exists m' r, @ffi demo 8 CScenario.m2 CScenario.extract = Some (m', r) /\ host m' = hm' /\ r = 0) /\
    load hm' 200 60 = Some (moved_by (snd (@run demo (mkHost CScenario.s2 None) [Extract (replicate 128 0)]))).
Proof.
  assert (Ha : acts CScenario.m2 CScenario.extract = Some (64, [Extract (replicate 128 0)])) by (vm_compute; reflexivity).
  assert (Hl : live CScenario.m2 64 CScenario.s2) by (vm_compute; reflexivity).
  destruct (@c_calls_are_runs demo demo_ok 8 _ _ _ _ _ CScenario.m2_reachable CScenario.extract_contract Ha Hl) as [_ (hm' & E & Hh)].
  assert (Hz : status_code (snd (@run demo (mkHost CScenario.s2 None) [Extract (replicate 128 0)])) = 0) by (vm_compute; reflexivity).
  assert (Hn : zlen (moved_by (snd (@run demo (mkHost CScenario.s2 None) [Extract (replicate 128 0)]))) = 60) by (vm_compute; reflexivity).
  exists hm'. split; [eexists _, _; split; [exact E|]; split; [reflexivity|exact Hz]|].
  destruct (Hh Hz) as [H _]. rewrite Hn in H. exact H.
Defined.
