(* ===== verification/Selftest.v ===== *)
(** * The built-in self-test (src/selftest.rs)

    Two connections joined by an in-memory wire that exchange a known byte
    pattern in both directions and close.  The driver is modelled as written,
    over any capacities, transfer size and iteration budget; a small instance
    is run to its end. *)
From S2P Require Import Prelude Error State Effect Ring TxRing Checksum Wire RtxQueue Tcb Cookie TcbInput TcbTimers TcbApi TcbEmit TcbOpen Scenario.
Import Tcb.

Module Self.

Definition SELFTEST_BUF : Z := 16 * 1024.
Definition SELFTEST_XFER : Z := 128 * 1024.

(** [mod result]. *)
Module result.
Definition OK : Z := 0.
Definition INIT_FAILED : Z := -1.
Definition SETUP_FAILED : Z := -2.
Definition DATA_MISMATCH : Z := -3.
Definition NO_CONVERGENCE : Z := -4.
Definition INTERNAL_ERROR : Z := -5.
End result.

Definition cfg (iss : Z) (local remote : list Z * Z) : TcbConfig :=
  mkTcbConfig (mkEndpoint (fst local) (snd local)) (mkEndpoint (fst remote) (snd remote)) iss 1000.

Definition pat (stream offset : Z) : Z := Z.shiftr (wmul32 (Z.lxor stream offset) 2654435761) 24.

Definition CLI_STREAM : Z := 1.
Definition SRV_STREAM : Z := 2147483649.

Section Drive.
Context `{C : Config}.
Variable XFER : Z.

(** The locals of [run]. *)
Record Drive := mkDrive {
  cli : t;
  srv : t;
  now : Z;
  cli_sent : Z;
  cli_recv : Z;
  srv_sent : Z;
  srv_recv : Z;
  closing : bool;
  pkt : list Z;
  rbuf : list Z;
}.

(** One of the two ferry loops: packets go from [a] to [b] until [a] has none.
    Extraction only takes packets away, so one round per staged packet and one
    to find the ring empty are enough. *)
Fixpoint ferry_loop (fuel : nat) (a b : t) (pkt : list Z) : option (t * t * list Z) :=
  match fuel with
  | O => Some (a, b, pkt)
  | S fuel =>
      let '(a, r, pkt) := extract_packet a pkt in
      match r with
      | Err _ => None
      | Ok n =>
          if n =? 0 then Some (a, b, pkt) else
          let b := match get_range pkt 0 n with Some slice => fst (inject_packet b slice) | None => b end in
          ferry_loop fuel a b pkt
      end
  end.

Definition ferry (a b : t) (pkt : list Z) : option (t * t * list Z) :=
  ferry_loop (S (Z.to_nat (TxRing.len (tx_ring a)))) a b pkt.

(** Offer more data: the bytes written. *)
Definition offer (s : t) (stream sent : Z) : t * Z :=
  if state_eqb (state s) Established && (sent <? XFER) then
    let take := Z.min 4096 (XFER - sent) in
    let src := (fun i => pat stream (wadd32 sent (as_u32 i))) <$> seqZ 0 take in
    let '(s, r) := send s src in
    (s, match r with Ok w => as_u32 w | Err _ => 0 end)
  else (s, 0).

(** Drain and verify: the bytes read, or [None] on a mismatch. *)
Definition drain (s : t) (rbuf : list Z) (stream received : Z) : t * list Z * option Z :=
  let '(s, r, rbuf) := recv s rbuf in
  (s, rbuf,
   match r with
   | Ok n =>
       if forallb (fun i => bool_decide (get rbuf i = Some (pat stream (wadd32 received (as_u32 i))))) (seqZ 0 n)
       then Some (as_u32 n) else None
   | Err _ => Some 0
   end).

Definition closed_or_waiting (s : t) : bool := match state s with Closed | TimeWait => true | _ => false end.

(** The end of an iteration: close once everything is transferred, and stop
    when both sides are done. *)
Definition finish (d : Drive) : Drive + Z :=
  let complete := negb (closing d) && (cli_sent d =? XFER) && (cli_recv d =? XFER) && (srv_sent d =? XFER) && (srv_recv d =? XFER) in
  let after :=
    if complete then
      let '(c, r1) := close (cli d) in
      match r1 with
      | Err _ => inr result.INTERNAL_ERROR
      | Ok _ =>
          let '(s, r2) := close (srv d) in
          match r2 with
          | Err _ => inr result.INTERNAL_ERROR
          | Ok _ => inl (mkDrive c s (now d) (cli_sent d) (cli_recv d) (srv_sent d) (srv_recv d) true (pkt d) (rbuf d))
          end
      end
    else inl d in
  match after with
  | inr x => inr x
  | inl d => if closing d && closed_or_waiting (cli d) && closed_or_waiting (srv d) then inr result.OK else inl d
  end.

(** One iteration of [run]: the next state, or the result. *)
Definition iteration (d : Drive) : Drive + Z :=
  let now := now d + 1 in
  let '(c, r1) := tick (set_now (cli d) now) in
  match r1 with Err _ => inr result.INTERNAL_ERROR | Ok _ =>
  let '(s, r2) := tick (set_now (srv d) now) in
  match r2 with Err _ => inr result.INTERNAL_ERROR | Ok _ =>
  match ferry c s (pkt d) with None => inr result.INTERNAL_ERROR | Some (c, s, pkt) =>
  match ferry s c pkt with None => inr result.INTERNAL_ERROR | Some (s, c, pkt) =>
  let '(c, w1) := offer c CLI_STREAM (cli_sent d) in
  let '(s, w2) := offer s SRV_STREAM (srv_sent d) in
  let '(c, buf, n1) := drain c (rbuf d) SRV_STREAM (cli_recv d) in
  match n1 with None => inr result.DATA_MISMATCH | Some n1 =>
  let '(s, buf, n2) := drain s buf CLI_STREAM (srv_recv d) in
  match n2 with None => inr result.DATA_MISMATCH | Some n2 =>
  finish (mkDrive c s now (wadd32 (cli_sent d) w1) (wadd32 (cli_recv d) n1) (wadd32 (srv_sent d) w2) (wadd32 (srv_recv d) n2) (closing d) pkt buf)
  end end end end end end.

Fixpoint iterate (budget : nat) (d : Drive) : Z :=
  match budget with
  | O => result.NO_CONVERGENCE
  | S budget => match iteration d with inl d => iterate budget d | inr x => x end
  end.

Definition run (budget : nat) (cli srv : t) : Z :=
  let cli := set_now cli 0 in
  let srv := set_secret (set_now srv 0) (replicate 16 94) in
  let '(srv, r1) := listen srv in
  match r1 with Err _ => result.SETUP_FAILED | Ok _ =>
  let '(cli, r2) := connect cli in
  match r2 with Err _ => result.SETUP_FAILED | Ok _ =>
  iterate budget (mkDrive cli srv 0 0 0 0 0 false (replicate (Z.to_nat MAX_PACKET) 0) (replicate 4096 0))
  end end.

Definition self_conformance (budget : nat) : Z :=
  match new (cfg 286331153 ([10; 0; 0; 1], 40000) ([10; 0; 0; 2], 80)) with
  | Err _ => result.INIT_FAILED
  | Ok cli =>
      match new (cfg 2576980377 ([10; 0; 0; 2], 80) ([10; 0; 0; 1], 40000)) with
      | Err _ => result.INIT_FAILED
      | Ok srv => run budget cli srv
      end
  end.

End Drive.

(** [tcp_selftest] on a target of endianness [e], in a build with the given [BUF_CAP]. *)
Definition selftest_config (e : Endian) (buf_cap : Z) : Config :=
  {| en := e; BUF := SELFTEST_BUF; RTX := RTX_QUEUE_CAP; TXQ := TxRing.TX_RING_CAP; BUF_CAP := buf_cap |}.

Definition tcp_selftest (e : Endian) (buf_cap : Z) : Z := @self_conformance (selftest_config e buf_cap) SELFTEST_XFER (Z.to_nat 4000000).

(** ** The ferry

    A ferry loop cannot fail and does not stop early: it leaves the sender's
    ring empty and hands the receiver exactly the staged packets, in order. *)

Section Ferry.
Context `{C : Config} {Cok : ConfigOk C}.

Definition delivered (b : t) (ps : list (list Z)) : t := foldl (fun b p => fst (inject_packet b p)) b ps.

Lemma ferry_pop (r : TxRing.t) (pkt : list Z) :
  TxRing.wf TXQ MAX_PACKET r -> zlen pkt = MAX_PACKET ->
  match TxRing.packets TXQ r with
  | [] => TxRing.pop_into TXQ r pkt = (r, pkt, Ok 0)
  | p :: q => exists r', TxRing.pop_into TXQ r pkt = (r', p ++ drop (length p) pkt, Ok (zlen p)) /\
      TxRing.wf TXQ MAX_PACKET r' /\ TxRing.packets TXQ r' = q /\ 0 < zlen p <= MAX_PACKET
  end.
Proof using Cok.
  intros Hw Hz. destruct (decide (TxRing.len r = 0)) as [Hl|Hl].
  { rewrite (proj2 (TxRing.packets_nil TXQ MAX_PACKET r Hw) Hl). unfold TxRing.pop_into. by rewrite Hl. }
  pose proof (TxRing.wf_len _ _ _ Hw).
  destruct (TxRing.pop_packets TXQ MAX_PACKET txq_pos r Hw ltac:(lia)) as (slot & _ & Hn & Hb & _ & Hp).
  pose proof (TxRing.pop_into_spec TXQ MAX_PACKET txq_pos r pkt Hw) as H0.
  assert (Hlen : zlen (take (Z.to_nat (TxRing.slen slot)) (TxRing.sbuf slot)) = TxRing.slen slot) by (rewrite zlen_take; lia).
  rewrite Hp in *. set (p := take _ _) in *. set (q := TxRing.packets TXQ _) in *.
  destruct (TxRing.pop_into TXQ r pkt) as [[r' out] res]. destruct H0 as [Hw' Hr].
  remember (TxRing.packets TXQ r') as q' eqn:Hq'.
  destruct Hr as [|p0 q0 [= <- <-]|p0 q0 [= <- <-]]; [done|lia|]. exists r'. split_and!; [done..|lia|lia].
Qed.

Lemma ferry_loop_delivers ps : forall fuel a b pkt,
  (length ps < fuel)%nat -> TxRing.wf TXQ MAX_PACKET (tx_ring a) -> zlen pkt = MAX_PACKET ->
  TxRing.packets TXQ (tx_ring a) = ps ->
  exists a' pkt', ferry_loop fuel a b pkt = Some (a', delivered b ps, pkt') /\
    TxRing.packets TXQ (tx_ring a') = [] /\ zlen pkt' = MAX_PACKET.
Proof using Cok.
  induction ps as [|p ps IH]; intros [|fuel] a b pkt Hf Hw Hz Hps; try (cbn in Hf; lia);
    pose proof (ferry_pop _ _ Hw Hz) as Hp; rewrite Hps in Hp; cbn [ferry_loop]; unfold extract_packet.
  - rewrite Hp. exists (a <| tx_ring := tx_ring a |>), pkt. done.
  - destruct Hp as (r' & -> & Hw' & Hq & Hl). rewrite (proj2 (Z.eqb_neq _ _)) by lia.
    assert (Hz' : zlen (p ++ drop (length p) pkt) = MAX_PACKET) by (unfold zlen in *; rewrite length_app, length_drop; lia).
    rewrite get_range_eq by lia. rewrite drop_0, Z.sub_0_r. unfold zlen at 1. rewrite Nat2Z.id, take_app_length.
    apply (IH fuel (a <| tx_ring := r' |>)); cbn in Hf |- *; done || lia.
Qed.

Lemma ferry_delivers a b pkt :
  TxRing.wf TXQ MAX_PACKET (tx_ring a) -> zlen pkt = MAX_PACKET ->
  exists a' pkt', ferry a b pkt = Some (a', delivered b (TxRing.packets TXQ (tx_ring a)), pkt') /\
    TxRing.packets TXQ (tx_ring a') = [] /\ zlen pkt' = MAX_PACKET.
Proof using Cok.
  intros Hw Hz. apply ferry_loop_delivers; [|done..]. pose proof (TxRing.wf_len _ _ _ Hw).
  pose proof (TxRing.packets_zlen TXQ (tx_ring a) ltac:(lia)) as H0. unfold zlen in H0. lia.
Qed.

End Ferry.

(** The self-test of a 64-byte ring, transferring two windows each way. *)
Definition small : Z := @self_conformance demo 128 200.

Example small_converges : small = result.OK.
Proof. vm_compute. reflexivity. Qed.

End Self.
